(* ===== verification/_CoqProject ===== *)
-Q . S2P
Prelude.v
Maps.v
Crypto.v
Models.v
State.v
Ledger.v
Election.v
Merkle.v
StateCodec.v
ChainCore.v
Mempool.v
Chain.v
Messages.v
Engine.v
EngineSafety.v
EngineSync.v
EngineWitness.v
Errors.v
Framing.v
Identity.v
NodeHello.v
Runtime.v
Storage.v
HostNetwork.v
PeerRegistry.v
ErpNetwork.v
Duplex.v
Text.v
Ipv6.v
Multistream.v
TransportIdentity.v
Protobuf.v
Identify.v
Noise.v
NoiseLink.v
NoiseHandshake.v
NetConfig.v
HostCodecs.v
Yamux.v
Socket.v
Session.v
SessionWitness.v
Wire.v
Convergence.v
NodeCore.v
HostNode.v
HostDeadlock.v
Introductions.v
HostStart.v
Supervisor.v
Startup.v
ErpNode.v
Client.v
CoreTests.v
EngineTests.v
InteropTests.v
