(* ===== verification/Prelude.v ===== *)
(** * rust-proof: a verification library

    rust-proof is a proof-of-stake blockchain node.  One engine (the crates rp-core and
    rp-node) is shared by two runtimes: rp-runtime, a host process on tokio, libp2p and
    sled, and erp-runtime, an ESP32 image with its own libp2p stack and a flash storage.
    A runtime feeds events (a peer connects, a frame arrives, a timer fires, a snapshot
    was loaded) to [NodeEngine::step] and carries out the actions it returns (send or
    broadcast a frame, request blocks, persist a block or a snapshot, set the timer).
    This library models the engine and the parts of the runtimes around it, and proves
    what makes them correct.

    ** Parts and files

    The engine, bottom up:
    - [Prelude], [Maps]: outcomes (a value, a panic), [Result], u64 arithmetic in both
      build profiles, bounded loops, sorted maps ([BTreeMap]); the hint database [rust].
    - [Crypto]: rp-core/src/traits.rs and crypto.rs.  SHA-256 and P-256 are the class
      [Crypto] with the laws [CryptoLaws]; [ToyCrypto] is an instance that satisfies
      them.
    - [Models]: rp-core/src/models: transactions, blocks, slashing proofs, their bytes
      and checks.
    - [State], [Ledger], [Election], [Merkle], [StateCodec]: rp-core/src/state.rs:
      validity and application of transactions, conservation of coins, leader election,
      the state root, and the snapshot format.
    - [ChainCore]: rp-core/src/blockchain.rs: block validation and fork choice.
    - [Mempool], [Chain]: rp-node/src/mempool.rs and blockchain.rs: the pool and the
      block tree.
    - [Messages], [Engine]: rp-node/src/network/message.rs, contract.rs, node_engine.rs:
      messages, inputs, actions, and [step] with all its handlers.  [EngineSafety] and
      [EngineSync] hold the theorems about runs of the engine, [EngineWitness] concrete
      runs.

    The runtimes:
    - [Errors]: the error types of both.
    - [Framing]: the crate rp-codec and its wrappers: frames on a byte stream.
    - [Identity]: erp-runtime/src/identity and block_signing.rs, and the host identity.
    - [NodeHello]: the hello that binds a node id to an authenticated transport, as the
      embedded and the host runtime build and verify it.
    - [Runtime]: the node manager, its bounded channels, the wake managers, and the
      interleavings of the tasks (runtime/manager.rs, wake/manager.rs, main.rs).
    - [Storage]: the sled and flash storages behind the interface [StorageLaws], and the
      storage tasks.  A device keeps what is synced and the writes since, in order; a flush
      syncs them, an operation can fail, and a device that is stopped may lose writes that
      are not synced, from any of them on ([Stops]).
    - [HostNetwork]: rp-runtime/src/network/manager.rs: peer tables, and every handler
      of swarm events and commands.
    - [PeerRegistry], [ErpNetwork]: erp-runtime/src/network/peer_registry.rs, manager.rs
      and bootstrap.rs: sessions, their workers, routing and dialling.
    - [NetConfig], [Text], [Ipv6]: config.rs of both runtimes: the bootstrap peers and the
      environment, over Rust's string functions; the text of IPv4 and IPv6 addresses.
    - [HostCodecs]: the codecs of the host's request-response protocols.
    - [Supervisor], [Startup]: erp-runtime/src/runtime/host.rs and rp-runtime/src/main.rs:
      how the tasks are joined and what the process returns; the start-up of the embedded
      node, its wifi and its listening socket.
    - [NodeCore]: what the two processes have in common when their parts run together: the
      engine between its event queue and its pending actions, and the storage manager that
      carries out its commands, with the invariant that every step of either keeps.
    - [HostNode]: the host process as a whole: the steps of [Runtime] with the network
      manager of [HostNetwork], a storage of [Storage] and the wake loop in the place of
      arbitrary managers, and an executable form of its schedules.  [HostDeadlock] leads it
      into a state where two of its tasks wait for each other.
    - [HostStart]: rp-runtime/src/main.rs, storage/manager.rs and network/manager.rs up to
      the start of the tasks: data directory, identities, database and swarm.
    - [Client]: rp-client/src/main.rs: the commands of the client and what they print.

    The connection of an embedded session, bottom up:
    - [Socket]: network/socket/esp_idf.rs: polls with retry timers, bind, accept, connect.
    - [Duplex]: the byte stream the layers above read and write; a read or a write can fail
      or be cut anywhere.
    - [Multistream]: network/transport/multistream.rs: protocol negotiation.
    - [Noise], [NoiseLink], [NoiseHandshake]: network/transport/noise.rs: the encrypted
      stream as a state machine of polls, two of them over a connection that cuts and delays,
      and the handshake with its protobuf payload ([Protobuf]).
    - [Yamux]: network/transport/yamux.rs: the muxer and its queue of inbound substreams.
    - [TransportIdentity], [Identify]: network/transport_identity.rs and
      network/protocol/identify.rs: the transport key and the identify message.
    - [Session], [SessionWitness]: network/session.rs: the worker from the first byte of a
      connection to its last event; a complete dialled session is computed as an example.
    - [ErpNode]: the embedded process as a whole: the node manager, the network manager of
      [ErpNetwork], the threads of its sessions as [Session] defines them, the flash storage
      and the wake manager, in any interleaving, and an executable form of its schedules.

    Nodes together:
    - [Convergence]: two engines with the network manager of either runtime between them
      (the interface [Clamps]) and frames as the only messages; [Wire] is a complete wire
      format that satisfies the laws, for the witness.
    - [Introductions]: an embedded session worker and the network manager of a host at the
      two ends of the node hello protocol, whichever dials.

    Tests:
    - [CoreTests], [EngineTests], [InteropTests]: the unit tests of the repository as
      computations on these definitions.  They are evaluated with toy primitives and pass,
      which ties the model to what the authors check of the code; one test counts the
      actions of an accepted block as two where the engine emits three
      ([block_signing_test_counts]).

    ** How the code is represented

    A struct is a record, an enum an inductive type, a method a function that takes and
    returns the state.  A u64 is a [Z] kept in range; additions that can overflow return
    [Panic] or wrap, as the class [Target] says.  [Result] is [result]; code that can
    panic returns an [outcome].  A [HashMap] whose order matters goes through a class
    ([HashOrder]) that only promises a permutation.  Third-party code is a class whose
    laws state its documented behaviour: [Crypto], [Postcard], [UnsignedVarint], [Psa],
    [Libp2p], [Snow], [MultiaddrLib].  What a device or a crate answers over time (socket
    calls, reads, yamux events, esp-idf calls, a database) is a schedule in the state, and
    theorems quantify over it.  Code that threads state and errors is written in the monads
    [M] and [OM] (the latter can also panic).
    Concurrency is explicit: tasks and channels are a step relation in [Runtime], the
    manager and its workers one in [ErpNetwork], the host process one in [HostNode], the
    embedded process one in [ErpNode], and theorems quantify over all interleavings.

    ** What the theorems show

    - Ledger: coins are neither created nor lost except by slashing; a block in range is
      accepted exactly when it follows the rules of [may_follow]; no transaction is applied
      twice on a branch; validation of a block in range never overflows while the supply fits
      a u64; validators are selected in proportion to the stakes under their keys, and with
      one encoding per key never once slashed.
    - Chain and engine: the invariant of the block tree holds in every run.  As long as the
      blocks that messages carry do not collide and are in range (no slot, height or sequence
      number near the end of a u64: [block_sane]) and the supply fits a u64, no input makes
      the engine panic or loop; out of range it can ([late_unstake_overflows]).  The head
      does not depend on the order of arrival, synchronisation serves and follows the best
      branch, two nodes that synchronise end with the same head and state ([nodes_converge]),
      and the head is always handed to the storage.
    - Encodings: snapshots, frames and signed bytes round-trip or are injective, and
      truncated or oversized input is refused.
    - Runtimes: the tasks of a runtime refine the engine; on either storage the latest
      pointer names a stored snapshot, whatever operations failed before; peers are
      authenticated before the engine hears of them; answers and announcements reach
      the peers they are for; the registry follows the session workers; the two runtimes
      read each other's frames and, as long as the host opens substreams of the set-up
      protocols only, introduce themselves to each other ([embedded_dials_host],
      [host_dials_embedded]); a node that starts keeps its identities ([embedded_startup],
      [host_restart_keeps_identity]).
    - Either node as a whole: what the theorems about the engine assume of its inputs is
      proved of the managers and session threads that make them, so that the engine never
      panics on what they send and hears only of peers that proved who they are
      ([host_node_safe], [embedded_node_safe]); and wherever the process is stopped, between
      two storage commands or inside one, a restart finds the last snapshot written or the one
      being written ([host_node_durable], [embedded_node_durable], [survives]).  They assume
      what the theorems about the engine do of blocks, that snapshots fit in memory, and that
      a stored snapshot is the first event of a restart.  The session threads keep the contract
      the embedded network manager relies on ([embedded_sessions_refine]).
    - Sessions: a worker reports a peer only after it proved its transport key for this very
      encrypted session and its node id for that transport key; negotiation and handshake
      of two honest ends agree; the noise stream is a pipe under any cutting of its polls;
      substreams are accepted in order; sync requests are answered and no command is lost
      meanwhile; sessions end when their waits do; connection attempts and polls end.
    - Limits of the code, as theorems too: a peer with two transport keys can make the host
      node deadlock ([host_node_can_deadlock]), a substream of gossipsub ends the handshake of
      an embedded node ([embedded_dials_host], [host_dials_embedded]), a peer can stop either
      network manager ([unregistered_peer_stops_manager], [ended_session_stops_manager]), the
      embedded node outlives its network manager ([runtime_exit_reason]), two embedded nodes
      wait for each other ([embedded_nodes_wait]), and an answer can be dropped while its
      session waits for it ([early_answer_dropped]).

    ** Bounds and fuel

    Loops of the source that are not structural take fuel.  In the engine: walking to the
    earliest block and collecting blocks ([Chain]; the number of blocks plus one, enough
    because heights decrease along parents) and importing parked blocks ([Engine]; the number
    of parents with parked blocks plus one, because a parent is taken out of the table when
    it is visited).  [for_n] bounds a loop over a length read from bytes by the number of
    bytes left.  In the connection: protobuf fields by the bytes of the message ([Protobuf]),
    filling and flushing of a noise frame by the polls that are left and by the bytes of the
    frame ([Noise]), driving of the muxer by its arrivals ([Yamux]), retries of a poll by the
    answers that are left ([Socket]), and the loops of a session by the commands and
    substreams that are left ([Session]).  [OutOfFuel] is a third outcome, and the theorems
    that say an operation returns exclude it.  A connection attempt polls at most a hundred
    and one times because its clock reaches the time limit ([connect_ends]).

    ** Not modelled

    The inside of the libp2p swarm ([HostStart] models what it is configured with), logging
    and the texts of errors, main.rs of the embedded image (it initialises the logger and
    calls [run]) and its utils.rs (never called), the settings of the yamux crate, the release
    of a PSA key when its handle is dropped, and the trait Transport of contract.rs, which
    nothing implements.  Types that both runtimes declare in the same words
    (commands, events, the hello) are one set of definitions here.  The crates yamux, snow,
    libp2p, multiaddr, sled, clap and esp-idf are parameters or schedules.

    Waiting for a full channel is modelled in [Runtime], [HostNode] and [ErpNode] (the
    channels from and to the node manager); elsewhere a send succeeds or fails.  In [ErpNode]
    the commands a session thread finds in its own channel are any sequence, not only what
    the network manager put there, and its sends are placed anywhere in the schedule after
    its start: the theorems hold for every such behaviour, in particular for the real ones.
    The wake-ups of tasks are modelled where the code sets them itself ([Socket]).

    In [Session], a read, an accept or a receive ends with what was waited for, the end or a
    failure.  The source has no timeouts, so a worker whose peer goes silent waits; such a run
    is covered as one that is cut short: what the worker has done by then it also does when
    the connection breaks there, and [session_worker_reports] holds at every point of a run.

    A storage that fails in the middle of a run ends its manager (on the host, the process);
    that round is the one that [survives] lets stop anywhere, and [storage_pointer_consistent]
    is about any sequence of rounds with failures among them. *)

From Stdlib Require Export ZArith Lia Strings.Byte.
From stdpp Require Export base tactics numbers list strings gmap sorting.

#[global] Open Scope Z_scope.
#[global] Set Default Goal Selector "!".

(** ** Outcomes of a Rust computation

    [Panic] is a Rust panic ([expect], an overflow caught by the debug profile,
    a capacity overflow).  [OutOfFuel] is not a behaviour of the program: it is
    returned by a bounded unfolding of a loop whose bound was too small, and the
    termination theorems show that the bounds chosen in this library are enough. *)

Inductive outcome (A : Type) : Type :=
| Ret (a : A)
| Panic
| OutOfFuel.
Arguments Ret {A} _.
Arguments Panic {A}.
Arguments OutOfFuel {A}.

#[global] Instance outcome_ret : MRet outcome := λ A a, Ret a.
#[global] Instance outcome_bind : MBind outcome := λ A B k m,
  match m with
  | Ret a => k a
  | Panic => Panic
  | OutOfFuel => OutOfFuel
  end.
#[global] Instance outcome_fmap : FMap outcome := λ A B f m,
  match m with
  | Ret a => Ret (f a)
  | Panic => Panic
  | OutOfFuel => OutOfFuel
  end.

#[global] Instance Ret_inj {A} : Inj (=) (=) (@Ret A).
Proof. by intros a b [= ->]. Qed.

(** Rust's [Result]. *)
Inductive result (A E : Type) : Type :=
| Ok (a : A)
| Err (e : E).
Arguments Ok {A E} _.
Arguments Err {A E} _.

Definition map_err {A E F} (f : E → F) (r : result A E) : result A F :=
  match r with Ok a => Ok a | Err e => Err (f e) end.

Definition ok {A E} (r : result A E) : option A :=
  match r with Ok a => Some a | Err _ => None end.

Definition is_ok {A E} (r : result A E) : bool :=
  match r with Ok _ => true | Err _ => false end.

(** The [?] operator inside a function that returns [Result]. *)
Definition try_ {A B E} (r : result A E) (k : A → result B E) : result B E :=
  match r with Ok a => k a | Err e => Err e end.

(** The [?] operator inside a function that can also panic. *)
Definition try_outcome {A B E} (m : outcome (result A E))
    (k : A → outcome (result B E)) : outcome (result B E) :=
  r ← m; match r with Ok a => k a | Err e => Ret (Err e) end.

Declare Scope rust_scope.
Delimit Scope rust_scope with rust.
Notation "'let?' x := m 'in' k" := (try_outcome m (λ x, k))
  (at level 10, x name, m at level 100, k at level 200) : rust_scope.
Notation "'let!' x := r 'in' k" := (try_ r (λ x, k))
  (at level 10, x name, r at level 100, k at level 200) : rust_scope.
#[global] Open Scope rust_scope.

Lemma bind_Ret {A B} (m : outcome A) (k : A → outcome B) r :
  (m ≫= k) = Ret r ↔ ∃ a, m = Ret a ∧ k a = Ret r.
Proof. destruct m; naive_solver. Qed.

Lemma fmap_Ret {A B} (m : outcome A) (f : A → B) r :
  (f <$> m) = Ret r ↔ ∃ a, m = Ret a ∧ r = f a.
Proof. destruct m; naive_solver. Qed.

Lemma try_outcome_Ok {A B E} (m : outcome (result A E)) (k : A → outcome (result B E)) b :
  try_outcome m k = Ret (Ok b) ↔ ∃ a, m = Ret (Ok a) ∧ k a = Ret (Ok b).
Proof. unfold try_outcome. destruct m as [[]| |]; naive_solver. Qed.

Lemma try_Ok {A B E} (r : result A E) (k : A → result B E) b :
  try_ r k = Ok b ↔ ∃ a, r = Ok a ∧ k a = Ok b.
Proof. destruct r; naive_solver. Qed.

(** Decomposes hypotheses about binds that returned a value. *)
Ltac outcome_step :=
  match goal with
  | H : (_ ≫= _) = Ret _ |- _ => apply bind_Ret in H as (? & ? & H)
  | H : (_ <$> _) = Ret _ |- _ => apply fmap_Ret in H as (? & ? & ?)
  | H : try_outcome _ _ = Ret (Ok _) |- _ => apply try_outcome_Ok in H as (? & ? & H)
  | H : try_ _ _ = Ok _ |- _ => apply try_Ok in H as (? & ? & H)
  | H : match ?x with pair _ _ => _ end = _ |- _ => is_var x; destruct x
  end.
Ltac outcome_inv := repeat (outcome_step; simplify_eq/=).

(** ** Asynchronous operations *)

(** What polling an asynchronous operation yields. *)
Inductive poll (A : Type) : Type :=
| Ready (a : A)
| Pending.
Arguments Ready {A} _.
Arguments Pending {A}.

Definition poll_map {A B} (f : A → B) (p : poll A) : poll B :=
  match p with Ready a => Ready (f a) | Pending => Pending end.

(** ** Stateful computations that may fail *)

Definition M (S E A : Type) : Type := S → S * result A E.

Definition M_ret {S E A} (a : A) : M S E A := λ s, (s, Ok a).
Definition M_fail {S E A} (e : E) : M S E A := λ s, (s, Err e).
Definition M_bind {S E A B} (m : M S E A) (k : A → M S E B) : M S E B := λ s,
  match m s with
  | (s, Ok a) => k a s
  | (s, Err e) => (s, Err e)
  end.
(** [.map_err(f)] *)
Definition M_map_err {S E F A} (f : E → F) (m : M S E A) : M S F A := λ s,
  let '(s, r) := m s in (s, map_err f r).
(** matching on the [Result] itself *)
Definition M_catch {S E A} (m : M S E A) : M S E (result A E) := λ s,
  let '(s, r) := m s in (s, Ok r).

Notation "'let*' x := m 'in' k" := (M_bind m (λ x, k))
  (at level 10, x name, m at level 100, k at level 200) : rust_scope.

Lemma M_bind_Ok {S E A B} (m : M S E A) (k : A → M S E B) s s' b :
  M_bind m k s = (s', Ok b) ↔ ∃ s1 a, m s = (s1, Ok a) ∧ k a s1 = (s', Ok b).
Proof. unfold M_bind. destruct (m s) as [s1 [a|e]]; naive_solver. Qed.


Lemma M_bind_cases {S E A B} (m : M S E A) (k : A → M S E B) s s' r :
  M_bind m k s = (s', r) →
  (∃ e, m s = (s', Err e) ∧ r = Err e) ∨ (∃ s1 a, m s = (s1, Ok a) ∧ k a s1 = (s', r)).
Proof. unfold M_bind. destruct (m s) as [s1 [a|e]]; naive_solver. Qed.

(** Computations that may also panic or run out of fuel. *)
Definition OM (S E A : Type) : Type := S → outcome (S * result A E).

Definition OM_ret {S E A} (a : A) : OM S E A := λ s, Ret (s, Ok a).
Definition OM_fail {S E A} (e : E) : OM S E A := λ s, Ret (s, Err e).
Definition OM_bind {S E A B} (m : OM S E A) (k : A → OM S E B) : OM S E B := λ s,
  match m s with
  | Ret (s, Ok a) => k a s
  | Ret (s, Err e) => Ret (s, Err e)
  | Panic => Panic
  | OutOfFuel => OutOfFuel
  end.
(** matching on the [Result] itself *)
Definition OM_catch {S E A} (m : OM S E A) : OM S E (result A E) := λ s,
  '(s, r) ← m s; Ret (s, Ok r).
Definition OM_of {S E A} (m : M S E A) : OM S E A := λ s, Ret (m s).
Definition OM_lift {S E A} (o : outcome (result A E)) : OM S E A := λ s, r ← o; Ret (s, r).

Notation "'let^' x := m 'in' k" := (OM_bind m (λ x, k))
  (at level 10, x name, m at level 100, k at level 200) : rust_scope.

Lemma OM_bind_Ok {S E A B} (m : OM S E A) (k : A → OM S E B) s s' b :
  OM_bind m k s = Ret (s', Ok b) ↔ ∃ s1 a, m s = Ret (s1, Ok a) ∧ k a s1 = Ret (s', Ok b).
Proof. unfold OM_bind. destruct (m s) as [[s1 [a|e]]| |]; naive_solver. Qed.

Lemma OM_bind_cases {S E A B} (m : OM S E A) (k : A → OM S E B) s s' r :
  OM_bind m k s = Ret (s', r) →
  (∃ e, m s = Ret (s', Err e) ∧ r = Err e) ∨ (∃ s1 a, m s = Ret (s1, Ok a) ∧ k a s1 = Ret (s', r)).
Proof. unfold OM_bind. destruct (m s) as [[s1 [a|e]]| |]; naive_solver. Qed.

Lemma OM_lift_Ok {S E A} (o : outcome (result A E)) (s s' : S) a :
  OM_lift o s = Ret (s', Ok a) → o = Ret (Ok a) ∧ s' = s.
Proof. unfold OM_lift. destruct o as [[x|e]| |]; by intros [= <- <-]. Qed.

(** A computation that returns from a state, and what it does to it. *)
Definition runs_at {S E A} (R : S → S → Prop) (m : OM S E A) (s : S) : Prop :=
  ∃ s' r, m s = Ret (s', r) ∧ R s s'.

Section runs.
Context {S E : Type} (R : S → S → Prop) `{!PreOrder R}.

Lemma runs_bind {A B} (m : OM S E A) (k : A → OM S E B) s :
  runs_at R m s → (∀ s1 a, m s = Ret (s1, Ok a) → R s s1 → runs_at R (k a) s1) → runs_at R (OM_bind m k) s.
Proof.
  intros (s1 & [a|e] & Hm & HR) Hk; unfold runs_at, OM_bind; rewrite Hm; [|by eauto].
  destruct (Hk s1 a Hm HR) as (s2 & r & -> & HR'). do 2 eexists. split; [done|]. by trans s1.
Qed.
Lemma runs_ret {A} (a : A) s : runs_at R (OM_ret (E:=E) a) s.
Proof. by do 2 eexists. Qed.
Lemma runs_fail {A} (e : E) s : runs_at R (OM_fail (A:=A) e) s.
Proof. by do 2 eexists. Qed.
Lemma runs_lift {A} (o : outcome (result A E)) s : (∃ r, o = Ret r) → runs_at R (OM_lift o) s.
Proof. intros [r ->]. by do 2 eexists. Qed.
Lemma runs_of {A} (m : M S E A) s : R s (m s).1 → runs_at R (OM_of m) s.
Proof. intros HR. unfold runs_at, OM_of. destruct (m s) as [s' r]. by do 2 eexists. Qed.
Lemma runs_catch {A} (m : OM S E A) s : runs_at R m s → runs_at R (OM_catch m) s.
Proof. intros (s' & r & Hm & HR). unfold runs_at, OM_catch. rewrite Hm. by do 2 eexists. Qed.
End runs.

(** Only that it returns. *)
Definition anywhere {S : Type} (s s' : S) : Prop := True.
#[global] Instance anywhere_preorder {S} : PreOrder (@anywhere S).
Proof. by split. Qed.
Abbreviation returns m := (∀ s, runs_at anywhere m s).

(** ** Machine integers

    A [u64] is a [Z] between 0 and [u64_max].  The operators [+], [-] and [+=]
    panic on overflow when the crate is built with overflow checks (the dev
    profile) and wrap around otherwise (the release profile); the profile and the
    width of [usize] are parameters of every definition that depends on them. *)

Class Target : Type := {
  overflow_checks : bool;
  pointer_width : Z;
}.

(** The two profiles the repository builds: tests on a 64-bit host, and the release
    image of the 32-bit embedded target. *)
Definition dev_host : Target := {| overflow_checks := true; pointer_width := 64 |}.
Definition release_embedded : Target := {| overflow_checks := false; pointer_width := 32 |}.

Definition u64_modulus : Z := 2 ^ 64.
Definition u64_max : Z := 2 ^ 64 - 1.
Definition is_u64 (z : Z) : Prop := 0 ≤ z < u64_modulus.
#[global] Instance is_u64_dec z : Decision (is_u64 z).
Proof. unfold is_u64. apply _. Defined.

Definition u64_wrap (z : Z) : Z := z mod u64_modulus.

Definition u64_add `{Target} (a b : Z) : outcome Z :=
  if bool_decide (a + b < u64_modulus) then Ret (a + b)
  else if overflow_checks then Panic else Ret (u64_wrap (a + b)).

Definition u64_sub `{Target} (a b : Z) : outcome Z :=
  if bool_decide (b ≤ a) then Ret (a - b)
  else if overflow_checks then Panic else Ret (u64_wrap (a - b)).

Definition u64_saturating_add (a b : Z) : Z := Z.min (a + b) u64_max.
Definition u64_saturating_sub (a b : Z) : Z := Z.max (a - b) 0.

(** The cast [n as u64] of a [usize]. *)
Definition usize_as_u64 (n : nat) : Z := u64_wrap (Z.of_nat n).

(** The cast [z as usize] of a [u64]. *)
Definition u64_as_usize `{Target} (z : Z) : Z := z mod 2 ^ pointer_width.

Definition usize_max `{Target} : Z := 2 ^ pointer_width - 1.
Definition isize_max `{Target} : Z := 2 ^ (pointer_width - 1) - 1.

Lemma u64_modulus_pos : 0 < u64_modulus.
Proof. done. Qed.

Lemma is_u64_wrap z : is_u64 (u64_wrap z).
Proof. apply Z.mod_pos_bound, u64_modulus_pos. Qed.

Lemma u64_wrap_small z : is_u64 z → u64_wrap z = z.
Proof. apply Z.mod_small. Qed.

Section arith.
Context `{Target}.

Lemma u64_add_small a b : a + b < u64_modulus → u64_add a b = Ret (a + b).
Proof. intros. unfold u64_add. by rewrite bool_decide_true. Qed.

Lemma u64_sub_small a b : b ≤ a → u64_sub a b = Ret (a - b).
Proof. intros. unfold u64_sub. by rewrite bool_decide_true. Qed.

Lemma u64_add_wrap a b r :
  is_u64 a → is_u64 b → u64_add a b = Ret r → r = u64_wrap (a + b).
Proof.
  unfold u64_add, is_u64. intros. case_bool_decide; simplify_eq.
  - rewrite u64_wrap_small; [done | unfold is_u64; lia].
  - destruct overflow_checks; by simplify_eq.
Qed.

Lemma u64_sub_wrap a b r :
  is_u64 a → is_u64 b → u64_sub a b = Ret r → r = u64_wrap (a - b).
Proof.
  unfold u64_sub, is_u64. intros. case_bool_decide; simplify_eq.
  - rewrite u64_wrap_small; [done | unfold is_u64; lia].
  - destruct overflow_checks; by simplify_eq.
Qed.

Lemma u64_add_is_u64 a b r : is_u64 a → is_u64 b → u64_add a b = Ret r → is_u64 r.
Proof. intros ?? ->%u64_add_wrap; auto using is_u64_wrap. Qed.

Lemma u64_sub_is_u64 a b r : is_u64 a → is_u64 b → u64_sub a b = Ret r → is_u64 r.
Proof. intros ?? ->%u64_sub_wrap; auto using is_u64_wrap. Qed.

(** Adding one never yields the same [u64], whatever the profile. *)
Lemma u64_succ_ne a r : is_u64 a → u64_add a 1 = Ret r → r ≠ a.
Proof.
  intros Ha ->%u64_add_wrap; [|done|by vm_compute].
  unfold is_u64, u64_wrap in *. intros Heq.
  destruct (decide (a + 1 = u64_modulus)) as [E|].
  - rewrite E, Z_mod_same_full in Heq. unfold u64_modulus in *. lia.
  - rewrite Z.mod_small in Heq; lia.
Qed.
End arith.

Lemma is_u64_saturating_add a b : is_u64 a → is_u64 b → is_u64 (u64_saturating_add a b).
Proof. unfold is_u64, u64_saturating_add, u64_max, u64_modulus. lia. Qed.

Lemma is_u64_saturating_sub a b : is_u64 a → is_u64 b → is_u64 (u64_saturating_sub a b).
Proof. unfold is_u64, u64_saturating_sub, u64_modulus. lia. Qed.

(** ** Counted loops

    [for _ in 0..n { body }] with a body that may fail with [?] or panic.  The count
    is a [u64], far larger than any number of rounds that is ever run, so the loop
    is unfolded [fuel] times; [for_n_total] gives the fuel that is enough when every
    round makes progress towards a bound. *)

Fixpoint for_n {A E} (fuel : nat) (n : Z) (body : A → outcome (result A E)) (a : A) :
    outcome (result A E) :=
  if bool_decide (n ≤ 0) then Ret (Ok a)
  else match fuel with
       | O => OutOfFuel
       | S fuel => let? a' := body a in for_n fuel (n - 1) body a'
       end.

(** [m2] does what [m1] does, unless [m1] fails or needs more fuel. *)
Definition agrees {A E} (m1 m2 : outcome (result A E)) : Prop :=
  match m1 with
  | Ret (Err _) | OutOfFuel => True
  | _ => m2 = m1
  end.

Lemma agrees_refl {A E} (m : outcome (result A E)) : agrees m m.
Proof. by destruct m as [[]| |]. Qed.

Lemma try_outcome_agrees {A B E} (m1 m2 : outcome (result A E)) (k1 k2 : A → outcome (result B E)) :
  agrees m1 m2 → (∀ a, m1 = Ret (Ok a) → agrees (k1 a) (k2 a)) →
  agrees (try_outcome m1 k1) (try_outcome m2 k2).
Proof. destruct m1 as [[]| |]; simpl; intros Hm Hk; [|done|by rewrite Hm|done]. rewrite Hm. by apply Hk. Qed.

Lemma for_n_agrees {A E} fuel1 fuel2 n (body1 body2 : A → outcome (result A E)) a :
  (fuel1 ≤ fuel2)%nat → (∀ a, agrees (body1 a) (body2 a)) →
  agrees (for_n fuel1 n body1 a) (for_n fuel2 n body2 a).
Proof.
  intros Hf Hb. revert fuel2 n a Hf. induction fuel1 as [|fuel1 IH]; intros fuel2 n a Hf; simpl.
  - case_bool_decide; [|done]. destruct fuel2; simpl; by rewrite bool_decide_true.
  - destruct fuel2 as [|fuel2]; [lia|]. simpl. case_bool_decide; [done|].
    apply try_outcome_agrees; [apply Hb|]. intros a' _. apply IH. lia.
Qed.

Lemma for_n_total {A E} (body : A → outcome (result A E)) (progress : A → nat) (bound : nat) fuel n a :
  (∀ a, body a ≠ OutOfFuel) →
  (∀ a a', body a = Ret (Ok a') → (progress a < progress a' ≤ bound)%nat) →
  (bound - progress a < fuel)%nat → for_n fuel n body a ≠ OutOfFuel.
Proof.
  intros Hfuel Hprog. revert n a. induction fuel as [|fuel IH]; intros n a Hf; [lia|].
  simpl. case_bool_decide; [done|]. unfold try_outcome.
  destruct (body a) as [[a'|]| |] eqn:Hs; simpl; try done; [|by apply Hfuel in Hs].
  apply IH. apply Hprog in Hs. lia.
Qed.

Lemma for_n_inv {A E} (body : A → outcome (result A E)) (P : A → Prop) fuel n a a' :
  (∀ a a', P a → body a = Ret (Ok a') → P a') →
  P a → for_n fuel n body a = Ret (Ok a') → P a'.
Proof.
  intros Hb. revert n a. induction fuel as [|fuel IH]; intros n a Ha; simpl;
    case_bool_decide; try (intros; by simplify_eq).
  intros (a'' & Hs & Hr)%try_outcome_Ok. eauto.
Qed.

(** A loop over an encoded list: [s l1] is the loop state after the items [l1]. *)
Lemma for_n_list {A B E} (body : A → outcome (result A E)) (s : list B → A) l fuel :
  (length l ≤ fuel)%nat →
  (∀ l1 x l2, l = l1 ++ x :: l2 → body (s l1) = Ret (Ok (s (l1 ++ [x])))) →
  for_n fuel (Z.of_nat (length l)) body (s []) = Ret (Ok (s l)).
Proof.
  intros Hf Hb.
  enough (∀ l2 l1 fuel, l = l1 ++ l2 → (length l2 ≤ fuel)%nat →
    for_n fuel (Z.of_nat (length l2)) body (s l1) = Ret (Ok (s l))) as Hgen by by apply Hgen.
  clear fuel Hf. induction l2 as [|x l2 IH]; intros l1 fuel Hl Hf; simpl in Hf.
  - rewrite app_nil_r in Hl. subst. by destruct fuel.
  - destruct fuel as [|fuel]; [lia|]. cbn [for_n]. rewrite bool_decide_false by (simpl; lia).
    rewrite (Hb l1 x l2 Hl). unfold try_outcome. cbn [mbind outcome_bind].
    replace (Z.of_nat (length (x :: l2)) - 1) with (Z.of_nat (length l2)) by (simpl; lia).
    apply IH; [by rewrite <-app_assoc|lia].
Qed.

#[global] Arguments for_n : simpl never.

(** ** Bytes *)

Abbreviation bytes := (list byte).

#[global] Instance byte_eq_dec : EqDecision byte := Byte.byte_eq_dec.
#[global] Instance byte_countable : Countable byte :=
  inj_countable Byte.to_N Byte.of_N Byte.of_to_N.

Definition byte_to_Z (b : byte) : Z := Z.of_N (Byte.to_N b).
Definition byte_of_Z (z : Z) : byte := default x00 (Byte.of_N (Z.to_N (z mod 256))).

Lemma byte_to_Z_bound b : 0 ≤ byte_to_Z b < 256.
Proof. unfold byte_to_Z. pose proof (Byte.to_N_bounded b). lia. Qed.

Lemma byte_to_of_Z z : byte_to_Z (byte_of_Z z) = z mod 256.
Proof.
  unfold byte_to_Z, byte_of_Z.
  pose proof (Z.mod_pos_bound z 256 ltac:(lia)).
  destruct (Byte.of_N (Z.to_N (z mod 256))) as [b|] eqn:E; simpl.
  - apply Byte.to_of_N in E. rewrite E. lia.
  - apply Byte.of_N_None_iff in E. lia.
Qed.

#[global] Instance byte_to_Z_inj : Inj (=) (=) byte_to_Z.
Proof.
  unfold byte_to_Z. intros a b E. apply N2Z.inj in E.
  assert (Some a = Some b) as [=]; [|done].
  by rewrite <-(Byte.of_to_N a), <-(Byte.of_to_N b), E.
Qed.

(** Big-endian encodings: [to_be_bytes] and [from_be_bytes]. *)
Fixpoint be_encode (n : nat) (z : Z) : bytes :=
  match n with
  | O => []
  | S n => byte_of_Z (Z.shiftr z (8 * Z.of_nat n)) :: be_encode n z
  end.

Definition be_decode (bs : bytes) : Z :=
  fold_left (λ acc b, acc * 256 + byte_to_Z b) bs 0.

Definition u64_to_be_bytes (z : Z) : bytes := be_encode 8 z.
Definition u64_from_be_bytes (bs : bytes) : Z := be_decode bs.

Lemma length_be_encode n z : length (be_encode n z) = n.
Proof. induction n; simpl; congruence. Qed.

Lemma length_u64_to_be_bytes z : length (u64_to_be_bytes z) = 8%nat.
Proof. apply length_be_encode. Qed.

Lemma be_decode_acc acc n z :
  fold_left (λ acc b, acc * 256 + byte_to_Z b) (be_encode n z) acc =
  acc * 2 ^ (8 * Z.of_nat n) + z mod 2 ^ (8 * Z.of_nat n).
Proof.
  revert acc. induction n as [|n IH]; intros acc.
  - simpl. rewrite Z.mod_1_r. lia.
  - cbn [be_encode fold_left]. rewrite IH, byte_to_of_Z.
    replace (8 * Z.of_nat (S n)) with (8 * Z.of_nat n + 8) by lia.
    rewrite Z.pow_add_r by lia. change (2 ^ 8) with 256.
    rewrite (Z.rem_mul_r z) by lia. rewrite Z.shiftr_div_pow2 by lia. ring.
Qed.

Lemma be_decode_encode n z : be_decode (be_encode n z) = z mod 2 ^ (8 * Z.of_nat n).
Proof. unfold be_decode. by rewrite be_decode_acc. Qed.

Lemma u64_be_roundtrip z : is_u64 z → u64_from_be_bytes (u64_to_be_bytes z) = z.
Proof. intros Hz. unfold u64_from_be_bytes, u64_to_be_bytes. rewrite be_decode_encode. by apply Z.mod_small. Qed.

Lemma be_decode_app_bound bs acc :
  0 ≤ acc →
  0 ≤ fold_left (λ acc b, acc * 256 + byte_to_Z b) bs acc
    < (acc + 1) * 256 ^ Z.of_nat (length bs).
Proof.
  revert acc. induction bs as [|b bs IH]; intros acc Hacc; simpl; [lia|].
  pose proof (byte_to_Z_bound b).
  specialize (IH (acc * 256 + byte_to_Z b) ltac:(lia)).
  replace (Z.of_nat (S (length bs))) with (Z.of_nat (length bs) + 1) by lia.
  rewrite Z.pow_add_r by lia.
  assert (0 < 256 ^ Z.of_nat (length bs)) by (apply Z.pow_pos_nonneg; lia). nia.
Qed.

Lemma is_u64_from_be_bytes bs : length bs = 8%nat → is_u64 (u64_from_be_bytes bs).
Proof.
  intros Hl. pose proof (be_decode_app_bound bs 0 ltac:(lia)) as Hb.
  rewrite Hl in Hb. exact Hb.
Qed.

Lemma u64_to_be_bytes_inj_app x y r s :
  is_u64 x → is_u64 y → u64_to_be_bytes x ++ r = u64_to_be_bytes y ++ s → x = y ∧ r = s.
Proof.
  intros Hx Hy E. apply app_inj_1 in E as [E ->]; [|by rewrite !length_u64_to_be_bytes].
  split; [|done]. by rewrite <-(u64_be_roundtrip x), <-(u64_be_roundtrip y), E.
Qed.

(** The encodings are used through the lemmas above. *)
#[global] Opaque u64_to_be_bytes u64_from_be_bytes.

(** ** Automation shared by the components *)

Create HintDb rust discriminated.
#[export] Hint Resolve is_u64_wrap is_u64_from_be_bytes is_u64_saturating_add
  is_u64_saturating_sub length_u64_to_be_bytes length_be_encode : rust.
#[export] Hint Resolve u64_add_is_u64 u64_sub_is_u64 : rust.

Ltac u64_lia := unfold is_u64, u64_max, u64_modulus in *; lia.
