(* ===== verification/Maps.v ===== *)
(** * Ordered maps and sums over maps

    [BTreeMap<[u8; N], V>] is a [gmap] together with its iteration order
    [btree_iter]: the entries in increasing lexicographic order of their keys.
    The file also holds the sums over maps that the supply theorems use. *)

From S2P Require Import Prelude.

(** ** The lexicographic order of byte arrays ([Ord] for [[u8; N]]) *)

Fixpoint bytes_compare (a b : bytes) : comparison :=
  match a, b with
  | [], [] => Eq
  | [], _ :: _ => Lt
  | _ :: _, [] => Gt
  | x :: a, y :: b =>
      match byte_to_Z x ?= byte_to_Z y with
      | Eq => bytes_compare a b
      | c => c
      end
  end.

Definition bytes_lt (a b : bytes) : Prop := bytes_compare a b = Lt.
Definition bytes_le (a b : bytes) : Prop := bytes_compare a b ≠ Gt.
Definition bytes_ltb (a b : bytes) : bool :=
  match bytes_compare a b with Lt => true | _ => false end.

#[global] Instance bytes_lt_dec : RelDecision bytes_lt.
Proof. intros a b. unfold bytes_lt. destruct (bytes_compare a b); [right|left|right]; congruence. Defined.
#[global] Instance bytes_le_dec : RelDecision bytes_le.
Proof. intros a b. unfold bytes_le. destruct (bytes_compare a b); [left|left|right]; congruence. Defined.

Lemma bytes_ltb_lt a b : bytes_ltb a b = true ↔ bytes_lt a b.
Proof. unfold bytes_ltb, bytes_lt. destruct (bytes_compare a b); naive_solver. Qed.

Lemma bytes_compare_refl a : bytes_compare a a = Eq.
Proof. induction a; simpl; [done|]. by rewrite Z.compare_refl. Qed.

Lemma bytes_compare_eq a b : bytes_compare a b = Eq ↔ a = b.
Proof.
  split; [|intros ->; apply bytes_compare_refl].
  revert b. induction a as [|x a IH]; intros [|y b]; simpl; try done.
  destruct (byte_to_Z x ?= byte_to_Z y) eqn:E; try done.
  apply Z.compare_eq, (inj byte_to_Z) in E as ->. intros ->%IH. done.
Qed.

Lemma bytes_compare_antisym a b : bytes_compare b a = CompOpp (bytes_compare a b).
Proof.
  revert b. induction a as [|x a IH]; intros [|y b]; simpl; try done.
  rewrite (Z.compare_antisym (byte_to_Z x)).
  destruct (byte_to_Z x ?= byte_to_Z y); simpl; auto.
Qed.

#[global] Instance bytes_lt_trans : Transitive bytes_lt.
Proof.
  unfold bytes_lt. intros a b c. revert b c.
  induction a as [|x a IH]; intros [|y b] [|z c]; simpl; try done.
  destruct (Z.compare_spec (byte_to_Z x) (byte_to_Z y)) as [Hxy|Hxy|Hxy]; [|intros _|done].
  - rewrite Hxy. destruct (byte_to_Z y ?= byte_to_Z z); eauto.
  - destruct (Z.compare_spec (byte_to_Z y) (byte_to_Z z)) as [Hyz|Hyz|Hyz]; [intros _..|done].
    + rewrite <-Hyz. by rewrite (proj2 (Z.compare_lt_iff _ _) Hxy).
    + by rewrite (proj2 (Z.compare_lt_iff (byte_to_Z x) (byte_to_Z z)) ltac:(lia)).
Qed.

#[global] Instance bytes_lt_irrefl : Irreflexive bytes_lt.
Proof. intros a. unfold complement, bytes_lt. by rewrite bytes_compare_refl. Qed.

Lemma bytes_lt_trichotomy a b : bytes_lt a b ∨ a = b ∨ bytes_lt b a.
Proof.
  unfold bytes_lt. rewrite (bytes_compare_antisym a b).
  destruct (bytes_compare a b) eqn:E; [apply bytes_compare_eq in E|..]; auto.
Qed.

Lemma bytes_le_lteq a b : bytes_le a b ↔ bytes_lt a b ∨ a = b.
Proof.
  unfold bytes_le, bytes_lt. rewrite <-(bytes_compare_eq a b).
  destruct (bytes_compare a b); naive_solver.
Qed.

#[global] Instance bytes_le_preorder : PreOrder bytes_le.
Proof.
  split.
  - intros a. apply bytes_le_lteq. auto.
  - intros a b c. rewrite !bytes_le_lteq. intros [H1| ->] [H2| ->]; auto.
    left. by etrans.
Qed.
#[global] Instance bytes_le_total : Total bytes_le.
Proof. intros a b. rewrite !bytes_le_lteq. destruct (bytes_lt_trichotomy a b); naive_solver. Qed.
#[global] Instance bytes_le_antisym : AntiSymm (=) bytes_le.
Proof.
  intros a b. rewrite !bytes_le_lteq. intros [H1|] [H2|]; try done.
  exfalso. apply (irreflexivity bytes_lt a). by etrans.
Qed.

(** ** Iterating a [BTreeMap] *)

Section btree.
Context {V : Type}.
Implicit Types m : gmap bytes V.
Implicit Types l : list (bytes * V).

Definition key_le (p q : bytes * V) : Prop := bytes_le p.1 q.1.
#[global] Instance key_le_dec : RelDecision key_le.
Proof. intros p q. apply bytes_le_dec. Defined.
#[global] Instance key_le_total : Total key_le.
Proof. intros p q. apply bytes_le_total. Qed.
#[global] Instance key_le_trans : Transitive key_le.
Proof. intros p q r. unfold key_le. by intros; etrans. Qed.

(** The entries of the map in the order in which [BTreeMap::iter] yields them. *)
Definition btree_iter m : list (bytes * V) := merge_sort key_le (map_to_list m).

Lemma btree_iter_perm m : btree_iter m ≡ₚ map_to_list m.
Proof. apply merge_sort_Permutation. Qed.

Lemma btree_iter_NoDup m : NoDup (btree_iter m).*1.
Proof. rewrite btree_iter_perm. apply NoDup_fst_map_to_list. Qed.

Lemma elem_of_btree_iter m k v : (k, v) ∈ btree_iter m ↔ m !! k = Some v.
Proof. rewrite btree_iter_perm. apply elem_of_map_to_list. Qed.

Lemma list_to_map_btree_iter m : list_to_map (btree_iter m) = m.
Proof.
  rewrite <-(list_to_map_to_list m) at 2.
  apply list_to_map_proper; [apply btree_iter_NoDup | apply btree_iter_perm].
Qed.

Lemma length_btree_iter m : length (btree_iter m) = size m.
Proof. by rewrite btree_iter_perm, length_map_to_list. Qed.

Lemma btree_iter_empty : btree_iter (∅ : gmap bytes V) = [].
Proof. apply nil_length_inv. by rewrite length_btree_iter, map_size_empty. Qed.

(** Keys appear in strictly increasing order. *)
Lemma btree_iter_sorted m : StronglySorted (λ p q, bytes_lt p.1 q.1) (btree_iter m).
Proof.
  assert (StronglySorted key_le (btree_iter m)) as Hs
    by apply (StronglySorted_merge_sort _).
  pose proof (btree_iter_NoDup m) as Hnd. revert Hs Hnd.
  generalize (btree_iter m). intros l.
  induction 1 as [|p l Hl IH Hp]; intros Hnd; constructor; inversion_clear Hnd as [|?? Hnin Hnd'].
  - auto.
  - rewrite Forall_forall in Hp |- *. intros q Hq.
    pose proof (proj1 (bytes_le_lteq _ _) (Hp q Hq)) as [|Heq]; [done|].
    destruct Hnin. rewrite Heq. by apply (list_elem_of_fmap_2 fst).
Qed.

(** The iteration order is determined by the contents. *)
Lemma btree_iter_unique m l :
  StronglySorted (λ p q, bytes_lt p.1 q.1) l → list_to_map l = m → l = btree_iter m.
Proof.
  intros Hl <-.
  assert (NoDup l.*1) as Hnd.
  { clear -Hl. induction Hl as [|p l Hl IH Hp]; simpl; constructor; [|done].
    rewrite list_elem_of_fmap. intros (q & Heq & Hq).
    rewrite Forall_forall in Hp. apply Hp in Hq. rewrite Heq in Hq.
    by apply (irreflexivity bytes_lt) in Hq. }
  assert (btree_iter (list_to_map l) ≡ₚ l) as Hperm.
  { rewrite btree_iter_perm. by apply map_to_list_to_map. }
  apply (StronglySorted_unique_strong (λ p q, bytes_lt p.1 q.1));
    [|done|apply btree_iter_sorted|by symmetry].
  intros p q _ _ H1 H2. exfalso. apply (irreflexivity bytes_lt (p.1)). by etrans.
Qed.
End btree.

(** ** Sums over lists and maps *)

Definition list_sum (l : list Z) : Z := foldr Z.add 0 l.

#[global] Instance list_sum_perm : Proper ((≡ₚ) ==> (=)) list_sum.
Proof. intros l1 l2 Hl. unfold list_sum. apply foldr_permutation_proper; [apply _..|intros; lia|done]. Qed.

Lemma list_sum_app l1 l2 : list_sum (l1 ++ l2) = list_sum l1 + list_sum l2.
Proof. induction l1 as [|x l1 IH]; simpl; [done|]. rewrite IH. lia. Qed.

Lemma list_sum_nonneg l : Forall (λ x, 0 ≤ x) l → 0 ≤ list_sum l.
Proof. induction 1; simpl; lia. Qed.


Section sums.
Context `{Countable K} {V : Type} (f : V → Z).
Implicit Types m : gmap K V.

Definition map_sum m : Z := map_fold (λ _ v acc, f v + acc) 0 m.

Lemma map_sum_empty : map_sum ∅ = 0.
Proof. apply map_fold_empty. Qed.

Lemma map_sum_insert_None m k v :
  m !! k = None → map_sum (<[k:=v]> m) = f v + map_sum m.
Proof. intros. unfold map_sum. by rewrite map_fold_insert_L by (done || intros; lia). Qed.

Lemma map_sum_delete m k v :
  m !! k = Some v → map_sum m = f v + map_sum (delete k m).
Proof.
  intros Hk. rewrite <-(insert_delete_id m k v Hk) at 1.
  apply map_sum_insert_None, lookup_delete_eq.
Qed.

Lemma map_sum_insert m k v :
  map_sum (<[k:=v]> m) = map_sum m - from_option f 0 (m !! k) + f v.
Proof.
  destruct (m !! k) as [w|] eqn:E; simpl.
  - rewrite <-insert_delete_eq, map_sum_insert_None by apply lookup_delete_eq.
    rewrite (map_sum_delete m k w) by done. lia.
  - rewrite map_sum_insert_None by done. lia.
Qed.

Lemma map_sum_delete_any m k :
  map_sum (delete k m) = map_sum m - from_option f 0 (m !! k).
Proof.
  destruct (m !! k) as [w|] eqn:E; simpl.
  - rewrite (map_sum_delete m k w) by done. lia.
  - rewrite delete_id by done. lia.
Qed.

Lemma map_sum_nonneg m : (∀ k v, m !! k = Some v → 0 ≤ f v) → 0 ≤ map_sum m.
Proof.
  induction m as [|k v m Hk IH] using map_ind; intros Hpos.
  - by rewrite map_sum_empty.
  - rewrite map_sum_insert_None by done.
    assert (0 ≤ f v) by (eapply Hpos; apply lookup_insert_eq).
    assert (0 ≤ map_sum m); [|lia].
    apply IH. intros j w Hj. apply (Hpos j). rewrite lookup_insert_ne; [done|congruence].
Qed.

Lemma map_sum_lookup_le m k v :
  (∀ k v, m !! k = Some v → 0 ≤ f v) → m !! k = Some v → f v ≤ map_sum m.
Proof.
  intros Hpos Hk. rewrite (map_sum_delete m k v) by done.
  assert (0 ≤ map_sum (delete k m)); [|lia].
  apply map_sum_nonneg. intros j w [??]%lookup_delete_Some. eauto.
Qed.

Lemma map_sum_to_list m l : l ≡ₚ map_to_list m → map_sum m = list_sum (f ∘ snd <$> l).
Proof.
  intros ->. unfold map_sum, list_sum. rewrite map_fold_foldr.
  induction (map_to_list m) as [|[k v] l' IH]; simpl; [done|]. by rewrite IH.
Qed.
End sums.

(** Updating one entry of a [BTreeMap] through [entry(k).or_insert(d)]. *)
Definition entry_or {V} (d : V) (k : bytes) (m : gmap bytes V) : V := default d (m !! k).
