(* ===== verification/Crypto.v ===== *)
(** * Keys, signatures, hashes and the byte traits

    Models rp-core/src/crypto.rs and rp-core/src/traits.rs.  The P-256 and
    SHA-256 implementations (crates [p256] and [sha2]) are not part of the
    repository: they are the operations of the class [Crypto], and what the code
    relies on is the class [CryptoLaws].  No injectivity of the hash is assumed:
    the theorems that need it conclude that two of the hashed messages collide.  [ToyCrypto] is a
    computable instance that satisfies every law; the witnesses use it. *)

From S2P Require Import Prelude.
From S2P Require Import Maps.

Class Crypto : Type := {
  VerifyingKey : Type;
  VerifyingKey_eq_dec :: EqDecision VerifyingKey;
  SigningKey : Type;
  Signature : Type;
  (** [key.to_encoded_point(true).as_bytes()]: the compressed SEC1 encoding *)
  to_encoded_point : VerifyingKey → bytes;
  (** [VerifyingKey::from_sec1_bytes].  It reads other encodings of a key than the one
      [to_encoded_point] writes, also some of the same length (the compact form of SEC1,
      with the tag 5). *)
  from_sec1_bytes : bytes → option VerifyingKey;
  (** [SigningKey::from_slice] *)
  signing_key_from_slice : bytes → option SigningKey;
  (** [SigningKey::verifying_key] *)
  signing_key_verifying_key : SigningKey → VerifyingKey;
  (** [Signer::sign] *)
  signing_key_sign : SigningKey → bytes → Signature;
  (** [Verifier::verify(..).is_ok()] *)
  verify : VerifyingKey → bytes → Signature → bool;
  (** [Signature::to_bytes] and [Signature::from_slice] *)
  signature_to_bytes : Signature → bytes;
  signature_from_slice : bytes → option Signature;
  (** [Sha256::new(); update(bytes); finalize()] *)
  Sha256_digest : bytes → bytes;
}.

Definition PUBLIC_KEY_SIZE : nat := 33.

Class CryptoLaws `{Crypto} : Prop := {
  length_to_encoded_point k : length (to_encoded_point k) = PUBLIC_KEY_SIZE;
  from_sec1_to_encoded_point k : from_sec1_bytes (to_encoded_point k) = Some k;
  length_Sha256_digest m : length (Sha256_digest m) = 32%nat;
  verify_sign sk m :
    verify (signing_key_verifying_key sk) m (signing_key_sign sk m) = true;
  signature_from_to_bytes s : signature_from_slice (signature_to_bytes s) = Some s;
  genesis_scalar_valid : is_Some (signing_key_from_slice (replicate 32 x01));
}.

(** ** traits.rs *)

Class ToBytes (A : Type) := to_bytes : A → bytes.
Class FromBytes (A : Type) := from_bytes : bytes → outcome (result A string).
#[global] Hint Mode ToBytes ! : typeclass_instances.

(** [impl ToBytes for u64] *)
#[global] Instance u64_ToBytes : ToBytes Z := u64_to_be_bytes.

(** [impl ToBytes for &'static str] *)
#[global] Instance str_ToBytes : ToBytes string := λ s,
  let raw := String.list_byte_of_string s in
  u64_to_be_bytes (usize_as_u64 (length raw)) ++ raw.

(** [impl<T: ToBytes> ToBytes for Vec<T>] *)
Definition vec_to_bytes {A} (item_to_bytes : A → bytes) (l : list A) : bytes :=
  u64_to_be_bytes (usize_as_u64 (length l)) ++ flat_map item_to_bytes l.
#[global] Instance vec_ToBytes `{ToBytes A} : ToBytes (list A) := vec_to_bytes to_bytes.

(** [impl ToBytes for [u8; 32]] and [impl ToBytes for Vec<u8>] *)
#[global] Instance bytes_ToBytes : ToBytes bytes := λ b, b.

Section crypto.
Context `{Crypto}.

(** ** crypto.rs *)

(** The [copy_from_slice] of the source needs the encoding to be 33 bytes long:
    that is [length_to_encoded_point]. *)
Definition verifying_key_to_bytes (key : VerifyingKey) : bytes := to_encoded_point key.

Definition verifying_key_bytes (key : VerifyingKey) : bytes := verifying_key_to_bytes key.

Definition verifying_key_from_bytes (b : bytes) : result VerifyingKey string :=
  match from_sec1_bytes b with
  | Some key => Ok key
  | None => Err "invalid verifying key"%string
  end.

Definition signing_key_from_bytes (b : bytes) : result SigningKey string :=
  match signing_key_from_slice b with
  | Some key => Ok key
  | None => Err "invalid signing key"%string
  end.

(** [.expect(..)] panics on an error. *)
Definition genesis_verifying_key : outcome VerifyingKey :=
  match signing_key_from_bytes (replicate 32 x01) with
  | Ok sk => Ret (signing_key_verifying_key sk)
  | Err _ => Panic
  end.

#[global] Instance VerifyingKey_ToBytes : ToBytes VerifyingKey := verifying_key_bytes.

(** [impl<T: ToBytes> Hashable for T] *)
Definition hash `{ToBytes A} (x : A) : bytes := Sha256_digest (to_bytes x).

(** The module [serde_verifying_key]: what it hands to the serializer, and how it
    reads back the byte string the deserializer produced. *)
Inductive de_error : Type :=
| invalid_length (len : nat) (expected : string)
| custom (message : string).

Definition serialize_verifying_key (key : VerifyingKey) : bytes := verifying_key_to_bytes key.

Definition deserialize_verifying_key (b : bytes) : result VerifyingKey de_error :=
  if bool_decide (length b = PUBLIC_KEY_SIZE)
  then map_err custom (verifying_key_from_bytes b)
  else Err (invalid_length (length b) "33-byte compressed P-256 public key"%string).

(** ** Collisions *)

(** Two messages that collide.  Collisions exist, since digests are short: what the
    theorems state is that, if a commitment fails, two particular messages (those
    that were hashed) are one. *)
Definition collides (x y : bytes) : Prop := x ≠ y ∧ Sha256_digest x = Sha256_digest y.

Definition collision_among (l : list bytes) : Prop := ∃ x y, x ∈ l ∧ y ∈ l ∧ collides x y.

Lemma Sha256_inj_or x y : Sha256_digest x = Sha256_digest y → x = y ∨ collides x y.
Proof. intros E. destruct (decide (x = y)); [auto|right; by split]. Qed.

Lemma collision_among_intro l x y : x ∈ l → y ∈ l → collides x y → collision_among l.
Proof. by exists x, y. Qed.

Lemma collision_among_mono l1 l2 : l1 ⊆ l2 → collision_among l1 → collision_among l2.
Proof. intros Hsub (x & y & ? & ? & ?). exists x, y. auto. Qed.

Context `{!CryptoLaws}.

Lemma length_verifying_key_to_bytes k : length (verifying_key_to_bytes k) = 33%nat.
Proof. apply length_to_encoded_point. Qed.

Lemma length_hash `{ToBytes A} (x : A) : length (hash x) = 32%nat.
Proof. apply length_Sha256_digest. Qed.

#[global] Instance verifying_key_to_bytes_inj : Inj (=) (=) verifying_key_to_bytes.
Proof.
  intros k1 k2 E. apply (f_equal from_sec1_bytes) in E. unfold verifying_key_to_bytes in E.
  rewrite !from_sec1_to_encoded_point in E. congruence.
Qed.

Lemma verifying_key_from_to_bytes k : verifying_key_from_bytes (verifying_key_to_bytes k) = Ok k.
Proof.
  unfold verifying_key_from_bytes, verifying_key_to_bytes. by rewrite from_sec1_to_encoded_point.
Qed.

Lemma genesis_verifying_key_Ret : ∃ k, genesis_verifying_key = Ret k.
Proof.
  unfold genesis_verifying_key, signing_key_from_bytes.
  destruct genesis_scalar_valid as [sk ->]. eauto.
Qed.
End crypto.

#[export] Hint Resolve length_verifying_key_to_bytes length_hash length_Sha256_digest : rust.

(** ** A computable instance

    A key is one byte, a signature carries the last byte of the digest and the
    signer, and the digest is a polynomial checksum. *)
Module ToyCrypto.
Definition encode_key (b : byte) : bytes := replicate 32 x02 ++ [b].
Definition decode_key (l : bytes) : option byte :=
  match last l with
  | Some b => if bool_decide (l = encode_key b) then Some b else None
  | None => None
  end.
(** A second encoding of the same keys, with the tag 5, is read but never written. *)
Definition compact_key (b : byte) : bytes := [x05] ++ replicate 31 x02 ++ [b].
Definition decode_point (l : bytes) : option byte :=
  match decode_key l, last l with
  | Some b, _ => Some b
  | None, Some b => if bool_decide (l = compact_key b) then Some b else None
  | None, None => None
  end.
Definition checksum (l : bytes) : Z :=
  fold_left (λ acc b, (acc * 257 + byte_to_Z b + 1) mod 18446744073709551557) l 0.
Definition digest (l : bytes) : bytes := be_encode 32 (checksum l).
Definition toy_sign (k : byte) (m : bytes) : byte * byte := (byte_of_Z (checksum m), k).
Definition encode_sig (s : byte * byte) : bytes := replicate 62 x00 ++ [s.1; s.2].
Definition decode_sig (l : bytes) : option (byte * byte) :=
  match drop 62 l with
  | [a; b] => if bool_decide (l = encode_sig (a, b)) then Some (a, b) else None
  | _ => None
  end.

#[export] Instance toy_crypto : Crypto := {|
  VerifyingKey := byte;
  SigningKey := byte;
  Signature := byte * byte;
  to_encoded_point := encode_key;
  from_sec1_bytes := decode_point;
  signing_key_from_slice l := last l;
  signing_key_verifying_key k := k;
  signing_key_sign := toy_sign;
  verify k m s := bool_decide (s = toy_sign k m);
  signature_to_bytes := encode_sig;
  signature_from_slice := decode_sig;
  Sha256_digest := digest;
|}.

Lemma decode_encode_sig s : decode_sig (encode_sig s) = Some s.
Proof.
  destruct s as [a b]. unfold decode_sig.
  change (drop 62 (encode_sig (a, b))) with [a; b]. cbv iota beta. by rewrite bool_decide_true.
Qed.

Lemma decode_encode_key k : decode_key (encode_key k) = Some k.
Proof.
  unfold decode_key. unfold encode_key at 1. rewrite last_snoc. cbv iota beta.
  by rewrite bool_decide_true.
Qed.

Lemma decode_encode_point k : decode_point (encode_key k) = Some k.
Proof. unfold decode_point. by rewrite decode_encode_key. Qed.

#[export] Instance toy_laws : CryptoLaws.
Proof.
  split.
  - done.
  - apply decode_encode_point.
  - intros m. apply length_be_encode.
  - intros sk m. by apply bool_decide_true.
  - apply decode_encode_sig.
  - eexists. reflexivity.
Qed.
End ToyCrypto.
