(* ===== verification/Models.v ===== *)
(** * Blocks, transactions and slashing proofs

    Models rp-core/src/errors.rs and rp-core/src/models/{block,transaction,slashing}.rs.
    A block holds transactions and slashing proofs, a transaction may hold a
    slashing proof and a slashing proof holds two blocks: the four types are one
    mutual inductive definition, with the induction principle [model_ind]. *)

From S2P Require Import Prelude.
From S2P Require Import Maps.
From S2P Require Import Crypto.

(** ** errors.rs *)

Inductive SlashError : Type :=
| DifferentSlots
| IdenticalBlocks
| ValidatorMismatchA
| ValidatorMismatchB
| InvalidBlockA
| InvalidBlockB.

Inductive BlockError : Type :=
| InvalidSignature
| InvalidHeight
| InvalidSlot
| InvalidValidator
| InvalidTransaction
| InvalidSlashProof (e : SlashError)
| InvalidStateRoot.

#[global] Instance SlashError_eq_dec : EqDecision SlashError.
Proof. solve_decision. Defined.
#[global] Instance BlockError_eq_dec : EqDecision BlockError.
Proof. solve_decision. Defined.

Section models.
Context `{Crypto}.

Inductive Block : Type :=
| mkBlock (height slot : Z) (previous_hash : bytes) (validator : VerifyingKey)
    (transactions : list Transaction) (signature : option Signature)
    (slash_proofs : list SlashProof) (state_root : bytes)
with Transaction : Type :=
| mkTransaction (sender : VerifyingKey) (data : TransactionData) (sequence fee : Z)
    (signature : option Signature)
with TransactionData : Type :=
| Transfer (receiver : VerifyingKey) (amount : Z)
| Stake (amount : Z)
| Unstake (amount : Z)
| Slash (proof : SlashProof)
with SlashProof : Type :=
| mkSlashProof (validator : VerifyingKey) (block_a block_b : Block).

(** Field accesses. *)
Definition block_height (b : Block) := let '(mkBlock x _ _ _ _ _ _ _) := b in x.
Definition block_slot (b : Block) := let '(mkBlock _ x _ _ _ _ _ _) := b in x.
Definition block_previous_hash (b : Block) := let '(mkBlock _ _ x _ _ _ _ _) := b in x.
Definition block_validator (b : Block) := let '(mkBlock _ _ _ x _ _ _ _) := b in x.
Definition block_transactions (b : Block) := let '(mkBlock _ _ _ _ x _ _ _) := b in x.
Definition block_signature (b : Block) := let '(mkBlock _ _ _ _ _ x _ _) := b in x.
Definition block_slash_proofs (b : Block) := let '(mkBlock _ _ _ _ _ _ x _) := b in x.
Definition block_state_root (b : Block) := let '(mkBlock _ _ _ _ _ _ _ x) := b in x.
Definition tx_sender (t : Transaction) := let '(mkTransaction x _ _ _ _) := t in x.
Definition tx_data (t : Transaction) := let '(mkTransaction _ x _ _ _) := t in x.
Definition tx_sequence (t : Transaction) := let '(mkTransaction _ _ x _ _) := t in x.
Definition tx_fee (t : Transaction) := let '(mkTransaction _ _ _ x _) := t in x.
Definition tx_signature (t : Transaction) := let '(mkTransaction _ _ _ _ x) := t in x.
Definition proof_validator (p : SlashProof) := let '(mkSlashProof x _ _) := p in x.
Definition proof_block_a (p : SlashProof) := let '(mkSlashProof _ x _) := p in x.
Definition proof_block_b (p : SlashProof) := let '(mkSlashProof _ _ x) := p in x.

Record UnstakeRequest : Type := mkUnstakeRequest {
  request_amount : Z;
  request_unlock_slot : Z;
}.

Record BlockNode : Type := mkBlockNode {
  node_block : Block;
  node_children : list bytes;
}.

(** ** The signing bytes: [ToBytes for Block, Transaction, SlashProof] *)

Fixpoint block_to_bytes (b : Block) : bytes :=
  let '(mkBlock height slot previous_hash validator transactions _ slash_proofs state_root) := b in
  u64_to_be_bytes height ++
  to_bytes slot ++
  previous_hash ++
  to_bytes validator ++
  vec_to_bytes transaction_to_bytes transactions ++
  vec_to_bytes slash_proof_to_bytes slash_proofs ++
  state_root
with transaction_to_bytes (t : Transaction) : bytes :=
  let '(mkTransaction sender data sequence fee _) := t in
  to_bytes sender ++
  transaction_data_to_bytes data ++
  u64_to_be_bytes sequence ++
  u64_to_be_bytes fee
with transaction_data_to_bytes (d : TransactionData) : bytes :=
  match d with
  | Transfer receiver amount => x00 :: to_bytes receiver ++ u64_to_be_bytes amount
  | Stake amount => x01 :: u64_to_be_bytes amount
  | Unstake amount => x02 :: u64_to_be_bytes amount
  | Slash proof => x03 :: slash_proof_to_bytes proof
  end
with slash_proof_to_bytes (p : SlashProof) : bytes :=
  let '(mkSlashProof validator block_a block_b) := p in
  to_bytes validator ++ block_to_bytes block_a ++ block_to_bytes block_b.

#[global] Instance Block_ToBytes : ToBytes Block := block_to_bytes.
#[global] Instance Transaction_ToBytes : ToBytes Transaction := transaction_to_bytes.
#[global] Instance SlashProof_ToBytes : ToBytes SlashProof := slash_proof_to_bytes.

#[global] Instance BlockNode_ToBytes : ToBytes BlockNode := λ n,
  to_bytes (node_block n) ++ concat (node_children n).

(** ** Signature checks *)

Definition block_is_valid (b : Block) : bool :=
  match block_signature b with
  | Some signature => verify (block_validator b) (hash b) signature
  | None => false
  end.

Definition transaction_is_valid (t : Transaction) : bool :=
  match tx_signature t with
  | Some signature => verify (tx_sender t) (hash t) signature
  | None => false
  end.

(** ** [PartialEq] and [Ord] for [Transaction] *)

Definition transaction_eqb (a b : Transaction) : bool := bool_decide (hash a = hash b).

Definition transaction_cmp (a b : Transaction) : comparison :=
  match CompOpp (tx_fee a ?= tx_fee b) with
  | Eq => bytes_compare (hash a) (hash b)
  | other => other
  end.

(** ** [SlashProof::validate] *)

Definition slash_proof_validate (p : SlashProof) : result unit SlashError :=
  let '(mkSlashProof validator block_a block_b) := p in
  if bool_decide (block_slot block_a ≠ block_slot block_b) then Err DifferentSlots
  else if bool_decide (hash block_a = hash block_b) then Err IdenticalBlocks
  else if bool_decide (block_validator block_a ≠ validator) then Err ValidatorMismatchA
  else if bool_decide (block_validator block_b ≠ validator) then Err ValidatorMismatchB
  else if negb (block_is_valid block_a) then Err InvalidBlockA
  else if negb (block_is_valid block_b) then Err InvalidBlockB
  else Ok tt.

(** ** Values that fit the Rust types

    Integers are [u64], digests are 32 bytes long and vectors are shorter than
    2^64.  Every value of the Rust types satisfies these predicates. *)

Definition vec_fits {A} (l : list A) : bool := bool_decide (is_u64 (Z.of_nat (length l))).

Fixpoint block_fits (b : Block) : bool :=
  let '(mkBlock height slot previous_hash _ transactions _ slash_proofs state_root) := b in
  bool_decide (is_u64 height) && bool_decide (is_u64 slot) &&
  bool_decide (length previous_hash = 32%nat) && bool_decide (length state_root = 32%nat) &&
  vec_fits transactions && forallb transaction_fits transactions &&
  vec_fits slash_proofs && forallb slash_proof_fits slash_proofs
with transaction_fits (t : Transaction) : bool :=
  let '(mkTransaction _ data sequence fee _) := t in
  transaction_data_fits data && bool_decide (is_u64 sequence) && bool_decide (is_u64 fee)
with transaction_data_fits (d : TransactionData) : bool :=
  match d with
  | Transfer _ amount | Stake amount | Unstake amount => bool_decide (is_u64 amount)
  | Slash proof => slash_proof_fits proof
  end
with slash_proof_fits (p : SlashProof) : bool :=
  let '(mkSlashProof _ block_a block_b) := p in block_fits block_a && block_fits block_b.

(** What the signing bytes cover: everything but the signatures. *)
Fixpoint erase_block (b : Block) : Block :=
  let '(mkBlock height slot previous_hash validator transactions _ slash_proofs state_root) := b in
  mkBlock height slot previous_hash validator (map erase_transaction transactions) None
    (map erase_slash_proof slash_proofs) state_root
with erase_transaction (t : Transaction) : Transaction :=
  let '(mkTransaction sender data sequence fee _) := t in
  mkTransaction sender (erase_transaction_data data) sequence fee None
with erase_transaction_data (d : TransactionData) : TransactionData :=
  match d with
  | Slash proof => Slash (erase_slash_proof proof)
  | d => d
  end
with erase_slash_proof (p : SlashProof) : SlashProof :=
  let '(mkSlashProof validator block_a block_b) := p in
  mkSlashProof validator (erase_block block_a) (erase_block block_b).

(** ** Mutual induction *)

Section induction.
Context (P : Block → Prop) (Q : Transaction → Prop) (D : TransactionData → Prop)
  (R : SlashProof → Prop).
Context (HP : ∀ h s p v txs sg proofs root,
    Forall Q txs → Forall R proofs → P (mkBlock h s p v txs sg proofs root))
  (HQ : ∀ s d q f sg, D d → Q (mkTransaction s d q f sg))
  (HT : ∀ r a, D (Transfer r a)) (HS : ∀ a, D (Stake a)) (HU : ∀ a, D (Unstake a))
  (HX : ∀ p, R p → D (Slash p))
  (HR : ∀ v a b, P a → P b → R (mkSlashProof v a b)).

Fixpoint block_ind_mut (b : Block) : P b :=
  match b with
  | mkBlock h s p v txs sg proofs root =>
      HP h s p v txs sg proofs root
        ((fix go l : Forall Q l :=
            match l with
            | [] => @List.Forall_nil _ Q
            | t :: l => @List.Forall_cons _ Q t l (transaction_ind_mut t) (go l)
            end) txs)
        ((fix go l : Forall R l :=
            match l with
            | [] => @List.Forall_nil _ R
            | t :: l => @List.Forall_cons _ R t l (slash_proof_ind_mut t) (go l)
            end) proofs)
  end
with transaction_ind_mut (t : Transaction) : Q t :=
  match t with
  | mkTransaction s d q f sg => HQ s d q f sg (transaction_data_ind_mut d)
  end
with transaction_data_ind_mut (d : TransactionData) : D d :=
  match d with
  | Transfer r a => HT r a
  | Stake a => HS a
  | Unstake a => HU a
  | Slash p => HX p (slash_proof_ind_mut p)
  end
with slash_proof_ind_mut (p : SlashProof) : R p :=
  match p with
  | mkSlashProof v a b => HR v a b (block_ind_mut a) (block_ind_mut b)
  end.

Lemma model_ind : (∀ b, P b) ∧ (∀ t, Q t) ∧ (∀ d, D d) ∧ (∀ p, R p).
Proof.
  auto using block_ind_mut, transaction_ind_mut, transaction_data_ind_mut, slash_proof_ind_mut.
Qed.
End induction.
End models.

(** ** The signing bytes determine everything but the signatures *)

Section commitment.
Context `{Crypto, !CryptoLaws}.

(** [f] is a prefix-free encoding of the [fits] values, up to [e]. *)
Definition prefix_free {A} (f : A → bytes) (e : A → A) (fits : A → bool) (x : A) : Prop :=
  ∀ y r s, fits x → fits y → f x ++ r = f y ++ s → e x = e y ∧ r = s.

Lemma flat_map_prefix_free {A} (f : A → bytes) e fits l :
  Forall (prefix_free f e fits) l →
  ∀ l' r s, forallb fits l → forallb fits l' → length l = length l' →
    flat_map f l ++ r = flat_map f l' ++ s → map e l = map e l' ∧ r = s.
Proof.
  induction 1 as [|x l Hx _ IH]; intros [|y l'] r s; simpl; try done.
  rewrite !andb_True, <-!app_assoc. intros [??] [??] [= Hlen] E.
  apply Hx in E as [-> E]; [|done..].
  apply IH in E as [-> ->]; auto.
Qed.

Lemma vec_prefix_free {A} (f : A → bytes) e fits l l' r s :
  Forall (prefix_free f e fits) l →
  vec_fits l → vec_fits l' → forallb fits l → forallb fits l' →
  vec_to_bytes f l ++ r = vec_to_bytes f l' ++ s → map e l = map e l' ∧ r = s.
Proof.
  unfold vec_to_bytes, vec_fits, usize_as_u64. rewrite !bool_decide_spec, <-!app_assoc.
  intros Hl Hu Hu' Hf Hf' E.
  rewrite !u64_wrap_small in E by done.
  apply u64_to_be_bytes_inj_app in E as [Hlen%Nat2Z.inj E]; [|done..].
  by eapply flat_map_prefix_free.
Qed.

Lemma key_prefix_free (k k' : VerifyingKey) r s :
  to_bytes k ++ r = to_bytes k' ++ s → k = k' ∧ r = s.
Proof.
  intros E. apply app_inj_1 in E as [E ->].
  - split; [|done]. by apply (inj verifying_key_to_bytes).
  - trans 33%nat; [|symmetry]; apply length_verifying_key_to_bytes.
Qed.

Lemma tag_prefix_free (tag : byte) (x y : bytes) : tag :: x = tag :: y → x = y.
Proof. congruence. Qed.

#[local] Opaque vec_to_bytes.
Lemma models_prefix_free :
  (∀ b, prefix_free block_to_bytes erase_block block_fits b) ∧
  (∀ t, prefix_free transaction_to_bytes erase_transaction transaction_fits t) ∧
  (∀ d, prefix_free transaction_data_to_bytes erase_transaction_data transaction_data_fits d) ∧
  (∀ p, prefix_free slash_proof_to_bytes erase_slash_proof slash_proof_fits p).
Proof.
  apply model_ind.
  - intros h sl p v txs sg proofs root Htxs Hproofs
      [h' sl' p' v' txs' sg' proofs' root'] r s; simpl.
    rewrite !andb_True, !bool_decide_spec, <-!app_assoc. intros (((((((?&?)&?)&?)&?)&?)&?)&?).
    intros (((((((?&?)&?)&?)&?)&?)&?)&?) E.
    apply u64_to_be_bytes_inj_app in E as [-> E]; [|done..].
    apply u64_to_be_bytes_inj_app in E as [-> E]; [|done..].
    apply app_inj_1 in E as [-> E]; [|congruence].
    apply key_prefix_free in E as [-> E].
    apply (vec_prefix_free _ _ _ _ _ _ _ Htxs) in E as [-> E]; [|done..].
    apply (vec_prefix_free _ _ _ _ _ _ _ Hproofs) in E as [-> E]; [|done..].
    apply app_inj_1 in E as [-> ->]; [done|congruence].
  - intros k d q f sg Hd [k' d' q' f' sg'] r s; simpl.
    rewrite !andb_True, !bool_decide_spec, <-!app_assoc. intros ((?&?)&?) ((?&?)&?) E.
    apply key_prefix_free in E as [-> E].
    apply Hd in E as [-> E]; [|done..].
    apply u64_to_be_bytes_inj_app in E as [-> E]; [|done..].
    by apply u64_to_be_bytes_inj_app in E as [-> ->].
  - intros rc a [| | |] r s; simpl; try done. rewrite !bool_decide_spec, <-!app_assoc.
    intros ?? E%tag_prefix_free. apply key_prefix_free in E as [-> E].
    by apply u64_to_be_bytes_inj_app in E as [-> ->].
  - intros a [| | |] r s; simpl; try done. rewrite !bool_decide_spec.
    intros ?? E%tag_prefix_free. by apply u64_to_be_bytes_inj_app in E as [-> ->].
  - intros a [| | |] r s; simpl; try done. rewrite !bool_decide_spec.
    intros ?? E%tag_prefix_free. by apply u64_to_be_bytes_inj_app in E as [-> ->].
  - intros p Hp [| | |] r s; simpl; try done.
    intros ?? E%tag_prefix_free. by apply Hp in E as [-> ->].
  - intros v a b Ha Hb [v' a' b'] r s; simpl.
    rewrite !andb_True, <-!app_assoc. intros (?&?) (?&?) E.
    apply key_prefix_free in E as [-> E].
    apply Ha in E as [-> E]; [|done..].
    by apply Hb in E as [-> ->].
Qed.
#[local] Transparent vec_to_bytes.
End commitment.

Section properties.
Context `{Crypto}.


Lemma vec_to_bytes_map {A} (f : A → bytes) (g : A → A) l :
  Forall (λ x, f (g x) = f x) l → vec_to_bytes f (map g l) = vec_to_bytes f l.
Proof.
  intros Hl. unfold vec_to_bytes. rewrite length_map. f_equal.
  induction Hl as [|x l Hx _ IH]; simpl; congruence.
Qed.

#[local] Opaque vec_to_bytes.
Lemma to_bytes_erase :
  (∀ b, block_to_bytes (erase_block b) = block_to_bytes b) ∧
  (∀ t, transaction_to_bytes (erase_transaction t) = transaction_to_bytes t) ∧
  (∀ d, transaction_data_to_bytes (erase_transaction_data d) = transaction_data_to_bytes d) ∧
  (∀ p, slash_proof_to_bytes (erase_slash_proof p) = slash_proof_to_bytes p).
Proof.
  apply model_ind; intros; simpl; [|congruence..].
  rewrite !vec_to_bytes_map by done. done.
Qed.

Lemma block_is_valid_spec b :
  block_is_valid b = true ↔
  ∃ s, block_signature b = Some s ∧ verify (block_validator b) (hash b) s = true.
Proof. unfold block_is_valid. destruct (block_signature b); naive_solver. Qed.

Lemma slash_proof_validate_Ok p :
  slash_proof_validate p = Ok tt ↔
  block_slot (proof_block_a p) = block_slot (proof_block_b p) ∧
  hash (proof_block_a p) ≠ hash (proof_block_b p) ∧
  block_validator (proof_block_a p) = proof_validator p ∧
  block_validator (proof_block_b p) = proof_validator p ∧
  block_is_valid (proof_block_a p) = true ∧
  block_is_valid (proof_block_b p) = true.
Proof.
  destruct p as [v a b]; simpl. repeat case_bool_decide; [naive_solver..|].
  destruct (block_is_valid a), (block_is_valid b); naive_solver.
Qed.

Lemma transaction_cmp_Eq a b :
  transaction_cmp a b = Eq ↔ tx_fee a = tx_fee b ∧ hash a = hash b.
Proof.
  unfold transaction_cmp.
  destruct (Z.compare_spec (tx_fee a) (tx_fee b)); simpl; [|naive_solver lia..].
  rewrite bytes_compare_eq. naive_solver.
Qed.

Lemma transaction_cmp_antisym a b : transaction_cmp b a = CompOpp (transaction_cmp a b).
Proof.
  unfold transaction_cmp. rewrite (Z.compare_antisym (tx_fee a)).
  destruct (tx_fee a ?= tx_fee b); simpl; auto using bytes_compare_antisym.
Qed.

Lemma transaction_cmp_Lt a b :
  transaction_cmp a b = Lt ↔
  tx_fee b < tx_fee a ∨ tx_fee a = tx_fee b ∧ bytes_lt (hash a) (hash b).
Proof.
  unfold transaction_cmp, bytes_lt.
  destruct (Z.compare_spec (tx_fee a) (tx_fee b)); simpl; naive_solver lia.
Qed.

Lemma transaction_cmp_trans a b c :
  transaction_cmp a b = Lt → transaction_cmp b c = Lt → transaction_cmp a c = Lt.
Proof.
  rewrite !transaction_cmp_Lt. intros [?|[? H1]] [?|[? H2]]; [lia..|].
  right. split; [lia|]. by etrans.
Qed.

(** the bytes that are hashed and signed for a block determine the block up to
    the signatures it carries, and nothing else: for any two blocks that fit the
    Rust types, the encodings are equal exactly when the blocks agree on every
    field except signatures (their own, and those of nested transactions and
    slashing proofs). *)
Theorem block_to_bytes_iff `{!CryptoLaws} b1 b2 :
  block_fits b1 → block_fits b2 →
  to_bytes b1 = to_bytes b2 ↔ erase_block b1 = erase_block b2.
Proof.
  intros H1 H2. split.
  - intros E. destruct models_prefix_free as [Hb _].
    destruct (Hb b1 b2 [] []) as [? _]; [done..| |done]. by rewrite !app_nil_r.
  - destruct to_bytes_erase as [He _]. unfold to_bytes, Block_ToBytes.
    intros E. by rewrite <-He, E, He.
Qed.

(** a block hash commits to the block: two blocks that fit the Rust types and
    have the same hash agree on every field except signatures, or their encodings
    are a SHA-256 collision. *)
Theorem block_hash_commits `{!CryptoLaws} b1 b2 :
  block_fits b1 → block_fits b2 → hash b1 = hash b2 →
  erase_block b1 = erase_block b2 ∨ collides (to_bytes b1) (to_bytes b2).
Proof.
  intros H1 H2 [E|]%Sha256_inj_or; [left|by right].
  destruct models_prefix_free as [Hb _].
  destruct (Hb b1 b2 [] []) as [? _]; [done..| |done]. by rewrite !app_nil_r.
Qed.

(** an accepted slashing proof is a proof of equivocation: both blocks carry a
    signature that verifies under the accused key, they are for the same slot, and
    they differ in more than their signatures. *)
Theorem slash_proof_equivocation p :
  slash_proof_validate p = Ok tt →
  block_slot (proof_block_a p) = block_slot (proof_block_b p) ∧
  erase_block (proof_block_a p) ≠ erase_block (proof_block_b p) ∧
  (∃ s, block_signature (proof_block_a p) = Some s ∧
        verify (proof_validator p) (hash (proof_block_a p)) s = true) ∧
  (∃ s, block_signature (proof_block_b p) = Some s ∧
        verify (proof_validator p) (hash (proof_block_b p)) s = true).
Proof.
  intros (Hs & Hh & Ha & Hb & Va & Vb)%slash_proof_validate_Ok.
  apply block_is_valid_spec in Va. apply block_is_valid_spec in Vb.
  rewrite Ha in Va. rewrite Hb in Vb. split_and!; [done| |done..].
  intros E. apply Hh. destruct to_bytes_erase as [He _].
  unfold hash, to_bytes, Block_ToBytes. by rewrite <-He, E, He.
Qed.

(** the order of transactions is a total order by decreasing fee, then
    increasing hash: comparison is antisymmetric and transitive, two transactions
    compare equal exactly when fee and hash agree, and, unless the two encodings are
    a SHA-256 collision, that is the same as the [PartialEq] of the type. *)
Theorem transaction_order `{!CryptoLaws} a b c :
  transaction_fits a → transaction_fits b →
  transaction_cmp b a = CompOpp (transaction_cmp a b) ∧
  (transaction_cmp a b = Lt → transaction_cmp b c = Lt → transaction_cmp a c = Lt) ∧
  (transaction_cmp a b = Lt ↔
    tx_fee b < tx_fee a ∨ tx_fee a = tx_fee b ∧ bytes_lt (hash a) (hash b)) ∧
  (transaction_cmp a b = Eq → transaction_eqb a b = true) ∧
  (transaction_eqb a b = true → transaction_cmp a b = Eq ∨ collides (to_bytes a) (to_bytes b)).
Proof.
  intros Ha Hb. split_and!.
  - apply transaction_cmp_antisym.
  - apply transaction_cmp_trans.
  - apply transaction_cmp_Lt.
  - intros [_ E]%transaction_cmp_Eq. by apply bool_decide_eq_true.
  - intros E%bool_decide_eq_true. destruct (Sha256_inj_or _ _ E) as [E'|]; [left|by right].
    apply transaction_cmp_Eq. split; [|done].
    destruct models_prefix_free as (_ & Ht & _).
    destruct (Ht a b [] []) as [Ee _]; [done..|by rewrite !app_nil_r|].
    apply (f_equal tx_fee) in Ee. by destruct a, b.
Qed.
End properties.

#[export] Hint Resolve transaction_cmp_trans : rust.

(** ** Witnesses *)

Module ModelsWitness.
Import ToyCrypto.

Definition toy_block (k : byte) (height slot : Z) (prev : bytes) (txs : list Transaction)
    (proofs : list SlashProof) (root : bytes) : Block :=
  let b := mkBlock height slot prev k txs None proofs root in
  mkBlock height slot prev k txs (Some (toy_sign k (hash b))) proofs root.
Definition toy_tx (k : byte) (d : TransactionData) (seq fee : Z) : Transaction :=
  mkTransaction k d seq fee (Some (toy_sign k (hash (mkTransaction k d seq fee None)))).

Definition zero_hash : bytes := replicate 32 x00.
Definition block_1 : Block := toy_block x07 1 1 zero_hash [toy_tx x05 (Stake 3) 0 2] [] zero_hash.
Definition block_2 : Block := toy_block x07 2 1 zero_hash [] [] zero_hash.
Definition equivocation : SlashProof := mkSlashProof x07 block_1 block_2.

Lemma block_to_bytes_iff_witness :
  block_fits block_1 ∧
  (to_bytes block_1 = to_bytes (erase_block block_1) ↔
   erase_block block_1 = erase_block (erase_block block_1)).
Proof. split; [done|]. apply block_to_bytes_iff; done. Defined.

Lemma block_hash_commits_witness :
  hash block_1 = hash (erase_block block_1) ∧
  (erase_block block_1 = erase_block (erase_block block_1) ∨
   collides (to_bytes block_1) (to_bytes (erase_block block_1))).
Proof. split; [done|]. apply block_hash_commits; done. Defined.

Lemma slash_proof_equivocation_witness :
  slash_proof_validate equivocation = Ok tt ∧
  block_slot (proof_block_a equivocation) = block_slot (proof_block_b equivocation).
Proof.
  split; [vm_compute; reflexivity|].
  destruct (slash_proof_equivocation equivocation) as [E _]; [vm_compute; reflexivity|].
  exact E.
Defined.

Lemma transaction_order_witness :
  transaction_cmp (toy_tx x01 (Stake 1) 0 1) (toy_tx x02 (Stake 1) 0 9) = Gt ∧
  (transaction_eqb (toy_tx x01 (Stake 1) 0 1) (toy_tx x01 (Stake 1) 0 1) = true →
   transaction_cmp (toy_tx x01 (Stake 1) 0 1) (toy_tx x01 (Stake 1) 0 1) = Eq ∨
   collides (to_bytes (toy_tx x01 (Stake 1) 0 1)) (to_bytes (toy_tx x01 (Stake 1) 0 1))).
Proof.
  split; [vm_compute; reflexivity|].
  apply (transaction_order (toy_tx x01 (Stake 1) 0 1) (toy_tx x01 (Stake 1) 0 1)
           (toy_tx x02 (Stake 1) 0 9)); vm_compute; done.
Defined.
End ModelsWitness.
