(* ===== verification/State.v ===== *)
(** * Account state

    Models rp-core/src/state.rs, except the byte codec, which is in StateCodec.v:
    balances, nonces, stakes and unstaking requests, transaction validation and
    application, stake-weighted validator selection, the balance Merkle root and
    slashing. *)

From S2P Require Import Prelude.
From S2P Require Import Maps.
From S2P Require Import Crypto.
From S2P Require Import Models.

Definition EPOCH_LENGTH : Z := 32.
Definition UNSTAKE_LOCK_EPOCHS : Z := 2.

Record State : Type := mkState {
  balances : gmap bytes Z;
  nonces : gmap bytes Z;
  stakes : gmap bytes Z;
  unstaking : gmap bytes (list UnstakeRequest);
}.

Definition State_new : State := mkState ∅ ∅ ∅ ∅.

Definition set_balances (st : State) m := mkState m (nonces st) (stakes st) (unstaking st).
Definition set_nonces (st : State) m := mkState (balances st) m (stakes st) (unstaking st).
Definition set_stakes (st : State) m := mkState (balances st) (nonces st) m (unstaking st).
Definition set_unstaking (st : State) m := mkState (balances st) (nonces st) (stakes st) m.

(** [*m.entry(k).or_insert(0) += amount] and [-= amount]. *)
Definition entry_add `{Target} (m : gmap bytes Z) (k : bytes) (amount : Z) : outcome (gmap bytes Z) :=
  v ← u64_add (entry_or 0 k m) amount; Ret (<[k:=v]> m).
Definition entry_sub `{Target} (m : gmap bytes Z) (k : bytes) (amount : Z) : outcome (gmap bytes Z) :=
  v ← u64_sub (entry_or 0 k m) amount; Ret (<[k:=v]> m).

Section state.
Context `{Target, Crypto}.

Definition get_balance (st : State) (account : VerifyingKey) : Z :=
  entry_or 0 (verifying_key_to_bytes account) (balances st).

Definition get_nonce (st : State) (account : VerifyingKey) : Z :=
  entry_or 0 (verifying_key_to_bytes account) (nonces st).

Definition is_valid_tx (st : State) (tx : Transaction) : bool :=
  let tx_valid := transaction_is_valid tx in
  let sender_balance := get_balance st (tx_sender tx) in
  let data_ok :=
    match tx_data tx with
    | Transfer _ amount => negb (bool_decide (sender_balance < amount))
    | Stake amount => negb (bool_decide (sender_balance < amount))
    | Unstake amount =>
        let current_stake := entry_or 0 (verifying_key_to_bytes (tx_sender tx)) (stakes st) in
        negb (bool_decide (current_stake < amount))
    | Slash proof => is_ok (slash_proof_validate proof)
    end in
  if negb data_ok then false
  else if bool_decide (tx_sequence tx ≠ get_nonce st (tx_sender tx)) then false
  else tx_valid.

Definition apply_slash (st : State) (proof : SlashProof) : State * result unit SlashError :=
  match slash_proof_validate proof with
  | Err e => (st, Err e)
  | Ok _ =>
      let validator_key_array := verifying_key_to_bytes (proof_validator proof) in
      (set_unstaking (set_stakes st (delete validator_key_array (stakes st)))
         (delete validator_key_array (unstaking st)), Ok tt)
  end.

Definition apply_tx (st : State) (tx : Transaction) (current_slot : Z) : outcome State :=
  let sender_key_array := verifying_key_to_bytes (tx_sender tx) in
  match tx_data tx with
  | Transfer receiver amount =>
      let receiver_key_array := verifying_key_to_bytes receiver in
      bal ← entry_sub (balances st) sender_key_array amount;
      bal ← entry_add bal receiver_key_array amount;
      non ← entry_add (nonces st) sender_key_array 1;
      Ret (set_nonces (set_balances st bal) non)
  | Stake amount =>
      bal ← entry_sub (balances st) sender_key_array amount;
      stk ← entry_add (stakes st) sender_key_array amount;
      non ← entry_add (nonces st) sender_key_array 1;
      Ret (set_nonces (set_stakes (set_balances st bal) stk) non)
  | Unstake amount =>
      stk ← entry_sub (stakes st) sender_key_array amount;
      unlock_slot ← u64_add current_slot (UNSTAKE_LOCK_EPOCHS * EPOCH_LENGTH);
      let requests := entry_or [] sender_key_array (unstaking st) in
      let uns := <[sender_key_array := requests ++ [mkUnstakeRequest amount unlock_slot]]>
                   (unstaking st) in
      non ← entry_add (nonces st) sender_key_array 1;
      Ret (set_nonces (set_unstaking (set_stakes st stk) uns) non)
  | Slash proof =>
      let st := fst (apply_slash st proof) in
      non ← entry_add (nonces st) sender_key_array 1;
      Ret (set_nonces st non)
  end.

(** ** Validator selection *)

Definition valid_stakes (st : State) : list (Z * VerifyingKey) :=
  omap (λ '(key_bytes, stake), verifying_key ← ok (verifying_key_from_bytes key_bytes);
                               Some (stake, verifying_key))
    (btree_iter (stakes st)).

(** [Iterator::sum] for [u64]. *)
Fixpoint u64_sum (acc : Z) (l : list Z) : outcome Z :=
  match l with
  | [] => Ret acc
  | x :: l => acc ← u64_add acc x; u64_sum acc l
  end.

Fixpoint select_validator (winning_ticket cumulative_stake : Z)
    (l : list (Z * VerifyingKey)) : outcome (option VerifyingKey) :=
  match l with
  | [] => Ret None
  | (stake, verifying_key) :: l =>
      cumulative_stake ← u64_add cumulative_stake stake;
      if bool_decide (winning_ticket < cumulative_stake) then Ret (Some verifying_key)
      else select_validator winning_ticket cumulative_stake l
  end.

Definition get_expected_validator (st : State) (next_block_height : Z) :
    outcome (option VerifyingKey) :=
  if bool_decide (stakes st = ∅) then Ret None
  else
    total_stake ← u64_sum 0 (valid_stakes st).*1;
    if bool_decide (total_stake = 0) then Ret None
    else
      let winning_ticket := next_block_height mod total_stake in
      select_validator winning_ticket 0 (valid_stakes st).

(** ** The Merkle root of the balances *)

(** [balances_vec.sort_by_key(|(k, _)| *k)] *)
Definition sort_by_key (l : list (bytes * Z)) : list (bytes * Z) := merge_sort key_le l.

Definition balance_leaf (entry : bytes * Z) : bytes :=
  let '(k, v) := entry in
  let data := k ++ to_bytes v in
  hash data.

(** One pass of the [for i in (0..hashes.len()).step_by(2)] loop: an odd last hash
    is paired with itself. *)
Fixpoint merkle_level (hashes : list bytes) : list bytes :=
  match hashes with
  | l :: r :: rest => hash (l ++ r) :: merkle_level rest
  | [l] => [hash (l ++ l)]
  | [] => []
  end.

(** The [while hashes.len() > 1] loop, unrolled [n] times: once the condition is
    false a further round does nothing.  [merkle_reduce_length] shows that the
    condition is false after as many rounds as there are leaves. *)
Fixpoint merkle_reduce (n : nat) (hashes : list bytes) : list bytes :=
  match n with
  | O => hashes
  | S n => merkle_reduce n (if bool_decide (1 < length hashes)%nat then merkle_level hashes else hashes)
  end.

Definition compute_state_root (st : State) : bytes :=
  let balances_vec := sort_by_key (btree_iter (balances st)) in
  let hashes := map balance_leaf balances_vec in
  default (replicate 32 x00) (last (merkle_reduce (length hashes) hashes)).
End state.

(** ** Well-formed states and the supply *)

Definition u64_map_wf (m : gmap bytes Z) : Prop :=
  map_Forall (λ k v, length k = PUBLIC_KEY_SIZE ∧ is_u64 v) m.
Definition requests_wf (l : list UnstakeRequest) : Prop :=
  Forall (λ r, is_u64 (request_amount r) ∧ is_u64 (request_unlock_slot r)) l.

Record state_wf (st : State) : Prop := {
  wf_balances : u64_map_wf (balances st);
  wf_nonces : u64_map_wf (nonces st);
  wf_stakes : u64_map_wf (stakes st);
  wf_unstaking : map_Forall (λ k l, length k = PUBLIC_KEY_SIZE ∧ requests_wf l) (unstaking st);
}.

Definition requests_sum (l : list UnstakeRequest) : Z := list_sum (map request_amount l).

(** All the coins the state accounts for: spendable, staked and being unstaked. *)
Definition supply (st : State) : Z :=
  map_sum id (balances st) + map_sum id (stakes st) + map_sum requests_sum (unstaking st).

Lemma state_wf_new : state_wf State_new.
Proof. split; apply map_Forall_empty. Qed.

Lemma u64_map_wf_insert m k v :
  u64_map_wf m → length k = PUBLIC_KEY_SIZE → is_u64 v → u64_map_wf (<[k:=v]> m).
Proof. intros ???. by apply map_Forall_insert_2. Qed.

Lemma u64_map_wf_entry m k : u64_map_wf m → is_u64 (entry_or 0 k m).
Proof.
  intros Hm. unfold entry_or. destruct (m !! k) eqn:E; simpl; [|by vm_compute].
  by apply Hm in E as [_ ?].
Qed.

Lemma u64_map_wf_nonneg m k v : u64_map_wf m → m !! k = Some v → 0 ≤ id v.
Proof. intros Hm [_ ?]%Hm. unfold id. u64_lia. Qed.

Lemma u64_map_sum_nonneg m : u64_map_wf m → 0 ≤ map_sum id m.
Proof. intros. apply map_sum_nonneg. eauto using u64_map_wf_nonneg. Qed.

Lemma u64_map_sum_entry m k : u64_map_wf m → entry_or 0 k m ≤ map_sum id m.
Proof.
  intros Hm. unfold entry_or. destruct (m !! k) eqn:E; simpl.
  - eapply (map_sum_lookup_le id); eauto using u64_map_wf_nonneg.
  - by apply u64_map_sum_nonneg.
Qed.

Lemma map_sum_entry_insert m k v :
  map_sum id (<[k:=v]> m) = map_sum id m - entry_or 0 k m + v.
Proof. apply (map_sum_insert id). Qed.

Lemma requests_sum_app l1 l2 : requests_sum (l1 ++ l2) = requests_sum l1 + requests_sum l2.
Proof. unfold requests_sum. by rewrite map_app, list_sum_app. Qed.

Lemma requests_sum_nonneg l : requests_wf l → 0 ≤ requests_sum l.
Proof.
  intros Hl. apply list_sum_nonneg, List.Forall_map.
  eapply Forall_impl; [done|]. simpl. intros r [? _]. u64_lia.
Qed.

Lemma unstaking_sum_nonneg st : state_wf st → 0 ≤ map_sum requests_sum (unstaking st).
Proof.
  intros Hst. apply map_sum_nonneg. intros k l [_ ?]%(wf_unstaking _ Hst).
  by apply requests_sum_nonneg.
Qed.

#[export] Hint Resolve u64_map_wf_insert u64_map_wf_entry wf_balances wf_nonces wf_stakes
  wf_unstaking : rust.

Section lemmas.
Context `{Target, Crypto}.

Lemma entry_add_small m k a :
  entry_or 0 k m + a < u64_modulus → entry_add m k a = Ret (<[k:=entry_or 0 k m + a]> m).
Proof. intros. unfold entry_add. by rewrite u64_add_small. Qed.

Lemma entry_sub_small m k a :
  a ≤ entry_or 0 k m → entry_sub m k a = Ret (<[k:=entry_or 0 k m - a]> m).
Proof. intros. unfold entry_sub. by rewrite u64_sub_small. Qed.

Lemma entry_add_Ret m k a m' :
  entry_add m k a = Ret m' → ∃ v, u64_add (entry_or 0 k m) a = Ret v ∧ m' = <[k:=v]> m.
Proof. unfold entry_add. intros. outcome_inv. eauto. Qed.

Lemma entry_sub_Ret m k a m' :
  entry_sub m k a = Ret m' → ∃ v, u64_sub (entry_or 0 k m) a = Ret v ∧ m' = <[k:=v]> m.
Proof. unfold entry_sub. intros. outcome_inv. eauto. Qed.

Lemma entry_add_wf m k a m' :
  u64_map_wf m → length k = PUBLIC_KEY_SIZE → is_u64 a → entry_add m k a = Ret m' → u64_map_wf m'.
Proof. intros Hm ?? (v & Hv & ->)%entry_add_Ret. eauto with rust. Qed.

Lemma entry_sub_wf m k a m' :
  u64_map_wf m → length k = PUBLIC_KEY_SIZE → is_u64 a → entry_sub m k a = Ret m' → u64_map_wf m'.
Proof. intros Hm ?? (v & Hv & ->)%entry_sub_Ret. eauto with rust. Qed.

Lemma entry_or_insert {V} (d v : V) k k' m :
  entry_or d k (<[k':=v]> m) = if decide (k = k') then v else entry_or d k m.
Proof. unfold entry_or. rewrite lookup_insert. by repeat case_decide; simplify_eq. Qed.

Lemma entry_or_delete {V} (d : V) k k' m :
  entry_or d k (delete k' m) = if decide (k = k') then d else entry_or d k m.
Proof. unfold entry_or. rewrite lookup_delete. by repeat case_decide; simplify_eq. Qed.

(** What a valid transaction is. *)
Definition data_covered (st : State) (tx : Transaction) : Prop :=
  match tx_data tx with
  | Transfer _ amount | Stake amount => amount ≤ get_balance st (tx_sender tx)
  | Unstake amount => amount ≤ entry_or 0 (verifying_key_to_bytes (tx_sender tx)) (stakes st)
  | Slash proof => slash_proof_validate proof = Ok tt
  end.

Lemma is_valid_tx_spec st tx :
  is_valid_tx st tx = true ↔
  data_covered st tx ∧ tx_sequence tx = get_nonce st (tx_sender tx) ∧
  transaction_is_valid tx = true.
Proof.
  unfold is_valid_tx, data_covered. destruct (tx_data tx) as [? a|a|a|p].
  4: destruct (slash_proof_validate p) as [[]|] eqn:E; simpl.
  all: repeat case_bool_decide; simpl; naive_solver lia.
Qed.
End lemmas.
