(* ===== verification/Ledger.v ===== *)
(** * What applying a transaction does to the ledger

    Theorems about [apply_tx], [apply_slash] and [is_valid_tx] of State.v: valid
    transactions never panic while the supply fits a [u64], coins are conserved,
    balances move as the transaction says, and a nonce is used once. *)

From S2P Require Import Prelude.
From S2P Require Import Maps.
From S2P Require Import Crypto.
From S2P Require Import Models.
From S2P Require Import State.

Section ledger.
Context `{Target, Crypto, !CryptoLaws}.

(** The coins that a slashing transaction destroys. *)
Definition slashed_amount (st : State) (tx : Transaction) : Z :=
  match tx_data tx with
  | Slash p =>
      let k := verifying_key_to_bytes (proof_validator p) in
      entry_or 0 k (stakes st) + requests_sum (entry_or [] k (unstaking st))
  | _ => 0
  end.

Lemma apply_slash_wf st p : state_wf st → state_wf (apply_slash st p).1.
Proof.
  intros [????]. unfold apply_slash. destruct (slash_proof_validate p); [|done].
  split; simpl; try done; by apply map_Forall_delete.
Qed.

Lemma apply_slash_Ok st p :
  slash_proof_validate p = Ok tt →
  apply_slash st p =
    (set_unstaking
       (set_stakes st (delete (verifying_key_to_bytes (proof_validator p)) (stakes st)))
       (delete (verifying_key_to_bytes (proof_validator p)) (unstaking st)), Ok tt).
Proof. unfold apply_slash. by intros ->. Qed.

Lemma unstaking_wf_push st k a s :
  state_wf st → length k = PUBLIC_KEY_SIZE → is_u64 a → is_u64 s →
  map_Forall (λ k l, length k = PUBLIC_KEY_SIZE ∧ requests_wf l)
    (<[k := entry_or [] k (unstaking st) ++ [mkUnstakeRequest a s]]> (unstaking st)).
Proof.
  intros Hst ???. apply map_Forall_insert_2; [|apply Hst]. split; [done|].
  apply Forall_app. split; [|by apply Forall_singleton].
  unfold entry_or. destruct (unstaking st !! k) eqn:E; simpl; [|constructor].
  by apply (wf_unstaking _ Hst) in E as [_ ?].
Qed.

Lemma balance_le_supply st k : state_wf st → entry_or 0 k (balances st) + map_sum id (stakes st) ≤ supply st.
Proof.
  intros Hst. unfold supply.
  pose proof (u64_map_sum_entry (balances st) k ltac:(eauto with rust)).
  pose proof (unstaking_sum_nonneg st Hst). lia.
Qed.

Definition tx_in_range (tx : Transaction) (slot : Z) : Prop :=
  transaction_fits tx ∧ tx_sequence tx < u64_max ∧ is_u64 slot ∧
  slot + UNSTAKE_LOCK_EPOCHS * EPOCH_LENGTH < u64_modulus.

Lemma nonce_entry_add st tx :
  is_valid_tx st tx = true → tx_sequence tx < u64_max →
  entry_add (nonces st) (verifying_key_to_bytes (tx_sender tx)) 1 =
    Ret (<[verifying_key_to_bytes (tx_sender tx) := tx_sequence tx + 1]> (nonces st)).
Proof.
  intros (_ & -> & _)%is_valid_tx_spec ?. rewrite entry_add_small; [done|].
  unfold get_nonce in *. u64_lia.
Qed.

(** What a transaction is meant to do to the accounts, in exact arithmetic: [shift m k d]
    adds [d] to the entry of [k]. *)
Definition shift (m : gmap bytes Z) (k : bytes) (d : Z) : gmap bytes Z := <[k := entry_or 0 k m + d]> m.

Definition effect (st : State) (tx : Transaction) (slot : Z) : State :=
  let k := verifying_key_to_bytes (tx_sender tx) in
  let used := <[k := tx_sequence tx + 1]> (nonces st) in
  match tx_data tx with
  | Transfer receiver amount =>
      mkState (shift (shift (balances st) k (- amount)) (verifying_key_to_bytes receiver) amount) used
        (stakes st) (unstaking st)
  | Stake amount =>
      mkState (shift (balances st) k (- amount)) used (shift (stakes st) k amount) (unstaking st)
  | Unstake amount =>
      mkState (balances st) used (shift (stakes st) k (- amount))
        (<[k := entry_or [] k (unstaking st) ++
                [mkUnstakeRequest amount (slot + UNSTAKE_LOCK_EPOCHS * EPOCH_LENGTH)]]> (unstaking st))
  | Slash proof =>
      let offender := verifying_key_to_bytes (proof_validator proof) in
      mkState (balances st) used (delete offender (stakes st)) (delete offender (unstaking st))
  end.

(** One lemma per kind of transaction, under the shared hypotheses. *)
Section cases.
Context (st : State) (tx : Transaction) (slot : Z).
Context (Hst : state_wf st) (Hsup : supply st < u64_modulus).
Context (Hrange : tx_in_range tx slot) (Hv : is_valid_tx st tx = true).

Definition applies : Prop :=
  apply_tx st tx slot = Ret (effect st tx slot) ∧ state_wf (effect st tx slot) ∧
  supply (effect st tx slot) = supply st - slashed_amount st tx.

Let k := verifying_key_to_bytes (tx_sender tx).

Lemma key_length : length k = PUBLIC_KEY_SIZE.
Proof. apply length_verifying_key_to_bytes. Qed.

Lemma nonces_wf_next : u64_map_wf (<[k := tx_sequence tx + 1]> (nonces st)).
Proof.
  apply u64_map_wf_insert; [apply Hst|apply key_length|].
  destruct Hrange as (Hfit & ? & _). destruct tx; simpl in *.
  rewrite !andb_True, !bool_decide_spec in Hfit. u64_lia.
Qed.

Lemma data_fits : transaction_data_fits (tx_data tx).
Proof.
  destruct Hrange as (Hfit & _). destruct tx; simpl in *.
  by apply andb_True in Hfit as [[? _]%andb_True _].
Qed.

Lemma next_nonce :
  entry_add (nonces st) k 1 = Ret (<[k := tx_sequence tx + 1]> (nonces st)).
Proof. apply nonce_entry_add; [done|]. apply Hrange. Qed.

(** The receiver's balance cannot overflow: it is part of the supply. *)
Lemma transfer_no_overflow rc a :
  tx_data tx = Transfer rc a →
  let m1 := <[k:=entry_or 0 k (balances st) - a]> (balances st) in
  u64_map_wf m1 ∧ map_sum id m1 = map_sum id (balances st) - a ∧
  is_u64 a ∧ a ≤ entry_or 0 k (balances st) ∧
  entry_or 0 (verifying_key_to_bytes rc) m1 + a < u64_modulus.
Proof.
  intros E m1. pose proof data_fits as Hd. pose proof key_length as Hk.
  pose proof Hv as (Hcov & _ & _)%is_valid_tx_spec.
  unfold data_covered, get_balance in Hcov. fold k in Hcov.
  rewrite E in *; simpl in Hd; rewrite ?bool_decide_spec in Hd.
  assert (u64_map_wf m1) as Hm1.
  { apply u64_map_wf_insert; [apply Hst|done|].
    pose proof (u64_map_wf_entry _ k (wf_balances _ Hst)). u64_lia. }
  assert (map_sum id m1 = map_sum id (balances st) - a) as Hs1.
  { unfold m1. rewrite map_sum_entry_insert. lia. }
  pose proof (u64_map_sum_entry m1 (verifying_key_to_bytes rc) Hm1).
  pose proof (unstaking_sum_nonneg st Hst). pose proof (u64_map_sum_nonneg _ (wf_stakes _ Hst)).
  split_and!; try done. unfold supply in *; lia.
Qed.

Lemma transfer_applies rc a : tx_data tx = Transfer rc a → applies.
Proof.
  intros E. pose proof next_nonce as Hnonce. pose proof nonces_wf_next as Hwn.
  pose proof (transfer_no_overflow rc a E) as (Hm1 & Hs1 & Ha & Hcov & Hno).
  pose proof (length_verifying_key_to_bytes rc) as Hr.
  unfold applies, effect, shift, apply_tx, slashed_amount in *. fold k. rewrite E, Z.add_opp_r.
  rewrite entry_sub_small by done. cbn [mbind outcome_bind].
  rewrite (entry_add_small _ (verifying_key_to_bytes rc) a) by done. cbn [mbind outcome_bind]. rewrite Hnonce.
  pose proof (u64_map_wf_entry _ (verifying_key_to_bytes rc) Hm1).
  split_and!; [done| |].
  - destruct Hst. split; simpl; try done. apply u64_map_wf_insert; [done..|]. u64_lia.
  - unfold supply in *; simpl. rewrite map_sum_entry_insert. lia.
Qed.

Lemma stake_applies a : tx_data tx = Stake a → applies.
Proof.
  intros E. pose proof data_fits as Hd. pose proof next_nonce as Hnonce.
  pose proof nonces_wf_next as Hwn. pose proof key_length as Hk.
  pose proof Hv as (Hcov & _ & _)%is_valid_tx_spec.
  unfold applies, effect, shift, apply_tx, data_covered, get_balance, slashed_amount in *. fold k in Hcov |- *.
  rewrite E in *; simpl in Hd; rewrite ?bool_decide_spec in Hd. rewrite Z.add_opp_r.
  rewrite entry_sub_small by done. cbn [mbind outcome_bind].
  pose proof (balance_le_supply st k Hst).
  pose proof (u64_map_sum_entry _ k (wf_stakes _ Hst)).
  pose proof (u64_map_wf_entry _ k (wf_balances _ Hst)).
  pose proof (u64_map_wf_entry _ k (wf_stakes _ Hst)).
  rewrite (entry_add_small (stakes st) k a) by lia. cbn [mbind outcome_bind]. rewrite Hnonce.
  split_and!; [done| |].
  - destruct Hst. split; simpl; try done; apply u64_map_wf_insert; try done; u64_lia.
  - unfold supply; simpl. rewrite !map_sum_entry_insert. lia.
Qed.

Lemma unstake_applies a : tx_data tx = Unstake a → applies.
Proof.
  intros E. pose proof data_fits as Hd. pose proof next_nonce as Hnonce.
  pose proof nonces_wf_next as Hwn. pose proof key_length as Hk.
  pose proof Hv as (Hcov & _ & _)%is_valid_tx_spec.
  destruct Hrange as (_ & _ & Hslot & Hunlock).
  unfold applies, effect, shift, apply_tx, data_covered, get_balance, slashed_amount in *. fold k in Hcov |- *.
  rewrite E in *; simpl in Hd; rewrite ?bool_decide_spec in Hd. rewrite Z.add_opp_r.
  rewrite entry_sub_small by done. cbn [mbind outcome_bind].
  pose proof (u64_map_wf_entry _ k (wf_stakes _ Hst)).
  rewrite u64_add_small by done. cbn [mbind outcome_bind]. rewrite Hnonce.
  split_and!; [done| |].
  - pose proof Hst as []. split; simpl; try done.
    + apply u64_map_wf_insert; try done; u64_lia.
    + apply unstaking_wf_push; try done.
      unfold UNSTAKE_LOCK_EPOCHS, EPOCH_LENGTH in *. u64_lia.
  - unfold supply; simpl. rewrite map_sum_entry_insert, map_sum_insert, requests_sum_app.
    unfold entry_or. destruct (unstaking st !! k); unfold requests_sum; simpl; lia.
Qed.

Lemma slash_applies p : tx_data tx = Slash p → applies.
Proof.
  intros E. pose proof next_nonce as Hnonce. pose proof nonces_wf_next as Hwn.
  pose proof Hv as (Hcov & _ & _)%is_valid_tx_spec.
  unfold applies, effect, apply_tx, data_covered, slashed_amount in *. fold k.
  rewrite E in *. rewrite apply_slash_Ok by done. simpl. rewrite Hnonce.
  split_and!; [done| |].
  - destruct Hst. split; simpl; try done; by apply map_Forall_delete.
  - unfold supply; simpl. rewrite !map_sum_delete_any. unfold entry_or.
    destruct (unstaking st !! _), (stakes st !! _); simpl; unfold id, requests_sum; simpl; lia.
Qed.

Lemma valid_tx_effect : applies.
Proof.
  destruct (tx_data tx) eqn:E;
    eauto using transfer_applies, stake_applies, unstake_applies, slash_applies.
Qed.

Lemma valid_tx_applies :
  ∃ st', apply_tx st tx slot = Ret st' ∧ state_wf st' ∧ supply st' = supply st - slashed_amount st tx.
Proof. exists (effect st tx slot). exact valid_tx_effect. Qed.
End cases.


(** ** Nonces *)

Lemma apply_tx_nonces st tx slot st' :
  apply_tx st tx slot = Ret st' →
  ∃ v, u64_add (get_nonce st (tx_sender tx)) 1 = Ret v ∧
       nonces st' = <[verifying_key_to_bytes (tx_sender tx) := v]> (nonces st).
Proof.
  unfold apply_tx, get_nonce. intros E.
  destruct (tx_data tx) as [| | |p]; outcome_inv;
    repeat match goal with Hx : entry_add (nonces _) _ 1 = Ret _ |- _ =>
      apply entry_add_Ret in Hx as (? & ? & ->) end; simpl; eauto.
  unfold apply_slash in *. destruct (slash_proof_validate p); eauto.
Qed.

Lemma get_nonce_after st tx slot st' acct :
  apply_tx st tx slot = Ret st' →
  ∃ v, u64_add (get_nonce st (tx_sender tx)) 1 = Ret v ∧
       get_nonce st' acct = if decide (acct = tx_sender tx) then v else get_nonce st acct.
Proof.
  intros (v & Hv & Hn)%apply_tx_nonces. exists v. split; [done|].
  unfold get_nonce. rewrite Hn, entry_or_insert.
  destruct (decide (acct = tx_sender tx)) as [->|]; [by rewrite decide_True|].
  rewrite decide_False; [done|]. by intros ?%(inj verifying_key_to_bytes).
Qed.

Lemma is_u64_get_nonce st acct : state_wf st → is_u64 (get_nonce st acct).
Proof. intros Hst. apply u64_map_wf_entry, Hst. Qed.

(** replay protection: once a valid transaction has been applied it is no longer
    valid, in either build profile, even if the nonce wraps around. *)
Theorem applied_tx_not_replayable st tx slot st' :
  state_wf st → is_valid_tx st tx = true → apply_tx st tx slot = Ret st' →
  is_valid_tx st' tx = false.
Proof.
  intros Hst (_ & Hq & _)%is_valid_tx_spec Hap.
  destruct (get_nonce_after _ _ _ _ (tx_sender tx) Hap) as (v & Hv & Hn).
  rewrite decide_True in Hn by done.
  apply not_true_is_false. intros (_ & Hq' & _)%is_valid_tx_spec.
  apply u64_succ_ne in Hv; [congruence|by apply is_u64_get_nonce].
Qed.

(** applying any transaction, valid or not, to a well-formed state yields a
    well-formed state whenever it returns: amounts stay [u64]s and keys stay
    33 bytes long, in both build profiles. *)
Theorem apply_tx_preserves_wf st tx slot st' :
  state_wf st → transaction_fits tx → is_u64 slot → apply_tx st tx slot = Ret st' →
  state_wf st'.
Proof.
  intros Hst Hfit Hslot E.
  pose proof (length_verifying_key_to_bytes (tx_sender tx)) as Hk.
  assert (transaction_data_fits (tx_data tx)) as Hd
    by (destruct tx; simpl in *; by apply andb_True in Hfit as [[? _]%andb_True _]).
  assert (is_u64 1) by by vm_compute.
  pose proof Hst as [????]. unfold apply_tx in E.
  destruct (tx_data tx) as [rc a|a|a|p]; simpl in Hd; rewrite ?bool_decide_spec in Hd;
    outcome_inv.
  - pose proof (length_verifying_key_to_bytes rc).
    split; simpl; eauto using entry_add_wf, entry_sub_wf.
  - split; simpl; eauto using entry_add_wf, entry_sub_wf.
  - split; simpl; eauto using entry_add_wf, entry_sub_wf.
    apply unstaking_wf_push; try done. eapply u64_add_is_u64; [| |done]; done.
  - pose proof (apply_slash_wf st p Hst) as [].
    split; simpl; eauto using entry_add_wf.
Qed.

(** ** Transfers *)

(** a valid transfer takes the amount from the sender, gives it to the receiver
    and leaves every other balance alone; a transfer to oneself changes nothing. *)
Theorem transfer_moves_coins st tx slot rc a st' acct :
  state_wf st → supply st < u64_modulus → tx_in_range tx slot →
  is_valid_tx st tx = true → tx_data tx = Transfer rc a → apply_tx st tx slot = Ret st' →
  get_balance st' acct =
    get_balance st acct
    - (if decide (acct = tx_sender tx) then a else 0)
    + (if decide (acct = rc) then a else 0).
Proof.
  intros Hst Hsup Hrange Hv E Hap.
  pose proof (transfer_no_overflow st tx slot Hst Hsup Hrange Hv rc a E) as (_ & _ & Ha & Hcov & Hno).
  unfold apply_tx in Hap. rewrite E, entry_sub_small in Hap by done. cbn [mbind outcome_bind] in Hap.
  rewrite (entry_add_small _ (verifying_key_to_bytes rc) a) in Hap by done. outcome_inv.
  unfold get_balance; simpl. rewrite !entry_or_insert.
  destruct (decide (acct = rc)) as [->|Hr].
  - rewrite decide_True by done. rewrite (decide_ext _ (rc = tx_sender tx))
      by (split; [apply (inj _)|congruence]).
    case_decide; subst; lia.
  - rewrite decide_False by (by intros ?%(inj verifying_key_to_bytes)).
    rewrite (decide_ext _ (acct = tx_sender tx)) by (split; [apply (inj _)|congruence]).
    case_decide; subst; lia.
Qed.

(** ** Slashing *)

(** slashing with a valid proof removes the validator's stake and all its pending
    withdrawals and touches nothing else; with an invalid proof the state is
    returned unchanged together with the error. *)
Theorem apply_slash_effect st p st' r :
  apply_slash st p = (st', r) →
  r = slash_proof_validate p ∧ balances st' = balances st ∧ nonces st' = nonces st ∧
  (r ≠ Ok tt → st' = st) ∧
  (r = Ok tt → ∀ k,
     stakes st' !! k = (if decide (k = verifying_key_to_bytes (proof_validator p))
                        then None else stakes st !! k) ∧
     unstaking st' !! k = (if decide (k = verifying_key_to_bytes (proof_validator p))
                           then None else unstaking st !! k)).
Proof.
  unfold apply_slash. intros E.
  destruct (slash_proof_validate p) as [[]|e]; simplify_eq/=; split_and!; try done.
  intros _ k. rewrite !lookup_delete. by split; repeat case_decide; simplify_eq.
Qed.

(** The fee is never charged: it does not appear in [apply_tx]. *)
Lemma apply_tx_ignores_fee st s d q f f' sg slot :
  apply_tx st (mkTransaction s d q f sg) slot = apply_tx st (mkTransaction s d q f' sg) slot.
Proof. done. Qed.
End ledger.

(** ** Witnesses *)

Module LedgerWitness.
Import ToyCrypto ModelsWitness.
#[local] Existing Instance dev_host.

Definition alice : bytes := encode_key x05.
Definition st0 : State := mkState {[ alice := 100 ]} ∅ {[ encode_key x07 := 40 ]} ∅.
Definition pay : Transaction := toy_tx x05 (Transfer x06 30) 0 1.
Definition paid : State :=
  mkState (<[encode_key x06 := 30]> {[ alice := 70 ]}) {[ alice := 1 ]} {[ encode_key x07 := 40 ]} ∅.
Definition report : Transaction := toy_tx x05 (Slash equivocation) 0 1.

Lemma st0_wf : state_wf st0.
Proof.
  split; simpl; [|apply map_Forall_empty| |apply map_Forall_empty];
    apply map_Forall_singleton; by vm_compute.
Qed.

Lemma pay_in_range : tx_in_range pay 1.
Proof. split_and!; vm_compute; done. Qed.


Lemma applied_tx_not_replayable_witness :
  apply_tx st0 pay 1 = Ret paid ∧ is_valid_tx paid pay = false.
Proof.
  split; [vm_compute; reflexivity|].
  apply (applied_tx_not_replayable st0 pay 1 paid); [apply st0_wf|vm_compute; reflexivity..].
Defined.

Lemma apply_tx_preserves_wf_witness : apply_tx st0 pay 1 = Ret paid ∧ state_wf paid.
Proof.
  split; [vm_compute; reflexivity|].
  apply (apply_tx_preserves_wf st0 pay 1 paid); [apply st0_wf|by vm_compute..].
Defined.

Lemma transfer_moves_coins_witness : apply_tx st0 pay 1 = Ret paid ∧ get_balance paid x06 = 30.
Proof.
  assert (apply_tx st0 pay 1 = Ret paid) as E by (vm_compute; reflexivity).
  split; [exact E|].
  rewrite (transfer_moves_coins st0 pay 1 x06 30 paid x06 st0_wf);
    [vm_compute; reflexivity|vm_compute; reflexivity|apply pay_in_range|vm_compute; reflexivity
    |reflexivity|exact E].
Defined.

Lemma apply_slash_effect_witness :
  ∃ st', apply_slash st0 equivocation = (st', Ok tt) ∧ stakes st' !! encode_key x07 = None.
Proof.
  destruct (apply_slash st0 equivocation) as [st' r] eqn:E.
  destruct (apply_slash_effect st0 equivocation st' r E) as (Hr & _ & _ & _ & Hk).
  assert (r = Ok tt) as -> by (rewrite Hr; vm_compute; reflexivity).
  exists st'. split; [done|]. destruct (Hk eq_refl (encode_key x07)) as [Hs _].
  rewrite Hs. vm_compute. reflexivity.
Defined.
End LedgerWitness.
