(* ===== verification/Election.v ===== *)
(** * Stake-weighted validator selection

    Theorems about [get_expected_validator] of State.v. *)

From S2P Require Import Prelude.
From S2P Require Import Maps.
From S2P Require Import Crypto.
From S2P Require Import Models.
From S2P Require Import State.
From S2P Require Import Ledger.

#[global] Instance outcome_eq_dec {A} `{EqDecision A} : EqDecision (outcome A).
Proof. solve_decision. Defined.

Section election.
Context `{Target, Crypto, !CryptoLaws}.

(** The stake that counts: entries whose key decodes. *)
Definition total_stake (st : State) : Z := list_sum (valid_stakes st).*1.

(** The stake of a validator: of all the entries whose key decodes to it.  A key has more
    than one encoding, and a snapshot may hold entries under each of them. *)
Definition named_stake (vk : VerifyingKey) (l : list (Z * VerifyingKey)) : Z :=
  list_sum (filter (λ p, p.2 = vk) l).*1.
Definition stake_of (st : State) (vk : VerifyingKey) : Z := named_stake vk (valid_stakes st).

(** Every entry is filed under the encoding that transactions write. *)
Definition canonical_stakes (st : State) : Prop :=
  ∀ k s vk, stakes st !! k = Some s → verifying_key_from_bytes k = Ok vk → k = verifying_key_to_bytes vk.

Lemma valid_stakes_elem st s vk :
  (s, vk) ∈ valid_stakes st ↔ ∃ k, stakes st !! k = Some s ∧ verifying_key_from_bytes k = Ok vk.
Proof.
  unfold valid_stakes. rewrite list_elem_of_omap. split.
  - intros ([k s'] & Hk%elem_of_btree_iter & E). exists k.
    by destruct (verifying_key_from_bytes k) as [vk'|]; simplify_eq/=.
  - intros (k & Hk & E). exists (k, s). rewrite elem_of_btree_iter. split; [done|]. by rewrite E.
Qed.

Lemma valid_stakes_spec st s vk :
  canonical_stakes st → (s, vk) ∈ valid_stakes st ↔ stakes st !! verifying_key_to_bytes vk = Some s.
Proof.
  intros Hc. rewrite valid_stakes_elem. split.
  - intros (k & Hk & E). by rewrite <-(Hc k s vk Hk E).
  - intros Hk. exists (verifying_key_to_bytes vk). split; [done|]. apply verifying_key_from_to_bytes.
Qed.

Lemma valid_stakes_NoDup st : canonical_stakes st → NoDup (valid_stakes st).*2.
Proof.
  intros Hc. unfold valid_stakes.
  assert (∀ k s, (k, s) ∈ btree_iter (stakes st) → ∀ vk, verifying_key_from_bytes k = Ok vk →
    k = verifying_key_to_bytes vk) as Hl.
  { intros k s Hk%elem_of_btree_iter vk. by eapply Hc. }
  pose proof (btree_iter_NoDup (stakes st)) as Hnd. revert Hl Hnd.
  generalize (btree_iter (stakes st)). intros l.
  induction l as [|[k s] l IH]; simpl; [constructor|].
  intros Hk [Hnin Hnd]%NoDup_cons.
  assert (∀ k s, (k, s) ∈ l → ∀ vk, verifying_key_from_bytes k = Ok vk → k = verifying_key_to_bytes vk) as Hl.
  { intros k' s' Hin. eapply Hk. right. exact Hin. }
  destruct (verifying_key_from_bytes k) as [vk|] eqn:E; simpl; [|auto].
  apply NoDup_cons. split; [|auto].
  rewrite list_elem_of_fmap. intros ([s' vk'] & ? & Hin); simplify_eq/=.
  apply list_elem_of_omap in Hin as ([k' s''] & Hin & E').
  destruct (verifying_key_from_bytes k') as [vk''|] eqn:Ek'; simplify_eq/=.
  pose proof (Hk k s ltac:(left) vk' E) as ->. pose proof (Hl _ _ Hin _ Ek') as ->.
  apply Hnin, list_elem_of_fmap. eexists (_, _). split; [done|exact Hin].
Qed.

Lemma named_stake_in vk s l : NoDup l.*2 → (s, vk) ∈ l → named_stake vk l = s.
Proof.
  unfold named_stake. induction l as [|[s0 vk0] l IH]; [by intros _ ?%not_elem_of_nil|].
  cbn [fmap list_fmap fst snd]. intros [Hnin Hnd]%NoDup_cons Hin. rewrite filter_cons. cbn [snd].
  case_decide as Hd; [subst vk0|].
  - assert (filter (λ p, p.2 = vk) l = []) as ->.
    { apply elem_of_nil_inv. intros [s1 vk1] [Hd ?]%list_elem_of_filter. simpl in Hd. subst vk1.
      apply Hnin, list_elem_of_fmap. by eexists (_, _). }
    apply elem_of_cons in Hin as [[= ->]|Hin]; [simpl; lia|].
    destruct Hnin. apply list_elem_of_fmap. by eexists (_, _).
  - apply elem_of_cons in Hin as [[= -> ->]|Hin]; [done|]. by apply IH.
Qed.

Lemma named_stake_out vk l : vk ∉ l.*2 → named_stake vk l = 0.
Proof.
  intros Hn. unfold named_stake.
  assert (filter (λ p, p.2 = vk) l = []) as ->; [|done].
  apply elem_of_nil_inv. intros [s1 vk1] [Hd ?]%list_elem_of_filter. simpl in Hd. subst vk1.
  apply Hn, list_elem_of_fmap. by eexists (_, _).
Qed.

(** In a state that transactions made, the stake of a validator is its entry. *)
Lemma stake_of_canonical st vk :
  canonical_stakes st → stake_of st vk = entry_or 0 (verifying_key_to_bytes vk) (stakes st).
Proof.
  intros Hc. unfold stake_of, entry_or.
  destruct (stakes st !! verifying_key_to_bytes vk) as [s|] eqn:E; simpl.
  - apply named_stake_in; [by apply valid_stakes_NoDup|by apply valid_stakes_spec].
  - apply named_stake_out. rewrite list_elem_of_fmap. intros ([s vk'] & ? & Hin); simplify_eq/=.
    apply valid_stakes_spec in Hin; [congruence|done].
Qed.

Lemma canonical_insert (m : gmap bytes Z) vk0 v :
  (∀ k s vk, m !! k = Some s → verifying_key_from_bytes k = Ok vk → k = verifying_key_to_bytes vk) →
  ∀ k s vk, <[verifying_key_to_bytes vk0 := v]> m !! k = Some s → verifying_key_from_bytes k = Ok vk →
    k = verifying_key_to_bytes vk.
Proof.
  intros Hm k s vk [[<- _]|[_ Hk]]%lookup_insert_Some; [|by eapply Hm].
  rewrite verifying_key_from_to_bytes. by intros [= ->].
Qed.

Lemma canonical_stakes_new : canonical_stakes State_new.
Proof. intros k s vk Hk. simpl in Hk. by rewrite lookup_empty in Hk. Qed.

Lemma apply_slash_canonical st p : canonical_stakes st → canonical_stakes (apply_slash st p).1.
Proof.
  intros Hc. unfold apply_slash. destruct (slash_proof_validate p); [|done].
  intros k s vk Hk. simpl in Hk. apply lookup_delete_Some in Hk as [_ Hk]. by eapply Hc.
Qed.

Lemma apply_tx_canonical st tx slot st' :
  canonical_stakes st → apply_tx st tx slot = Ret st' → canonical_stakes st'.
Proof.
  unfold apply_tx. intros Hc E. destruct (tx_data tx) as [| | |p]; outcome_inv;
    repeat match goal with
    | Hx : entry_add (stakes _) _ _ = Ret _ |- _ => apply entry_add_Ret in Hx as (? & _ & ->)
    | Hx : entry_sub (stakes _) _ _ = Ret _ |- _ => apply entry_sub_Ret in Hx as (? & _ & ->)
    end; try exact Hc; try (by intros k s vk; apply canonical_insert).
  intros k s vk. by apply (apply_slash_canonical st p Hc).
Qed.

Lemma valid_stakes_u64 st : state_wf st → Forall (λ p, is_u64 p.1) (valid_stakes st).
Proof.
  intros Hst. apply Forall_forall. intros [s vk] (k & Hk & _)%valid_stakes_elem.
  by apply (wf_stakes _ Hst) in Hk as [_ ?].
Qed.

Lemma u64_sum_small acc l :
  Forall (λ x, 0 ≤ x) l → acc + list_sum l < u64_modulus → u64_sum acc l = Ret (acc + list_sum l).
Proof.
  intros Hl. revert acc. induction Hl as [|x l Hx Hl IH]; intros acc Hsum; simpl in *.
  - f_equal. lia.
  - pose proof (list_sum_nonneg l Hl).
    rewrite u64_add_small by lia. cbn [mbind outcome_bind]. rewrite IH by lia. f_equal. lia.
Qed.

Lemma valid_stakes_nonneg st : state_wf st → Forall (λ x, 0 ≤ x) (valid_stakes st).*1.
Proof.
  intros Hst. apply Forall_fmap. eapply Forall_impl; [by apply valid_stakes_u64|].
  simpl. intros [s vk] ?. simpl in *. u64_lia.
Qed.

(** The outcome in terms of the ticket. *)
Lemma get_expected_validator_eq st h :
  state_wf st → 0 < total_stake st < u64_modulus →
  get_expected_validator st h = select_validator (h mod total_stake st) 0 (valid_stakes st).
Proof.
  intros Hst [Hpos Hmax]. unfold get_expected_validator, total_stake in *.
  rewrite bool_decide_false.
  - rewrite u64_sum_small; [|by apply valid_stakes_nonneg|lia].
    rewrite Z.add_0_l. cbn [mbind outcome_bind]. by rewrite bool_decide_false by lia.
  - intros E. unfold valid_stakes in Hpos. rewrite E, btree_iter_empty in Hpos. simpl in Hpos. lia.
Qed.

Lemma select_validator_total t cum l :
  Forall (λ p, 0 ≤ p.1) l → cum ≤ t < cum + list_sum l.*1 → cum + list_sum l.*1 < u64_modulus →
  ∃ s vk, select_validator t cum l = Ret (Some vk) ∧ (s, vk) ∈ l ∧ 0 < s.
Proof.
  intros Hl. revert cum. induction Hl as [|[s vk] l Hs Hl IH]; intros cum Ht Hmax;
    [simpl in Ht; lia|].
  cbn [select_validator fmap list_fmap fst snd list_sum foldr] in *. fold (list_sum l.*1) in *.
  assert (0 ≤ list_sum l.*1) by (apply list_sum_nonneg; by apply Forall_fmap).
  rewrite u64_add_small by lia. cbn [mbind outcome_bind]. case_bool_decide.
  - exists s, vk. split_and!; [done|left|lia].
  - destruct (IH (cum + s)) as (s' & vk' & E & Hin & Hpos); [lia..|].
    exists s', vk'. split_and!; [done|by right|done].
Qed.

Lemma named_stake_cons vk s vk0 l :
  named_stake vk ((s, vk0) :: l) = (if decide (vk0 = vk) then s else 0) + named_stake vk l.
Proof. unfold named_stake. rewrite filter_cons. simpl. case_decide; simpl; [done|lia]. Qed.

Lemma named_stake_nonneg vk l : Forall (λ p, 0 ≤ p.1) l → 0 ≤ named_stake vk l.
Proof.
  intros Hl. apply list_sum_nonneg, Forall_fmap, Forall_forall. intros p [_ Hp]%list_elem_of_filter.
  by apply (proj1 (Forall_forall _ _) Hl).
Qed.

Lemma named_stake_pos vk s l : Forall (λ p, 0 ≤ p.1) l → (s, vk) ∈ l → 0 < s → 0 < named_stake vk l.
Proof.
  induction 1 as [|[s0 vk0] l Hs Hl IH]; intros Hin Hpos; [by apply not_elem_of_nil in Hin|].
  rewrite named_stake_cons. pose proof (named_stake_nonneg vk l Hl). simpl in Hs.
  apply elem_of_cons in Hin as [[= -> ->]|Hin]; [rewrite decide_True by done; lia|].
  specialize (IH Hin Hpos). case_decide; lia.
Qed.

(** while the total stake is positive and fits a [u64], some validator is always
    expected, and it is one that has a positive stake in the state: the trailing
    [None] of the search is never reached. *)
Theorem expected_validator_has_stake st h :
  state_wf st → 0 < total_stake st < u64_modulus →
  ∃ vk, get_expected_validator st h = Ret (Some vk) ∧ 0 < stake_of st vk.
Proof.
  intros Hst Ht. rewrite get_expected_validator_eq by done.
  destruct (select_validator_total (h mod total_stake st) 0 (valid_stakes st))
    as (s & vk & -> & Hin & Hs).
  - eapply Forall_impl; [by apply valid_stakes_u64|]. intros [??] ?; simpl in *. u64_lia.
  - rewrite Z.add_0_l. apply (Z.mod_pos_bound _ (total_stake st)), Ht.
  - apply Ht.
  - exists vk. split; [done|]. unfold stake_of. eapply named_stake_pos; [|exact Hin|done].
    eapply Forall_impl; [by apply valid_stakes_u64|]. intros [??] ?; simpl in *. u64_lia.
Qed.

(** Tickets won by [vk] in an interval of tickets. *)
Definition wins (vk : VerifyingKey) (l : list (Z * VerifyingKey)) (cum : Z) (ts : list Z) : nat :=
  length (filter (λ t, select_validator t cum l = Ret (Some vk)) ts).

Lemma length_filter_const {A} (P : A → Prop) `{∀ x, Decision (P x)} (Q : Prop) `{Decision Q} l :
  (∀ x, x ∈ l → P x ↔ Q) → length (filter P l) = if decide Q then length l else 0%nat.
Proof.
  intros HPQ. induction l as [|x l IH]; simpl; [by case_decide|].
  rewrite filter_cons. rewrite (decide_ext (P x) Q) by (apply HPQ; left).
  assert (∀ y, y ∈ l → P y ↔ Q) as Hl by (intros y Hy; apply HPQ; by right).
  specialize (IH Hl). case_decide; simpl; auto with arith.
Qed.

Lemma length_filter_ext {A} (P Q : A → Prop) `{∀ x, Decision (P x), ∀ x, Decision (Q x)} l :
  (∀ x, x ∈ l → P x ↔ Q x) → length (filter P l) = length (filter Q l).
Proof.
  induction l as [|x l IH]; intros HPQ; [done|]. rewrite !filter_cons.
  rewrite (decide_ext (P x) (Q x)) by (apply HPQ; left).
  specialize (IH (λ y Hy, HPQ y (list_elem_of_further _ _ _ Hy))). case_decide; simpl; auto.
Qed.

(** The tickets of the interval of the first candidate, and the others. *)
Lemma wins_cons vk s vk0 l cum :
  0 ≤ s → Forall (λ p, 0 ≤ p.1) l → cum + (s + list_sum l.*1) < u64_modulus →
  wins vk ((s, vk0) :: l) cum (seqZ cum (s + list_sum l.*1)) =
    ((if decide (vk0 = vk) then Z.to_nat s else 0) +
     wins vk l (cum + s) (seqZ (cum + s) (list_sum l.*1)))%nat.
Proof.
  intros Hs Hl Hmax.
  assert (0 ≤ list_sum l.*1) by (apply list_sum_nonneg; by apply Forall_fmap).
  unfold wins. rewrite seqZ_app, filter_app, length_app by lia. f_equal.
  - rewrite (length_filter_const _ (vk0 = vk)), length_seqZ; [done|].
    intros t [??]%elem_of_seqZ. simpl. rewrite u64_add_small by lia. cbn [mbind outcome_bind].
    rewrite bool_decide_true by lia. naive_solver.
  - apply length_filter_ext. intros t [??]%elem_of_seqZ. simpl.
    rewrite u64_add_small by lia. cbn [mbind outcome_bind]. by rewrite bool_decide_false by lia.
Qed.

(** A candidate wins as many tickets as the stakes under its name add up to. *)
Lemma wins_named vk l cum :
  Forall (λ p, 0 ≤ p.1) l → cum + list_sum l.*1 < u64_modulus →
  Z.of_nat (wins vk l cum (seqZ cum (list_sum l.*1))) = named_stake vk l.
Proof.
  intros Hl. revert cum. induction Hl as [|[s vk0] l Hs Hl IH]; intros cum Hmax; [done|].
  rewrite named_stake_cons. cbn [fmap list_fmap fst snd list_sum foldr] in *. fold (list_sum l.*1) in *.
  rewrite wins_cons by done. rewrite Nat2Z.inj_add, IH by lia. case_decide; lia.
Qed.

(** C30: selection is exactly proportional to stake.  In a well-formed state whose total
    stake fits a [u64], over the heights from 0 up to the total stake, the number of
    heights for which a validator is expected is the sum of the stakes filed under keys
    that decode to it, and the schedule is periodic, since only the height modulo the
    total matters.  In a state that transactions made that sum is the validator's own
    entry: they file every stake under one encoding of the key, and keep that so. *)
Theorem expected_validator_proportional st vk :
  state_wf st → 0 < total_stake st < u64_modulus →
  Z.of_nat (length (filter (λ h, get_expected_validator st h = Ret (Some vk))
                      (seqZ 0 (total_stake st)))) = stake_of st vk ∧
  (∀ h, get_expected_validator st (h + total_stake st) = get_expected_validator st h) ∧
  (canonical_stakes st →
     stake_of st vk = entry_or 0 (verifying_key_to_bytes vk) (stakes st) ∧
     ∀ tx slot st', apply_tx st tx slot = Ret st' → canonical_stakes st').
Proof.
  intros Hst Ht. split_and!.
  - rewrite (length_filter_ext _ (λ t, select_validator t 0 (valid_stakes st) = Ret (Some vk))).
    2: { intros h [??]%elem_of_seqZ. rewrite get_expected_validator_eq by done.
         by rewrite Z.mod_small by lia. }
    apply wins_named; [|apply Ht].
    eapply Forall_impl; [by apply valid_stakes_u64|]. intros [??] ?; simpl in *. u64_lia.
  - intros h. rewrite !get_expected_validator_eq by done. f_equal.
    rewrite <-(Z.mul_1_l (total_stake st)) at 1. by rewrite Z.mod_add by lia.
  - intros Hc. split; [by apply stake_of_canonical|]. intros tx slot st'. by apply apply_tx_canonical.
Qed.

Lemma select_validator_elem t cum l vk :
  select_validator t cum l = Ret (Some vk) → vk ∈ l.*2.
Proof.
  revert cum. induction l as [|[s vk'] l IH]; simpl; intros cum E; [done|].
  apply bind_Ret in E as (c & _ & E). case_bool_decide; simplify_eq; [left|right; eauto].
Qed.

(** a slashed validator is never expected again while it does not stake anew:
    after [apply_slash] with a valid proof no height selects the slashed key, even
    if the stakes that remain overflow the sum.  (An entry under another encoding of the
    key would survive: see [canonical_stakes].) *)
Theorem slashed_validator_not_expected st p st' h :
  canonical_stakes st → apply_slash st p = (st', Ok tt) →
  get_expected_validator st' h ≠ Ret (Some (proof_validator p)).
Proof.
  intros Hst E Hsel. pose proof (apply_slash_canonical st p Hst) as Hst'. rewrite E in Hst'.
  unfold get_expected_validator in Hsel. case_bool_decide; [done|].
  apply bind_Ret in Hsel as (total & _ & Hsel). case_bool_decide; [done|].
  apply select_validator_elem, list_elem_of_fmap in Hsel as ([s vk] & Hvk & Hin).
  apply valid_stakes_spec in Hin; [|done]. simpl in Hvk. subst vk.
  destruct (slash_proof_validate p) as [[]|] eqn:Ep; unfold apply_slash in E;
    rewrite Ep in E; simplify_eq/=.
  by rewrite lookup_delete_eq in Hin.
Qed.
End election.

(** ** Witnesses *)

Module ElectionWitness.
Import ToyCrypto ModelsWitness.
#[local] Existing Instance dev_host.

(** Two validators, with stakes 1 and 2. *)
Definition staked : State :=
  mkState ∅ ∅ (<[encode_key x05 := 1]> {[ encode_key x07 := 2 ]}) ∅.

Lemma staked_wf : state_wf staked.
Proof.
  split; simpl; try apply map_Forall_empty.
  apply u64_map_wf_insert; [|by vm_compute..]. apply map_Forall_singleton. by vm_compute.
Qed.

Definition alice : VerifyingKey := x05.
Definition bob : VerifyingKey := x07.

Lemma staked_canonical : canonical_stakes staked.
Proof.
  unfold canonical_stakes. intros k s vk. apply (canonical_insert {[ encode_key x07 := 2 ]} alice 1).
  clear. intros k s vk. apply (canonical_insert ∅ bob 2). intros ??? Hk. by rewrite lookup_empty in Hk.
Qed.

Lemma staked_total : total_stake staked = 3.
Proof. vm_compute. reflexivity. Qed.

Lemma expected_validator_has_stake_witness :
  ∃ vk, get_expected_validator staked 5 = Ret (Some vk) ∧ 0 < stake_of staked vk.
Proof.
  apply expected_validator_has_stake; [apply staked_wf|].
  rewrite staked_total. by vm_compute.
Defined.

Lemma expected_validator_proportional_witness :
  Z.of_nat (length (filter (λ h, get_expected_validator staked h = Ret (Some bob))
                      (seqZ 0 (total_stake staked)))) = 2 ∧
  stake_of staked bob = entry_or 0 (verifying_key_to_bytes bob) (stakes staked).
Proof.
  destruct (expected_validator_proportional staked bob staked_wf) as (Hn & _ & Hc);
    [rewrite staked_total; by vm_compute|].
  split; [rewrite Hn; vm_compute; reflexivity|]. apply Hc, staked_canonical.
Defined.

(** Entries under both encodings of one key: the validator is expected for the sum. *)
Lemma two_encodings_one_validator :
  let st := mkState ∅ ∅ (<[encode_key x07 := 2]> {[ compact_key x07 := 1 ]}) ∅ in
  stake_of st bob = 3 ∧ entry_or 0 (verifying_key_to_bytes bob) (stakes st) = 2.
Proof. vm_compute. by split. Qed.

(** The signer of the equivocation of Models.v loses its stake. *)
Lemma slashed_validator_not_expected_witness :
  get_expected_validator (apply_slash staked equivocation).1 0
    ≠ Ret (Some (proof_validator equivocation)).
Proof.
  apply (slashed_validator_not_expected staked); [apply staked_canonical|].
  vm_compute. reflexivity.
Defined.
End ElectionWitness.
