(* ===== verification/Merkle.v ===== *)
(** * The balance Merkle root

    Theorems about [compute_state_root] of State.v.  The proof goes through the
    tree whose nodes are the hashed messages: equal roots give equal trees or two
    messages of the trees that collide, and a tree determines the leaves it was
    built from, even though an odd last node is paired with itself. *)

From S2P Require Import Prelude.
From S2P Require Import Maps.
From S2P Require Import Crypto.
From S2P Require Import Models.
From S2P Require Import State.

(** ** Lists with repetitions *)

Section dups.
Context {A : Type} `{EqDecision A}.
Implicit Types l k : list A.

Lemma remove_dups_NoDup l : NoDup l → remove_dups l = l.
Proof. induction 1 as [|x l Hx _ IH]; simpl; [done|]. case_decide; congruence. Qed.

Lemma remove_dups_app_ext l k1 k2 :
  (∀ x, x ∈ k1 ↔ x ∈ k2) → remove_dups k1 = remove_dups k2 →
  remove_dups (l ++ k1) = remove_dups (l ++ k2).
Proof.
  intros Hk Hr. induction l as [|x l IH]; simpl; [done|].
  repeat case_decide; rewrite ?elem_of_app in *; naive_solver congruence.
Qed.

Lemma remove_dups_app_subseteq l k : l ⊆ k → remove_dups (l ++ k) = remove_dups k.
Proof.
  induction l as [|x l IH]; simpl; [done|]. intros Hs.
  case_decide as Hx; [|destruct Hx; apply elem_of_app; right; apply Hs; left].
  apply IH. intros y Hy. apply Hs. by right.
Qed.
End dups.

(** ** Trees of messages *)

Inductive tree : Type :=
| Leaf (message : bytes)
| Node (l r : tree).

Section merkle.
Context `{Crypto}.

Fixpoint tree_message (t : tree) : bytes :=
  match t with
  | Leaf m => m
  | Node l r => Sha256_digest (tree_message l) ++ Sha256_digest (tree_message r)
  end.
Definition tree_hash (t : tree) : bytes := Sha256_digest (tree_message t).

Fixpoint tree_messages (t : tree) : list bytes :=
  tree_message t ::
    match t with Leaf _ => [] | Node l r => tree_messages l ++ tree_messages r end.

Fixpoint leaves (t : tree) : list bytes :=
  match t with Leaf m => [m] | Node l r => leaves l ++ leaves r end.

Fixpoint tree_level (ts : list tree) : list tree :=
  match ts with
  | l :: r :: rest => Node l r :: tree_level rest
  | [l] => [Node l l]
  | [] => []
  end.

Fixpoint tree_reduce (n : nat) (ts : list tree) : list tree :=
  match n with
  | O => ts
  | S n => tree_reduce n (if bool_decide (1 < length ts)%nat then tree_level ts else ts)
  end.

(** Induction on a list two elements at a time. *)
Lemma list_pair_ind {A} (P : list A → Prop) :
  P [] → (∀ x, P [x]) → (∀ x y l, P l → P (x :: y :: l)) → ∀ l, P l.
Proof.
  intros H0 H1 H2 l. enough (P l ∧ ∀ x, P (x :: l)) by tauto.
  induction l as [|y l [IH1 IH2]]; split; auto.
Qed.

Lemma map_tree_level ts : map tree_hash (tree_level ts) = merkle_level (map tree_hash ts).
Proof. induction ts as [|x|x y l IH] using list_pair_ind; simpl; [done..|by rewrite IH]. Qed.

Lemma map_tree_reduce n ts :
  map tree_hash (tree_reduce n ts) = merkle_reduce n (map tree_hash ts).
Proof.
  revert ts. induction n as [|n IH]; intros ts; simpl; [done|].
  rewrite IH, length_map. case_bool_decide; by rewrite ?map_tree_level.
Qed.

(** ** The loop ends *)

Lemma length_merkle_level l : length (merkle_level l) = Nat.div2 (S (length l)).
Proof. induction l as [|x|x y l IH] using list_pair_ind; simpl in *; [done..|]. by rewrite IH. Qed.

Lemma merkle_level_shrinks l :
  (1 < length l)%nat → (0 < length (merkle_level l) < length l)%nat.
Proof.
  intros Hl. rewrite length_merkle_level. destruct (length l) as [|[|n]]; [lia..|].
  change (Nat.div2 (S (S (S n)))) with (S (Nat.div2 (S n))).
  pose proof (Nat.div2_decr n (S n)). rewrite Nat.div2_div.
  pose proof (Nat.div_lt (S n) 2). lia.
Qed.

Lemma merkle_reduce_stable n l : (length l ≤ 1)%nat → merkle_reduce n l = l.
Proof. induction n; simpl; [done|]. intros. rewrite bool_decide_false by lia. auto. Qed.

Lemma merkle_reduce_enough m n l :
  (length l ≤ m)%nat → (length l ≤ n)%nat → merkle_reduce n l = merkle_reduce m l.
Proof.
  revert n l. induction m as [|m IH]; intros n l Hm Hn.
  { destruct l; simpl in *; [by rewrite !merkle_reduce_stable by (simpl; lia)|lia]. }
  destruct (decide (length l ≤ 1)%nat) as [Hs|Hs].
  { by rewrite !merkle_reduce_stable. }
  destruct n as [|n]; [lia|]. simpl. rewrite bool_decide_true by lia.
  pose proof (merkle_level_shrinks l). apply IH; lia.
Qed.

Lemma length_merkle_reduce n l :
  (length l ≤ n)%nat → length (merkle_reduce n l) = Nat.min 1 (length l).
Proof.
  revert l. induction n as [|n IH]; intros l Hn; cbn [merkle_reduce]; [lia|].
  case_bool_decide; [|rewrite merkle_reduce_stable; lia].
  pose proof (merkle_level_shrinks l). rewrite IH; lia.
Qed.

(** the [while hashes.len() > 1] loop of [compute_state_root] ends: after as many
    rounds as there are leaves at most one hash is left (exactly one if there was
    any leaf), so the loop condition is false, and more rounds change nothing. *)
Theorem merkle_reduce_terminates hashes n :
  (length hashes ≤ n)%nat →
  length (merkle_reduce n hashes) = Nat.min 1 (length hashes) ∧
  merkle_reduce n hashes = merkle_reduce (length hashes) hashes.
Proof.
  intros Hn. rewrite (merkle_reduce_enough (length hashes)) by lia.
  by split; [apply length_merkle_reduce|].
Qed.

(** ** Trees determine their leaves *)

Definition level_leaves (ts : list tree) : list bytes := ts ≫= leaves.

Lemma tree_level_leaves ts :
  (∀ m, m ∈ level_leaves (tree_level ts) ↔ m ∈ level_leaves ts) ∧
  remove_dups (level_leaves (tree_level ts)) = remove_dups (level_leaves ts).
Proof.
  unfold level_leaves. induction ts as [|x|x y l [IH1 IH2]] using list_pair_ind; [done|..]; simpl.
  - rewrite !app_nil_r. split; [intros m; rewrite elem_of_app; naive_solver|].
    by apply remove_dups_app_subseteq.
  - rewrite <-app_assoc. split; [intros m; rewrite !elem_of_app; naive_solver|].
    rewrite !(assoc_L (++)). by apply remove_dups_app_ext.
Qed.

Lemma tree_reduce_leaves n ts :
  remove_dups (level_leaves (tree_reduce n ts)) = remove_dups (level_leaves ts).
Proof.
  revert ts. induction n as [|n IH]; intros ts; simpl; [done|].
  rewrite IH. case_bool_decide; [|done]. apply tree_level_leaves.
Qed.

Lemma level_leaves_Leaf l : level_leaves (map Leaf l) = l.
Proof.
  induction l as [|m l IH]; [done|].
  change (m :: level_leaves (map Leaf l) = m :: l). by rewrite IH.
Qed.

(** ** Equal roots *)

Context `{!CryptoLaws}.

(** Leaves of at most 63 bytes cannot be mistaken for inner nodes. *)
Fixpoint short_leaves (t : tree) : Prop :=
  match t with Leaf m => (length m < 64)%nat | Node l r => short_leaves l ∧ short_leaves r end.

Lemma tree_message_Node l r : length (tree_message (Node l r)) = 64%nat.
Proof. simpl. by rewrite length_app, !length_Sha256_digest. Qed.

Lemma tree_message_elem t : tree_message t ∈ tree_messages t.
Proof. destruct t; left. Qed.

Lemma tree_hash_inj t1 t2 :
  short_leaves t1 → short_leaves t2 → tree_hash t1 = tree_hash t2 →
  t1 = t2 ∨ collision_among (tree_messages t1 ++ tree_messages t2).
Proof.
  revert t2. induction t1 as [m1|l1 IHl r1 IHr]; intros t2 S1 S2 E;
    (destruct (Sha256_inj_or _ _ E) as [Em|Hc];
      [|right; eapply collision_among_intro; [..|exact Hc]; apply elem_of_app;
        auto using tree_message_elem]).
  - destruct t2 as [m2|l2 r2]; [left; simpl in Em; congruence|].
    apply (f_equal length) in Em. rewrite tree_message_Node in Em. simpl in *. lia.
  - destruct t2 as [m2|l2 r2].
    { apply (f_equal length) in Em. rewrite tree_message_Node in Em. simpl in *. lia. }
    simpl in Em. apply app_inj_1 in Em as [El Er]; [|by rewrite !length_Sha256_digest].
    destruct S1, S2.
    destruct (IHl l2) as [->|Hc]; [done..| |right; revert Hc; apply collision_among_mono; set_solver].
    destruct (IHr r2) as [->|Hc]; [done..|by left|right; revert Hc; apply collision_among_mono; set_solver].
Qed.

Lemma tree_reduce_short n ts :
  Forall short_leaves ts → Forall short_leaves (tree_reduce n ts).
Proof.
  assert (∀ ts, Forall short_leaves ts → Forall short_leaves (tree_level ts)) as Hlevel.
  { clear. intros ts. induction ts as [|x|x y l IH] using list_pair_ind; simpl; [done|..].
    - rewrite !Forall_singleton. by split.
    - rewrite !Forall_cons. simpl. naive_solver. }
  revert ts. induction n as [|n IH]; intros ts Hts; simpl; [done|].
  apply IH. case_bool_decide; auto.
Qed.

(** The messages hashed for the leaves and for the whole tree. *)
Definition leaf_message (entry : bytes * Z) : bytes := entry.1 ++ to_bytes entry.2.
Definition leaf_messages (st : State) : list bytes :=
  map leaf_message (sort_by_key (btree_iter (balances st))).
Definition root_trees (st : State) : list tree :=
  tree_reduce (length (leaf_messages st)) (map Leaf (leaf_messages st)).
Definition hashed_messages (st : State) : list bytes := root_trees st ≫= tree_messages.

Lemma compute_state_root_tree st :
  compute_state_root st = default (replicate 32 x00) (last (map tree_hash (root_trees st))).
Proof.
  unfold compute_state_root, root_trees. rewrite map_tree_reduce. f_equal. f_equal.
  unfold leaf_messages. rewrite !length_map, !map_map. f_equal.
  apply map_ext. by intros [k v].
Qed.

Lemma length_root_trees st : length (root_trees st) = Nat.min 1 (length (leaf_messages st)).
Proof.
  rewrite <-(length_map tree_hash). unfold root_trees. rewrite map_tree_reduce.
  by rewrite length_merkle_reduce; rewrite !length_map.
Qed.

Lemma length_root_trees_le st : (length (root_trees st) ≤ 1)%nat.
Proof. rewrite length_root_trees. lia. Qed.

Lemma sorted_balances st : sort_by_key (btree_iter (balances st)) ≡ₚ map_to_list (balances st).
Proof. unfold sort_by_key. by rewrite merge_sort_Permutation, btree_iter_perm. Qed.

Lemma leaf_message_inj (p q : bytes * Z) :
  length p.1 = length q.1 → is_u64 p.2 → is_u64 q.2 → leaf_message p = leaf_message q → p = q.
Proof.
  destruct p as [k v], q as [k' v']; unfold leaf_message; simpl. intros Hl Hv Hv' E.
  apply app_inj_1 in E as [-> E]; [|done].
  destruct (u64_to_be_bytes_inj_app v v' [] []) as [-> _]; [done..| |done].
  by rewrite !app_nil_r.
Qed.

Lemma balances_entry st p :
  state_wf st → p ∈ sort_by_key (btree_iter (balances st)) →
  length p.1 = PUBLIC_KEY_SIZE ∧ is_u64 p.2.
Proof.
  intros Hst. rewrite sorted_balances. destruct p as [k v].
  intros Hk%elem_of_map_to_list. by apply (wf_balances _ Hst) in Hk.
Qed.

Lemma leaf_messages_NoDup st : state_wf st → NoDup (leaf_messages st).
Proof.
  intros Hst. unfold leaf_messages.
  apply (NoDup_fmap_2_strong leaf_message).
  - intros p q Hp%balances_entry Hq%balances_entry E; [|done..].
    apply leaf_message_inj; naive_solver congruence.
  - rewrite sorted_balances. apply NoDup_map_to_list.
Qed.

Lemma leaf_messages_short st : state_wf st → Forall short_leaves (map Leaf (leaf_messages st)).
Proof.
  intros Hst. apply Forall_forall. intros t. unfold leaf_messages. rewrite map_map.
  intros (p & -> & Hp)%list_elem_of_fmap. simpl. unfold leaf_message. rewrite length_app.
  apply balances_entry in Hp as [-> _]; [|done].
  unfold to_bytes, u64_ToBytes. rewrite length_u64_to_be_bytes. unfold PUBLIC_KEY_SIZE. lia.
Qed.

Lemma leaf_messages_balances st1 st2 :
  state_wf st1 → state_wf st2 → leaf_messages st1 = leaf_messages st2 →
  balances st1 = balances st2.
Proof.
  intros H1 H2 E.
  assert (sort_by_key (btree_iter (balances st1)) = sort_by_key (btree_iter (balances st2))) as E'.
  { unfold leaf_messages in E. pose proof (λ p, balances_entry st1 p H1) as B1.
    pose proof (λ p, balances_entry st2 p H2) as B2. revert E B1 B2.
    generalize (sort_by_key (btree_iter (balances st2))).
    induction (sort_by_key (btree_iter (balances st1))) as [|p l IH]; intros [|q l'] E B1 B2; try done.
    simpl in E. injection E as Ep El.
    apply leaf_message_inj in Ep as ->; [|destruct (B1 p), (B2 q); [left..|congruence]
                                         |apply B1; left|apply B2; left].
    f_equal. apply IH; [done|..]; intros ??; [apply B1|apply B2]; by right. }
  apply map_to_list_inj. by rewrite <-!sorted_balances, E'.
Qed.

Lemma root_trees_leaves st :
  state_wf st → remove_dups (level_leaves (root_trees st)) = leaf_messages st.
Proof.
  intros Hst. unfold root_trees. rewrite tree_reduce_leaves, level_leaves_Leaf.
  apply remove_dups_NoDup, leaf_messages_NoDup, Hst.
Qed.

(** C29: the state root commits to the balances: two well-formed states with the same
    root have the same balances, unless two of the messages hashed for the two
    roots collide, or one of them hashes to 32 zero bytes (the root of the state
    without balances).  In particular padding an odd level with a copy of its
    last hash does not let two different ledgers share a root. *)
Theorem state_root_binds_balances st1 st2 :
  state_wf st1 → state_wf st2 → compute_state_root st1 = compute_state_root st2 →
  balances st1 = balances st2 ∨
  collision_among (hashed_messages st1 ++ hashed_messages st2) ∨
  (∃ m, m ∈ hashed_messages st1 ++ hashed_messages st2 ∧ Sha256_digest m = replicate 32 x00).
Proof.
  intros H1 H2. rewrite !compute_state_root_tree.
  pose proof (length_root_trees_le st1) as L1. pose proof (length_root_trees_le st2) as L2.
  pose proof (root_trees_leaves st1 H1) as R1. pose proof (root_trees_leaves st2 H2) as R2.
  pose proof (tree_reduce_short (length (leaf_messages st1)) _ (leaf_messages_short st1 H1)) as S1.
  pose proof (tree_reduce_short (length (leaf_messages st2)) _ (leaf_messages_short st2 H2)) as S2.
  fold (root_trees st1) in S1. fold (root_trees st2) in S2.
  unfold hashed_messages.
  destruct (root_trees st1) as [|t1 [|]] eqn:E1, (root_trees st2) as [|t2 [|]] eqn:E2;
    simpl in *; try lia; rewrite ?app_nil_r; intros E.
  - left. apply leaf_messages_balances; [done..|congruence].
  - right. right. exists (tree_message t2). split; [apply tree_message_elem|done].
  - right. right. exists (tree_message t1). split; [apply tree_message_elem|done].
  - rewrite Forall_singleton in S1, S2.
    destruct (tree_hash_inj t1 t2 S1 S2 E) as [->|Hc]; [left|by right; left].
    apply leaf_messages_balances; [done..|]. congruence.
Qed.

(** The root covers the balances only. *)
Lemma state_root_ignores_the_rest b n1 s1 u1 n2 s2 u2 :
  compute_state_root (mkState b n1 s1 u1) = compute_state_root (mkState b n2 s2 u2).
Proof. done. Qed.
End merkle.

(** ** Witnesses *)

Module MerkleWitness.
Import ToyCrypto.

Definition ledger (v : Z) : State :=
  mkState (<[encode_key x01 := 5]> (<[encode_key x02 := 6]> {[ encode_key x03 := v ]})) ∅ ∅ ∅.

Lemma ledger_wf : state_wf (ledger 7).
Proof.
  split; simpl; try apply map_Forall_empty.
  do 2 (apply u64_map_wf_insert; [|by vm_compute..]).
  apply map_Forall_singleton. by vm_compute.
Qed.

Lemma merkle_reduce_terminates_witness :
  length (merkle_reduce 3 (map balance_leaf (btree_iter (balances (ledger 7))))) = 1%nat.
Proof.
  rewrite (proj1 (merkle_reduce_terminates
    (map balance_leaf (btree_iter (balances (ledger 7)))) 3 ltac:(vm_compute; lia))).
  vm_compute. reflexivity.
Defined.

(** The two roots differ for the two ledgers, so the hypothesis tells them apart. *)
Lemma state_root_binds_balances_witness :
  compute_state_root (ledger 7) ≠ compute_state_root (ledger 8) ∧
  (balances (ledger 7) = balances (set_nonces (ledger 7) {[ encode_key x01 := 1 ]}) ∨
   collision_among (hashed_messages (ledger 7) ++
                    hashed_messages (set_nonces (ledger 7) {[ encode_key x01 := 1 ]})) ∨
   (∃ m, m ∈ hashed_messages (ledger 7) ++
             hashed_messages (set_nonces (ledger 7) {[ encode_key x01 := 1 ]}) ∧
         Sha256_digest m = replicate 32 x00)).
Proof.
  split; [by vm_compute|].
  apply state_root_binds_balances; [apply ledger_wf| |vm_compute; reflexivity].
  split; [apply ledger_wf| |apply ledger_wf..].
  apply map_Forall_singleton. by vm_compute.
Defined.
End MerkleWitness.
