(* ===== verification/StateCodec.v ===== *)
(** * The byte encoding of the account state

    Models [ToBytes] and [FromBytes] for [State] (rp-core/src/state.rs): the snapshot
    that the engine hands to the storage and reads back at start-up. *)

From S2P Require Import Prelude.
From S2P Require Import Maps.
From S2P Require Import Crypto.
From S2P Require Import Models.
From S2P Require Import State.

(** ** Writing *)

Definition write_u64_map (m : gmap bytes Z) : bytes :=
  u64_to_be_bytes (usize_as_u64 (size m)) ++
  flat_map (λ '(k, v), k ++ u64_to_be_bytes v) (btree_iter m).

Definition write_request (req : UnstakeRequest) : bytes :=
  u64_to_be_bytes (request_amount req) ++ u64_to_be_bytes (request_unlock_slot req).

Definition write_unstaking_entry (entry : bytes * list UnstakeRequest) : bytes :=
  let '(account, requests) := entry in
  account ++ u64_to_be_bytes (usize_as_u64 (length requests)) ++ flat_map write_request requests.

Definition state_to_bytes (st : State) : bytes :=
  write_u64_map (balances st) ++
  write_u64_map (nonces st) ++
  write_u64_map (stakes st) ++
  u64_to_be_bytes (usize_as_u64 (size (unstaking st))) ++
  flat_map write_unstaking_entry (btree_iter (unstaking st)).

#[global] Instance State_ToBytes : ToBytes State := state_to_bytes.

(** ** Reading *)

Section reading.
Context `{Target}.

(** A reader takes the index and returns a value and the next index. *)
Definition read_u64 (bs : bytes) (i : nat) : outcome (result (Z * nat) string) :=
  if bool_decide (length bs < i + 8)%nat then Ret (Err "Unexpected EOF reading u64"%string)
  else Ret (Ok (u64_from_be_bytes (take 8 (drop i bs)), (i + 8)%nat)).

Definition read_key (bs : bytes) (i : nat) : outcome (result (bytes * nat) string) :=
  if bool_decide (length bs < i + PUBLIC_KEY_SIZE)%nat
  then Ret (Err "Unexpected EOF reading key"%string)
  else Ret (Ok (take PUBLIC_KEY_SIZE (drop i bs), (i + PUBLIC_KEY_SIZE)%nat)).

Definition read_entry (bs : bytes) (acc : nat * gmap bytes Z) :
    outcome (result (nat * gmap bytes Z) string) :=
  let '(i, m) := acc in
  let? r := read_key bs i in
  let '(k, i) := r in
  let? r := read_u64 bs i in
  let '(v, i) := r in
  Ret (Ok (i, <[k:=v]> m)).

Definition read_u64_map (bs : bytes) (i : nat) (m : gmap bytes Z) :
    outcome (result (nat * gmap bytes Z) string) :=
  let? r := read_u64 bs i in
  let '(len, i) := r in
  for_n (S (length bs)) len (read_entry bs) (i, m).

Definition read_request (bs : bytes) (acc : nat * list UnstakeRequest) :
    outcome (result (nat * list UnstakeRequest) string) :=
  let '(i, requests) := acc in
  let? r := read_u64 bs i in
  let '(amount, i) := r in
  let? r := read_u64 bs i in
  let '(unlock_slot, i) := r in
  Ret (Ok (i, requests ++ [mkUnstakeRequest amount unlock_slot])).

(** [Vec::<UnstakeRequest>::with_capacity(req_len as usize)]: a request is two
    [u64]s, and a capacity of more than [isize::MAX] bytes panics.  (A smaller
    capacity that the allocator cannot serve aborts; memory is not modelled.) *)
Definition with_capacity_requests (capacity : Z) :
    outcome (result (list UnstakeRequest) string) :=
  if bool_decide (isize_max < capacity * 16) then Panic else Ret (Ok []).

Definition read_unstaking_entry (bs : bytes) (acc : nat * gmap bytes (list UnstakeRequest)) :
    outcome (result (nat * gmap bytes (list UnstakeRequest)) string) :=
  let '(i, m) := acc in
  let? r := read_key bs i in
  let '(k, i) := r in
  let? r := read_u64 bs i in
  let '(req_len, i) := r in
  let? requests := with_capacity_requests (u64_as_usize req_len) in
  let? r := for_n (S (length bs)) req_len (read_request bs) (i, requests) in
  let '(i, requests) := r in
  Ret (Ok (i, <[k:=requests]> m)).

(** The reader together with the index at which it stopped. *)
Definition read_state (bs : bytes) : outcome (result (nat * State) string) :=
  let state := State_new in
  let? r := read_u64_map bs 0 (balances state) in
  let '(i, bal) := r in
  let? r := read_u64_map bs i (nonces state) in
  let '(i, non) := r in
  let? r := read_u64_map bs i (stakes state) in
  let '(i, stk) := r in
  let? r := read_u64 bs i in
  let '(unstaking_len, i) := r in
  let? r := for_n (S (length bs)) unstaking_len (read_unstaking_entry bs) (i, unstaking state) in
  let '(i, uns) := r in
  Ret (Ok (i, mkState bal non stk uns)).

Definition state_from_bytes (bs : bytes) : outcome (result State string) :=
  let? r := read_state bs in Ret (Ok r.2).

#[global] Instance State_FromBytes : FromBytes State := state_from_bytes.

(** ** Termination: the fuel is enough *)

Lemma read_u64_Ok bs i v j :
  read_u64 bs i = Ret (Ok (v, j)) ↔
  (i + 8 ≤ length bs)%nat ∧ v = u64_from_be_bytes (take 8 (drop i bs)) ∧ j = (i + 8)%nat.
Proof. unfold read_u64. case_bool_decide; naive_solver lia. Qed.

Lemma read_key_Ok bs i k j :
  read_key bs i = Ret (Ok (k, j)) ↔
  (i + 33 ≤ length bs)%nat ∧ k = take 33 (drop i bs) ∧ j = (i + 33)%nat.
Proof. unfold read_key, PUBLIC_KEY_SIZE. case_bool_decide; naive_solver lia. Qed.

Lemma read_u64_total bs i : read_u64 bs i ≠ OutOfFuel.
Proof. unfold read_u64. by case_bool_decide. Qed.

Lemma read_key_total bs i : read_key bs i ≠ OutOfFuel.
Proof. unfold read_key. by case_bool_decide. Qed.

Lemma try_outcome_total {A B E} (m : outcome (result A E)) (k : A → outcome (result B E)) :
  m ≠ OutOfFuel → (∀ a, m = Ret (Ok a) → k a ≠ OutOfFuel) → try_outcome m k ≠ OutOfFuel.
Proof. destruct m as [[]| |]; simpl; auto. Qed.

Lemma read_entry_Ok bs i m i' m' :
  read_entry bs (i, m) = Ret (Ok (i', m')) →
  (i + 41 ≤ length bs)%nat ∧ i' = (i + 41)%nat ∧
  m' = <[take 33 (drop i bs) := u64_from_be_bytes (take 8 (drop (i + 33) bs))]> m.
Proof.
  unfold read_entry. intros E. outcome_inv.
  rewrite ?read_key_Ok, ?read_u64_Ok in *. destruct_and!; simplify_eq. split_and!; [lia..|done].
Qed.

Lemma read_entry_total bs acc : read_entry bs acc ≠ OutOfFuel.
Proof.
  destruct acc as [i m]. apply try_outcome_total; [apply read_key_total|]. intros [k j] _.
  apply try_outcome_total; [apply read_u64_total|]. by intros [].
Qed.

Lemma read_u64_map_total bs i m : read_u64_map bs i m ≠ OutOfFuel.
Proof.
  apply try_outcome_total; [apply read_u64_total|]. intros [len j] _.
  apply (for_n_total _ fst (length bs)); [apply read_entry_total| |simpl; lia].
  intros [i1 m1] [i2 m2] ?%read_entry_Ok. simpl. lia.
Qed.

Lemma read_request_Ok bs i l i' l' :
  read_request bs (i, l) = Ret (Ok (i', l')) →
  (i + 16 ≤ length bs)%nat ∧ i' = (i + 16)%nat ∧
  l' = l ++ [mkUnstakeRequest (u64_from_be_bytes (take 8 (drop i bs)))
               (u64_from_be_bytes (take 8 (drop (i + 8) bs)))].
Proof.
  unfold read_request. intros E. outcome_inv.
  rewrite ?read_u64_Ok in *. destruct_and!; simplify_eq. split_and!; [lia..|done].
Qed.

Lemma read_request_total bs acc : read_request bs acc ≠ OutOfFuel.
Proof.
  destruct acc as [i m]. apply try_outcome_total; [apply read_u64_total|]. intros [k j] _.
  apply try_outcome_total; [apply read_u64_total|]. by intros [].
Qed.

Lemma with_capacity_Ok c l :
  with_capacity_requests c = Ret (Ok l) ↔ c * 16 ≤ isize_max ∧ l = [].
Proof. unfold with_capacity_requests. case_bool_decide; naive_solver lia. Qed.

Lemma read_requests_total bs n i l : for_n (S (length bs)) n (read_request bs) (i, l) ≠ OutOfFuel.
Proof.
  apply (for_n_total _ fst (length bs)); [apply read_request_total| |simpl; lia].
  intros [i1 m1] [i2 m2] ?%read_request_Ok. simpl. lia.
Qed.

Lemma read_unstaking_entry_total bs acc : read_unstaking_entry bs acc ≠ OutOfFuel.
Proof.
  destruct acc as [i m]. apply try_outcome_total; [apply read_key_total|]. intros [k j] _.
  apply try_outcome_total; [apply read_u64_total|]. intros [n j'] _.
  apply try_outcome_total; [unfold with_capacity_requests; by case_bool_decide|]. intros l _.
  apply try_outcome_total; [apply read_requests_total|]. by intros [].
Qed.

Lemma read_requests_index bs n i l i' l' :
  (i ≤ length bs)%nat →
  for_n (S (length bs)) n (read_request bs) (i, l) = Ret (Ok (i', l')) →
  (i ≤ i' ≤ length bs)%nat ∧ (requests_wf l → requests_wf l').
Proof.
  intros Hi. apply (for_n_inv _ (λ p, (i ≤ p.1 ≤ length bs)%nat ∧ (requests_wf l → requests_wf p.2)));
    [|done].
  intros [i1 l1] [i2 l2] [Hi1 Hl1] (? & -> & ->)%read_request_Ok. simpl in *.
  split; [lia|]. intros Hl. apply Forall_app. split; [by apply Hl1|]. rewrite Forall_singleton; simpl.
  split; apply is_u64_from_be_bytes; rewrite length_take, length_drop; lia.
Qed.

Lemma read_unstaking_entry_Ok bs i m i' m' :
  read_unstaking_entry bs (i, m) = Ret (Ok (i', m')) →
  (i + 41 ≤ i' ≤ length bs)%nat ∧
  ∃ k l, length k = PUBLIC_KEY_SIZE ∧ requests_wf l ∧ m' = <[k:=l]> m.
Proof.
  unfold read_unstaking_entry. intros E. outcome_inv.
  rewrite ?read_u64_Ok, ?read_key_Ok in *. destruct_and!; simplify_eq.
  match goal with Hw : with_capacity_requests _ = _ |- _ => apply with_capacity_Ok in Hw as [_ ->] end.
  match goal with Hr : for_n _ _ _ _ = _ |- _ => apply read_requests_index in Hr as [? Hl]; [|lia] end.
  split; [lia|]. do 2 eexists. split_and!; [|apply Hl; constructor|done].
  rewrite length_take, length_drop. unfold PUBLIC_KEY_SIZE. lia.
Qed.

Lemma read_state_total bs : read_state bs ≠ OutOfFuel.
Proof.
  apply try_outcome_total; [apply read_u64_map_total|]. intros [i1 bal] _.
  apply try_outcome_total; [apply read_u64_map_total|]. intros [i2 non] _.
  apply try_outcome_total; [apply read_u64_map_total|]. intros [i3 stk] _.
  apply try_outcome_total; [apply read_u64_total|]. intros [n i4] _.
  apply try_outcome_total; [|by intros []].
  apply (for_n_total _ fst (length bs)); [apply read_unstaking_entry_total| |simpl; lia].
  intros [j1 m1] [j2 m2] [? _]%read_unstaking_entry_Ok. simpl. lia.
Qed.

(** decoding a snapshot always ends, whatever the bytes say the lengths are: a
    length field of up to 2^64-1 never makes the loops run past the end of the
    input, since every round consumes bytes or fails. *)
Theorem state_from_bytes_terminates bs : from_bytes (A:=State) bs ≠ OutOfFuel.
Proof.
  apply try_outcome_total; [apply read_state_total|done].
Qed.

Lemma read_u64_map_wf bs i m i' m' :
  (i ≤ length bs)%nat → u64_map_wf m → read_u64_map bs i m = Ret (Ok (i', m')) →
  (i ≤ i' ≤ length bs)%nat ∧ u64_map_wf m'.
Proof.
  unfold read_u64_map. intros Hi Hm E. outcome_inv. rewrite read_u64_Ok in *. destruct_and!.
  apply (for_n_inv _ (λ p, (i ≤ p.1 ≤ length bs)%nat ∧ u64_map_wf p.2)) in E; [done| |simpl; split; [lia|done]].
  intros [i1 m1] [i2 m2] [Hi1 Hm1] (? & -> & ->)%read_entry_Ok. simpl in *.
  split; [lia|]. apply u64_map_wf_insert; [done| |apply is_u64_from_be_bytes];
    rewrite length_take, length_drop; unfold PUBLIC_KEY_SIZE; lia.
Qed.

Lemma read_state_wf bs i st :
  read_state bs = Ret (Ok (i, st)) → (i ≤ length bs)%nat ∧ state_wf st.
Proof.
  unfold read_state. intros E. outcome_inv.
  repeat match goal with Hr : read_u64_map _ _ _ = _ |- _ =>
    apply read_u64_map_wf in Hr as [??]; [|simpl; lia|apply map_Forall_empty] end.
  rewrite read_u64_Ok in *. destruct_and!.
  match goal with Hr : for_n _ _ _ _ = _ |- _ =>
    apply (for_n_inv _ (λ p, (p.1 ≤ length bs)%nat ∧
      map_Forall (λ k l, length k = PUBLIC_KEY_SIZE ∧ requests_wf l) p.2)) in Hr as [??];
      [| |simpl; split; [lia|apply map_Forall_empty]] end.
  { by split; [|split]. }
  intros [i1 m1] [i2 m2] [Hi1 Hm1] (? & k & l & ? & ? & ->)%read_unstaking_entry_Ok. simpl in *.
  split; [lia|]. by apply map_Forall_insert_2.
Qed.

Lemma state_from_bytes_Ok_wf bs st : from_bytes bs = Ret (Ok st) → state_wf st.
Proof.
  intros E. unfold from_bytes, State_FromBytes, state_from_bytes in E. outcome_inv.
  match goal with x : _ * _ |- _ => destruct x end. by eapply read_state_wf.
Qed.

(** whatever bytes a snapshot holds, a state decoded from it is well formed:
    keys are 33 bytes long and every amount is a [u64]. *)
Theorem state_from_bytes_wf bs st : from_bytes bs = Ret (Ok st) → state_wf st.
Proof. apply state_from_bytes_Ok_wf. Qed.

(** ** Round trip *)

Lemma read_u64_at pre v rest :
  is_u64 v →
  read_u64 (pre ++ u64_to_be_bytes v ++ rest) (length pre) = Ret (Ok (v, (length pre + 8)%nat)).
Proof.
  intros Hv. apply read_u64_Ok. rewrite !length_app, length_u64_to_be_bytes. split_and!; [lia| |done].
  rewrite drop_app_length, take_app_length' by by rewrite length_u64_to_be_bytes.
  by rewrite u64_be_roundtrip.
Qed.

Lemma read_key_at pre k rest :
  length k = PUBLIC_KEY_SIZE →
  read_key (pre ++ k ++ rest) (length pre) = Ret (Ok (k, (length pre + 33)%nat)).
Proof.
  intros Hk. apply read_key_Ok. rewrite !length_app, Hk. unfold PUBLIC_KEY_SIZE in *.
  split_and!; [lia| |done]. by rewrite drop_app_length, take_app_length'.
Qed.

Definition inserts {V} (m : gmap bytes V) (l : list (bytes * V)) : gmap bytes V :=
  foldl (λ m p, <[p.1:=p.2]> m) m l.

Lemma inserts_btree_iter {V} (m : gmap bytes V) : inserts ∅ (btree_iter m) = m.
Proof.
  rewrite <-(list_to_map_btree_iter m) at 2.
  pose proof (btree_iter_NoDup m) as Hnd. revert Hnd. generalize (btree_iter m). intros l.
  unfold inserts. rewrite <-(right_id_L ∅ (∪) (list_to_map l)). generalize (∅ : gmap bytes V).
  induction l as [|[k v] l IH]; intros m0 Hnd; simpl; [by rewrite (left_id_L ∅ (∪))|].
  apply NoDup_cons in Hnd as [Hk Hnd]. rewrite IH by done.
  rewrite <-insert_union_r by (apply not_elem_of_list_to_map; exact Hk).
  by rewrite insert_union_l.
Qed.

(** What the vectors and maps of a Rust process satisfy. *)
Record state_fits (st : State) : Prop := {
  fits_balances : is_u64 (Z.of_nat (size (balances st)));
  fits_nonces : is_u64 (Z.of_nat (size (nonces st)));
  fits_stakes : is_u64 (Z.of_nat (size (stakes st)));
  fits_unstaking : is_u64 (Z.of_nat (size (unstaking st)));
  fits_requests : map_Forall (λ _ l, Z.of_nat (length l) * 16 ≤ isize_max) (unstaking st);
}.

Definition entry_bytes (p : bytes * Z) : bytes := let '(k, v) := p in k ++ u64_to_be_bytes v.

Lemma flat_map_snoc {A B} (f : A → list B) l x : flat_map f (l ++ [x]) = flat_map f l ++ f x.
Proof. by rewrite flat_map_app; simpl; rewrite app_nil_r. Qed.

Lemma length_flat_map_ge {A B} (f : A → list B) l :
  (∀ x, x ∈ l → (1 ≤ length (f x))%nat) → (length l ≤ length (flat_map f l))%nat.
Proof.
  induction l as [|x l IH]; simpl; [lia|]. intros Hl. rewrite length_app.
  pose proof (Hl x ltac:(left)). specialize (IH (λ y Hy, Hl y (list_elem_of_further _ _ _ Hy))). lia.
Qed.

(** A loop that reads items written one after the other from [pre] on. *)
Lemma for_n_flat_map {B X} (enc : X → bytes) (step : B → X → B)
    (body : bytes → nat * B → outcome (result (nat * B) string)) l pre rest b :
  (∀ x, x ∈ l → (1 ≤ length (enc x))%nat) →
  (∀ x pre rest b, x ∈ l → (length (enc x) ≤ length (pre ++ enc x ++ rest))%nat →
     body (pre ++ enc x ++ rest) (length pre, b) =
       Ret (Ok (length (pre ++ enc x), step b x))) →
  for_n (S (length (pre ++ flat_map enc l ++ rest))) (Z.of_nat (length l))
    (body (pre ++ flat_map enc l ++ rest)) (length pre, b) =
    Ret (Ok (length (pre ++ flat_map enc l), foldl step b l)).
Proof.
  intros Hne Hbody.
  pose proof (for_n_list (body (pre ++ flat_map enc l ++ rest))
    (λ l1, (length (pre ++ flat_map enc l1), foldl step b l1)) l
    (S (length (pre ++ flat_map enc l ++ rest)))) as Hfor.
  simpl in Hfor. rewrite app_nil_r in Hfor. apply Hfor.
  - rewrite !length_app. pose proof (length_flat_map_ge enc l Hne). lia.
  - intros l1 x l2 ->. rewrite !flat_map_app, foldl_app. simpl.
    rewrite app_nil_r. replace (pre ++ (flat_map enc l1 ++ enc x ++ flat_map enc l2) ++ rest)
      with ((pre ++ flat_map enc l1) ++ enc x ++ flat_map enc l2 ++ rest) by by rewrite !app_assoc.
    rewrite Hbody; [by rewrite !app_assoc| |rewrite !length_app; lia].
    apply elem_of_app. right. left.
Qed.

Lemma read_entry_at pre p rest m :
  length p.1 = PUBLIC_KEY_SIZE → is_u64 p.2 →
  read_entry (pre ++ entry_bytes p ++ rest) (length pre, m) =
    Ret (Ok (length (pre ++ entry_bytes p), <[p.1:=p.2]> m)).
Proof.
  destruct p as [k v]; simpl. intros Hk Hv. unfold read_entry.
  rewrite <-!app_assoc, read_key_at by done. unfold try_outcome at 1. cbn [mbind outcome_bind].
  rewrite (app_assoc pre k).
  replace (length pre + 33)%nat with (length (pre ++ k))
    by (rewrite length_app, Hk; done).
  rewrite read_u64_at by done. unfold try_outcome. cbn [mbind outcome_bind].
  do 3 f_equal. rewrite !length_app, length_u64_to_be_bytes. lia.
Qed.

Lemma read_u64_map_at pre m rest :
  u64_map_wf m → is_u64 (Z.of_nat (size m)) →
  read_u64_map (pre ++ write_u64_map m ++ rest) (length pre) ∅ =
    Ret (Ok (length (pre ++ write_u64_map m), m)).
Proof.
  intros Hm Hs. unfold read_u64_map, write_u64_map, usize_as_u64. rewrite u64_wrap_small by done.
  rewrite <-app_assoc, read_u64_at by done. unfold try_outcome. cbn [mbind outcome_bind].
  rewrite <-length_btree_iter, !app_assoc, <-(app_assoc _ (flat_map _ _)).
  replace (length pre + 8)%nat
    with (length (pre ++ u64_to_be_bytes (Z.of_nat (length (btree_iter m)))))
    by (by rewrite length_app, length_u64_to_be_bytes).
  rewrite (for_n_flat_map entry_bytes (λ m p, <[p.1:=p.2]> m) read_entry).
  - do 3 f_equal. apply inserts_btree_iter.
  - intros [k v] [Hk _]%elem_of_btree_iter%Hm. simpl. rewrite length_app, Hk. unfold PUBLIC_KEY_SIZE. lia.
  - intros [k v] pre' rest' m' [??]%elem_of_btree_iter%Hm _. by apply read_entry_at.
Qed.

Lemma read_u64_map_at_0 m rest :
  u64_map_wf m → is_u64 (Z.of_nat (size m)) →
  read_u64_map (write_u64_map m ++ rest) 0 ∅ = Ret (Ok (length (write_u64_map m), m)).
Proof. apply (read_u64_map_at []). Qed.

Lemma read_request_at pre r rest l :
  is_u64 (request_amount r) → is_u64 (request_unlock_slot r) →
  read_request (pre ++ write_request r ++ rest) (length pre, l) =
    Ret (Ok (length (pre ++ write_request r), l ++ [r])).
Proof.
  destruct r as [a s]; simpl. intros Ha Hs. unfold read_request, write_request; simpl.
  rewrite <-!app_assoc, read_u64_at by done. unfold try_outcome at 1. cbn [mbind outcome_bind].
  rewrite (app_assoc pre).
  replace (length pre + 8)%nat with (length (pre ++ u64_to_be_bytes a))
    by (rewrite length_app, length_u64_to_be_bytes; done).
  rewrite read_u64_at by done. unfold try_outcome. cbn [mbind outcome_bind].
  do 3 f_equal. rewrite !length_app, !length_u64_to_be_bytes. lia.
Qed.

Lemma foldl_snoc {A} (l : list A) acc : foldl (λ l x, l ++ [x]) acc l = acc ++ l.
Proof.
  revert acc. induction l as [|x l IH]; intros acc; simpl; [by rewrite app_nil_r|].
  by rewrite IH, <-app_assoc.
Qed.

Lemma read_unstaking_entry_at pre p rest m :
  0 < pointer_width ≤ 64 → length p.1 = PUBLIC_KEY_SIZE → requests_wf p.2 →
  Z.of_nat (length p.2) * 16 ≤ isize_max →
  read_unstaking_entry (pre ++ write_unstaking_entry p ++ rest) (length pre, m) =
    Ret (Ok (length (pre ++ write_unstaking_entry p), <[p.1:=p.2]> m)).
Proof.
  destruct p as [k l]; simpl. intros Hw Hk Hl Hmax. unfold read_unstaking_entry.
  assert (isize_max < 2 ^ pointer_width ∧ 2 ^ pointer_width ≤ 2 ^ 64) as [Hi Hp].
  { unfold isize_max. pose proof (Z.pow_le_mono_r 2 (pointer_width - 1) pointer_width).
    pose proof (Z.pow_le_mono_r 2 pointer_width 64). lia. }
  assert (is_u64 (Z.of_nat (length l))) as Hn by u64_lia.
  unfold usize_as_u64. rewrite u64_wrap_small by done.
  rewrite <-!app_assoc, read_key_at by done. unfold try_outcome at 1. cbn [mbind outcome_bind].
  rewrite (app_assoc pre k).
  replace (length pre + 33)%nat with (length (pre ++ k)) by (rewrite length_app, Hk; done).
  rewrite read_u64_at by done. unfold try_outcome at 1. cbn [mbind outcome_bind].
  unfold u64_as_usize. rewrite Z.mod_small by lia.
  rewrite (proj2 (with_capacity_Ok _ [])) by done. unfold try_outcome at 1. cbn [mbind outcome_bind].
  rewrite (app_assoc (pre ++ k)).
  replace (length (pre ++ k) + 8)%nat
    with (length ((pre ++ k) ++ u64_to_be_bytes (Z.of_nat (length l))))
    by (by rewrite (length_app (pre ++ k)), length_u64_to_be_bytes).
  rewrite (for_n_flat_map write_request (λ l x, l ++ [x]) read_request).
  - unfold try_outcome. cbn [mbind outcome_bind]. rewrite foldl_snoc. do 3 f_equal.
    by rewrite <-!app_assoc.
  - intros r _. unfold write_request. rewrite length_app, !length_u64_to_be_bytes. lia.
  - intros r pre' rest' l' [??]%(proj1 (Forall_forall _ _) Hl) _. by apply read_request_at.
Qed.

Lemma read_unstaking_at pre m rest :
  0 < pointer_width ≤ 64 → is_u64 (Z.of_nat (size m)) →
  map_Forall (λ k l, length k = PUBLIC_KEY_SIZE ∧ requests_wf l) m →
  map_Forall (λ _ l, Z.of_nat (length l) * 16 ≤ isize_max) m →
  let body := flat_map write_unstaking_entry (btree_iter m) in
  for_n (S (length (pre ++ body ++ rest))) (Z.of_nat (size m))
    (read_unstaking_entry (pre ++ body ++ rest)) (length pre, ∅) =
    Ret (Ok (length (pre ++ body), m)).
Proof.
  intros Hw Hs Hm Hmax. cbv zeta. rewrite <-length_btree_iter.
  rewrite (for_n_flat_map write_unstaking_entry (λ m p, <[p.1:=p.2]> m) read_unstaking_entry).
  - do 3 f_equal. apply inserts_btree_iter.
  - intros [k l] [Hk _]%elem_of_btree_iter%Hm. simpl. rewrite length_app, Hk. unfold PUBLIC_KEY_SIZE. lia.
  - intros [k l] pre' rest' m' Hk%elem_of_btree_iter _.
    pose proof (Hm _ _ Hk) as [??]. pose proof (Hmax _ _ Hk). by apply read_unstaking_entry_at.
Qed.

(** Lengths of the parts. *)
Lemma length_write_u64_map m : (size m ≤ length (write_u64_map m))%nat.
Proof.
  unfold write_u64_map. rewrite length_app. rewrite <-length_btree_iter.
  pose proof (length_flat_map_ge (λ '(k, v), k ++ u64_to_be_bytes v) (btree_iter m)) as Hl. cbv beta in Hl.
  lapply Hl; [lia|]. intros [k v] _. rewrite length_app, length_u64_to_be_bytes. lia.
Qed.

Lemma length_write_requests l : length (flat_map write_request l) = (16 * length l)%nat.
Proof.
  induction l as [|r l IH]; [done|]. simpl. rewrite length_app, IH. unfold write_request.
  rewrite length_app, !length_u64_to_be_bytes. lia.
Qed.

Lemma length_flat_map_elem {A B} (f : A → list B) l x :
  x ∈ l → (length (f x) ≤ length (flat_map f l))%nat.
Proof. induction 1; simpl; rewrite length_app; lia. Qed.

#[local] Opaque write_u64_map.
Lemma read_state_at st rest :
  0 < pointer_width ≤ 64 → state_wf st → state_fits st →
  read_state (to_bytes st ++ rest) = Ret (Ok (length (to_bytes st), st)).
Proof.
  intros Hw [Hb Hn Hs Hu] [Fb Fn Fs Fu Fr]. unfold read_state, to_bytes, State_ToBytes, state_to_bytes.
  unfold usize_as_u64. rewrite u64_wrap_small by done.
  rewrite <-!app_assoc. change (balances State_new) with (∅ : gmap bytes Z).
  change (nonces State_new) with (∅ : gmap bytes Z). change (stakes State_new) with (∅ : gmap bytes Z).
  change (unstaking State_new) with (∅ : gmap bytes (list UnstakeRequest)).
  rewrite read_u64_map_at_0 by done. unfold try_outcome at 1. cbn [mbind outcome_bind].
  rewrite (read_u64_map_at _ (nonces st)) by done.
  unfold try_outcome at 1. cbn [mbind outcome_bind]. rewrite (app_assoc (write_u64_map (balances st))).
  rewrite (read_u64_map_at _ (stakes st)) by done.
  unfold try_outcome at 1. cbn [mbind outcome_bind].
  rewrite (app_assoc (_ ++ write_u64_map (nonces st))).
  rewrite read_u64_at by done. unfold try_outcome at 1. cbn [mbind outcome_bind].
  rewrite (app_assoc (_ ++ write_u64_map (stakes st))).
  set (pre := (_ ++ write_u64_map (stakes st)) ++ u64_to_be_bytes _).
  replace (length (_ ++ write_u64_map (stakes st)) + 8)%nat with (length pre)
    by (unfold pre; by rewrite (length_app (_ ++ _)), length_u64_to_be_bytes).
  rewrite read_unstaking_at by done. unfold try_outcome. cbn [mbind outcome_bind].
  destruct st; simpl. do 4 f_equal. unfold pre. by rewrite <-!app_assoc.
Qed.

Lemma state_from_to_bytes st rest :
  0 < pointer_width ≤ 64 → state_wf st → state_fits st →
  from_bytes (to_bytes st ++ rest) = Ret (Ok st).
Proof.
  intros. unfold from_bytes, State_FromBytes, state_from_bytes. by rewrite read_state_at.
Qed.

(** A snapshot that a process holds in memory is the encoding of a state that fits:
    a [Vec<u8>] is never longer than [isize::MAX]. *)
Lemma state_fits_length st :
  0 < pointer_width ≤ 64 → Z.of_nat (length (to_bytes st)) ≤ isize_max → state_fits st.
Proof.
  intros Hw Hl. unfold to_bytes, State_ToBytes, state_to_bytes in Hl. rewrite !length_app in Hl.
  assert (isize_max < u64_modulus) as Hm.
  { unfold isize_max, u64_modulus. pose proof (Z.pow_le_mono_r 2 (pointer_width - 1) 63). lia. }
  pose proof (length_write_u64_map (balances st)). pose proof (length_write_u64_map (nonces st)).
  pose proof (length_write_u64_map (stakes st)). split; unfold is_u64; try lia.
  - pose proof (length_flat_map_ge write_unstaking_entry (btree_iter (unstaking st))) as Hge.
    rewrite length_btree_iter in Hge. lapply Hge; [lia|]. intros [k l] _. simpl.
    rewrite !length_app, length_u64_to_be_bytes. lia.
  - intros k l Hk. apply elem_of_btree_iter, (length_flat_map_elem write_unstaking_entry) in Hk.
    simpl in Hk. rewrite !length_app, length_write_requests in Hk. lia.
Qed.

(** C28: decoding an encoded state gives the state back, on every target, whatever
    bytes follow it in the buffer. *)
Theorem state_codec_roundtrip st rest :
  0 < pointer_width ≤ 64 → state_wf st → state_fits st →
  from_bytes (to_bytes st ++ rest) = Ret (Ok st).
Proof. apply state_from_to_bytes. Qed.

(** ** Truncated snapshots *)

Lemma read_u64_agrees p rest i : agrees (read_u64 p i) (read_u64 (p ++ rest) i).
Proof.
  unfold read_u64 at 1. case_bool_decide; [done|]. simpl. apply read_u64_Ok.
  rewrite length_app. split_and!; [lia| |done].
  rewrite drop_app_le by lia. rewrite take_app_le; [done|rewrite length_drop; lia].
Qed.

Lemma read_key_agrees p rest i : agrees (read_key p i) (read_key (p ++ rest) i).
Proof.
  unfold read_key at 1, PUBLIC_KEY_SIZE. case_bool_decide; [done|]. simpl. apply read_key_Ok.
  rewrite length_app. split_and!; [lia| |done].
  rewrite drop_app_le by lia. rewrite take_app_le; [done|rewrite length_drop; lia].
Qed.

Lemma read_entry_agrees p rest acc : agrees (read_entry p acc) (read_entry (p ++ rest) acc).
Proof.
  destruct acc as [i m]. apply try_outcome_agrees; [apply read_key_agrees|]. intros [k j] _.
  apply try_outcome_agrees; [apply read_u64_agrees|]. intros [v j'] _. apply agrees_refl.
Qed.

Lemma read_u64_map_agrees p rest i m :
  agrees (read_u64_map p i m) (read_u64_map (p ++ rest) i m).
Proof.
  apply try_outcome_agrees; [apply read_u64_agrees|]. intros [n j] _.
  apply for_n_agrees; [rewrite length_app; lia|]. intros. apply read_entry_agrees.
Qed.

Lemma read_request_agrees p rest acc : agrees (read_request p acc) (read_request (p ++ rest) acc).
Proof.
  destruct acc as [i m]. apply try_outcome_agrees; [apply read_u64_agrees|]. intros [k j] _.
  apply try_outcome_agrees; [apply read_u64_agrees|]. intros [v j'] _. apply agrees_refl.
Qed.

Lemma read_unstaking_entry_agrees p rest acc :
  agrees (read_unstaking_entry p acc) (read_unstaking_entry (p ++ rest) acc).
Proof.
  destruct acc as [i m]. apply try_outcome_agrees; [apply read_key_agrees|]. intros [k j] _.
  apply try_outcome_agrees; [apply read_u64_agrees|]. intros [n j'] _.
  apply try_outcome_agrees; [apply agrees_refl|]. intros l _.
  apply try_outcome_agrees; [|intros [] _; apply agrees_refl].
  apply for_n_agrees; [rewrite length_app; lia|]. intros. apply read_request_agrees.
Qed.

Lemma read_state_agrees p rest : agrees (read_state p) (read_state (p ++ rest)).
Proof.
  apply try_outcome_agrees; [apply read_u64_map_agrees|]. intros [i1 bal] _.
  apply try_outcome_agrees; [apply read_u64_map_agrees|]. intros [i2 non] _.
  apply try_outcome_agrees; [apply read_u64_map_agrees|]. intros [i3 stk] _.
  apply try_outcome_agrees; [apply read_u64_agrees|]. intros [n i4] _.
  apply try_outcome_agrees; [|intros [] _; apply agrees_refl].
  apply for_n_agrees; [rewrite length_app; lia|]. intros. apply read_unstaking_entry_agrees.
Qed.

(** a snapshot that was cut short is rejected with an error: decoding a proper
    prefix of an encoded state neither panics nor yields a state. *)
Theorem truncated_snapshot_rejected st p rest :
  0 < pointer_width ≤ 64 → state_wf st → state_fits st →
  to_bytes st = p ++ rest → rest ≠ [] →
  ∃ e, from_bytes (A:=State) p = Ret (Err e).
Proof.
  intros Hw Hst Hfit E Hrest. unfold from_bytes, State_FromBytes, state_from_bytes.
  pose proof (read_state_agrees p rest) as Ha.
  pose proof (read_state_at st [] Hw Hst Hfit) as Hfull.
  rewrite app_nil_r, E in Hfull. rewrite Hfull in Ha.
  pose proof (read_state_total p).
  destruct (read_state p) as [[[i st']|e]| |] eqn:Ep; simpl in *; simplify_eq; [|by exists e].
  apply read_state_wf in Ep as [Hi _]. rewrite length_app in Hi.
  destruct rest; simpl in *; [done|lia].
Qed.
#[local] Transparent write_u64_map.

(** A snapshot whose request count is absurd makes the decoder panic: the capacity
    is reserved before the requests are read. *)
Definition corrupt_snapshot : bytes :=
  replicate 24 x00 ++ u64_to_be_bytes 1 ++ replicate 33 x00 ++ replicate 8 xff.
End reading.

Lemma corrupt_snapshot_panics :
  @from_bytes State (@State_FromBytes dev_host) corrupt_snapshot = Panic ∧
  @from_bytes State (@State_FromBytes release_embedded) corrupt_snapshot = Panic.
Proof. vm_compute. split; reflexivity. Qed.

#[export] Hint Resolve read_state_total : rust.

(** ** Witnesses *)

Module StateCodecWitness.
#[local] Existing Instance release_embedded.

Definition key (b : byte) : bytes := replicate 32 x02 ++ [b].
Definition small : State :=
  mkState (<[key x01 := 5]> {[ key x02 := 6 ]}) {[ key x02 := 1 ]} ∅
    {[ key x03 := [mkUnstakeRequest 7 64] ]}.

Lemma small_wf : state_wf small.
Proof.
  split; simpl; [|apply map_Forall_singleton; by vm_compute|apply map_Forall_empty|].
  - apply u64_map_wf_insert; [|by vm_compute..]. apply map_Forall_singleton. by vm_compute.
  - apply map_Forall_singleton. split; [done|]. apply Forall_singleton. by vm_compute.
Qed.

Lemma small_fits : state_fits small.
Proof.
  split; [by vm_compute..|]. apply map_Forall_singleton. by vm_compute.
Qed.

Lemma state_from_bytes_wf_witness :
  from_bytes (to_bytes small) = Ret (Ok small) ∧ state_wf small.
Proof.
  assert (from_bytes (to_bytes small) = Ret (Ok small)) as E by (vm_compute; reflexivity).
  split; [exact E|]. exact (state_from_bytes_wf _ _ E).
Defined.

Lemma state_codec_roundtrip_witness :
  from_bytes (to_bytes small ++ [xff]) = Ret (Ok small).
Proof. apply state_codec_roundtrip; [by vm_compute|apply small_wf|apply small_fits]. Defined.

Lemma truncated_snapshot_rejected_witness :
  ∃ e, from_bytes (A:=State) (take 100 (to_bytes small)) = Ret (Err e).
Proof.
  apply (truncated_snapshot_rejected small _ (drop 100 (to_bytes small)));
    [by vm_compute|apply small_wf|apply small_fits|by rewrite take_drop|by vm_compute].
Defined.
End StateCodecWitness.
