(* ===== verification/ChainCore.v ===== *)
(** * Block validation and fork choice

    Models rp-core/src/blockchain.rs: the validation of a block against its parent,
    with the state it leads to, and the rule that picks the head. *)

From S2P Require Import Prelude.
From S2P Require Import Maps.
From S2P Require Import Crypto.
From S2P Require Import Models.
From S2P Require Import State.
From S2P Require Import Ledger.
From S2P Require Import Election.

Section chain_core.
Context `{Target, Crypto}.

(** The loop over the transactions. *)
Fixpoint apply_transactions (slot : Z) (st : State) (txs : list Transaction) :
    outcome (result State BlockError) :=
  match txs with
  | [] => Ret (Ok st)
  | tx :: txs =>
      if negb (is_valid_tx st tx) then Ret (Err InvalidTransaction)
      else st ← apply_tx st tx slot; apply_transactions slot st txs
  end.

(** The loop over the slashing proofs. *)
Fixpoint apply_slash_proofs (st : State) (proofs : list SlashProof) : result State BlockError :=
  match proofs with
  | [] => Ok st
  | proof :: proofs =>
      match apply_slash st proof with
      | (_, Err error) => Err (InvalidSlashProof error)
      | (st, Ok _) => apply_slash_proofs st proofs
      end
  end.

Definition validate_and_apply_block (parent_block : Block) (parent_state : State)
    (block : Block) : outcome (result State BlockError) :=
  if negb (block_is_valid block) then Ret (Err InvalidSignature)
  else
  expected_height ← u64_add (block_height parent_block) 1;
  if bool_decide (block_height block ≠ expected_height) then Ret (Err InvalidHeight)
  else if bool_decide (block_slot block ≤ block_slot parent_block) then Ret (Err InvalidSlot)
  else
  expected ← get_expected_validator parent_state (block_height block);
  if match expected with
     | Some expected_validator => bool_decide (block_validator block ≠ expected_validator)
     | None => false
     end
  then Ret (Err InvalidValidator)
  else
  let? next_state := apply_transactions (block_slot block) parent_state (block_transactions block) in
  let? next_state := Ret (apply_slash_proofs next_state (block_slash_proofs block)) in
  let computed_state_root := compute_state_root next_state in
  if bool_decide (block_state_root block ≠ computed_state_root) then Ret (Err InvalidStateRoot)
  else Ret (Ok next_state).

Definition should_replace_head (candidate_hash : bytes) (candidate_block current_head : Block)
    (head_hash : bytes) : bool :=
  if bool_decide (block_height candidate_block ≠ block_height current_head)
  then bool_decide (block_height current_head < block_height candidate_block)
  else if bool_decide (block_slot candidate_block ≠ block_slot current_head)
  then bool_decide (block_slot current_head < block_slot candidate_block)
  else bytes_ltb head_hash candidate_hash.
End chain_core.

(** ** What an accepted block is *)

Section acceptance.
Context `{Target, Crypto}.

(** Transactions applied one after the other, each valid in the state it meets. *)
Inductive txs_step (slot : Z) : State → list Transaction → State → Prop :=
| txs_nil st : txs_step slot st [] st
| txs_cons st tx st1 txs st2 :
    is_valid_tx st tx = true → apply_tx st tx slot = Ret st1 →
    txs_step slot st1 txs st2 → txs_step slot st (tx :: txs) st2.

Lemma apply_transactions_Ok slot st txs st' :
  apply_transactions slot st txs = Ret (Ok st') ↔ txs_step slot st txs st'.
Proof.
  split.
  - revert st. induction txs as [|tx txs IH]; simpl; intros st E; [simplify_eq; constructor|].
    destruct (is_valid_tx st tx) eqn:Hv; simpl in E; [|done].
    apply bind_Ret in E as (st1 & H1 & E). econstructor; eauto.
  - induction 1 as [|st tx st1 txs st2 Hv Ha _ IH]; simpl; [done|].
    rewrite Hv; simpl. by rewrite Ha.
Qed.

(** All slashed validators lose their stake; the proofs are all valid. *)
Definition slash_keys (proofs : list SlashProof) : list bytes :=
  map (λ p, verifying_key_to_bytes (proof_validator p)) proofs.

Lemma apply_slash_proofs_Ok st proofs st' :
  apply_slash_proofs st proofs = Ok st' ↔
  Forall (λ p, slash_proof_validate p = Ok tt) proofs ∧
  st' = set_unstaking (set_stakes st (foldl (λ m k, delete k m) (stakes st) (slash_keys proofs)))
          (foldl (λ m k, delete k m) (unstaking st) (slash_keys proofs)).
Proof.
  revert st. induction proofs as [|p proofs IH]; intros st; simpl.
  - split; [intros [= <-]|intros [_ ->]]; [split; [constructor|]|]; by destruct st.
  - unfold apply_slash. rewrite Forall_cons.
    destruct (slash_proof_validate p) as [[]|e]; [|naive_solver].
    rewrite IH. simpl. naive_solver.
Qed.

Lemma validate_accepts parent st b st' :
  validate_and_apply_block parent st b = Ret (Ok st') ↔
  block_is_valid b = true ∧
  u64_add (block_height parent) 1 = Ret (block_height b) ∧
  block_slot parent < block_slot b ∧
  (∃ expected, get_expected_validator st (block_height b) = Ret expected ∧
               (expected = None ∨ expected = Some (block_validator b))) ∧
  (∃ st1, txs_step (block_slot b) st (block_transactions b) st1 ∧
          apply_slash_proofs st1 (block_slash_proofs b) = Ok st') ∧
  block_state_root b = compute_state_root st'.
Proof.
  unfold validate_and_apply_block.
  destruct (block_is_valid b); simpl; [|naive_solver].
  setoid_rewrite <-apply_transactions_Ok. split.
  - intros (h & Hh & E)%bind_Ret. do 2 (case_bool_decide; [done|]).
    apply bind_Ret in E as (expected & He & E).
    destruct (match expected with Some _ => _ | None => _ end) eqn:Hm; [done|].
    outcome_inv. destruct (apply_slash_proofs _ _) eqn:Hs; [|done].
    case_bool_decide; [done|]. simplify_eq. split_and!; eauto; try naive_solver lia.
    exists expected. split; [done|]. destruct expected; [right|by left].
    apply bool_decide_eq_false in Hm. f_equal. symmetry. by apply dec_stable.
  - intros (_ & -> & Hslot & (e & -> & He) & (st1 & Ht & Hs) & Hr).
    cbn [mbind outcome_bind]. rewrite bool_decide_false by naive_solver.
    rewrite bool_decide_false by lia.
    replace (match e with Some _ => _ | None => false end) with false
      by (destruct He as [->| ->]; [done|]; symmetry; apply bool_decide_eq_false; naive_solver).
    rewrite Ht. unfold try_outcome. cbn [mbind outcome_bind]. rewrite Hs.
    cbn [mbind outcome_bind]. by rewrite bool_decide_false by naive_solver.
Qed.
End acceptance.

(** ** Validation never panics, and creates no coins *)

Section totality.
Context `{Target, Crypto, !CryptoLaws}.

Lemma slashed_amount_nonneg st tx : state_wf st → 0 ≤ slashed_amount st tx.
Proof.
  intros Hst. unfold slashed_amount. destruct (tx_data tx) as [| | |p]; [lia..|].
  set (k := verifying_key_to_bytes _).
  pose proof (u64_map_wf_entry _ k (wf_stakes _ Hst)).
  assert (0 ≤ requests_sum (entry_or [] k (unstaking st))); [|u64_lia].
  apply requests_sum_nonneg. unfold entry_or.
  destruct (unstaking st !! k) eqn:E; [|constructor].
  by apply (wf_unstaking _ Hst) in E as [_ ?].
Qed.

Lemma apply_transactions_returns slot st txs :
  state_wf st → supply st < u64_modulus → Forall (λ tx, tx_in_range tx slot) txs →
  ∃ r, apply_transactions slot st txs = Ret r ∧
       ∀ st', r = Ok st' → state_wf st' ∧ supply st' ≤ supply st.
Proof.
  intros Hst Hsup Hr. revert st Hst Hsup.
  induction Hr as [|tx txs Htx _ IH]; intros st Hst Hsup; simpl; [naive_solver|].
  destruct (is_valid_tx st tx) eqn:Hv; simpl; [|naive_solver].
  destruct (valid_tx_applies st tx slot Hst Hsup Htx Hv) as (st1 & E & Hst1 & Hs1).
  pose proof (slashed_amount_nonneg st tx Hst). rewrite E. cbn [mbind outcome_bind].
  destruct (IH st1 Hst1) as (r & -> & Hr); [lia|].
  exists r. split; [done|]. intros st' ->. destruct (Hr st' eq_refl). split; [done|lia].
Qed.

Lemma foldl_delete_wf {V} (P : bytes → V → Prop) (ks : list bytes) (m : gmap bytes V) :
  map_Forall P m → map_Forall P (foldl (λ m k, delete k m) m ks).
Proof. revert m. induction ks as [|k ks IH]; simpl; intros m Hm; [done|]. by apply IH, map_Forall_delete. Qed.

Lemma foldl_delete_sum {V} (f : V → Z) (ks : list bytes) (m : gmap bytes V) :
  map_Forall (λ _ v, 0 ≤ f v) m → map_sum f (foldl (λ m k, delete k m) m ks) ≤ map_sum f m.
Proof.
  revert m. induction ks as [|k ks IH]; simpl; intros m Hm; [done|].
  etrans; [apply IH; by apply map_Forall_delete|]. rewrite map_sum_delete_any.
  destruct (m !! k) as [v|] eqn:E; simpl; [|lia]. apply Hm in E. lia.
Qed.

Lemma apply_slash_proofs_wf st proofs st' :
  state_wf st → apply_slash_proofs st proofs = Ok st' → state_wf st' ∧ supply st' ≤ supply st.
Proof.
  intros Hst [_ ->]%apply_slash_proofs_Ok. pose proof Hst as [????]. split.
  - split; simpl; try done; by apply foldl_delete_wf.
  - unfold supply; simpl.
    epose proof (foldl_delete_sum id (slash_keys proofs) (stakes st) _) as Hs.
    epose proof (foldl_delete_sum requests_sum (slash_keys proofs) (unstaking st) _) as Hu. lia.
    Unshelve.
    + intros k v; eauto using u64_map_wf_nonneg.
    + intros k l Hk. apply requests_sum_nonneg. by apply wf_unstaking in Hk as [_ ?].
Qed.

Lemma total_stake_le_supply st : state_wf st → 0 ≤ total_stake st ≤ supply st.
Proof.
  intros Hst. pose proof (unstaking_sum_nonneg st Hst).
  pose proof (u64_map_sum_nonneg _ (wf_balances _ Hst)).
  assert (0 ≤ total_stake st ≤ map_sum id (stakes st)); [|unfold supply; lia].
  split; [by apply list_sum_nonneg, valid_stakes_nonneg|].
  rewrite (map_sum_to_list id _ (btree_iter (stakes st)) (btree_iter_perm _)).
  unfold total_stake, valid_stakes.
  assert (Forall (λ p, 0 ≤ p.2) (btree_iter (stakes st))) as Hl.
  { apply Forall_forall. intros [k v] Hk%elem_of_btree_iter.
    by apply (u64_map_wf_nonneg _ _ _ (wf_stakes _ Hst) Hk). }
  induction Hl as [|[k v] l Hv _ IH]; [done|]. cbn [omap list_omap fmap list_fmap fst snd] in *.
  destruct (verifying_key_from_bytes k); cbn [ok mbind option_bind fmap list_fmap fst snd list_sum foldr compose id] in *;
    fold (list_sum (id ∘ snd <$> l)); unfold list_sum in *; simpl in *; lia.
Qed.

Lemma get_expected_validator_returns st h :
  state_wf st → supply st < u64_modulus → ∃ e, get_expected_validator st h = Ret e.
Proof.
  intros Hst Hsup. pose proof (total_stake_le_supply st Hst).
  destruct (decide (total_stake st = 0)) as [Hz|].
  - unfold get_expected_validator. case_bool_decide; [eauto|].
    rewrite u64_sum_small; [|by apply valid_stakes_nonneg|unfold total_stake in *; lia].
    cbn [mbind outcome_bind]. rewrite bool_decide_true by (unfold total_stake in *; lia). eauto.
  - rewrite get_expected_validator_eq by (done || lia).
    destruct (select_validator_total (h mod total_stake st) 0 (valid_stakes st))
      as (s & vk & -> & _); [|rewrite Z.add_0_l; apply (Z.mod_pos_bound _ (total_stake st)); lia
                             |unfold total_stake in *; lia|eauto].
    eapply Forall_impl; [by apply valid_stakes_u64|]. intros [??] ?; simpl in *. u64_lia.
Qed.

(** The ranges in which no counter overflows. *)
Definition block_in_range (parent b : Block) : Prop :=
  block_height parent < u64_max ∧
  Forall (λ tx, tx_in_range tx (block_slot b)) (block_transactions b).

Lemma validate_returns parent st b :
  state_wf st → supply st < u64_modulus → block_in_range parent b →
  ∃ r, validate_and_apply_block parent st b = Ret r ∧
       ∀ st', r = Ok st' → state_wf st' ∧ supply st' ≤ supply st.
Proof.
  intros Hst Hsup [Hh Htxs]. unfold validate_and_apply_block.
  destruct (block_is_valid b); simpl; [|naive_solver].
  rewrite u64_add_small by u64_lia. cbn [mbind outcome_bind].
  do 2 (case_bool_decide; [naive_solver|]).
  destruct (get_expected_validator_returns st (block_height b) Hst Hsup) as [e ->].
  cbn [mbind outcome_bind].
  destruct (match e with Some _ => _ | None => _ end); [naive_solver|].
  destruct (apply_transactions_returns (block_slot b) st _ Hst Hsup Htxs) as (r & -> & Hr).
  destruct r as [st1|]; simpl; [|naive_solver]. destruct (Hr st1 eq_refl) as [Hst1 Hs1].
  destruct (apply_slash_proofs st1 _) as [st2|] eqn:E; simpl; [|naive_solver].
  apply apply_slash_proofs_wf in E as [??]; [|done].
  case_bool_decide; eexists; (split; [done|]); intros; simplify_eq. split; [done|lia].
Qed.

(** C12: validating any block, from an honest peer or not, returns in every build
    profile (no overflow, no panic) as long as the coins fit a [u64] and no counter
    is at the end of its range; and when the block is accepted the new state is
    well formed and holds no more coins than the parent state. *)
Theorem validate_and_apply_block_total parent st b :
  state_wf st → supply st < u64_modulus → block_in_range parent b →
  ∃ r, validate_and_apply_block parent st b = Ret r ∧
       ∀ st', r = Ok st' → state_wf st' ∧ supply st' ≤ supply st.
Proof. apply validate_returns. Qed.
End totality.

(** ** The rules of the protocol

    Which blocks may follow a block, and the state they lead to, said without the code: in
    exact arithmetic and with no order of checks. *)

Section rules.
Context `{Target, Crypto, !CryptoLaws}.

Definition block_signed (b : Block) (vk : VerifyingKey) : Prop :=
  block_validator b = vk ∧ ∃ s, block_signature b = Some s ∧ verify vk (hash b) s = true.

(** Two different blocks for one slot, both signed by the accused. *)
Definition equivocates (p : SlashProof) : Prop :=
  block_slot (proof_block_a p) = block_slot (proof_block_b p) ∧
  hash (proof_block_a p) ≠ hash (proof_block_b p) ∧
  block_signed (proof_block_a p) (proof_validator p) ∧ block_signed (proof_block_b p) (proof_validator p).

(** The stakes lie one after the other on a line, in the order of their keys, and the
    height, modulo their sum, is a point of the line: whose stake is it in? *)
Definition in_turn (st : State) (height : Z) (vk : VerifyingKey) : Prop :=
  ∃ before s after, valid_stakes st = before ++ (s, vk) :: after ∧
    list_sum before.*1 ≤ height mod total_stake st < list_sum before.*1 + s.

(** A transaction that is signed by its sender, is its next one, and spends what it has. *)
Definition tx_allowed (st : State) (tx : Transaction) : Prop :=
  (∃ s, tx_signature tx = Some s ∧ verify (tx_sender tx) (hash tx) s = true) ∧
  tx_sequence tx = get_nonce st (tx_sender tx) ∧
  match tx_data tx with
  | Transfer _ amount | Stake amount => amount ≤ get_balance st (tx_sender tx)
  | Unstake amount => amount ≤ entry_or 0 (verifying_key_to_bytes (tx_sender tx)) (stakes st)
  | Slash proof => equivocates proof
  end.

Inductive txs_allowed (slot : Z) : State → list Transaction → State → Prop :=
| allowed_nil st : txs_allowed slot st [] st
| allowed_cons st tx txs st' :
    tx_allowed st tx → txs_allowed slot (effect st tx slot) txs st' → txs_allowed slot st (tx :: txs) st'.

(** [st'] is [st] without the stakes and the withdrawals of the validators [ks]. *)
Record slashed (ks : list bytes) (st st' : State) : Prop := {
  slashed_balances : balances st' = balances st;
  slashed_nonces : nonces st' = nonces st;
  slashed_stakes k : stakes st' !! k = if decide (k ∈ ks) then None else stakes st !! k;
  slashed_unstaking k : unstaking st' !! k = if decide (k ∈ ks) then None else unstaking st !! k;
}.

Definition may_follow (parent : Block) (st : State) (b : Block) (st' : State) : Prop :=
  block_signed b (block_validator b) ∧
  block_height b = block_height parent + 1 ∧ block_slot parent < block_slot b ∧
  (total_stake st = 0 ∨ in_turn st (block_height b) (block_validator b)) ∧
  (∃ st1, txs_allowed (block_slot b) st (block_transactions b) st1 ∧
     Forall equivocates (block_slash_proofs b) ∧ slashed (slash_keys (block_slash_proofs b)) st1 st') ∧
  block_state_root b = compute_state_root st'.

Lemma block_is_valid_signed b : block_is_valid b = true ↔ block_signed b (block_validator b).
Proof. rewrite block_is_valid_spec. unfold block_signed. naive_solver. Qed.

Lemma validate_equivocates p : slash_proof_validate p = Ok tt ↔ equivocates p.
Proof.
  rewrite slash_proof_validate_Ok, !block_is_valid_spec. unfold equivocates, block_signed. split.
  - intros (? & ? & Ha & Hb & Va & Vb). rewrite Ha in Va. rewrite Hb in Vb. done.
  - intros (? & ? & [Ha Va] & [Hb Vb]). rewrite Ha, Hb. done.
Qed.

Lemma is_valid_tx_allowed st tx : is_valid_tx st tx = true ↔ tx_allowed st tx.
Proof.
  rewrite is_valid_tx_spec. unfold tx_allowed, data_covered, transaction_is_valid.
  assert (match tx_signature tx with Some s => verify (tx_sender tx) (hash tx) s | None => false end = true ↔
    ∃ s, tx_signature tx = Some s ∧ verify (tx_sender tx) (hash tx) s = true) as ->.
  { destruct (tx_signature tx); naive_solver. }
  destruct (tx_data tx) as [| | |p]; rewrite <-?validate_equivocates; naive_solver.
Qed.

Lemma txs_step_allowed slot st txs st' :
  state_wf st → supply st < u64_modulus → Forall (λ tx, tx_in_range tx slot) txs →
  txs_step slot st txs st' ↔ txs_allowed slot st txs st'.
Proof.
  intros Hst Hsup Hr. revert st Hst Hsup. induction Hr as [|tx txs Htx _ IH]; intros st Hst Hsup.
  { split; inversion 1; subst; constructor. }
  split; [inversion 1 as [|? ? st1 ? ? Hv Ha Hrest]|inversion 1]; subst.
  - destruct (valid_tx_effect st tx slot) as (E & Hst1 & Hs1); [done..|]. rewrite E in Ha. injection Ha as <-.
    pose proof (slashed_amount_nonneg st tx Hst).
    constructor; [by apply is_valid_tx_allowed|]. apply IH; [done|lia|done].
  - assert (is_valid_tx st tx = true) as Hv by by apply is_valid_tx_allowed.
    destruct (valid_tx_effect st tx slot) as (E & Hst1 & Hs1); [done..|].
    pose proof (slashed_amount_nonneg st tx Hst).
    econstructor; [done|exact E|]. apply IH; [done|lia|done].
Qed.

Lemma lookup_foldl_delete {V} (ks : list bytes) (m : gmap bytes V) k :
  foldl (λ m k, delete k m) m ks !! k = if decide (k ∈ ks) then None else m !! k.
Proof.
  revert m. induction ks as [|k' ks IH]; intros m; simpl; [done|]. rewrite IH.
  destruct (decide (k ∈ ks)) as [Hin|Hin]; [by rewrite decide_True by set_solver|].
  destruct (decide (k = k')) as [->|Hne].
  - rewrite decide_True by set_solver. apply lookup_delete_eq.
  - rewrite decide_False by set_solver. by apply lookup_delete_ne.
Qed.

Lemma apply_slash_proofs_slashed st proofs st' :
  apply_slash_proofs st proofs = Ok st' ↔ Forall equivocates proofs ∧ slashed (slash_keys proofs) st st'.
Proof.
  rewrite apply_slash_proofs_Ok. 
  assert (Forall (λ p, slash_proof_validate p = Ok tt) proofs ↔ Forall equivocates proofs) as ->
    by (rewrite !Forall_forall; by setoid_rewrite validate_equivocates).
  split; intros [Hp Hs]; (split; [done|]).
  - subst st'. split; simpl; try done; intros k; apply lookup_foldl_delete.
  - destruct Hs as [Hb Hn Hs Hu]. destruct st' as [b n s u]. simpl in *. subst b n.
    unfold set_unstaking, set_stakes. f_equal; apply map_eq; intros k.
    + rewrite Hs. symmetry. apply (lookup_foldl_delete (V:=Z)).
    + rewrite Hu. symmetry. apply (lookup_foldl_delete (V:=list UnstakeRequest)).
Qed.

Lemma select_validator_turn t cum l vk :
  Forall (λ p, 0 ≤ p.1) l → cum ≤ t → cum + list_sum l.*1 < u64_modulus →
  select_validator t cum l = Ret (Some vk) ↔
  ∃ before s after, l = before ++ (s, vk) :: after ∧ cum + list_sum before.*1 ≤ t < cum + list_sum before.*1 + s.
Proof.
  intros Hl. revert cum. induction Hl as [|[s0 vk0] l Hs Hl IH]; intros cum Hc Hmax.
  { split; [done|]. by intros ([|] & s & after & [=] & _). }
  cbn [select_validator fmap list_fmap fst snd list_sum foldr] in *. fold (list_sum l.*1) in *.
  assert (0 ≤ list_sum l.*1) by (apply list_sum_nonneg; by apply Forall_fmap).
  rewrite u64_add_small by lia. cbn [mbind outcome_bind]. case_bool_decide as Ht.
  - split.
    + intros [= ->]. exists [], s0, l. split; [done|]. simpl. lia.
    + intros ([|[s1 vk1] before] & s & after & E & Hr); simplify_eq/=; [done|].
      apply Forall_app in Hl as [Hb _]. fold (list_sum before.*1) in *.
      assert (0 ≤ list_sum before.*1) by (apply list_sum_nonneg; by apply Forall_fmap). lia.
  - rewrite IH by lia. split.
    + intros (before & s & after & -> & Hr). exists ((s0, vk0) :: before), s, after. split; [done|].
      change (list_sum ((s0, vk0) :: before).*1) with (s0 + list_sum before.*1). lia.
    + intros ([|[s1 vk1] before] & s & after & E & Hr); simplify_eq/=; [lia|].
      exists before, s, after. split; [done|]. fold (list_sum before.*1) in *. lia.
Qed.

Lemma expected_validator_turn st h vk :
  state_wf st → supply st < u64_modulus →
  (∃ e, get_expected_validator st h = Ret e ∧ (e = None ∨ e = Some vk)) ↔ total_stake st = 0 ∨ in_turn st h vk.
Proof.
  intros Hst Hsup. pose proof (total_stake_le_supply st Hst) as Ht.
  assert (Forall (λ p, 0 ≤ p.1) (valid_stakes st)) as Hl.
  { eapply Forall_impl; [by apply valid_stakes_u64|]. intros [??] ?; simpl in *. u64_lia. }
  destruct (decide (total_stake st = 0)) as [Hz|Hz].
  - split; [by left|]. intros _. exists None. split; [|by left].
    unfold get_expected_validator. case_bool_decide; [done|].
    rewrite u64_sum_small; [|by apply valid_stakes_nonneg|unfold total_stake in *; lia].
    cbn [mbind outcome_bind]. by rewrite bool_decide_true by (unfold total_stake in *; lia).
  - rewrite get_expected_validator_eq by (done || lia).
    assert (0 ≤ h mod total_stake st < total_stake st) as Hm by (apply Z.mod_pos_bound; lia).
    unfold in_turn. set (t := h mod total_stake st) in *. clearbody t.
    destruct (select_validator_total t 0 (valid_stakes st))
      as (s & vk' & E & _ & _); [done|rewrite Z.add_0_l; exact Hm|unfold total_stake in *; lia|].
    assert (0 + list_sum (valid_stakes st).*1 < u64_modulus) as Hmax by (unfold total_stake in Ht; lia).
    pose proof (select_validator_turn t 0 _ vk Hl (proj1 Hm) Hmax) as Hturn.
    setoid_rewrite Z.add_0_l in Hturn. rewrite <-Hturn.
    rewrite E. split.
    + intros (e & [= <-] & [?|[= ->]]); [done|by right].
    + intros [?|[= ->]]; [done|]. eauto.
Qed.

(** C10: validation decides the rules of the protocol.  In a well-formed state whose coins
    fit a [u64], and with no counter at the end of its range, a block is accepted exactly
    when it is signed by its validator, is one higher than its parent and in a later slot,
    comes from the validator in whose stake the height falls (any, when there is no stake),
    carries transactions that are signed, in sequence and covered, each in the state that
    the ones before it make, and slashing proofs that all show two blocks signed for one
    slot, and names the root of the state that results: the exact effect of the
    transactions, without the stakes and withdrawals of the slashed.  That state is the one
    returned. *)
Theorem validate_and_apply_block_iff parent st b st' :
  state_wf st → supply st < u64_modulus → is_u64 (block_height parent) → block_in_range parent b →
  validate_and_apply_block parent st b = Ret (Ok st') ↔ may_follow parent st b st'.
Proof.
  intros Hst Hsup Hh [Hmax Htxs]. rewrite validate_accepts. unfold may_follow.
  rewrite block_is_valid_signed, expected_validator_turn by done.
  rewrite u64_add_small by u64_lia.
  setoid_rewrite (λ st1, txs_step_allowed (block_slot b) st (block_transactions b) st1 Hst Hsup Htxs).
  setoid_rewrite apply_slash_proofs_slashed.
  assert (Ret (block_height parent + 1) = Ret (block_height b) ↔ block_height b = block_height parent + 1) as ->
    by (split; congruence). done.
Qed.
End rules.

(** ** Sequence numbers along a chain *)

Section sequences.
Context `{Target, Crypto, !CryptoLaws}.

Definition sent_by (a : VerifyingKey) (txs : list Transaction) : list Transaction :=
  filter (λ tx, tx_sender tx = a) txs.

Lemma txs_step_sequences slot st txs st' a :
  txs_step slot st txs st' → get_nonce st a + Z.of_nat (length txs) < u64_modulus →
  map tx_sequence (sent_by a txs) = seqZ (get_nonce st a) (Z.of_nat (length (sent_by a txs))) ∧
  get_nonce st' a = get_nonce st a + Z.of_nat (length (sent_by a txs)).
Proof.
  unfold sent_by. induction 1 as [st|st tx st1 txs st2 Hv Ha _ IH]; intros Hmax.
  { simpl. rewrite Z.add_0_r. done. }
  destruct (get_nonce_after _ _ _ _ a Ha) as (v & Hv1 & Hn).
  apply is_valid_tx_spec in Hv as (_ & Hq & _). rewrite filter_cons.
  cbn [length] in Hmax. rewrite Nat2Z.inj_succ in Hmax.
  destruct (decide (a = tx_sender tx)) as [->|Hne].
  - rewrite u64_add_small in Hv1 by lia. injection Hv1 as <-.
    rewrite decide_True by done. destruct IH as [IH1 IH2]; [lia|].
    cbn [map length]. rewrite Nat2Z.inj_succ, seqZ_cons, Z.pred_succ by lia.
    rewrite IH1, IH2, Hn, Hq. split; [done|lia].
  - rewrite decide_False by done. rewrite Hn in IH. apply IH. lia.
Qed.

(** A branch: blocks accepted one on top of the other. *)
Inductive branch : Block → State → list Block → State → Prop :=
| branch_nil parent st : branch parent st [] st
| branch_cons parent st b st1 bs st2 :
    validate_and_apply_block parent st b = Ret (Ok st1) →
    branch b st1 bs st2 → branch parent st (b :: bs) st2.

Definition branch_transactions (bs : list Block) : list Transaction :=
  flat_map block_transactions bs.

Lemma apply_slash_proofs_nonces st proofs st' :
  apply_slash_proofs st proofs = Ok st' → nonces st' = nonces st.
Proof. by intros [_ ->]%apply_slash_proofs_Ok. Qed.

Lemma validate_txs_step parent st b st' :
  validate_and_apply_block parent st b = Ret (Ok st') →
  ∃ st1, txs_step (block_slot b) st (block_transactions b) st1 ∧
         apply_slash_proofs st1 (block_slash_proofs b) = Ok st'.
Proof. by intros (_ & _ & _ & _ & ? & _)%validate_accepts. Qed.

Lemma branch_sequences parent st bs st' a :
  branch parent st bs st' →
  get_nonce st a + Z.of_nat (length (branch_transactions bs)) < u64_modulus →
  map tx_sequence (sent_by a (branch_transactions bs)) =
    seqZ (get_nonce st a) (Z.of_nat (length (sent_by a (branch_transactions bs)))) ∧
  get_nonce st' a = get_nonce st a + Z.of_nat (length (sent_by a (branch_transactions bs))).
Proof.
  unfold branch_transactions. induction 1 as [|parent st b st1 bs st2 Hb _ IH]; intros Hmax.
  { simpl. rewrite Z.add_0_r. done. }
  apply validate_txs_step in Hb as (st1' & Ht & Hs%apply_slash_proofs_nonces).
  cbn [flat_map] in *. rewrite length_app in Hmax.
  destruct (txs_step_sequences _ _ _ _ a Ht) as [E1 E2]; [lia|].
  assert (get_nonce st1 a = get_nonce st1' a) as En by (unfold get_nonce; by rewrite Hs).
  assert (length (sent_by a (block_transactions b)) ≤ length (block_transactions b))%nat
    by apply length_filter.
  destruct IH as [E3 E4]; [rewrite En, E2; lia|].
  unfold sent_by in *. rewrite filter_app, map_app, length_app, Nat2Z.inj_add.
  rewrite E1, E3, E4, En, E2, <-seqZ_app by lia. split; [done|lia].
Qed.

(** C14: no transaction is ever applied twice on a branch: along any chain of accepted
    blocks the transactions of an account carry consecutive sequence numbers that
    start at its nonce, and the nonce at the end is the next one to use, provided
    the account does not exhaust its 2^64 nonces. *)
Theorem branch_no_replay parent st bs st' a :
  branch parent st bs st' →
  get_nonce st a + Z.of_nat (length (branch_transactions bs)) < u64_modulus →
  map tx_sequence (sent_by a (branch_transactions bs)) =
    seqZ (get_nonce st a) (Z.of_nat (length (sent_by a (branch_transactions bs)))) ∧
  NoDup (map tx_sequence (sent_by a (branch_transactions bs))) ∧
  get_nonce st' a = get_nonce st a + Z.of_nat (length (sent_by a (branch_transactions bs))).
Proof.
  intros Hb Hmax. destruct (branch_sequences _ _ _ _ a Hb Hmax) as [E1 E2].
  split_and!; [done|rewrite E1; apply NoDup_seqZ|done].
Qed.

(** a block in the last slot ends its branch: the slot of a block has no upper
    bound, and no block that fits the Rust types is ever accepted on top of one
    with slot [u64::MAX]. *)
Theorem last_slot_ends_branch parent st b st' :
  block_slot parent = u64_max → block_fits b →
  validate_and_apply_block parent st b ≠ Ret (Ok st').
Proof.
  intros Hp Hb (_ & _ & Hs & _)%validate_accepts.
  destruct b; simpl in *. rewrite !andb_True, !bool_decide_spec in Hb. u64_lia.
Qed.
End sequences.

(** ** Fork choice *)

Section fork_choice.
Context `{Crypto}.
Implicit Types p q : bytes * Block.

(** [head_lt p q]: candidate [q] replaces head [p]. *)
Definition head_lt p q : Prop := should_replace_head q.1 q.2 p.2 p.1 = true.

Lemma head_lt_spec p q :
  head_lt p q ↔
  block_height p.2 < block_height q.2 ∨
  block_height p.2 = block_height q.2 ∧
    (block_slot p.2 < block_slot q.2 ∨
     block_slot p.2 = block_slot q.2 ∧ bytes_lt p.1 q.1).
Proof.
  unfold head_lt, should_replace_head. rewrite <-bytes_ltb_lt.
  repeat case_bool_decide; naive_solver lia.
Qed.

Lemma head_lt_irrefl p : ¬ head_lt p p.
Proof. rewrite head_lt_spec. intros [|[_ [|[_ E]]]]; [lia..|]. by apply (irreflexivity bytes_lt) in E. Qed.

Lemma head_lt_trans p q r : head_lt p q → head_lt q r → head_lt p r.
Proof.
  rewrite !head_lt_spec. intros [|(?&[|[? Hpq]])] [|(?&[|[? Hqr]])]; try lia.
  right. split; [lia|]. right. split; [lia|]. by etrans.
Qed.

Lemma head_lt_total p q : p.1 ≠ q.1 → head_lt p q ∨ head_lt q p.
Proof.
  intros Hne. rewrite !head_lt_spec. destruct (bytes_lt_trichotomy p.1 q.1) as [|[|]];
    [|done|]; destruct (Z.lt_trichotomy (block_height p.2) (block_height q.2)) as [|[|]]; auto;
    destruct (Z.lt_trichotomy (block_slot p.2) (block_slot q.2)) as [|[|]]; auto 10.
Qed.

(** The head after candidates arrive one after the other. *)
Definition pick_head (head candidate : bytes * Block) : bytes * Block :=
  if should_replace_head candidate.1 candidate.2 head.2 head.1 then candidate else head.

(** A hash names one block. *)
Definition named (l : list (bytes * Block)) : Prop := ∀ p q, p ∈ l → q ∈ l → p.1 = q.1 → p = q.

Lemma named_NoDup l : NoDup l.*1 → named l.
Proof.
  intros Hnd [h1 b1] [h2 b2] Hp Hq E. simpl in E. subst h2. f_equal.
  apply elem_of_list_to_map_1 in Hp; [|done]. apply elem_of_list_to_map_1 in Hq; [|done].
  congruence.
Qed.

Definition head_le p q : Prop := p = q ∨ head_lt p q.

Lemma head_le_trans p q r : head_le p q → head_le q r → head_le p r.
Proof. intros [->|?] [->|?]; unfold head_le; eauto using head_lt_trans. Qed.

Lemma head_le_antisym p q : head_le p q → head_le q p → p = q.
Proof.
  intros [|Hpq] [|Hqp]; try done. exfalso. apply (head_lt_irrefl p). eauto using head_lt_trans.
Qed.

Lemma pick_head_le p c :
  (p.1 = c.1 → p = c) → head_le p (pick_head p c) ∧ head_le c (pick_head p c).
Proof.
  intros Hn. unfold pick_head, head_le. destruct (should_replace_head _ _ _ _) eqn:E; [by auto|].
  split; [by left|]. destruct (decide (p.1 = c.1)); [left; symmetry; auto|right].
  destruct (head_lt_total p c) as [Hlt|]; [done| |done]. unfold head_lt in Hlt. congruence.
Qed.

Lemma pick_head_max l p :
  named (p :: l) →
  foldl pick_head p l ∈ p :: l ∧ ∀ q, q ∈ p :: l → head_le q (foldl pick_head p l).
Proof.
  revert p. induction l as [|c l IH]; intros p Hn; simpl.
  { split; [left|]. intros q ->%list_elem_of_singleton. by left. }
  destruct (pick_head_le p c) as [Hp Hc]; [apply Hn; [left|right; left]|].
  assert (pick_head p c = p ∨ pick_head p c = c) as Hor
    by (unfold pick_head; destruct (should_replace_head _ _ _ _); auto).
  destruct (IH (pick_head p c)) as [Hin Hmax].
  { intros x y Hx Hy. apply Hn; [revert Hx|revert Hy]; rewrite !elem_of_cons; naive_solver. }
  split.
  { apply elem_of_cons in Hin as [->|Hin]; [|by do 2 right].
    destruct Hor as [->| ->]; [left|right; left]. }
  intros q. rewrite !elem_of_cons. intros [->|[->|Hq]].
  - eapply head_le_trans; [exact Hp|apply Hmax; left].
  - eapply head_le_trans; [exact Hc|apply Hmax; left].
  - apply Hmax. by right.
Qed.

(** C13: fork choice is a strict total order on candidates (height, then slot, then
    hash), so the head a node ends with is the greatest block it was given and does
    not depend on the order in which the blocks arrived: two nodes that start from
    the same head and see the same candidates agree. *)
Theorem fork_choice_order_independent p l1 l2 :
  named (p :: l1) → l1 ≡ₚ l2 →
  foldl pick_head p l1 = foldl pick_head p l2 ∧
  (∀ q, q ∈ p :: l1 → q = foldl pick_head p l1 ∨ head_lt q (foldl pick_head p l1)).
Proof.
  intros Hn Hl. assert (∀ x, x ∈ p :: l1 ↔ x ∈ p :: l2) as Hel
    by (intros x; by rewrite !elem_of_cons, Hl).
  assert (named (p :: l2)) as Hn2 by (intros x y; rewrite <-!Hel; apply Hn).
  destruct (pick_head_max l1 p Hn) as [Hin1 Hmax1].
  destruct (pick_head_max l2 p Hn2) as [Hin2 Hmax2].
  split; [|exact Hmax1]. apply head_le_antisym; [by apply Hmax2, Hel|by apply Hmax1, Hel].
Qed.
End fork_choice.

(** ** Witnesses *)

Module ChainCoreWitness.
Import ToyCrypto ModelsWitness LedgerWitness.
#[local] Existing Instance dev_host.

Definition root_block : Block := mkBlock 0 0 zero_hash x01 [] None [] zero_hash.
(** The block after [root_block] on the state [st0] of Ledger.v: its validator is
    the only staker, and it carries the transfer [pay]. *)
Definition next_block : Block := toy_block x07 1 1 (hash root_block) [pay] [] (compute_state_root paid).
Definition last_block : Block := toy_block x07 1 u64_max (hash root_block) [] [] (compute_state_root st0).

Lemma next_block_accepted : validate_and_apply_block root_block st0 next_block = Ret (Ok paid).
Proof. vm_compute. reflexivity. Qed.

Lemma last_block_accepted : validate_and_apply_block root_block st0 last_block = Ret (Ok st0).
Proof. vm_compute. reflexivity. Qed.

Lemma validate_and_apply_block_iff_witness :
  validate_and_apply_block root_block st0 next_block = Ret (Ok paid) ∧ may_follow root_block st0 next_block paid.
Proof.
  split; [exact next_block_accepted|].
  apply (validate_and_apply_block_iff root_block st0 next_block paid);
    [apply st0_wf|vm_compute; reflexivity|by vm_compute| |exact next_block_accepted].
  split; [vm_compute; reflexivity|]. apply Forall_singleton. exact pay_in_range.
Defined.

Lemma validate_and_apply_block_total_witness :
  ∃ r, validate_and_apply_block root_block st0 next_block = Ret r ∧
       ∀ st', r = Ok st' → state_wf st' ∧ supply st' ≤ supply st0.
Proof.
  apply validate_and_apply_block_total; [apply st0_wf|vm_compute; reflexivity|].
  split; [vm_compute; reflexivity|]. apply Forall_singleton. exact pay_in_range.
Defined.

Definition payer : VerifyingKey := x05.

Lemma branch_no_replay_witness :
  branch root_block st0 [next_block] paid ∧
  map tx_sequence (sent_by payer (branch_transactions [next_block])) =
    seqZ (get_nonce st0 payer)
      (Z.of_nat (length (sent_by payer (branch_transactions [next_block])))).
Proof.
  assert (branch root_block st0 [next_block] paid) as Hb
    by (econstructor; [exact next_block_accepted|constructor]).
  split; [exact Hb|].
  apply (branch_no_replay _ _ _ _ payer Hb). vm_compute. reflexivity.
Defined.

(** Why [block_in_range] is needed: the staker withdraws in the last slot, and the unlock
    slot overflows.  A build with overflow checks panics while it validates the block; a
    release build accepts it with an unlock slot in the past. *)
Definition withdraw : Transaction := toy_tx x07 (Unstake 10) 0 0.
Definition late_block (root : bytes) : Block := toy_block x07 1 u64_max (hash root_block) [withdraw] [] root.

Lemma late_unstake_overflows :
  validate_and_apply_block root_block st0 (late_block zero_hash) = Panic ∧
  ∃ st', validate_and_apply_block (H:=release_embedded) root_block st0 (late_block (compute_state_root st0)) =
           Ret (Ok st') ∧ unstaking st' !! encode_key x07 = Some [mkUnstakeRequest 10 63].
Proof. split; [vm_compute; reflexivity|]. eexists. split; vm_compute; reflexivity. Qed.

Lemma last_slot_ends_branch_witness :
  validate_and_apply_block root_block st0 last_block = Ret (Ok st0) ∧
  validate_and_apply_block last_block st0 next_block ≠ Ret (Ok st0).
Proof. split; [exact last_block_accepted|]. apply last_slot_ends_branch; by vm_compute. Defined.

Definition candidate (b : Block) : bytes * Block := (hash b, b).

Lemma fork_choice_order_independent_witness :
  foldl pick_head (candidate root_block) [candidate next_block; candidate last_block] =
  foldl pick_head (candidate root_block) [candidate last_block; candidate next_block].
Proof.
  apply fork_choice_order_independent; [|apply Permutation_swap].
  apply named_NoDup. apply (bool_decide_unpack _). vm_compute. exact I.
Defined.
End ChainCoreWitness.
