(* ===== verification/Mempool.v ===== *)
(** * The pool of pending transactions

    Models rp-node/src/mempool.rs.  A [BTreeSet<Transaction>] is the list of its
    elements in increasing order of [transaction_cmp] (decreasing fee, then
    increasing hash); [insert], [remove], [contains], [iter] and [retain] of the
    standard library act on that list. *)

From S2P Require Import Prelude.
From S2P Require Import Maps.
From S2P Require Import Crypto.
From S2P Require Import Models.

Section btree_set.
Context `{Crypto}.
Implicit Types t x : Transaction.

Fixpoint set_contains (l : list Transaction) (t : Transaction) : bool :=
  match l with
  | [] => false
  | x :: l =>
      match transaction_cmp t x with
      | Eq => true
      | _ => set_contains l t
      end
  end.

(** An element that compares equal is kept and the new one is dropped. *)
Fixpoint set_insert (l : list Transaction) (t : Transaction) : list Transaction :=
  match l with
  | [] => [t]
  | x :: l =>
      match transaction_cmp t x with
      | Lt => t :: x :: l
      | Eq => x :: l
      | Gt => x :: set_insert l t
      end
  end.

Fixpoint set_remove (l : list Transaction) (t : Transaction) : list Transaction :=
  match l with
  | [] => []
  | x :: l =>
      match transaction_cmp t x with
      | Eq => l
      | _ => x :: set_remove l t
      end
  end.
End btree_set.

(** ** mempool.rs *)

Section mempool.
Context `{Crypto}.

Record Mempool : Type := mkMempool {
  transactions : list Transaction;
  max_size : nat;
}.

Definition Mempool_new (max_size : nat) : Mempool := mkMempool [] max_size.

Definition mempool_add_transaction (m : Mempool) (tx : Transaction) :
    Mempool * result bool string :=
  if set_contains (transactions m) tx then (m, Ok false)
  else if bool_decide (length (transactions m) < max_size m)%nat
  then (mkMempool (set_insert (transactions m) tx) (max_size m), Ok true)
  else
    match last (transactions m) with
    | Some lowest =>
        if bool_decide (tx_fee lowest < tx_fee tx)
        then (mkMempool (set_insert (set_remove (transactions m) lowest) tx) (max_size m), Ok true)
        else (m, Err "Transaction fee too low to enter mempool"%string)
    | None => (m, Err "Failed to evict lowest fee transaction"%string)
    end.

Definition get_pending_transactions (m : Mempool) (count : nat) : list Transaction :=
  take count (transactions m).

Definition remove_transaction (m : Mempool) (h : bytes) : Mempool :=
  mkMempool (filter (λ tx, hash tx ≠ h) (transactions m)) (max_size m).

Definition mempool_clear (m : Mempool) : Mempool := mkMempool [] (max_size m).

Definition mempool_len (m : Mempool) : nat := length (transactions m).

(** ** Sets as sorted lists *)

Definition tx_lt (a b : Transaction) : Prop := transaction_cmp a b = Lt.

Lemma tx_lt_fee a b : tx_lt a b → tx_fee b ≤ tx_fee a.
Proof. unfold tx_lt. rewrite transaction_cmp_Lt. lia. Qed.

Lemma tx_lt_Gt a b : transaction_cmp a b = Gt ↔ tx_lt b a.
Proof. unfold tx_lt. rewrite (transaction_cmp_antisym a b). by destruct (transaction_cmp a b). Qed.

Lemma set_contains_spec l t :
  set_contains l t = true ↔ ∃ x, x ∈ l ∧ transaction_cmp t x = Eq.
Proof.
  induction l as [|x l IH]; simpl; [set_solver|].
  trans (transaction_cmp t x = Eq ∨ set_contains l t = true);
    [destruct (transaction_cmp t x); naive_solver|].
  rewrite IH. setoid_rewrite elem_of_cons. naive_solver.
Qed.

Lemma elem_of_set_insert l t y :
  set_contains l t = false → y ∈ set_insert l t ↔ y = t ∨ y ∈ l.
Proof.
  induction l as [|x l IH]; simpl; [set_solver|].
  destruct (transaction_cmp t x); [done|set_solver..].
Qed.

Lemma length_set_insert l t :
  set_contains l t = false → length (set_insert l t) = S (length l).
Proof.
  induction l as [|x l IH]; simpl; [done|].
  destruct (transaction_cmp t x); simpl; [done|done|]. intros. by rewrite IH.
Qed.

Lemma set_insert_sorted l t :
  StronglySorted tx_lt l → StronglySorted tx_lt (set_insert l t).
Proof.
  induction 1 as [|x l Hl IH Hx]; simpl; [repeat constructor|].
  destruct (transaction_cmp t x) eqn:E; [by constructor|..].
  - constructor; [by constructor|]. constructor; [done|].
    eapply Forall_impl; [exact Hx|]. intros y Hy. by eapply transaction_cmp_trans.
  - constructor; [done|]. apply Forall_forall. intros y Hy.
    destruct (set_contains l t) eqn:Hc.
    + clear IH Hl. assert (y = t ∨ y ∈ l) as [->|Hin]; [|by apply tx_lt_Gt|].
      { clear -Hy. induction l as [|z l IHl]; simpl in *; [set_solver|].
        destruct (transaction_cmp t z); set_solver. }
      by apply (proj1 (Forall_forall _ _) Hx).
    + apply elem_of_set_insert in Hy as [->|Hin]; [by apply tx_lt_Gt| |done].
      by apply (proj1 (Forall_forall _ _) Hx).
Qed.

(** Removing the last element of a sorted list. *)
Lemma set_remove_last l t :
  StronglySorted tx_lt (l ++ [t]) → set_remove (l ++ [t]) t = l.
Proof.
  induction l as [|x l IH]; simpl; inversion_clear 1 as [|?? Hl Hx].
  - by rewrite (proj2 (transaction_cmp_Eq t t)).
  - assert (tx_lt x t) as Hlt by (apply (proj1 (Forall_forall _ _) Hx); set_solver).
    apply tx_lt_Gt in Hlt. rewrite Hlt. by rewrite IH.
Qed.

Lemma last_snoc_inv {A} (l : list A) x : last l = Some x → ∃ l', l = l' ++ [x].
Proof. destruct l as [|y l' _] using rev_ind; [done|]. rewrite last_snoc. naive_solver. Qed.

Lemma sorted_app_inv (l1 l2 : list Transaction) :
  StronglySorted tx_lt (l1 ++ l2) →
  StronglySorted tx_lt l1 ∧ ∀ a b, a ∈ l1 → b ∈ l2 → tx_lt a b.
Proof.
  induction l1 as [|x l1 IH]; simpl; [intros; split; [constructor|set_solver]|].
  inversion_clear 1 as [|?? Hl Hx]. apply Forall_app in Hx as [Hx1 Hx2].
  destruct (IH Hl) as [Hs Hlt]. split; [by constructor|].
  intros a b [->|Ha]%elem_of_cons Hb; [|auto]. by apply (proj1 (Forall_forall _ _) Hx2).
Qed.

(** ** The invariant *)

Record mempool_wf (m : Mempool) : Prop := {
  wf_sorted : StronglySorted tx_lt (transactions m);
  wf_bounded : (length (transactions m) ≤ max_size m)%nat;
}.

Lemma mempool_wf_new n : mempool_wf (Mempool_new n).
Proof. split; simpl; [constructor|lia]. Qed.

(** What [add_transaction] does, on every branch. *)
Inductive add_result (m : Mempool) (tx : Transaction) : Mempool → result bool string → Prop :=
| add_known : set_contains (transactions m) tx = true → add_result m tx m (Ok false)
| add_room m' :
    set_contains (transactions m) tx = false → (length (transactions m) < max_size m)%nat →
    (∀ x, x ∈ transactions m' ↔ x = tx ∨ x ∈ transactions m) →
    length (transactions m') = S (length (transactions m)) → max_size m' = max_size m →
    add_result m tx m' (Ok true)
| add_evict m' kept lowest :
    set_contains (transactions m) tx = false → transactions m = kept ++ [lowest] →
    length (transactions m) = max_size m → tx_fee lowest < tx_fee tx →
    (∀ x, x ∈ transactions m' ↔ x = tx ∨ x ∈ kept) →
    length (transactions m') = length (transactions m) → max_size m' = max_size m →
    add_result m tx m' (Ok true)
| add_too_low kept lowest :
    set_contains (transactions m) tx = false → transactions m = kept ++ [lowest] →
    length (transactions m) = max_size m → tx_fee tx ≤ tx_fee lowest →
    add_result m tx m (Err "Transaction fee too low to enter mempool"%string)
| add_no_room :
    max_size m = 0%nat →
    add_result m tx m (Err "Failed to evict lowest fee transaction"%string).

Lemma set_contains_app l1 l2 t :
  set_contains (l1 ++ l2) t = false → set_contains l1 t = false.
Proof.
  intros E. apply not_true_is_false. intros (x & Hx & Ec)%set_contains_spec.
  apply not_true_iff_false in E. apply E, set_contains_spec. exists x. split; [set_solver|done].
Qed.

Lemma mempool_add_spec m tx :
  mempool_wf m →
  add_result m tx (mempool_add_transaction m tx).1 (mempool_add_transaction m tx).2 ∧
  mempool_wf (mempool_add_transaction m tx).1.
Proof.
  intros Hm. pose proof Hm as [Hs Hb]. unfold mempool_add_transaction.
  destruct (set_contains (transactions m) tx) eqn:Hc; simpl; [by split; [constructor|]|].
  case_bool_decide as Hroom; simpl.
  { split.
    - apply add_room; simpl; auto using length_set_insert, elem_of_set_insert.
    - split; simpl; [by apply set_insert_sorted|]. rewrite length_set_insert by done. lia. }
  destruct (last (transactions m)) as [lowest|] eqn:El; simpl.
  2: { apply last_None in El. rewrite El in *. split; [|done]. apply add_no_room. simpl in *. lia. }
  apply last_snoc_inv in El as [kept El]. case_bool_decide; simpl.
  - rewrite El in *. rewrite set_remove_last by done.
    apply set_contains_app in Hc as Hc'. apply sorted_app_inv in Hs as [Hs' _].
    rewrite length_app in *; simpl in *.
    assert (length (set_insert kept tx) = S (length kept)) by by apply length_set_insert.
    split; [|split; simpl; [by apply set_insert_sorted|lia]].
    eapply add_evict; rewrite ?El, ?length_app; simpl; try done; try lia.
    intros x. by apply elem_of_set_insert.
  - split; [|done]. eapply add_too_low; eauto; lia.
Qed.

(** [add_transaction] keeps the pool sorted by decreasing fee and within its
    bound, and does exactly one of five things: it ignores a known transaction,
    adds a new one while there is room, replaces the cheapest transaction when the
    new one pays strictly more, refuses it when it does not, and refuses it when
    the pool has no room at all. *)
Theorem mempool_add_transaction_cases m tx :
  mempool_wf m →
  add_result m tx (mempool_add_transaction m tx).1 (mempool_add_transaction m tx).2 ∧
  mempool_wf (mempool_add_transaction m tx).1.
Proof. apply mempool_add_spec. Qed.

(** ** The pool keeps the best-paying transactions *)

Definition add_all (m : Mempool) (txs : list Transaction) : Mempool :=
  foldl (λ m tx, (mempool_add_transaction m tx).1) m txs.

(** [t] is in the pool, or the pool is full of transactions that pay no less. *)
Definition represented (m : Mempool) (t : Transaction) : Prop :=
  set_contains (transactions m) t = true ∨
  length (transactions m) = max_size m ∧ ∀ x, x ∈ transactions m → tx_fee t ≤ tx_fee x.

Lemma transaction_cmp_Eq_fee a b : transaction_cmp a b = Eq → tx_fee a = tx_fee b.
Proof. by intros [? _]%transaction_cmp_Eq. Qed.

Lemma set_contains_elem l t : t ∈ l → set_contains l t = true.
Proof. intros Ht. apply set_contains_spec. exists t. split; [done|]. by apply transaction_cmp_Eq. Qed.

Lemma add_result_represented m tx m' r t :
  mempool_wf m → add_result m tx m' r → represented m t ∨ t = tx → represented m' t.
Proof.
  intros Hm Hr Ht. inversion Hr as [Hc|? Hc Hroom Hin Hlen Hmax|? kept low Hc El Hfull Hfee Hin Hlen Hmax
    |kept low Hc El Hfull Hfee|Hz]; subst.
  - destruct Ht as [?| ->]; [done|by left].
  - destruct Ht as [[(x & Hx & E)%set_contains_spec|[]]| ->]; [|lia|].
    + left. apply set_contains_spec. exists x. split; [apply Hin; by right|done].
    + left. apply set_contains_elem, Hin. by left.
  - pose proof (wf_sorted _ Hm) as Hs. rewrite El in Hs.
    assert (∀ x, x ∈ transactions m' → tx_fee low ≤ tx_fee x) as Hlow.
    { intros x [->|Hx]%Hin; [lia|]. apply tx_lt_fee.
      apply sorted_app_inv in Hs as [_ Hlt]. apply Hlt; set_solver. }
    destruct Ht as [[(x & Hx & E)%set_contains_spec|[_ Hall]]| ->].
    + rewrite El in Hx. apply elem_of_app in Hx as [Hx|Hx].
      * left. apply set_contains_spec. exists x. split; [apply Hin; by right|done].
      * apply list_elem_of_singleton in Hx as ->. right. split; [congruence|].
        intros y Hy. apply transaction_cmp_Eq_fee in E. rewrite E. auto.
    + right. split; [congruence|]. intros x Hx. etrans; [|by apply Hlow].
      apply Hall. rewrite El. set_solver.
    + left. apply set_contains_elem, Hin. by left.
  - destruct Ht as [?| ->]; [done|]. right. split; [done|].
    pose proof (wf_sorted _ Hm) as Hs. rewrite El in *. apply sorted_app_inv in Hs as [_ Hlt].
    intros x [Hx| ->%list_elem_of_singleton]%elem_of_app; [|done].
    etrans; [exact Hfee|]. apply tx_lt_fee. apply Hlt; set_solver.
  - destruct Ht as [?| ->]; [done|]. right. pose proof (wf_bounded _ Hm) as Hb.
    assert (transactions m' = []) as E by (apply nil_length_inv; lia).
    rewrite E. split; [simpl; lia|set_solver].
Qed.

(** C31: whatever transactions are submitted and in whatever order, the pool ends up
    with the best-paying ones: every submitted transaction is in the pool, or the
    pool is full of transactions that pay at least as much. *)
Theorem mempool_keeps_best_paying n txs t :
  t ∈ txs →
  mempool_wf (add_all (Mempool_new n) txs) ∧
  (set_contains (transactions (add_all (Mempool_new n) txs)) t = true ∨
   length (transactions (add_all (Mempool_new n) txs)) = n ∧
   ∀ x, x ∈ transactions (add_all (Mempool_new n) txs) → tx_fee t ≤ tx_fee x).
Proof.
  intros Ht.
  enough (mempool_wf (add_all (Mempool_new n) txs) ∧ max_size (add_all (Mempool_new n) txs) = n ∧
          ∀ t, t ∈ txs → represented (add_all (Mempool_new n) txs) t) as (Hwf & Hn & Hall).
  { split; [done|]. apply Hall in Ht. unfold represented in Ht. by rewrite Hn in Ht. }
  clear Ht. unfold add_all. induction txs as [|tx txs (Hwf & Hn & IH)] using rev_ind.
  { split; [apply mempool_wf_new|]. simpl. split; [done|set_solver]. }
  rewrite foldl_app; simpl. destruct (mempool_add_spec _ tx Hwf) as [Hr Hwf'].
  split_and!; [done| |].
  - destruct Hr; congruence.
  - intros t' [Ht| ->%list_elem_of_singleton]%elem_of_app; eauto using add_result_represented.
Qed.

(** a block producer that asks for [count] transactions gets the [count] with the
    highest fees: each one returned pays at least as much as each one left. *)
Theorem pending_transactions_pay_most m count a b :
  mempool_wf m → a ∈ get_pending_transactions m count →
  b ∈ drop count (transactions m) → tx_fee b ≤ tx_fee a.
Proof.
  intros [Hs _] Ha Hb. rewrite <-(take_drop count (transactions m)) in Hs.
  apply sorted_app_inv in Hs as [_ Hlt]. by apply tx_lt_fee, Hlt.
Qed.

Lemma remove_transaction_wf m h : mempool_wf m → mempool_wf (remove_transaction m h).
Proof.
  intros [Hs Hb]. split; simpl.
  - clear Hb. induction Hs as [|x l Hl IH Hx]; [constructor|]. rewrite filter_cons.
    case_decide; [|done]. constructor; [done|].
    apply Forall_forall. intros y [_ Hy]%list_elem_of_filter. by apply (proj1 (Forall_forall _ _) Hx).
  - pose proof (length_filter (λ tx, hash tx ≠ h) (transactions m)). lia.
Qed.
End mempool.

(** ** Witnesses *)

Module MempoolWitness.
Import ToyCrypto ModelsWitness.

Definition cheap : Transaction := toy_tx x01 (Stake 1) 0 1.
Definition fair : Transaction := toy_tx x02 (Stake 1) 0 5.
Definition dear : Transaction := toy_tx x03 (Stake 1) 0 9.
Definition pool : Mempool := mkMempool [dear; fair] 2.
Definition filled : Mempool := add_all (Mempool_new 2) [cheap; dear; fair].

Lemma pool_wf : mempool_wf pool.
Proof. split; [repeat constructor; vm_compute; reflexivity|simpl; lia]. Qed.

(** Of three transactions submitted to a pool of two, the cheapest is evicted. *)
Lemma filled_fees : map tx_fee (transactions filled) = [9; 5].
Proof. vm_compute. reflexivity. Qed.

Lemma mempool_add_transaction_cases_witness :
  add_result pool cheap (mempool_add_transaction pool cheap).1
    (mempool_add_transaction pool cheap).2 ∧
  mempool_wf (mempool_add_transaction pool cheap).1.
Proof. apply mempool_add_transaction_cases, pool_wf. Defined.

Lemma mempool_keeps_best_paying_witness :
  mempool_wf filled ∧
  (set_contains (transactions filled) cheap = true ∨
   length (transactions filled) = 2%nat ∧
   ∀ x, x ∈ transactions filled → tx_fee cheap ≤ tx_fee x).
Proof. apply (mempool_keeps_best_paying 2 [cheap; dear; fair] cheap). left. Defined.

Lemma pending_transactions_pay_most_witness : tx_fee fair ≤ tx_fee dear.
Proof. apply (pending_transactions_pay_most pool 1); [apply pool_wf|left..]. Defined.
End MempoolWitness.
