(* ===== verification/Chain.v ===== *)
(** * The block tree of a node

    Models rp-node/src/errors.rs and rp-node/src/blockchain.rs: the tree of accepted
    blocks, the head with its state, and the pool of pending transactions. *)

From S2P Require Import Prelude.
From S2P Require Import Maps.
From S2P Require Import Crypto.
From S2P Require Import Models.
From S2P Require Import State.
From S2P Require Import Ledger.
From S2P Require Import Election.
From S2P Require Import Merkle.
From S2P Require Import ChainCore.
From S2P Require Import Mempool.

(** ** errors.rs *)

Inductive NodeError : Type :=
| NodeBlockError (e : BlockError)
| ParentBlockNotFoundError
| ParentSnapshotNotFoundError
| BlockStorageError
| StateStorageError.

Inductive ContractError : Type :=
| ContractStorage
| ContractTransport
| ContractWake
| ContractIdentity
| ContractOther.

(** ** blockchain.rs *)

Definition MEMPOOL_SIZE : nat := Z.to_nat 10000.

Section blockchain.
Context `{Target, Crypto}.

Record ImportedBlock : Type := mkImportedBlock {
  next_state : State;
  became_head : bool;
}.

Record Blockchain : Type := mkBlockchain {
  chain : gmap bytes BlockNode;
  head_hash : bytes;
  bc_state : State;
  mempool : Mempool;
}.

Definition genesis_block (validator : VerifyingKey) : Block :=
  mkBlock 0 0 (replicate 32 x00) validator [] None [] (replicate 32 x00).

Definition Blockchain_new : outcome (result Blockchain NodeError) :=
  validator ← genesis_verifying_key;
  let genesis := genesis_block validator in
  let genesis_hash := hash genesis in
  Ret (Ok (mkBlockchain {[ genesis_hash := mkBlockNode genesis [] ]} genesis_hash State_new
             (Mempool_new MEMPOOL_SIZE))).

Definition get_latest_block (bc : Blockchain) : outcome Block :=
  match chain bc !! head_hash bc with
  | Some node => Ret (node_block node)
  | None => Panic
  end.

Definition restore_head (bc : Blockchain) (block : Block) (state : State) : Blockchain :=
  let block_hash := hash block in
  mkBlockchain {[ block_hash := mkBlockNode block [] ]} block_hash state
    (Mempool_new MEMPOOL_SIZE).

(** The walk from the head towards the root.  The fuel [S (size (chain bc))] is
    enough on every block tree the node builds: [chain_path]. *)
Fixpoint earliest_loop (fuel : nat) (c : gmap bytes BlockNode) (current_hash : bytes)
    (earliest_height : Z) : outcome Z :=
  match fuel with
  | O => OutOfFuel
  | S fuel =>
      match c !! current_hash with
      | None => Ret earliest_height
      | Some node =>
          let earliest_height := block_height (node_block node) in
          if bool_decide (block_height (node_block node) = 0) ||
             negb (bool_decide (is_Some (c !! block_previous_hash (node_block node))))
          then Ret earliest_height
          else earliest_loop fuel c (block_previous_hash (node_block node)) earliest_height
      end
  end.

Definition earliest_contiguous_height (bc : Blockchain) : outcome Z :=
  latest ← get_latest_block bc;
  earliest_loop (S (size (chain bc))) (chain bc) (head_hash bc) (block_height latest).

Definition add_transaction (bc : Blockchain) (tx : Transaction) :
    Blockchain * result bool string :=
  if is_valid_tx (bc_state bc) tx then
    let '(pool, r) := mempool_add_transaction (mempool bc) tx in
    (mkBlockchain (chain bc) (head_hash bc) (bc_state bc) pool, r)
  else (bc, Err "Invalid transaction"%string).

(** [if let Some(parent) = chain.get_mut(..) { if !contains { push } }] *)
Definition push_child (c : gmap bytes BlockNode) (parent child : bytes) : gmap bytes BlockNode :=
  match c !! parent with
  | Some node =>
      if bool_decide (child ∈ node_children node) then c
      else <[parent := mkBlockNode (node_block node) (node_children node ++ [child])]> c
  | None => c
  end.

(** [chain.entry(hash).or_insert_with(..)] *)
Definition insert_node (c : gmap bytes BlockNode) (h : bytes) (block : Block) :
    gmap bytes BlockNode :=
  match c !! h with
  | Some _ => c
  | None => <[h := mkBlockNode block []]> c
  end.

Definition add_block (bc : Blockchain) (block : Block) (parent_state : State) :
    outcome (Blockchain * result ImportedBlock NodeError) :=
  match chain bc !! block_previous_hash block with
  | None => Ret (bc, Err ParentBlockNotFoundError)
  | Some parent_node =>
      applied ← validate_and_apply_block (node_block parent_node) parent_state block;
      match applied with
      | Err error => Ret (bc, Err (NodeBlockError error))
      | Ok applied_state =>
          let block_hash := hash block in
          let c := push_child (chain bc) (block_previous_hash block) block_hash in
          let c := insert_node c block_hash block in
          let bc := mkBlockchain c (head_hash bc) (bc_state bc) (mempool bc) in
          latest ← get_latest_block bc;
          let replace_head := should_replace_head block_hash block latest (head_hash bc) in
          let bc :=
            if replace_head then
              mkBlockchain c block_hash applied_state
                (foldl (λ m tx, remove_transaction m (hash tx)) (mempool bc)
                   (block_transactions block))
            else bc in
          Ret (bc, Ok (mkImportedBlock applied_state replace_head))
      end
  end.

Definition get_mempool (bc : Blockchain) : list Transaction :=
  get_pending_transactions (mempool bc) (mempool_len (mempool bc)).

Fixpoint get_blocks_loop (fuel : nat) (c : gmap bytes BlockNode) (from_height to_height : Z)
    (earliest : Z) (current_hash : bytes) (blocks : list Block) : outcome (list Block) :=
  match fuel with
  | O => OutOfFuel
  | S fuel =>
      match c !! current_hash with
      | None => Ret blocks
      | Some node =>
          let h := block_height (node_block node) in
          let blocks :=
            if bool_decide (from_height ≤ h) && bool_decide (h ≤ to_height)
            then blocks ++ [node_block node] else blocks in
          if bool_decide (h = earliest) || bool_decide (h = 0) then Ret blocks
          else get_blocks_loop fuel c from_height to_height earliest
                 (block_previous_hash (node_block node)) blocks
      end
  end.

Definition get_blocks (bc : Blockchain) (from_height to_height : Z) : outcome (list Block) :=
  if bool_decide (to_height < from_height) then Ret []
  else
    earliest ← earliest_contiguous_height bc;
    latest ← get_latest_block bc;
    let latest_height := block_height latest in
    if bool_decide (from_height < earliest) || bool_decide (latest_height < from_height)
    then Ret []
    else
      blocks ← get_blocks_loop (S (size (chain bc))) (chain bc) from_height to_height earliest
                 (head_hash bc) [];
      Ret (reverse blocks).
End blockchain.

(** ** Invariant of the block tree *)

Section invariant.
Context `{Target, Crypto, !CryptoLaws}.

(** Blocks whose counters are not at the end of their range. *)
Definition block_sane (b : Block) : Prop :=
  block_fits b ∧ block_height b < u64_max ∧
  block_slot b + UNSTAKE_LOCK_EPOCHS * EPOCH_LENGTH < u64_modulus ∧
  Forall (λ tx, tx_sequence tx < u64_max) (block_transactions b).

(** States in which the coins fit a [u64]. *)
Definition state_sound (st : State) : Prop := state_wf st ∧ supply st < u64_modulus.

(** The blocks that reach a node.  No two of them collide; and, for a node that
    started from a snapshot, [missing] is the hash of the parent of the restored
    block with the height of the restored block: a block with that hash is lower. *)
Class Delivered (U : Block → Prop) (missing : option (bytes * Z)) : Prop := {
  delivered_sane b : U b → block_sane b;
  delivered_no_collision b1 b2 :
    U b1 → U b2 → hash b1 = hash b2 → erase_block b1 = erase_block b2;
  delivered_missing b h z : U b → missing = Some (h, z) → hash b = h → block_height b < z;
}.

(** The blocks of the tree, without the lists of children. *)
Definition tree_blocks (c : gmap bytes BlockNode) : gmap bytes Block := node_block <$> c.

Lemma tree_blocks_push_child c parent child : tree_blocks (push_child c parent child) = tree_blocks c.
Proof.
  unfold push_child, tree_blocks. destruct (c !! parent) as [n|] eqn:E; [|done].
  case_bool_decide; [done|]. rewrite fmap_insert; simpl. apply insert_id.
  by rewrite lookup_fmap, E.
Qed.

Lemma tree_blocks_insert_node c h b :
  tree_blocks (insert_node c h b) =
    match tree_blocks c !! h with Some _ => tree_blocks c | None => <[h:=b]> (tree_blocks c) end.
Proof.
  unfold insert_node, tree_blocks. rewrite lookup_fmap.
  destruct (c !! h); simpl; [done|]. by rewrite fmap_insert.
Qed.

Context (U : Block → Prop) (missing : option (bytes * Z)) `{!Delivered U missing}.

Record tree_inv (t : gmap bytes Block) : Prop := {
  tree_keys k b : t !! k = Some b → U b ∧ hash b = k;
  tree_links k b :
    t !! k = Some b → block_height b ≠ 0 →
    (∃ p, t !! block_previous_hash b = Some p ∧
          block_height b = block_height p + 1 ∧ block_slot p < block_slot b) ∨
    (t !! block_previous_hash b = None ∧ missing = Some (block_previous_hash b, block_height b));
  tree_floor k b h z : t !! k = Some b → missing = Some (h, z) → z ≤ block_height b;
}.

Record chain_inv (bc : Blockchain) : Prop := {
  inv_tree : tree_inv (tree_blocks (chain bc));
  inv_head : ∃ b, tree_blocks (chain bc) !! head_hash bc = Some b ∧
                  block_state_root b = compute_state_root (bc_state bc) ∧
                  ∀ k c, tree_blocks (chain bc) !! k = Some c →
                         k = head_hash bc ∨ head_lt (k, c) (head_hash bc, b);
  inv_state : state_sound (bc_state bc);
  inv_pool : mempool_wf (mempool bc);
}.

Lemma sane_txs_in_range b :
  block_sane b → Forall (λ tx, tx_in_range tx (block_slot b)) (block_transactions b).
Proof.
  intros (Hf & _ & Hs & Hq). unfold tx_in_range.
  destruct b as [h s p v txs sg proofs root]; simpl in *.
  rewrite !andb_True, !bool_decide_spec in Hf. destruct_and!.
  match goal with Ht : Is_true (forallb transaction_fits txs) |- _ =>
    rewrite Is_true_true, forallb_forall in Ht; rename Ht into Hfits end.
  rewrite Forall_forall in Hq |- *. intros tx Htx. split_and!; try done; [|by apply Hq].
  apply Is_true_true, Hfits. by apply list_elem_of_In.
Qed.

Lemma sane_height b : block_sane b → 0 ≤ block_height b < u64_max.
Proof.
  intros (Hf & Hh & _). destruct b; simpl in *.
  rewrite !andb_True, !bool_decide_spec in Hf. u64_lia.
Qed.

Lemma get_latest_block_tree bc b :
  tree_blocks (chain bc) !! head_hash bc = Some b → get_latest_block bc = Ret b.
Proof.
  unfold tree_blocks, get_latest_block. rewrite lookup_fmap.
  destruct (chain bc !! head_hash bc); simpl; congruence.
Qed.

(** Inserting an accepted block whose hash is new. *)
Lemma tree_inv_insert t b p :
  tree_inv t → U b → t !! hash b = None → t !! block_previous_hash b = Some p →
  block_height b = block_height p + 1 → block_slot p < block_slot b →
  tree_inv (<[hash b := b]> t).
Proof.
  intros Ht Hb Hnew Hp Hh Hs. split.
  - intros k c [[<- <-]|[_ Hk]]%lookup_insert_Some; [done|]. by apply (tree_keys _ Ht).
  - assert (∀ k c, t !! k = Some c → <[hash b := b]> t !! k = Some c) as Hmono.
    { intros k c Hk. rewrite lookup_insert_ne; [done|]. congruence. }
    intros k c [[<- <-]|[Hne Hk]]%lookup_insert_Some Hz; [left; eauto|].
    destruct (tree_links _ Ht k c Hk Hz) as [(pc & ? & ? & ?)|[Hnone Hm]]; [left; eauto|].
    right. split; [|done]. apply lookup_insert_None. split; [done|]. intros E.
    pose proof (delivered_missing b _ _ Hb Hm E).
    pose proof (tree_floor _ Ht _ _ _ _ Hp Hm). lia.
  - intros k c h z [[<- <-]|[_ Hk]]%lookup_insert_Some Hm; [|by eapply tree_floor].
    pose proof (tree_floor _ Ht _ _ _ _ Hp Hm). lia.
Qed.

Lemma erase_fields b1 b2 :
  erase_block b1 = erase_block b2 →
  block_height b1 = block_height b2 ∧ block_slot b1 = block_slot b2 ∧
  block_state_root b1 = block_state_root b2 ∧ block_previous_hash b1 = block_previous_hash b2.
Proof. destruct b1, b2; simpl. by injection 1. Qed.

Lemma remove_transactions_wf m (txs : list Transaction) :
  mempool_wf m → mempool_wf (foldl (λ m tx, remove_transaction m (hash tx)) m txs).
Proof. revert m. induction txs; simpl; auto using remove_transaction_wf. Qed.

(** The head rule applied to a block the tree already holds changes nothing. *)
Lemma known_block_keeps_head t head hb b e :
  tree_inv t → t !! head = Some hb →
  (∀ k c, t !! k = Some c → k = head ∨ head_lt (k, c) (head, hb)) →
  U b → t !! hash b = Some e → should_replace_head (hash b) b hb head = false.
Proof.
  intros Ht Hhead Hmax Hb He.
  destruct (tree_keys _ Ht _ _ He) as [HUe Hhe].
  destruct (erase_fields b e) as (Eh & Es & _); [by apply delivered_no_collision|].
  apply not_true_is_false. intros Hr.
  assert (head_lt (head, hb) (hash b, e)) as Hlt.
  { apply head_lt_spec. simpl. rewrite <-Eh, <-Es. by apply (head_lt_spec (head, hb) (hash b, b)). }
  destruct (Hmax _ _ He) as [Eq|Hgt].
  - rewrite <-Eq in Hlt, Hhead. rewrite He in Hhead. injection Hhead as <-.
    by apply head_lt_irrefl in Hlt.
  - by apply (head_lt_irrefl (head, hb)), (head_lt_trans _ (hash b, e)).
Qed.

(** The head rule applied to a new block: the head stays the greatest block. *)
Lemma new_block_head (t : gmap bytes Block) head hb b :
  t !! head = Some hb → (∀ k c, t !! k = Some c → k = head ∨ head_lt (k, c) (head, hb)) →
  t !! hash b = None →
  let replaced := should_replace_head (hash b) b hb head in
  let head' := if replaced then hash b else head in
  let hb' := if replaced then b else hb in
  <[hash b := b]> t !! head' = Some hb' ∧
  ∀ k c, <[hash b := b]> t !! k = Some c → k = head' ∨ head_lt (k, c) (head', hb').
Proof.
  intros Hhead Hmax Hnew. assert (hash b ≠ head) as Hne by congruence. cbv zeta.
  destruct (should_replace_head (hash b) b hb head) eqn:Hrep.
  - rewrite lookup_insert_eq. split; [done|].
    intros k x [[<- <-]|[_ Hk]]%lookup_insert_Some; [by left|right].
    destruct (Hmax _ _ Hk) as [->|Hlt]; [|eapply head_lt_trans; [exact Hlt|exact Hrep]].
    rewrite Hhead in Hk. injection Hk as <-. exact Hrep.
  - rewrite lookup_insert_ne by done. split; [done|].
    intros k x [[<- <-]|[_ Hk]]%lookup_insert_Some; [right|by apply Hmax].
    destruct (head_lt_total (hash b, b) (head, hb)) as [|Hlt]; [done..|].
    unfold head_lt in Hlt. simpl in Hlt. congruence.
Qed.

Lemma tree_insert_extends (t : gmap bytes Block) h b :
  t !! h = None →
  (∀ k c, t !! k = Some c → <[h := b]> t !! k = Some c) ∧
  (∀ k c, <[h := b]> t !! k = Some c → t !! k = Some c ∨ k = h ∧ c = b).
Proof.
  intros Hnew. split.
  - intros k c Hk. rewrite lookup_insert_ne; [done|congruence].
  - intros k c [[<- <-]|[_ Hk]]%lookup_insert_Some; auto.
Qed.

(** What adding a block does to the tree and the head. *)
Definition added (bc bc' : Blockchain) (b : Block) (st' : State) (head : bool) : Prop :=
  (∃ e, tree_blocks (chain bc') !! hash b = Some e ∧ erase_block e = erase_block b) ∧
  (∀ k c, tree_blocks (chain bc) !! k = Some c → tree_blocks (chain bc') !! k = Some c) ∧
  (∀ k c, tree_blocks (chain bc') !! k = Some c →
          tree_blocks (chain bc) !! k = Some c ∨ k = hash b ∧ c = b) ∧
  block_state_root b = compute_state_root st' ∧ state_sound st' ∧
  (if head then head_hash bc' = hash b ∧ bc_state bc' = st'
   else head_hash bc' = head_hash bc ∧ bc_state bc' = bc_state bc ∧ mempool bc' = mempool bc).

Lemma add_block_accepted bc b pst p st' :
  chain_inv bc → U b → state_sound pst →
  tree_blocks (chain bc) !! block_previous_hash b = Some p →
  validate_and_apply_block p pst b = Ret (Ok st') →
  ∃ bc' head, add_block bc b pst = Ret (bc', Ok (mkImportedBlock st' head)) ∧
              chain_inv bc' ∧ added bc bc' b st' head.
Proof.
  intros Hbc Hb [Hwf Hsup] Hp Hv. pose proof Hbc as [Ht (hb & Hhead & Hroot & Hmax) Hst Hpool].
  pose proof (tree_keys _ Ht _ _ Hp) as [HUp _].
  pose proof (delivered_sane b Hb) as Hsane. pose proof (delivered_sane p HUp) as Hsanep.
  assert (state_sound st') as Hsound'.
  { destruct (validate_returns p pst b Hwf Hsup) as (r & Er & Hr).
    - split; [apply Hsanep|by apply sane_txs_in_range].
    - rewrite Hv in Er. injection Er as <-. destruct (Hr st' eq_refl). split; [done|lia]. }
  pose proof Hv as (_ & Hh & Hs & _ & _ & Hr)%validate_accepts.
  pose proof (sane_height p Hsanep). rewrite u64_add_small in Hh by u64_lia. injection Hh as Hh.
  unfold add_block. pose proof Hp as Hp'. unfold tree_blocks in Hp'. rewrite lookup_fmap in Hp'.
  destruct (chain bc !! block_previous_hash b) as [pn|]; simpl in Hp'; [|done].
  injection Hp' as ->. rewrite Hv. cbn [mbind outcome_bind].
  set (c := insert_node _ (hash b) b).
  assert (tree_blocks c = match tree_blocks (chain bc) !! hash b with
            Some _ => tree_blocks (chain bc) | None => <[hash b := b]> (tree_blocks (chain bc)) end) as Hc.
  { unfold c. by rewrite tree_blocks_insert_node, tree_blocks_push_child. }
  clearbody c. destruct (tree_blocks (chain bc) !! hash b) as [e|] eqn:He.
  - rewrite (get_latest_block_tree _ hb) by (simpl; by rewrite Hc). cbn [mbind outcome_bind].
    simpl. rewrite (known_block_keeps_head _ _ _ b e Ht Hhead Hmax Hb He).
    do 2 eexists. split; [done|]. split.
    + split; simpl; rewrite ?Hc; eauto.
    + unfold added; simpl. rewrite Hc. split_and!; eauto.
      exists e. split; [done|]. destruct (tree_keys _ Ht _ _ He).
      apply delivered_no_collision; [done..|congruence].
  - assert (tree_inv (tree_blocks c)) as Ht' by (rewrite Hc; eapply tree_inv_insert; eauto).
    rewrite (get_latest_block_tree _ hb) by (simpl; rewrite Hc; by apply tree_insert_extends).
    cbn [mbind outcome_bind]. simpl.
    destruct (new_block_head _ _ _ b Hhead Hmax He) as [Hhead' Hmax'].
    destruct (tree_insert_extends _ (hash b) b He) as [Hext Hext'].
    destruct (should_replace_head (hash b) b hb (head_hash bc));
      (do 2 eexists; split; [done|]; split;
        [split; simpl; eauto using remove_transactions_wf; eexists; by rewrite Hc
        |unfold added; simpl; rewrite Hc, lookup_insert_eq; split_and!; eauto]).
Qed.

(** [add_block] on every branch. *)
Lemma add_block_spec bc b pst :
  chain_inv bc → U b → state_sound pst →
  ∃ bc' r, add_block bc b pst = Ret (bc', r) ∧ chain_inv bc' ∧
    match r with
    | Ok (mkImportedBlock st' head) =>
        ∃ p, tree_blocks (chain bc) !! block_previous_hash b = Some p ∧
             validate_and_apply_block p pst b = Ret (Ok st') ∧ added bc bc' b st' head
    | Err ParentBlockNotFoundError =>
        bc' = bc ∧ tree_blocks (chain bc) !! block_previous_hash b = None
    | Err (NodeBlockError e) =>
        bc' = bc ∧ ∃ p, tree_blocks (chain bc) !! block_previous_hash b = Some p ∧
                        validate_and_apply_block p pst b = Ret (Err e)
    | Err _ => False
    end.
Proof.
  intros Hbc Hb Hpst.
  destruct (tree_blocks (chain bc) !! block_previous_hash b) as [p|] eqn:Hp.
  - pose proof (tree_keys _ (inv_tree _ Hbc) _ _ Hp) as [HUp _].
    destruct (validate_returns p pst b) as (r & Hr & _); [apply Hpst..| |].
    { split; [apply (delivered_sane p HUp)|by apply sane_txs_in_range, delivered_sane]. }
    destruct r as [st'|e].
    + destruct (add_block_accepted bc b pst p st') as (bc' & hd & ? & ? & ?); [done..|].
      exists bc', (Ok (mkImportedBlock st' hd)). naive_solver.
    + exists bc, (Err (NodeBlockError e)). split_and!; [|done|done|by exists p].
      unfold add_block. unfold tree_blocks in Hp. rewrite lookup_fmap in Hp.
      destruct (chain bc !! block_previous_hash b); simpl in Hp; [|done].
      injection Hp as ->. by rewrite Hr.
  - exists bc, (Err ParentBlockNotFoundError). split_and!; [|done..].
    unfold add_block. unfold tree_blocks in Hp. rewrite lookup_fmap in Hp.
    by destruct (chain bc !! block_previous_hash b).
Qed.

(** C9: adding a block that reaches the node never panics and keeps the invariant of
    the block tree: every block is filed under its hash, is one higher than its
    parent and in a later slot, the head is a block of the tree that the fork-choice
    rule prefers to every other one, and the state kept is the state whose root the
    head carries.  A refused block leaves the node unchanged; an accepted one adds
    itself and nothing else to the tree, and the state follows it exactly when it
    becomes the head. *)
Theorem add_block_preserves_chain bc b pst :
  chain_inv bc → U b → state_sound pst →
  ∃ bc' r, add_block bc b pst = Ret (bc', r) ∧ chain_inv bc' ∧
    match r with
    | Ok (mkImportedBlock st' head) =>
        ∃ p, tree_blocks (chain bc) !! block_previous_hash b = Some p ∧
             validate_and_apply_block p pst b = Ret (Ok st') ∧ added bc bc' b st' head
    | Err ParentBlockNotFoundError =>
        bc' = bc ∧ tree_blocks (chain bc) !! block_previous_hash b = None
    | Err (NodeBlockError e) =>
        bc' = bc ∧ ∃ p, tree_blocks (chain bc) !! block_previous_hash b = Some p ∧
                        validate_and_apply_block p pst b = Ret (Err e)
    | Err _ => False
    end.
Proof. apply add_block_spec. Qed.

Lemma add_transaction_inv bc tx : chain_inv bc → chain_inv (add_transaction bc tx).1.
Proof.
  intros Hbc. unfold add_transaction. destruct (is_valid_tx _ tx); [|done].
  pose proof (mempool_add_spec (mempool bc) tx (inv_pool _ Hbc)) as [_ Hwf].
  destruct (mempool_add_transaction (mempool bc) tx). by destruct Hbc.
Qed.

(** ** Starting a node *)

Lemma singleton_tree h b : tree_blocks {[ h := mkBlockNode b [] ]} = {[ h := b ]}.
Proof. apply map_fmap_singleton. Qed.

Lemma single_block_inv b st :
  U b → state_sound st → block_state_root b = compute_state_root st →
  (block_height b = 0 ∧ missing = None ∨ missing = Some (block_previous_hash b, block_height b)) →
  chain_inv (mkBlockchain {[ hash b := mkBlockNode b [] ]} (hash b) st (Mempool_new MEMPOOL_SIZE)).
Proof.
  intros Hb Hst Hr Hm. split; simpl; [| |done|apply mempool_wf_new].
  - rewrite singleton_tree. split.
    + by intros k c [<- <-]%lookup_singleton_Some.
    + intros k c [<- <-]%lookup_singleton_Some Hz. right. destruct Hm as [[]|Hm]; [done|].
      split; [|done]. apply lookup_singleton_None. intros E.
      pose proof (delivered_missing b _ _ Hb Hm E). lia.
    + intros k c h z [<- <-]%lookup_singleton_Some E. destruct Hm as [[]|Hm]; [congruence|].
      rewrite Hm in E. injection E as <- <-. done.
  - exists b. rewrite singleton_tree, lookup_singleton_eq. split_and!; [done..|].
    intros k c [<- <-]%lookup_singleton_Some. by left.
Qed.

(** ** The branch of the head *)

(** [path t h l]: the blocks from [h] down to the lowest one the tree still links to. *)
Inductive path (t : gmap bytes Block) : bytes → list Block → Prop :=
| path_bottom h b :
    t !! h = Some b → (block_height b = 0 ∨ t !! block_previous_hash b = None) → path t h [b]
| path_step h b p l :
    t !! h = Some b → block_height b ≠ 0 → t !! block_previous_hash b = Some p →
    path t (block_previous_hash b) l → path t h (b :: l).

Lemma path_head t h l : path t h l → ∃ b l', l = b :: l' ∧ t !! h = Some b.
Proof. destruct 1; eauto. Qed.

(** Heights go down by one, so a path is no longer than the tree. *)
Lemma path_heights t h l b :
  tree_inv t → path t h l → t !! h = Some b →
  map block_height l =
    reverse (seqZ (block_height b + 1 - Z.of_nat (length l)) (Z.of_nat (length l))).
Proof.
  intros Ht Hl. revert b. induction Hl as [h b Hb _|h b p l Hb Hz Hp Hl IH]; intros b' Hb'; simplify_eq.
  { cbn [map length]. replace (_ + 1 - _) with (block_height b) by lia. done. }
  destruct (tree_links _ Ht _ _ Hb Hz) as [(p' & Hp' & Hh & _)|[? _]]; [|congruence].
  simplify_eq. cbn [map length]. rewrite (IH p Hp), Nat2Z.inj_succ, <-Z.add_1_r.
  rewrite seqZ_app, reverse_app, (seqZ_cons _ 1) by lia. replace (Z.pred 1) with 0 by lia.
  simpl. rewrite Hh. f_equal; [lia|]. do 2 f_equal; lia.
Qed.

Lemma path_in_tree t h l : tree_inv t → path t h l → Forall (λ b, t !! hash b = Some b) l.
Proof.
  intros Ht. induction 1 as [h b Hb _|h b p l Hb _ _ _ IH]; constructor; auto;
    by destruct (tree_keys _ Ht _ _ Hb) as [_ ->].
Qed.

Lemma path_length t h l : tree_inv t → path t h l → (length l ≤ size t)%nat.
Proof.
  intros Ht Hl. destruct (path_head _ _ _ Hl) as (b0 & l' & _ & Hb0).
  pose proof (path_heights _ _ _ _ Ht Hl Hb0) as He.
  assert (NoDup l) as Hnd.
  { apply (NoDup_fmap_1 block_height). change (fmap block_height l) with (map block_height l).
    rewrite He, reverse_Permutation. apply NoDup_seqZ. }
  assert (NoDup (map hash l)) as Hndh.
  { apply (NoDup_fmap_2_strong hash); [|done]. intros x y Hx Hy E.
    pose proof (path_in_tree _ _ _ Ht Hl) as Hin. rewrite Forall_forall in Hin.
    apply Hin in Hx, Hy. congruence. }
  rewrite <-(length_map hash), <-size_dom, <-(size_list_to_set (C:=gset bytes)) by done.
  apply subseteq_size. intros h' (b & -> & Hb)%elem_of_list_to_set%list_elem_of_fmap.
  pose proof (path_in_tree _ _ _ Ht Hl) as Hin. rewrite Forall_forall in Hin.
  apply elem_of_dom. eauto.
Qed.

Lemma path_exists t h b : tree_inv t → t !! h = Some b → ∃ l, path t h l.
Proof.
  intros Ht. remember (Z.to_nat (block_height b)) as n eqn:En. revert h b En.
  induction n as [|n IH]; intros h b En Hb;
    destruct (decide (block_height b = 0)) as [Hz|Hz]; eauto using path;
    pose proof (sane_height b (delivered_sane b (proj1 (tree_keys _ Ht _ _ Hb)))); [lia|].
  destruct (tree_links _ Ht _ _ Hb Hz) as [(p & Hp & Hh & _)|[Hnone _]]; [|eauto using path].
  destruct (IH (block_previous_hash b) p) as [l Hl]; [lia|done|]. eauto using path.
Qed.

Lemma size_tree_blocks c : size (tree_blocks c) = size c.
Proof. unfold tree_blocks. apply map_size_fmap. Qed.

(** The two loops, on a path that is no longer than the fuel. *)
Lemma earliest_loop_path c h l fuel z :
  path (tree_blocks c) h l → (length l ≤ fuel)%nat →
  earliest_loop fuel c h z = Ret (default z (block_height <$> last l)).
Proof.
  intros Hl. revert fuel z. induction Hl as [h b Hb Hend|h b p l Hb Hz Hp Hl IH]; intros fuel z Hf;
    (destruct fuel as [|fuel]; simpl in Hf; [lia|]); cbn [earliest_loop];
    unfold tree_blocks in Hb; rewrite lookup_fmap in Hb;
    (destruct (c !! h) as [n|]; simpl in Hb; [|done]); injection Hb as <-.
  - replace (_ || _) with true; [done|]. symmetry. apply orb_true_iff.
    destruct Hend as [Hz|Hn]; [left; by apply bool_decide_eq_true|right].
    apply negb_true_iff, bool_decide_eq_false. unfold tree_blocks in Hn. rewrite lookup_fmap in Hn.
    destruct (c !! _); [done|]. apply is_Some_None.
  - replace (_ || _) with false.
    + rewrite IH by lia. apply path_head in Hl as (b' & l' & -> & _).
      change (last (node_block n :: b' :: l')) with (last (b' :: l')).
      destruct (last (b' :: l')) eqn:E; [done|by apply last_None in E].
    + symmetry. apply orb_false_iff. split; [by apply bool_decide_eq_false|].
      apply negb_false_iff, bool_decide_eq_true. unfold tree_blocks in Hp. rewrite lookup_fmap in Hp.
      destruct (c !! _); [eauto|done].
Qed.

Lemma get_blocks_loop_path c h l fuel from to e acc :
  path (tree_blocks c) h l → (length l ≤ fuel)%nat →
  Forall (λ b, block_height b ≠ e) (removelast l) →
  (∀ b, last l = Some b → block_height b = e) →
  get_blocks_loop fuel c from to e h acc =
    Ret (acc ++ filter (λ b, from ≤ block_height b ≤ to) l).
Proof.
  intros Hl. revert fuel acc.
  induction Hl as [h b Hb Hend|h b p l Hb Hz Hp Hl IH]; intros fuel acc Hf Hne Hlast;
    (destruct fuel as [|fuel]; simpl in Hf; [lia|]); cbn [get_blocks_loop];
    unfold tree_blocks in Hb; rewrite lookup_fmap in Hb;
    (destruct (c !! h) as [n|]; simpl in Hb; [|done]); injection Hb as <-;
    rewrite filter_cons;
    rewrite (bool_decide_decide (from ≤ _)), (bool_decide_decide (_ ≤ to)).
  - rewrite (bool_decide_true (_ = e)) by by apply Hlast. simpl.
    repeat case_decide; simpl; rewrite ?app_nil_r; done || lia.
  - apply path_head in Hl as Hhd. destruct Hhd as (b' & l' & -> & _).
    change (removelast (?x :: b' :: l')) with (x :: removelast (b' :: l')) in Hne.
    apply Forall_cons in Hne as [Hn Hne].
    rewrite (bool_decide_false (_ = e)), (bool_decide_false (_ = 0)) by done. simpl orb. cbv iota.
    rewrite IH; [|lia|done|done].
    repeat case_decide; simpl; rewrite <-?app_assoc; done || lia.
Qed.

Lemma filter_all {A} (P : A → Prop) `{∀ x, Decision (P x)} (l : list A) :
  (∀ x, x ∈ l → P x) → filter P l = l.
Proof.
  induction l as [|x l IH]; intros HP; [done|]. rewrite filter_cons_True by (apply HP; left).
  f_equal. apply IH. intros y Hy. apply HP. by right.
Qed.

Lemma filter_none {A} (P : A → Prop) `{∀ x, Decision (P x)} (l : list A) :
  (∀ x, x ∈ l → ¬ P x) → filter P l = [].
Proof.
  induction l as [|x l IH]; intros HP; [done|]. rewrite filter_cons_False by (apply HP; left).
  apply IH. intros y Hy. apply HP. by right.
Qed.

Lemma map_filter_height (P : Z → Prop) `{∀ x, Decision (P x)} (l : list Block) :
  map block_height (filter (λ b, P (block_height b)) l) = filter P (map block_height l).
Proof.
  induction l as [|b l IH]; [done|]. rewrite filter_cons. cbn [map]. rewrite filter_cons.
  case_decide; cbn [map]; by rewrite IH.
Qed.

(** Filtering a descending path by height. *)
Lemma filter_heights (l : list Block) lo n from to :
  map block_height l = reverse (seqZ lo n) → lo ≤ from ≤ to → from ≤ lo + n - 1 →
  map block_height (reverse (filter (λ b, from ≤ block_height b ≤ to) l)) =
    seqZ from (Z.min to (lo + n - 1) - from + 1).
Proof.
  intros Hl Hf Ht.
  trans (reverse (map block_height (filter (λ b, from ≤ block_height b ≤ to) l)));
    [apply fmap_reverse|].
  pose proof (map_filter_height (λ z, from ≤ z ≤ to) l) as Hm.
  etrans; [apply f_equal, Hm|].
  rewrite Hl, filter_reverse, reverse_involutive.
  set (m := Z.min to (lo + n - 1) - from + 1).
  replace n with ((from - lo) + (m + (n - (from - lo) - m))) by lia.
  rewrite !seqZ_app, !filter_app by lia. rewrite filter_none, (filter_all _ (seqZ _ m)), filter_none.
  - rewrite app_nil_r. simpl. f_equal. lia.
  - intros x [??]%elem_of_seqZ. lia.
  - intros x [??]%elem_of_seqZ. lia.
  - intros x [??]%elem_of_seqZ. lia.
Qed.

(** The branch of the head of a node. *)
Lemma head_path bc :
  chain_inv bc →
  ∃ b l lowest, get_latest_block bc = Ret b ∧
    path (tree_blocks (chain bc)) (head_hash bc) (b :: l) ∧
    last (b :: l) = Some lowest ∧
    map block_height (b :: l) =
      reverse (seqZ (block_height lowest) (block_height b - block_height lowest + 1)) ∧
    earliest_contiguous_height bc = Ret (block_height lowest) ∧
    block_height lowest ≤ block_height b ∧ (length (b :: l) ≤ size (chain bc))%nat.
Proof.
  intros Hbc. destruct (inv_head _ Hbc) as (b & Hb & _).
  pose proof (inv_tree _ Hbc) as Ht. destruct (path_exists _ _ _ Ht Hb) as [l0 Hl].
  destruct (path_head _ _ _ Hl) as (b' & l & -> & Hb'). rewrite Hb in Hb'. injection Hb' as <-.
  pose proof (path_length _ _ _ Ht Hl) as Hlen. rewrite size_tree_blocks in Hlen.
  pose proof (path_heights _ _ _ _ Ht Hl Hb) as Hh.
  destruct (last (b :: l)) as [low|] eqn:El; [|by apply last_None in El].
  assert (block_height low = block_height b + 1 - Z.of_nat (length (b :: l))) as Elow.
  { apply (f_equal last) in Hh. rewrite last_reverse in Hh.
    pose proof (fmap_last block_height (b :: l)) as Hfl.
    change (map block_height (b :: l)) with (block_height <$> b :: l) in Hh.
    rewrite Hfl, El, seqZ_cons in Hh by (simpl; lia). simpl in Hh. injection Hh as ->. simpl. lia. }
  exists b, l, low. split_and!; try done.
  - by apply get_latest_block_tree.
  - rewrite Hh, Elow. do 2 f_equal. lia.
  - unfold earliest_contiguous_height. rewrite (get_latest_block_tree _ b) by done.
    cbn [mbind outcome_bind]. rewrite (earliest_loop_path _ _ (b :: l)) by (done || lia). by rewrite El.
  - rewrite Elow. simpl. lia.
Qed.

(** Adjacent blocks of a descending list are linked. *)
Fixpoint linked (l : list Block) : Prop :=
  match l with
  | b :: ((p :: _) as l') => block_previous_hash b = hash p ∧ linked l'
  | _ => True
  end.

Lemma path_linked t h l : tree_inv t → path t h l → linked l.
Proof.
  intros Ht. induction 1 as [|h b p l Hb Hz Hp Hl IH]; simpl; [done|].
  apply path_head in Hl as (p' & l' & -> & Hp'). split; [|done].
  by apply (tree_keys _ Ht) in Hp' as [_ ->].
Qed.

(** Heights that go down one by one. *)
Fixpoint descending (l : list Block) : Prop :=
  match l with
  | b :: ((p :: _) as l') => block_height b = block_height p + 1 ∧ descending l'
  | _ => True
  end.

Lemma path_descending t h l : tree_inv t → path t h l → descending l.
Proof.
  intros Ht. induction 1 as [|h b p l Hb Hz Hp Hl IH]; simpl; [done|].
  destruct (tree_links _ Ht _ _ Hb Hz) as [(p' & Hp' & Hh & _)|[? _]]; [|congruence].
  apply path_head in Hl as (p'' & l' & -> & Hp''). split; [congruence|done].
Qed.

Lemma descending_le b l x : descending (b :: l) → x ∈ b :: l → block_height x ≤ block_height b.
Proof.
  revert b. induction l as [|p l IH]; intros b Hd; [intros ->%list_elem_of_singleton; done|].
  destruct Hd as [Hh Hd]. intros [->|Hx]%elem_of_cons; [done|]. specialize (IH p Hd Hx). lia.
Qed.

Lemma linked_filter l from to :
  linked l → descending l → linked (filter (λ b, from ≤ block_height b ≤ to) l).
Proof.
  induction l as [|b [|p l] IH]; intros Hl Hd; [done|rewrite filter_cons; by case_decide|].
  rewrite filter_cons. destruct Hl as [Hprev Hl], Hd as [Hh Hd]. specialize (IH Hl Hd).
  case_decide as Hb; [|done]. rewrite filter_cons in IH |- *.
  case_decide as Hp; [by split|].
  rewrite filter_none; [done|]. intros x Hx. pose proof (descending_le p l x Hd).
  assert (x ∈ p :: l) by by right. naive_solver lia.
Qed.

Lemma removelast_ne (l : list Block) lo n e b :
  map block_height l = reverse (seqZ lo n) → last l = Some b → block_height b = e →
  Forall (λ c, block_height c ≠ e) (removelast l).
Proof.
  intros Hl Hlast <-. destruct (last_snoc_inv _ _ Hlast) as [l' ->].
  rewrite removelast_last. apply Forall_forall. intros c Hc E.
  assert (NoDup (map block_height (l' ++ [b]))) as Hnd.
  { rewrite Hl, reverse_Permutation. apply NoDup_seqZ. }
  rewrite map_app in Hnd. apply NoDup_app in Hnd as (_ & Hnd & _).
  apply (Hnd (block_height c)); [by apply (list_elem_of_fmap_2 block_height)|].
  rewrite E. left.
Qed.

Lemma get_blocks_spec bc from to :
  chain_inv bc →
  ∃ head lowest bs, get_latest_block bc = Ret head ∧
    earliest_contiguous_height bc = Ret lowest ∧ lowest ≤ block_height head ∧
    get_blocks bc from to = Ret bs ∧
    (if decide (from ≤ to ∧ lowest ≤ from ≤ block_height head)
     then map block_height bs = seqZ from (Z.min to (block_height head) - from + 1) ∧
          linked (reverse bs) ∧
          ∃ l, path (tree_blocks (chain bc)) (head_hash bc) l ∧ ∀ b, b ∈ bs → b ∈ l
     else bs = []).
Proof.
  intros Hbc. destruct (head_path bc Hbc) as (b & l & low & Hb & Hl & Hlast & Hh & He & Hle & Hlen).
  set (m := filter (λ x, from ≤ block_height x ≤ to) (b :: l)).
  exists b, (block_height low),
    (if decide (from ≤ to ∧ block_height low ≤ from ≤ block_height b) then reverse m else []).
  split_and!; [done..| |].
  - unfold get_blocks. rewrite He, Hb. cbn [mbind outcome_bind].
    destruct (decide (from ≤ to ∧ block_height low ≤ from ≤ block_height b)) as [Hr|Hr].
    + rewrite (bool_decide_false (to < from)), (bool_decide_false (from < _)),
        (bool_decide_false (_ < from)) by lia. cbn [orb].
      rewrite (get_blocks_loop_path _ _ (b :: l)); [done|done|lia| |congruence].
      eapply removelast_ne; eauto.
    + case_bool_decide; [done|]. replace (_ || _) with true; [done|]. symmetry.
      apply orb_true_iff. rewrite !bool_decide_eq_true. lia.
  - case_decide as Hr; [|done]. split_and!.
    + subst m. rewrite (filter_heights _ _ _ from to Hh) by lia. f_equal. lia.
    + rewrite reverse_involutive. apply linked_filter.
      * eapply path_linked; eauto using inv_tree.
      * eapply path_descending; eauto using inv_tree.
    + exists (b :: l). split; [done|]. intros x. rewrite elem_of_reverse. unfold m.
      by intros [_ ?]%list_elem_of_filter.
Qed.

(** [get_blocks] always returns, and serves exactly the requested heights of the
    branch of the head: when the range starts on the part of the branch the node
    still holds, the blocks returned have the heights [from], [from + 1], ... up to
    [to] or the head, lie on the branch of the head, and each one names the one
    before it as its parent; otherwise nothing is returned. *)
Theorem get_blocks_serves_branch bc from to :
  chain_inv bc →
  ∃ head lowest bs, get_latest_block bc = Ret head ∧
    earliest_contiguous_height bc = Ret lowest ∧ lowest ≤ block_height head ∧
    get_blocks bc from to = Ret bs ∧
    (if decide (from ≤ to ∧ lowest ≤ from ≤ block_height head)
     then map block_height bs = seqZ from (Z.min to (block_height head) - from + 1) ∧
          linked (reverse bs) ∧
          ∃ l, path (tree_blocks (chain bc)) (head_hash bc) l ∧ ∀ b, b ∈ bs → b ∈ l
     else bs = []).
Proof. apply get_blocks_spec. Qed.
End invariant.

(** ** Witnesses *)

Module ChainWitness.
Import ToyCrypto ModelsWitness.
#[local] Existing Instance dev_host.

Definition genesis : Block := genesis_block (x01 : @VerifyingKey toy_crypto).
(** The first block: no stake is registered, so any validator may sign it. *)
Definition first_block : Block := toy_block x07 1 1 (hash genesis) [] [] zero_hash.
Definition known (b : Block) : Prop := b = genesis ∨ b = first_block.
Definition fresh : Blockchain :=
  mkBlockchain {[ hash genesis := mkBlockNode genesis [] ]} (hash genesis) State_new
    (Mempool_new MEMPOOL_SIZE).

Lemma fresh_new : Blockchain_new = Ret (Ok fresh).
Proof. reflexivity. Qed.

Lemma known_sane b : known b → block_sane b.
Proof. intros [->| ->]; (split_and!; [vm_compute; exact I|vm_compute; reflexivity..|constructor]). Qed.

Lemma known_hashes : hash genesis ≠ hash first_block.
Proof. by vm_compute. Qed.

#[export] Instance known_delivered : Delivered known None.
Proof.
  split.
  - exact known_sane.
  - intros b1 b2 [->| ->] [->| ->] E; try reflexivity; exfalso; by apply known_hashes.
  - done.
Qed.

Lemma sound_new : state_sound State_new.
Proof. split; [apply state_wf_new|by vm_compute]. Qed.

Lemma fresh_inv : chain_inv known None fresh.
Proof.
  apply (single_block_inv known None genesis State_new);
    [by left|apply sound_new|vm_compute; reflexivity|by left].
Qed.

Lemma add_block_preserves_chain_witness :
  ∃ bc' r, add_block fresh first_block State_new = Ret (bc', r) ∧ chain_inv known None bc'.
Proof.
  destruct (add_block_preserves_chain known None fresh first_block State_new)
    as (bc' & r & E & Hinv & _); [apply fresh_inv|by right|apply sound_new|].
  exact (ex_intro _ bc' (ex_intro _ r (conj E Hinv))).
Defined.

(** ... and the block is accepted and becomes the head. *)
Lemma first_block_becomes_head :
  (λ p, match p.2 with Ok i => became_head i | Err _ => false end) <$>
    add_block fresh first_block State_new = Ret true.
Proof. vm_compute. reflexivity. Qed.

Lemma get_blocks_serves_branch_witness :
  ∃ head lowest bs, get_latest_block fresh = Ret head ∧
    earliest_contiguous_height fresh = Ret lowest ∧ lowest ≤ block_height head ∧
    get_blocks fresh 0 10 = Ret bs ∧
    (if decide (0 ≤ 10 ∧ lowest ≤ 0 ≤ block_height head)
     then map block_height bs = seqZ 0 (Z.min 10 (block_height head) - 0 + 1) ∧
          linked (reverse bs) ∧
          ∃ l, path (tree_blocks (chain fresh)) (head_hash fresh) l ∧ ∀ b, b ∈ bs → b ∈ l
     else bs = []).
Proof. apply (get_blocks_serves_branch known None), fresh_inv. Defined.
End ChainWitness.
