(* ===== verification/Messages.v ===== *)
(** * The engine's vocabulary: wire messages, inputs and actions

    Models rp-node/src/network/message.rs and the types of rp-node/src/contract.rs.
    The wire format is the one of the crate [postcard], which is not part of the
    repository: it is the class [Postcard]. *)

From S2P Require Import Prelude.
From S2P Require Import Maps.
From S2P Require Import Crypto.
From S2P Require Import Models.

(** ** message.rs *)

Section messages.
Context `{Crypto}.

Record SyncRequest : Type := mkSyncRequest {
  sync_from_height : Z;
  sync_to_height : Z;
}.

Record SyncResponse : Type := mkSyncResponse {
  sync_blocks : list Block;
  sync_has_more : bool;
  sync_next_height : option Z;
}.

Inductive AnnounceKind : Type :=
| NewTransaction (tx : Transaction)
| NewBlock (block : Block).

Record AnnounceRequest : Type := mkAnnounceRequest { announce_kind : AnnounceKind }.

Record AnnounceResponse : Type := mkAnnounceResponse { accepted : bool }.

Inductive NetworkMessage : Type :=
| MsgAnnounceRequest (r : AnnounceRequest)
| MsgSyncRequest (r : SyncRequest)
| MsgSyncResponse (r : SyncResponse)
| MsgAnnounceResponse (r : AnnounceResponse).

(** [AnnounceRequest::transaction] and [AnnounceRequest::block] *)
Definition announce_transaction (tx : Transaction) : AnnounceRequest :=
  mkAnnounceRequest (NewTransaction tx).
Definition announce_block (block : Block) : AnnounceRequest :=
  mkAnnounceRequest (NewBlock block).
End messages.

(** [postcard::to_allocvec] and [postcard::from_bytes] at a type. *)
Class Postcard (A : Type) : Type := {
  to_allocvec : A → option bytes;
  postcard_from_bytes : bytes → option A;
}.

(** [postcard::to_allocvec(self).expect(..)] *)
Definition message_to_bytes `{Postcard A} (m : A) : outcome bytes :=
  match to_allocvec m with
  | Some b => Ret b
  | None => Panic
  end.

(** [postcard::from_bytes(bytes).map_err(|_| message)] *)
Definition message_from_bytes `{Postcard A} (error : string) (b : bytes) : result A string :=
  match postcard_from_bytes b with
  | Some m => Ok m
  | None => Err error
  end.

Section codecs.
Context `{Crypto}.

Definition network_message_from_bytes `{Postcard NetworkMessage} :=
  message_from_bytes (A:=NetworkMessage) "invalid network message".
Definition sync_request_from_bytes `{Postcard SyncRequest} :=
  message_from_bytes (A:=SyncRequest) "invalid sync request".
Definition sync_response_from_bytes `{Postcard SyncResponse} :=
  message_from_bytes (A:=SyncResponse) "invalid sync response".
Definition announce_request_from_bytes `{Postcard AnnounceRequest} :=
  message_from_bytes (A:=AnnounceRequest) "invalid announce request".
Definition announce_response_from_bytes `{Postcard AnnounceResponse} :=
  message_from_bytes (A:=AnnounceResponse) "invalid announce response".

(** The blocks a message carries. *)
Definition message_blocks (m : NetworkMessage) : list Block :=
  match m with
  | MsgAnnounceRequest r => match announce_kind r with NewBlock b => [b] | _ => [] end
  | MsgSyncResponse r => sync_blocks r
  | _ => []
  end.

(** Serializing into a growable vector succeeds. *)
Class PostcardLaws (A : Type) `{Postcard A} : Prop := {
  to_allocvec_Some (m : A) : is_Some (to_allocvec m);
}.
End codecs.

(** ** contract.rs *)

Section contract.
Context `{Crypto}.

Inductive PersistCompletedType : Type := PersistedSnapshot | PersistedBlock.

Inductive NodeInput : Type :=
| Tick (now_ms : Z)
| PeerConnected (peer : bytes)
| PeerDisconnected (peer : bytes)
| FrameReceived (peer : bytes) (frame : bytes)
| LocalTransactionSubmitted (transaction : Transaction)
| StorageLoaded (block_hash : bytes) (state_bytes : option bytes)
| PersistCompleted (persist_type : PersistCompletedType)
| ImportRequested (peer : bytes) (from_height to_height : Z).

Inductive NodeAction : Type :=
| SendFrame (peer : bytes) (frame : bytes)
| BroadcastFrame (frame : bytes)
| PersistBlock (block : Block)
| PersistSnapshot (block_hash : bytes) (state_bytes : bytes)
| RequestBlocks (peer : bytes) (from_height to_height : Z)
| ScheduleWake (at_ms : Z)
| CancelWake
| DisconnectPeer (peer : bytes)
| ReportEvent (message : string)
| ActFrameReceived (peer : bytes)
| ActPersistCompleted (persist_type : PersistCompletedType)
| LoadSnapshot (block_hash : bytes).
End contract.
