(* ===== verification/Engine.v ===== *)
(** * The node engine

    Models rp-node/src/node_engine.rs: the engine is a pure state machine that turns
    an input into a list of actions for its host.  Every handler is here, with the
    guards and early returns of the source. *)

From S2P Require Import Prelude.
From S2P Require Import Maps.
From S2P Require Import Crypto.
From S2P Require Import Models.
From S2P Require Import State.
From S2P Require Import StateCodec.
From S2P Require Import ChainCore.
From S2P Require Import Mempool.
From S2P Require Import Chain.
From S2P Require Import Messages.

Definition REQUEST_TIMEOUT_MS : Z := 30000.

Section engine.
Context `{Target, Crypto, !Postcard NetworkMessage}.

Record ParkedBlock : Type := mkParkedBlock {
  parked_peer : bytes;
  parked_block : Block;
}.

Record PeerState : Type := mkPeerState {
  connected : bool;
  last_seen_ms : Z;
}.

Record PendingRequest : Type := mkPendingRequest {
  req_peer : bytes;
  req_from_height : Z;
  req_to_height : Z;
  req_deadline_ms : Z;
}.

Record NodeEngine : Type := mkNodeEngine {
  blockchain : Blockchain;
  peers : gmap bytes PeerState;
  pending_requests : list PendingRequest;
  pending_blocks : gmap bytes (list ParkedBlock);
  current_time_ms : Z;
  scheduled_wake_at_ms : option Z;
}.

Definition NodeEngine_new (bc : Blockchain) : NodeEngine := mkNodeEngine bc ∅ [] ∅ 0 None.

Definition set_blockchain (e : NodeEngine) bc :=
  mkNodeEngine bc (peers e) (pending_requests e) (pending_blocks e) (current_time_ms e)
    (scheduled_wake_at_ms e).
Definition set_peers (e : NodeEngine) p :=
  mkNodeEngine (blockchain e) p (pending_requests e) (pending_blocks e) (current_time_ms e)
    (scheduled_wake_at_ms e).
Definition set_pending_requests (e : NodeEngine) r :=
  mkNodeEngine (blockchain e) (peers e) r (pending_blocks e) (current_time_ms e)
    (scheduled_wake_at_ms e).
Definition set_pending_blocks (e : NodeEngine) b :=
  mkNodeEngine (blockchain e) (peers e) (pending_requests e) b (current_time_ms e)
    (scheduled_wake_at_ms e).
Definition set_current_time_ms (e : NodeEngine) t :=
  mkNodeEngine (blockchain e) (peers e) (pending_requests e) (pending_blocks e) t
    (scheduled_wake_at_ms e).
Definition set_scheduled_wake_at_ms (e : NodeEngine) w :=
  mkNodeEngine (blockchain e) (peers e) (pending_requests e) (pending_blocks e)
    (current_time_ms e) w.

Definition restore_latest_snapshot (e : NodeEngine) (block : option Block)
    (state_bytes : option bytes) : outcome (NodeEngine * list NodeAction) :=
  match block, state_bytes with
  | Some block, Some state_bytes =>
      r ← from_bytes state_bytes;
      match r with
      | Err _ => Ret (e, [ReportEvent "invalid startup snapshot bytes"])
      | Ok restored_state =>
          if bool_decide (block_state_root block ≠ compute_state_root restored_state)
          then Ret (e, [ReportEvent "startup snapshot state root mismatch"])
          else
            let e := set_blockchain e (restore_head (blockchain e) block restored_state) in
            Ret (e, [ReportEvent "startup snapshot restored"])
      end
  | _, _ => Ret (e, [ReportEvent "no snapshot restored"])
  end.

Definition prune_expired_requests (e : NodeEngine) (now_ms : Z) : NodeEngine :=
  set_pending_requests e (filter (λ r, now_ms < req_deadline_ms r) (pending_requests e)).

(** [Iterator::min] *)
Definition min_option (l : list Z) : option Z :=
  foldr (λ x acc, match acc with None => Some x | Some y => Some (Z.min x y) end) None l.

Definition sync_wake_action (e : NodeEngine) : NodeEngine * option NodeAction :=
  let next_wake_at_ms := min_option (map req_deadline_ms (pending_requests e)) in
  if bool_decide (next_wake_at_ms = scheduled_wake_at_ms e) then (e, None)
  else
    let e := set_scheduled_wake_at_ms e next_wake_at_ms in
    match next_wake_at_ms with
    | Some at_ms => (e, Some (ScheduleWake at_ms))
    | None => (e, Some CancelWake)
    end.

Definition relay_transaction (e : NodeEngine) (source_peer : bytes) (transaction : Transaction) :
    outcome (list NodeAction) :=
  frame ← message_to_bytes (MsgAnnounceRequest (announce_transaction transaction));
  Ret (map (λ '(peer, _), SendFrame peer frame)
         (filter (λ p, p.1 ≠ source_peer ∧ connected p.2 = true) (btree_iter (peers e)))).

Definition queue_block_request (e : NodeEngine) (peer : bytes) (from_height to_height : Z) :
    NodeEngine * NodeAction :=
  let r := mkPendingRequest peer from_height to_height
             (u64_saturating_add (current_time_ms e) REQUEST_TIMEOUT_MS) in
  (set_pending_requests e (pending_requests e ++ [r]), RequestBlocks peer from_height to_height).

Definition request_parent_block (e : NodeEngine) (peer : bytes) (parent_height : Z) :
    NodeEngine * list NodeAction :=
  let '(e, a) := queue_block_request e peer parent_height parent_height in
  (e, [ReportEvent "parent snapshot missing"; a]).

(** The loop of [import_parked_blocks]; [rec] is the recursive call. *)
Fixpoint import_loop (rec : NodeEngine → bytes → State → outcome (NodeEngine * list NodeAction))
    (parent_state : State) (e : NodeEngine) (parked_blocks : list ParkedBlock)
    (actions : list NodeAction) : outcome (NodeEngine * list NodeAction) :=
  match parked_blocks with
  | [] => Ret (e, actions)
  | parked :: parked_blocks =>
      '(bc, r) ← add_block (blockchain e) (parked_block parked) parent_state;
      let e := set_blockchain e bc in
      match r with
      | Err _ =>
          import_loop rec parent_state e parked_blocks
            (actions ++ [ReportEvent "failed importing parked block"])
      | Ok imported =>
          let block_hash := hash (parked_block parked) in
          let actions := actions ++ [PersistBlock (parked_block parked)] in
          let actions := actions ++ [PersistSnapshot block_hash (to_bytes (next_state imported))] in
          if became_head imported then
            '(e, more) ← rec e block_hash (next_state imported);
            import_loop rec parent_state e parked_blocks (actions ++ more)
          else import_loop rec parent_state e parked_blocks actions
      end
  end.

(** Every call that does anything first removes an entry of [pending_blocks], so
    [S (size (pending_blocks e))] nested calls are enough: [import_parked_blocks_spec]. *)
Fixpoint import_parked_blocks (fuel : nat) (e : NodeEngine) (parent_hash : bytes)
    (parent_state : State) : outcome (NodeEngine * list NodeAction) :=
  match fuel with
  | O => OutOfFuel
  | S fuel =>
      match pending_blocks e !! parent_hash with
      | None => Ret (e, [])
      | Some parked_blocks =>
          let e := set_pending_blocks e (delete parent_hash (pending_blocks e)) in
          import_loop (import_parked_blocks fuel) parent_state e parked_blocks []
      end
  end.

Definition import_parked (e : NodeEngine) (parent_hash : bytes) (parent_state : State) :
    outcome (NodeEngine * list NodeAction) :=
  import_parked_blocks (S (size (pending_blocks e))) e parent_hash parent_state.

Definition continue_request (e : NodeEngine) (request : PendingRequest) (next_height : Z) :
    NodeEngine * option NodeAction :=
  if bool_decide (next_height = 0) then (e, None)
  else
    let next_to_height :=
      if bool_decide (next_height ≤ req_to_height request) then req_to_height request
      else
        let span := u64_saturating_sub (req_to_height request) (req_from_height request) in
        u64_saturating_add next_height span in
    let '(e, a) := queue_block_request e (req_peer request) next_height next_to_height in
    (e, Some a).

Definition ingest_block (e : NodeEngine) (peer : bytes) (block : Block) :
    outcome (NodeEngine * list NodeAction) :=
  if bool_decide (head_hash (blockchain e) = block_previous_hash block) then
    let parent_state := bc_state (blockchain e) in
    '(bc, r) ← add_block (blockchain e) block parent_state;
    let e := set_blockchain e bc in
    match r with
    | Err _ => Ret (e, [ReportEvent "failed importing block"])
    | Ok imported =>
        let block_hash := hash block in
        let actions := [PersistBlock block;
                        PersistSnapshot block_hash (to_bytes (next_state imported));
                        ReportEvent "Block added"] in
        if became_head imported then
          '(e, more) ← import_parked e block_hash (next_state imported);
          Ret (e, actions ++ more)
        else Ret (e, actions)
    end
  else
    let parked := entry_or [] (block_previous_hash block) (pending_blocks e) in
    let e := set_pending_blocks e
               (<[block_previous_hash block := parked ++ [mkParkedBlock peer block]]>
                  (pending_blocks e)) in
    Ret (e, [LoadSnapshot (block_previous_hash block)]).

(** [for block in response.blocks { actions.extend(self.ingest_block(peer, block)) }] *)
Fixpoint ingest_blocks (e : NodeEngine) (peer : bytes) (blocks : list Block)
    (actions : list NodeAction) : outcome (NodeEngine * list NodeAction) :=
  match blocks with
  | [] => Ret (e, actions)
  | block :: blocks =>
      '(e, more) ← ingest_block e peer block;
      ingest_blocks e peer blocks (actions ++ more)
  end.

Fixpoint continue_requests (e : NodeEngine) (requests : list PendingRequest) (next_height : Z)
    (actions : list NodeAction) : NodeEngine * list NodeAction :=
  match requests with
  | [] => (e, actions)
  | request :: requests =>
      let '(e, a) := continue_request e request next_height in
      continue_requests e requests next_height
        (match a with Some a => actions ++ [a] | None => actions end)
  end.

(** ** The branches of [step] *)

Definition on_tick (e : NodeEngine) (now_ms : Z) : NodeEngine * list NodeAction :=
  (prune_expired_requests (set_current_time_ms e now_ms) now_ms, []).

Definition on_peer_connected (e : NodeEngine) (peer : bytes) :
    outcome (NodeEngine * list NodeAction) :=
  let e := set_peers e (<[peer := mkPeerState true 0]> (peers e)) in
  latest ← get_latest_block (blockchain e);
  let local_height := block_height latest in
  let from_height := u64_saturating_add local_height 1 in
  let to_height := u64_saturating_add local_height 100 in
  let '(e, a) := queue_block_request e peer from_height to_height in
  Ret (e, [ReportEvent "peer connected"; a]).

Definition on_peer_disconnected (e : NodeEngine) (peer : bytes) : NodeEngine * list NodeAction :=
  let e := set_peers e (delete peer (peers e)) in
  let e := set_pending_requests e (filter (λ r, req_peer r ≠ peer) (pending_requests e)) in
  (e, [ReportEvent "peer disconnected"]).

Definition on_announced_transaction (e : NodeEngine) (peer : bytes) (tx : Transaction) :
    outcome (NodeEngine * list NodeAction) :=
  let '(bc, r) := add_transaction (blockchain e) tx in
  let e := set_blockchain e bc in
  match r with
  | Ok true => actions ← relay_transaction e peer tx; Ret (e, actions)
  | Ok false => Ret (e, [])
  | Err error => Ret (e, [ReportEvent error])
  end.

Definition on_sync_request (e : NodeEngine) (peer : bytes) (request : SyncRequest) :
    outcome (NodeEngine * list NodeAction) :=
  blocks ← get_blocks (blockchain e) (sync_from_height request) (sync_to_height request);
  earliest_contiguous_height ← earliest_contiguous_height (blockchain e);
  latest ← get_latest_block (blockchain e);
  let latest_height := block_height latest in
  let highest_served_height := block_height <$> last blocks in
  let has_more :=
    match highest_served_height with
    | Some height => bool_decide (height < latest_height)
    | None => false
    end in
  let next_height :=
    match highest_served_height with
    | Some height => if has_more then Some (u64_saturating_add height 1) else None
    | None =>
        if bool_decide (sync_from_height request < earliest_contiguous_height) &&
           bool_decide (earliest_contiguous_height ≤ latest_height)
        then Some earliest_contiguous_height
        else None
    end in
  frame ← message_to_bytes (MsgSyncResponse (mkSyncResponse blocks has_more next_height));
  Ret (e, [SendFrame peer frame]).

Definition on_sync_response (e : NodeEngine) (peer : bytes) (response : SyncResponse) :
    outcome (NodeEngine * list NodeAction) :=
  let completed_requests := filter (λ r, req_peer r = peer) (pending_requests e) in
  let e := set_pending_requests e (filter (λ r, req_peer r ≠ peer) (pending_requests e)) in
  '(e, actions) ← ingest_blocks e peer (sync_blocks response) [];
  let '(e, actions) :=
    match sync_next_height response with
    | Some next_height => continue_requests e completed_requests next_height actions
    | None => (e, actions)
    end in
  Ret (e, match actions with [] => [ActFrameReceived peer] | _ => actions end).

Definition on_frame (e : NodeEngine) (peer : bytes) (frame : bytes) :
    outcome (NodeEngine * list NodeAction) :=
  match network_message_from_bytes frame with
  | Ok (MsgAnnounceRequest request) =>
      match announce_kind request with
      | NewBlock block => ingest_block e peer block
      | NewTransaction tx => on_announced_transaction e peer tx
      end
  | Ok (MsgSyncRequest request) => on_sync_request e peer request
  | Ok (MsgSyncResponse response) => on_sync_response e peer response
  | Ok (MsgAnnounceResponse _) => Ret (e, [ActFrameReceived peer])
  | Err _ => Ret (e, [ReportEvent "invalid frame"])
  end.

Definition on_local_transaction (e : NodeEngine) (transaction : Transaction) :
    outcome (NodeEngine * list NodeAction) :=
  let '(bc, r) := add_transaction (blockchain e) transaction in
  let e := set_blockchain e bc in
  match r with
  | Ok true =>
      frame ← message_to_bytes (MsgAnnounceRequest (announce_transaction transaction));
      Ret (e, [BroadcastFrame frame])
  | Ok false => Ret (e, [])
  | Err _ => Ret (e, [ReportEvent "invalid transaction"])
  end.

Definition on_storage_loaded (e : NodeEngine) (block_hash : bytes) (state_bytes : option bytes) :
    outcome (NodeEngine * list NodeAction) :=
  match (parked_blocks ← pending_blocks e !! block_hash; head parked_blocks) with
  | Some parked =>
      let parent_peer := parked_peer parked in
      let parent_height := u64_saturating_sub (block_height (parked_block parked)) 1 in
      match state_bytes with
      | Some state_bytes =>
          r ← from_bytes state_bytes;
          match r with
          | Ok state => import_parked e block_hash state
          | Err _ => Ret (e, [ReportEvent "invalid snapshot bytes"])
          end
      | None => Ret (request_parent_block e parent_peer parent_height)
      end
  | None => Ret (e, [ReportEvent "unexpected snapshot result"])
  end.

Definition handle_input (e : NodeEngine) (input : NodeInput) :
    outcome (NodeEngine * list NodeAction) :=
  match input with
  | Tick now_ms => Ret (on_tick e now_ms)
  | PeerConnected peer => on_peer_connected e peer
  | PeerDisconnected peer => Ret (on_peer_disconnected e peer)
  | FrameReceived peer frame => on_frame e peer frame
  | LocalTransactionSubmitted transaction => on_local_transaction e transaction
  | StorageLoaded block_hash state_bytes => on_storage_loaded e block_hash state_bytes
  | PersistCompleted persist_type => Ret (e, [ActPersistCompleted persist_type])
  | ImportRequested peer from_height to_height =>
      let '(e, a) := queue_block_request e peer from_height to_height in Ret (e, [a])
  end.

Definition step (e : NodeEngine) (input : NodeInput) : outcome (NodeEngine * list NodeAction) :=
  '(e, actions) ← handle_input e input;
  let '(e, a) := sync_wake_action e in
  Ret (e, match a with Some a => actions ++ [a] | None => actions end).
End engine.
