(* ===== verification/EngineSafety.v ===== *)
(** * What the node engine guarantees

    Theorems about [step] of Engine.v: the engine never panics and its loops end, the
    block tree stays well formed, every accepted block is persisted together with the
    state it leads to, and the host's timer is always set for the earliest deadline. *)

From S2P Require Import Prelude.
From S2P Require Import Maps.
From S2P Require Import Crypto.
From S2P Require Import Models.
From S2P Require Import State.
From S2P Require Import StateCodec.
From S2P Require Import ChainCore.
From S2P Require Import Mempool.
From S2P Require Import Chain.
From S2P Require Import Messages.
From S2P Require Import Engine.

(** ** Actions of a step *)

Section actions.
Context `{Target, Crypto, !CryptoLaws, !Postcard NetworkMessage}.

Definition is_persist (a : NodeAction) : bool :=
  match a with PersistBlock _ | PersistSnapshot _ _ => true | _ => false end.

(** Blocks are persisted in pairs: the block, then the snapshot filed under its
    hash, which is a state with the root the block carries. *)
Inductive persist_ok : list NodeAction → Prop :=
| persist_nil : persist_ok []
| persist_other a l : is_persist a = false → persist_ok l → persist_ok (a :: l)
| persist_pair b st l :
    state_sound st → block_state_root b = compute_state_root st → persist_ok l →
    persist_ok (PersistBlock b :: PersistSnapshot (hash b) (to_bytes st) :: l).

Lemma persist_ok_app l1 l2 : persist_ok l1 → persist_ok l2 → persist_ok (l1 ++ l2).
Proof. induction 1; simpl; eauto using persist_ok. Qed.

(** The head moved only to a block persisted with the state the node now has. *)
Definition head_saved (bc bc' : Blockchain) (acts : list NodeAction) : Prop :=
  (head_hash bc' = head_hash bc ∧ bc_state bc' = bc_state bc) ∨
  ∃ b, head_hash bc' = hash b ∧ PersistBlock b ∈ acts ∧
       PersistSnapshot (hash b) (to_bytes (bc_state bc')) ∈ acts.

Lemma head_saved_refl bc acts : head_saved bc bc acts.
Proof. by left. Qed.

Lemma head_saved_trans bc1 bc2 bc3 l1 l2 :
  head_saved bc1 bc2 l1 → head_saved bc2 bc3 l2 → head_saved bc1 bc3 (l1 ++ l2).
Proof.
  unfold head_saved. intros H12 [[Eh Es]|(b & Eh & Hb & Hs)].
  - destruct H12 as [[]|(b & ? & ? & ?)]; [left; split; congruence|right].
    exists b. rewrite Eh, Es, !elem_of_app. auto.
  - right. exists b. rewrite !elem_of_app. auto.
Qed.

(** What the import of blocks leaves alone. *)
Definition same_shell (e e' : NodeEngine) : Prop :=
  peers e' = peers e ∧ pending_requests e' = pending_requests e ∧
  current_time_ms e' = current_time_ms e ∧ scheduled_wake_at_ms e' = scheduled_wake_at_ms e.

Lemma same_shell_trans e1 e2 e3 : same_shell e1 e2 → same_shell e2 e3 → same_shell e1 e3.
Proof. unfold same_shell. intros (?&?&?&?) (?&?&?&?). split_and!; congruence. Qed.
End actions.

#[export] Hint Constructors persist_ok : rust.

(** ** The invariant of the engine *)

Section engine_invariant.
Context `{Target, Crypto, !CryptoLaws, !Postcard NetworkMessage}.
Context (U : Block → Prop) (missing : option (bytes * Z)) `{!Delivered U missing}.

(** Parked blocks are filed under the hash of the parent they wait for. *)
Definition parked_inv (m : gmap bytes (list ParkedBlock)) : Prop :=
  map_Forall (λ h l, Forall (λ p, U (parked_block p) ∧ block_previous_hash (parked_block p) = h) l) m.

Definition engine_inv (e : NodeEngine) : Prop :=
  chain_inv U missing (blockchain e) ∧ parked_inv (pending_blocks e).

(** Only delivered blocks are stored, and snapshots are asked for by hash. *)
Definition action_known (a : NodeAction) : Prop :=
  match a with
  | PersistBlock b => U b
  | LoadSnapshot h => length h = 32%nat
  | _ => True
  end.

Definition acts_ok (acts : list NodeAction) : Prop := persist_ok acts ∧ Forall action_known acts.

Lemma acts_ok_app l1 l2 : acts_ok l1 → acts_ok l2 → acts_ok (l1 ++ l2).
Proof. intros [] []. split; [by apply persist_ok_app|by apply Forall_app]. Qed.

(** Actions that neither store nor load. *)
Definition is_plain (a : NodeAction) : bool :=
  match a with PersistBlock _ | PersistSnapshot _ _ | LoadSnapshot _ => false | _ => true end.

Lemma acts_ok_plain acts : Forall (λ a, is_plain a = true) acts → acts_ok acts.
Proof.
  intros Ha. split; [|by eapply Forall_impl; [exact Ha|intros []]].
  induction Ha as [|a l Ha _ IH]; [constructor|]. apply persist_other; [by destruct a|done].
Qed.

Lemma delivered_parent b : U b → length (block_previous_hash b) = 32%nat.
Proof.
  intros [Hf _]%delivered_sane. destruct b; simpl in *. rewrite !andb_True, !bool_decide_spec in Hf. naive_solver.
Qed.

(** What a run of imports does: the shared postcondition. *)
Definition imported_ok (e e' : NodeEngine) (acts : list NodeAction) : Prop :=
  engine_inv e' ∧ same_shell e e' ∧ acts_ok acts ∧
  head_saved (blockchain e) (blockchain e') acts.

Lemma imported_ok_refl e : engine_inv e → imported_ok e e [].
Proof. intros. split_and!; [done|done|by apply acts_ok_plain|apply head_saved_refl]. Qed.

Lemma imported_ok_trans e1 e2 e3 l1 l2 :
  imported_ok e1 e2 l1 → imported_ok e2 e3 l2 → imported_ok e1 e3 (l1 ++ l2).
Proof.
  intros (_ & Hs1 & Hp1 & Hh1) (? & Hs2 & Hp2 & Hh2).
  split_and!; eauto using same_shell_trans, acts_ok_app, head_saved_trans.
Qed.

(** One accepted block, with the actions that persist it. *)
Lemma imported_one e b bc' st' head rest :
  engine_inv e → U b → chain_inv U missing bc' → added (blockchain e) bc' b st' head →
  acts_ok rest →
  imported_ok e (set_blockchain e bc')
    (PersistBlock b :: PersistSnapshot (hash b) (to_bytes st') :: rest).
Proof.
  intros [_ Hp] Hb Hbc (_ & _ & _ & Hr & Hs & Hh) [Hrest Hknown].
  split; [by split|]. split; [done|]. split; [split; [by apply persist_pair|by repeat constructor]|]. simpl. destruct head.
  - right. exists b. destruct Hh as [-> ->]. split_and!; [done|left|right; left].
  - left. by destruct Hh as (-> & -> & _).
Qed.

Lemma import_loop_spec rec (n : nat) pst parked e acts0 :
  (∀ e h st, engine_inv e → state_sound st → (size (pending_blocks e) ≤ n)%nat →
     ∃ e' acts, rec e h st = Ret (e', acts) ∧ imported_ok e e' acts ∧
                (size (pending_blocks e') ≤ size (pending_blocks e))%nat) →
  engine_inv e → state_sound pst → (size (pending_blocks e) ≤ n)%nat →
  Forall (λ p, U (parked_block p)) parked →
  ∃ e' acts, import_loop rec pst e parked acts0 = Ret (e', acts0 ++ acts) ∧
             imported_ok e e' acts ∧ (size (pending_blocks e') ≤ size (pending_blocks e))%nat.
Proof.
  intros Hrec He Hpst Hsize Hparked. revert e acts0 He Hsize.
  induction Hparked as [|p parked HUp _ IH]; intros e acts0 He Hsize; simpl.
  { exists e, []. rewrite app_nil_r. auto using imported_ok_refl. }
  destruct (add_block_spec U missing (blockchain e) (parked_block p) pst)
    as (bc' & r & -> & Hbc & Hr); [apply He|done..|]. cbn [mbind outcome_bind].
  destruct r as [[st' head]|err].
  - destruct Hr as (q & _ & _ & Hadd). cbn [next_state became_head].
    pose proof (imported_one e _ bc' st' head [] He HUp Hbc Hadd ltac:(by apply acts_ok_plain)) as Hone.
    assert (state_sound st') as Hst' by apply Hadd.
    destruct head.
    + destruct (Hrec (set_blockchain e bc') (hash (parked_block p)) st') as (e2 & more & -> & H2 & Hs2);
        [apply Hone|done|done|]. cbn [mbind outcome_bind].
      destruct (IH e2 (((acts0 ++ [PersistBlock (parked_block p)]) ++
        [PersistSnapshot (hash (parked_block p)) (to_bytes st')]) ++ more))
        as (e3 & acts & -> & H3 & Hs3); [apply H2|simpl in Hs2; lia|].
      eexists e3, (_ :: _ :: more ++ acts). split_and!.
      * by rewrite <-!app_assoc.
      * exact (imported_ok_trans _ _ _ _ _ Hone (imported_ok_trans _ _ _ _ _ H2 H3)).
      * simpl in *. lia.
    + destruct (IH (set_blockchain e bc') ((acts0 ++ [PersistBlock (parked_block p)]) ++
        [PersistSnapshot (hash (parked_block p)) (to_bytes st')]))
        as (e3 & acts & -> & H3 & Hs3); [apply Hone|done|].
      eexists e3, (_ :: _ :: acts). split_and!.
      * by rewrite <-!app_assoc.
      * exact (imported_ok_trans _ _ _ _ _ Hone H3).
      * done.
  - assert (bc' = blockchain e) as -> by (destruct err; naive_solver).
    assert (set_blockchain e (blockchain e) = e) as -> by by destruct e.
    destruct (IH e (acts0 ++ [ReportEvent "failed importing parked block"]))
      as (e3 & acts & -> & H3 & Hs3); [done..|].
    exists e3, (ReportEvent "failed importing parked block" :: acts). split_and!; [by rewrite <-app_assoc| |done].
    apply (imported_ok_trans e e e3 [_] acts); [|done].
    split_and!; [done|done|by apply acts_ok_plain; repeat constructor|apply head_saved_refl].
Qed.

Lemma import_parked_blocks_spec fuel e h st :
  engine_inv e → state_sound st → (size (pending_blocks e) < fuel)%nat →
  ∃ e' acts, import_parked_blocks fuel e h st = Ret (e', acts) ∧ imported_ok e e' acts ∧
             (size (pending_blocks e') ≤ size (pending_blocks e))%nat.
Proof.
  revert e h st. induction fuel as [|fuel IH]; intros e h st He Hst Hf; [lia|]. simpl.
  destruct (pending_blocks e !! h) as [parked|] eqn:Hp;
    [|exists e, []; auto using imported_ok_refl].
  set (e1 := set_pending_blocks e (delete h (pending_blocks e))).
  assert (engine_inv e1) as He1 by (split; [apply He|by apply map_Forall_delete, He]).
  assert (size (pending_blocks e) = S (size (pending_blocks e1))) as Hs1.
  { simpl. rewrite <-(insert_delete_id (pending_blocks e) h parked Hp) at 1.
    by rewrite map_size_insert_None by apply lookup_delete_eq. }
  destruct (import_loop_spec (import_parked_blocks fuel) (size (pending_blocks e1)) st parked e1 [])
    as (e2 & acts & E & H2 & Hs2); [|done|done|done| |].
  { intros e' h' st' ???. apply IH; [done..|lia]. }
  { eapply Forall_impl; [by apply (proj2 He)|]. naive_solver. }
  exists e2, acts. split_and!; [exact E| |lia].
  apply (imported_ok_trans e e1 e2 [] acts); [|done].
  split_and!; [done|done|by apply acts_ok_plain|apply head_saved_refl].
Qed.

Lemma imported_other e a : engine_inv e → is_plain a = true → imported_ok e e [a].
Proof. intros. split_and!; [done|done|by apply acts_ok_plain; repeat constructor|apply head_saved_refl]. Qed.

Lemma park_inv m peer b :
  parked_inv m → U b →
  parked_inv (<[block_previous_hash b :=
    entry_or [] (block_previous_hash b) m ++ [mkParkedBlock peer b]]> m).
Proof.
  intros Hm Hb. apply map_Forall_insert_2; [|done].
  apply Forall_app. split; [|by apply Forall_singleton].
  unfold entry_or. destruct (m !! block_previous_hash b) eqn:E; [by apply Hm|constructor].
Qed.

Lemma ingest_block_spec e peer b :
  engine_inv e → U b → ∃ e' acts, ingest_block e peer b = Ret (e', acts) ∧ imported_ok e e' acts.
Proof.
  intros He Hb. unfold ingest_block. case_bool_decide as Hprev.
  2: { eexists _, _. split; [done|].
       split; [split; [apply He|by apply park_inv; [apply He|]]|]. split; [done|].
       split; [|apply head_saved_refl]. split; [by repeat constructor|].
       apply Forall_singleton. by apply delivered_parent. }
  destruct (add_block_spec U missing (blockchain e) b (bc_state (blockchain e)))
    as (bc' & r & -> & Hbc & Hr); [apply He|done|apply He|]. cbn [mbind outcome_bind].
  destruct r as [[st' head]|err]; cbn [next_state became_head].
  - destruct Hr as (q & _ & _ & Hadd).
    pose proof (imported_one e _ bc' st' head [ReportEvent "Block added"] He Hb Hbc Hadd
      ltac:(apply acts_ok_plain; by repeat constructor)) as Hone.
    destruct head; [|eauto].
    destruct (import_parked_blocks_spec (S (size (pending_blocks (set_blockchain e bc'))))
      (set_blockchain e bc') (hash b) st') as (e2 & more & E & H2 & _);
      [apply Hone|apply Hadd|lia|].
    unfold import_parked. rewrite E. cbn [mbind outcome_bind].
    eexists _, _. split; [done|]. exact (imported_ok_trans _ _ _ _ _ Hone H2).
  - assert (bc' = blockchain e) as -> by (destruct err; naive_solver).
    assert (set_blockchain e (blockchain e) = e) as -> by by destruct e.
    eauto using imported_other.
Qed.

Lemma ingest_blocks_spec e peer bs acts0 :
  engine_inv e → Forall U bs →
  ∃ e' acts, ingest_blocks e peer bs acts0 = Ret (e', acts0 ++ acts) ∧ imported_ok e e' acts.
Proof.
  intros He Hbs. revert e acts0 He. induction Hbs as [|b bs Hb _ IH]; intros e acts0 He; simpl.
  { exists e, []. rewrite app_nil_r. auto using imported_ok_refl. }
  destruct (ingest_block_spec e peer b He Hb) as (e1 & a1 & -> & Hok1). cbn [mbind outcome_bind].
  destruct (IH e1 (acts0 ++ a1)) as (e2 & a2 & -> & H2); [apply Hok1|].
  exists e2, (a1 ++ a2). rewrite app_assoc. split; [done|]. by eapply imported_ok_trans.
Qed.

(** What a handler guarantees (the requests may change as well). *)
Definition handled_ok (e e' : NodeEngine) (acts : list NodeAction) : Prop :=
  engine_inv e' ∧ acts_ok acts ∧ head_saved (blockchain e) (blockchain e') acts.

Lemma imported_handled e e' acts : imported_ok e e' acts → handled_ok e e' acts.
Proof. by intros (? & _ & ? & ?). Qed.

(** Handlers that do not touch the head. *)
Lemma handled_quiet e e' acts :
  engine_inv e' → Forall (λ a, is_plain a = true) acts →
  head_hash (blockchain e') = head_hash (blockchain e) →
  bc_state (blockchain e') = bc_state (blockchain e) → handled_ok e e' acts.
Proof. intros ? Ha ??. split; [done|]. split; [by apply acts_ok_plain|by left]. Qed.

Lemma continue_requests_spec e rs nh acts :
  blockchain (continue_requests e rs nh acts).1 = blockchain e ∧
  pending_blocks (continue_requests e rs nh acts).1 = pending_blocks e ∧
  peers (continue_requests e rs nh acts).1 = peers e ∧
  scheduled_wake_at_ms (continue_requests e rs nh acts).1 = scheduled_wake_at_ms e ∧
  ∃ l, (continue_requests e rs nh acts).2 = acts ++ l ∧
       Forall (λ a, ∃ p f t, a = RequestBlocks p f t) l.
Proof.
  revert e acts. induction rs as [|r rs IH]; intros e acts; simpl.
  { split_and!; try done. exists []. by rewrite app_nil_r. }
  unfold continue_request, queue_block_request. case_bool_decide; [apply IH|]. cbv iota beta zeta.
  match goal with |- context [continue_requests ?e' rs nh ?a'] =>
    destruct (IH e' a') as (-> & -> & -> & -> & l & -> & Hl) end.
  split_and!; try done. eexists (_ :: l). split; [by rewrite <-app_assoc|]. constructor; eauto.
Qed.

Definition input_ok (i : NodeInput) : Prop :=
  match i with
  | FrameReceived _ f => ∀ m, network_message_from_bytes f = Ok m → Forall U (message_blocks m)
  | StorageLoaded _ (Some bs) =>
      ∃ r, from_bytes bs = Ret r ∧ ∀ st : State, r = Ok st → supply st < u64_modulus
  | _ => True
  end.

Context `{!PostcardLaws NetworkMessage}.

Lemma message_to_bytes_Ret (m : NetworkMessage) : ∃ f, message_to_bytes m = Ret f.
Proof. unfold message_to_bytes. destruct (to_allocvec_Some m) as [f ->]. eauto. Qed.

Lemma add_transaction_quiet bc tx :
  head_hash (add_transaction bc tx).1 = head_hash bc ∧
  bc_state (add_transaction bc tx).1 = bc_state bc.
Proof.
  unfold add_transaction. destruct (is_valid_tx _ _); [|done].
  by destruct (mempool_add_transaction _ _).
Qed.

Lemma set_blockchain_inv e bc :
  engine_inv e → chain_inv U missing bc → engine_inv (set_blockchain e bc).
Proof. by intros [_ ?]. Qed.

Lemma on_announced_transaction_spec e peer tx :
  engine_inv e →
  ∃ e' acts, on_announced_transaction e peer tx = Ret (e', acts) ∧ handled_ok e e' acts.
Proof.
  intros He. pose proof (add_transaction_inv U missing (blockchain e) tx (proj1 He)) as Hinv.
  pose proof (add_transaction_quiet (blockchain e) tx) as [Hh Hs].
  unfold on_announced_transaction.
  destruct (add_transaction (blockchain e) tx) as [bc [[]|err]]; simpl in *.
  - unfold relay_transaction.
    destruct (message_to_bytes_Ret (MsgAnnounceRequest (announce_transaction tx))) as [f ->].
    cbn [mbind outcome_bind]. eexists _, _. split; [done|].
    apply handled_quiet; auto using set_blockchain_inv.
    apply Forall_map, Forall_forall. by intros [] _.
  - eexists _, _. split; [done|]. apply handled_quiet; auto using set_blockchain_inv.
  - eexists _, _. split; [done|]. apply handled_quiet; auto using set_blockchain_inv.
Qed.

Lemma on_local_transaction_spec e tx :
  engine_inv e →
  ∃ e' acts, on_local_transaction e tx = Ret (e', acts) ∧ handled_ok e e' acts.
Proof.
  intros He. pose proof (add_transaction_inv U missing (blockchain e) tx (proj1 He)) as Hinv.
  pose proof (add_transaction_quiet (blockchain e) tx) as [Hh Hs].
  unfold on_local_transaction.
  destruct (add_transaction (blockchain e) tx) as [bc [[]|err]]; simpl in *.
  1: destruct (message_to_bytes_Ret (MsgAnnounceRequest (announce_transaction tx))) as [f ->];
     cbn [mbind outcome_bind].
  all: eexists _, _; split; [done|]; apply handled_quiet; auto using set_blockchain_inv.
Qed.

Lemma on_sync_request_spec e peer r :
  engine_inv e → ∃ f, on_sync_request e peer r = Ret (e, [SendFrame peer f]).
Proof.
  intros He. unfold on_sync_request.
  destruct (get_blocks_spec U missing (blockchain e) (sync_from_height r) (sync_to_height r) (proj1 He))
    as (hd & low & bs & -> & -> & _ & -> & _). cbn [mbind outcome_bind].
  match goal with |- context [message_to_bytes ?m] => destruct (message_to_bytes_Ret m) as [f ->] end.
  eauto.
Qed.

Lemma on_sync_response_spec e peer r :
  engine_inv e → Forall U (sync_blocks r) →
  ∃ e' acts, on_sync_response e peer r = Ret (e', acts) ∧ handled_ok e e' acts.
Proof.
  intros He Hb. unfold on_sync_response.
  set (e1 := set_pending_requests e _).
  destruct (ingest_blocks_spec e1 peer (sync_blocks r) []) as (e2 & a2 & -> & Hok2); [done..|].
  cbn [mbind outcome_bind app].
  assert (handled_ok e e2 a2) as Hok by exact (imported_handled e1 e2 a2 Hok2).
  destruct (sync_next_height r) as [nh|].
  - pose proof (continue_requests_spec e2 (filter (λ r, req_peer r = peer) (pending_requests e)) nh a2)
      as (Hbc & Hpb & _ & _ & l & Hl & Hrb).
    destruct (continue_requests _ _ _ _) as [e3 a3]; simpl in *. subst a3.
    eexists _, _. split; [done|]. destruct Hok as ([Hc Hp] & Hpo & Hhs).
    assert (acts_ok l) as Hpl.
    { apply acts_ok_plain. eapply Forall_impl; [exact Hrb|]. by intros a (? & ? & ? & ->). }
    unfold handled_ok, engine_inv. rewrite Hbc, Hpb. split; [done|]. split.
    + destruct (a2 ++ l) eqn:E; [by apply acts_ok_plain; repeat constructor|]. rewrite <-E. by apply acts_ok_app.
    + assert (head_saved (blockchain e) (blockchain e2) (a2 ++ l)) as Hhs'
        by (eapply head_saved_trans; [exact Hhs|apply head_saved_refl]).
      destruct (a2 ++ l); [|done]. destruct Hhs' as [?|(? & _ & Hin & _)]; [by left|].
      by apply not_elem_of_nil in Hin.
  - eexists _, _. split; [done|]. destruct Hok as (Hinv & Hpo & Hhs).
    destruct a2; [|done]. split; [done|]. split; [by apply acts_ok_plain; repeat constructor|].
    destruct Hhs as [?|(? & _ & Hin & _)]; [by left|]. by apply not_elem_of_nil in Hin.
Qed.

Lemma on_storage_loaded_spec e h bs :
  engine_inv e → input_ok (StorageLoaded h bs) →
  ∃ e' acts, on_storage_loaded e h bs = Ret (e', acts) ∧ handled_ok e e' acts.
Proof.
  intros He Hin. unfold on_storage_loaded.
  destruct (pending_blocks e !! h ≫= _) as [p|].
  2: { eexists _, _. split; [done|]. apply handled_quiet; try done. by repeat constructor. }
  destruct bs as [bs|].
  2: { eexists _, _. split; [done|]. apply handled_quiet; try done. by repeat constructor. }
  destruct Hin as (r & Hr & Hsup). rewrite Hr. cbn [mbind outcome_bind].
  destruct r as [st|err].
  - destruct (import_parked_blocks_spec (S (size (pending_blocks e))) e h st)
      as (e' & acts & E & Hok & _); [done| |lia|].
    + split; [by eapply state_from_bytes_Ok_wf|by apply Hsup].
    + exists e', acts. split; [exact E|by apply imported_handled].
  - eexists _, _. split; [done|]. apply handled_quiet; try done. by repeat constructor.
Qed.

Lemma on_peer_connected_spec e peer :
  engine_inv e → ∃ e' acts, on_peer_connected e peer = Ret (e', acts) ∧ handled_ok e e' acts.
Proof.
  intros He. unfold on_peer_connected. simpl.
  destruct (inv_head _ _ _ (proj1 He)) as (b & Hb & _).
  rewrite (get_latest_block_tree _ b Hb). cbn [mbind outcome_bind].
  eexists _, _. split; [done|]. apply handled_quiet; try done. by repeat constructor.
Qed.

Lemma handle_input_spec e i :
  engine_inv e → input_ok i →
  ∃ e' acts, handle_input e i = Ret (e', acts) ∧ handled_ok e e' acts.
Proof.
  intros He Hi. destruct i as [t|peer|peer|peer f|tx|h bs|pt|peer f t]; cbn [handle_input].
  - eexists _, _. split; [done|]. by apply handled_quiet.
  - by apply on_peer_connected_spec.
  - eexists _, _. split; [done|]. apply handled_quiet; try done. by repeat constructor.
  - unfold on_frame. simpl in Hi. destruct (network_message_from_bytes f) as [m|].
    2: { eexists _, _. split; [done|]. apply handled_quiet; try done. by repeat constructor. }
    specialize (Hi m eq_refl). destruct m as [r|r|r|r].
    + destruct r as [[tx|b]]; simpl in *; [by apply on_announced_transaction_spec|].
      rewrite Forall_singleton in Hi. destruct (ingest_block_spec e peer b He Hi) as (e' & acts & ? & ?).
      eauto using imported_handled.
    + destruct (on_sync_request_spec e peer r He) as [fr ->].
      eexists _, _. split; [done|]. apply handled_quiet; try done. by repeat constructor.
    + by apply on_sync_response_spec.
    + eexists _, _. split; [done|]. apply handled_quiet; try done. by repeat constructor.
  - by apply on_local_transaction_spec.
  - by apply on_storage_loaded_spec.
  - eexists _, _. split; [done|]. apply handled_quiet; try done. by repeat constructor.
  - eexists _, _. split; [done|]. apply handled_quiet; try done. by repeat constructor.
Qed.

Lemma sync_wake_action_spec e :
  let '(e', a) := sync_wake_action e in
  blockchain e' = blockchain e ∧ pending_blocks e' = pending_blocks e ∧ peers e' = peers e ∧
  pending_requests e' = pending_requests e ∧
  scheduled_wake_at_ms e' = min_option (map req_deadline_ms (pending_requests e')) ∧
  match a with
  | None => scheduled_wake_at_ms e' = scheduled_wake_at_ms e
  | Some (ScheduleWake t) => scheduled_wake_at_ms e' = Some t
  | Some CancelWake => scheduled_wake_at_ms e' = None
  | Some _ => False
  end.
Proof.
  unfold sync_wake_action. case_bool_decide as E; [done|].
  by destruct (min_option (map req_deadline_ms (pending_requests e))) eqn:Em.
Qed.

Lemma step_spec e i :
  engine_inv e → input_ok i → ∃ e' acts, step e i = Ret (e', acts) ∧ handled_ok e e' acts.
Proof.
  intros He Hi. unfold step.
  destruct (handle_input_spec e i He Hi) as (e1 & a1 & -> & ([Hc Hp] & Hpo & Hhs)).
  cbn [mbind outcome_bind]. pose proof (sync_wake_action_spec e1) as Hw.
  destruct (sync_wake_action e1) as [e2 a]. destruct Hw as (Hbc & Hpb & _ & _ & _ & Ha).
  eexists _, _. split; [done|]. unfold handled_ok, engine_inv. rewrite Hbc, Hpb.
  destruct a as [a|]; [|done]. split; [done|]. split.
  - apply acts_ok_app; [done|]. apply acts_ok_plain. destruct a; by repeat constructor.
  - eapply head_saved_trans; [exact Hhs|apply head_saved_refl].
Qed.

(** ** Runs *)

Fixpoint run (e : NodeEngine) (inputs : list NodeInput) : outcome (NodeEngine * list NodeAction) :=
  match inputs with
  | [] => Ret (e, [])
  | i :: inputs =>
      '(e, a1) ← step e i;
      '(e, a2) ← run e inputs;
      Ret (e, a1 ++ a2)
  end.

Lemma run_spec e inputs :
  engine_inv e → Forall input_ok inputs →
  ∃ e' acts, run e inputs = Ret (e', acts) ∧ handled_ok e e' acts.
Proof.
  intros He Hi. revert e He. induction Hi as [|i inputs Hi _ IH]; intros e He; simpl.
  { eexists _, _. split; [done|]. by apply handled_quiet. }
  destruct (step_spec e i He Hi) as (e1 & a1 & -> & (He1 & Hp1 & Hh1)). cbn [mbind outcome_bind].
  destruct (IH e1 He1) as (e2 & a2 & -> & (He2 & Hp2 & Hh2)). cbn [mbind outcome_bind].
  eexists _, _. split; [done|].
  split; [done|]. split; [by apply acts_ok_app|by eapply head_saved_trans].
Qed.

(** C1: the engine never panics and its loops always end: on any sequence of inputs
    that carry blocks of the universe [U] and decodable snapshots, every step
    returns, and the invariant of the block tree and of the parked blocks is kept. *)
Theorem engine_never_panics e inputs :
  engine_inv e → Forall input_ok inputs →
  ∃ e' acts, run e inputs = Ret (e', acts) ∧ engine_inv e'.
Proof. intros He Hi. destruct (run_spec e inputs He Hi) as (? & ? & ? & (? & _)). eauto. Qed.

(** C2: whatever happens in a run, accepted blocks are written in pairs, a block and
    then the state it leads to under its hash (a state with the root the block
    carries), and when the head has moved, the block at the head and the state the
    node is in were handed to the storage, so that a restart finds them. *)
Theorem engine_persists_head e inputs e' acts :
  engine_inv e → Forall input_ok inputs → run e inputs = Ret (e', acts) →
  persist_ok acts ∧ head_saved (blockchain e) (blockchain e') acts.
Proof.
  intros He Hi E. destruct (run_spec e inputs He Hi) as (? & ? & E' & (_ & [? _] & ?)).
  rewrite E in E'. by injection E' as <- <-.
Qed.
End engine_invariant.

(** ** The wake-up timer *)

Section wake.
Context `{Target, Crypto, !Postcard NetworkMessage}.

(** The deadline of a host timer that follows the wake actions. *)
Definition timer_step (timer : option Z) (a : NodeAction) : option Z :=
  match a with ScheduleWake at_ms => Some at_ms | CancelWake => None | _ => timer end.
Definition timer_after (timer : option Z) (acts : list NodeAction) : option Z :=
  foldl timer_step timer acts.

Definition no_wake (a : NodeAction) : Prop :=
  match a with ScheduleWake _ | CancelWake => False | _ => True end.

Lemma timer_after_no_wake t acts : Forall no_wake acts → timer_after t acts = t.
Proof. induction 1 as [|a l Ha _ IH]; simpl; [done|]. by destruct a. Qed.

Lemma min_option_spec l :
  match min_option l with
  | Some m => m ∈ l ∧ ∀ x, x ∈ l → m ≤ x
  | None => l = []
  end.
Proof.
  induction l as [|x l IH]; simpl; [done|]. destruct (min_option l) as [m|]; simpl.
  - destruct IH as [Hin Hmin]. split.
    + destruct (Z.min_spec x m) as [[_ ->]|[_ ->]]; [left|by right].
    + intros y [->|Hy]%elem_of_cons; [lia|]. specialize (Hmin y Hy). lia.
  - subst l. split; [left|]. by intros y ->%list_elem_of_singleton.
Qed.

(** No wake action, and the timer is not touched. *)
Definition quiet (e e' : NodeEngine) (acts : list NodeAction) : Prop :=
  scheduled_wake_at_ms e' = scheduled_wake_at_ms e ∧ Forall no_wake acts.

Lemma quiet_trans e1 e2 e3 l1 l2 : quiet e1 e2 l1 → quiet e2 e3 l2 → quiet e1 e3 (l1 ++ l2).
Proof. intros [E1 ?] [E2 ?]. split; [congruence|by apply Forall_app]. Qed.

Lemma import_loop_quiet rec pst parked e acts0 e' acts :
  (∀ e h st e' acts, rec e h st = Ret (e', acts) → quiet e e' acts) →
  Forall no_wake acts0 → import_loop rec pst e parked acts0 = Ret (e', acts) → quiet e e' acts.
Proof.
  intros Hrec. revert e acts0. induction parked as [|p parked IH]; intros e acts0 Ha0 E; simpl in E.
  { by injection E as <- <-. }
  apply bind_Ret in E as ([bc r] & _ & E). destruct r as [[st head]|err]; simpl in E.
  - destruct head.
    + apply bind_Ret in E as ([e1 more] & [E1 Ha1]%Hrec & E).
      apply IH in E as [E2 Ha2]; [split; [simpl in E1; congruence|done]|].
      rewrite !Forall_app. split_and!; try done; by repeat constructor.
    + apply IH in E; [done|]. rewrite !Forall_app. split_and!; try done; by repeat constructor.
  - apply IH in E; [done|]. rewrite !Forall_app. split_and!; try done; by repeat constructor.
Qed.

Lemma import_parked_blocks_quiet fuel e h st e' acts :
  import_parked_blocks fuel e h st = Ret (e', acts) → quiet e e' acts.
Proof.
  revert e h st e' acts. induction fuel as [|fuel IH]; intros e h st e' acts E; simpl in E; [done|].
  destruct (pending_blocks e !! h); [|by injection E as <- <-].
  apply import_loop_quiet in E; [exact E|exact IH|constructor].
Qed.

Lemma ingest_block_quiet e peer b e' acts :
  ingest_block e peer b = Ret (e', acts) → quiet e e' acts.
Proof.
  unfold ingest_block. case_bool_decide; [|intros [= <- <-]; by repeat constructor].
  intros ([bc r] & _ & E)%bind_Ret. destruct r as [[st head]|err]; simpl in E.
  - destruct head; [|injection E as <- <-; by repeat constructor].
    apply bind_Ret in E as ([e1 more] & [E1 Ha1]%import_parked_blocks_quiet & E).
    injection E as <- <-. split; [exact E1|by repeat constructor].
  - injection E as <- <-. by repeat constructor.
Qed.

Lemma ingest_blocks_quiet e peer bs acts0 e' acts :
  Forall no_wake acts0 → ingest_blocks e peer bs acts0 = Ret (e', acts) → quiet e e' acts.
Proof.
  revert e acts0. induction bs as [|b bs IH]; intros e acts0 Ha0 E; simpl in E.
  { by injection E as <- <-. }
  apply bind_Ret in E as ([e1 more] & [E1 Ha1]%ingest_block_quiet & E).
  apply IH in E as [E2 Ha2]; [split; [congruence|done]|by apply Forall_app].
Qed.

Lemma continue_requests_quiet e rs nh acts :
  Forall no_wake acts →
  quiet e (continue_requests e rs nh acts).1 (continue_requests e rs nh acts).2.
Proof.
  revert e acts. induction rs as [|r rs IH]; intros e acts Hacts; simpl; [done|].
  unfold continue_request, queue_block_request. case_bool_decide; [by apply IH|].
  cbv iota beta zeta. match goal with |- context [continue_requests ?e' rs nh ?a'] =>
    destruct (IH e' a') as [E1 ?] end; [|by split].
  apply Forall_app. split; [done|by repeat constructor].
Qed.

Lemma on_sync_response_quiet e peer r e' acts :
  on_sync_response e peer r = Ret (e', acts) → quiet e e' acts.
Proof.
  unfold on_sync_response. intros ([e1 a1] & [E1 Ha1]%ingest_blocks_quiet & E)%bind_Ret; [|constructor].
  simpl in E1. destruct (sync_next_height r) as [nh|].
  - pose proof (continue_requests_quiet e1 (filter (λ r, req_peer r = peer) (pending_requests e)) nh a1 Ha1)
      as [E2 Ha2].
    destruct (continue_requests _ _ _ _) as [e2 a2]; simpl in *. injection E as <- <-.
    split; [congruence|]. destruct a2; [by repeat constructor|done].
  - injection E as <- <-. split; [congruence|]. destruct a1; [by repeat constructor|done].
Qed.

Ltac quiet_done := match goal with E : Ret _ = Ret _ |- _ =>
  injection E as <- <-; by repeat constructor end.

Lemma on_frame_quiet e peer f e' acts : on_frame e peer f = Ret (e', acts) → quiet e e' acts.
Proof.
  unfold on_frame. destruct (network_message_from_bytes f) as [[r|r|r|r]|]; intros E; try quiet_done.
  - destruct (announce_kind r) as [tx|b]; [|by eapply ingest_block_quiet].
    unfold on_announced_transaction in E. destruct (add_transaction _ _) as [bc [[]|]]; try quiet_done.
    unfold relay_transaction in E. apply bind_Ret in E as (l & Hl & E). injection E as <- <-.
    apply bind_Ret in Hl as (fr & _ & [= <-]). split; [done|].
    apply List.Forall_map, Forall_forall. by intros [] _.
  - unfold on_sync_request in E. outcome_inv. split; [done|by repeat constructor].
  - by eapply on_sync_response_quiet.
Qed.

Lemma on_storage_loaded_quiet e h bs e' acts :
  on_storage_loaded e h bs = Ret (e', acts) → quiet e e' acts.
Proof.
  unfold on_storage_loaded. destruct (pending_blocks e !! h ≫= _) as [p|]; intros E; [|quiet_done].
  destruct bs as [bs|]; [|quiet_done]. apply bind_Ret in E as ([st|] & _ & E); [|quiet_done].
  by eapply import_parked_blocks_quiet.
Qed.

Lemma handle_input_quiet e i e' acts : handle_input e i = Ret (e', acts) → quiet e e' acts.
Proof.
  destruct i; cbn [handle_input]; intros E; try quiet_done.
  - unfold on_peer_connected in E. outcome_inv. split; [done|by repeat constructor].
  - by eapply on_frame_quiet.
  - unfold on_local_transaction in E. destruct (add_transaction _ _) as [bc [[]|]]; try quiet_done.
    apply bind_Ret in E as (fr & _ & E). quiet_done.
  - by eapply on_storage_loaded_quiet.
  - unfold queue_block_request in E. quiet_done.
Qed.

(** C27: the timer of a host that follows the wake actions is always right: after
    every step it is set for the earliest deadline of the outstanding block
    requests, and it is off when there are none. *)
Theorem wake_timer_is_earliest_deadline e i e' acts :
  step e i = Ret (e', acts) →
  timer_after (scheduled_wake_at_ms e) acts = scheduled_wake_at_ms e' ∧
  match scheduled_wake_at_ms e' with
  | Some t => (∃ r, r ∈ pending_requests e' ∧ req_deadline_ms r = t) ∧
              (∀ r, r ∈ pending_requests e' → t ≤ req_deadline_ms r)
  | None => pending_requests e' = []
  end.
Proof.
  unfold step. intros ([e1 a1] & [E1 Ha1]%handle_input_quiet & E)%bind_Ret.
  pose proof (sync_wake_action_spec e1) as Hw. destruct (sync_wake_action e1) as [e2 a].
  destruct Hw as (_ & _ & _ & _ & Hmin & Ha). injection E as <- <-. split.
  - destruct a as [a|]; [|rewrite timer_after_no_wake by done; congruence].
    unfold timer_after. rewrite foldl_app. fold (timer_after (scheduled_wake_at_ms e) a1).
    rewrite (timer_after_no_wake _ a1) by done. destruct a; simpl in *; congruence || done.
  - pose proof (min_option_spec (map req_deadline_ms (pending_requests e2))) as Hs.
    rewrite <-Hmin in Hs. destruct (scheduled_wake_at_ms e2) as [t|].
    + destruct Hs as [Hin Hle]. apply list_elem_of_fmap in Hin as (r & -> & Hr).
      split; [eauto|]. intros r' Hr'. apply Hle. by apply (list_elem_of_fmap_2 req_deadline_ms).
    + by apply map_eq_nil in Hs.
Qed.
End wake.
