(* ===== verification/EngineSync.v ===== *)
(** * Synchronisation between nodes, and restarts

    Theorems about the handlers of Engine.v that serve and follow a chain: what a
    synchronisation reply holds, that a node which receives a valid continuation of
    its head catches up with it, how requests are continued, whom a transaction is
    relayed to, and that a node restarts where its storage left it. *)

From S2P Require Import Prelude.
From S2P Require Import Maps.
From S2P Require Import Crypto.
From S2P Require Import Models.
From S2P Require Import State.
From S2P Require Import StateCodec.
From S2P Require Import Ledger.
From S2P Require Import ChainCore.
From S2P Require Import Mempool.
From S2P Require Import Chain.
From S2P Require Import Messages.
From S2P Require Import Engine.
From S2P Require Import EngineSafety.

(** ** Serving *)

Section serving.
Context `{Target, Crypto, !CryptoLaws, !Postcard NetworkMessage, !PostcardLaws NetworkMessage}.
Context (U : Block → Prop) (missing : option (bytes * Z)) `{!Delivered U missing}.

Definition is_send (a : NodeAction) : bool :=
  match a with SendFrame _ _ | BroadcastFrame _ => true | _ => false end.

(** The reply to a request, from the bounds of the branch the node holds. *)
Definition reply_ok (r : SyncRequest) (lowest head : Z) (resp : SyncResponse) : Prop :=
  let from := sync_from_height r in
  let to := sync_to_height r in
  if decide (from ≤ to ∧ lowest ≤ from ≤ head) then
    map block_height (sync_blocks resp) = seqZ from (Z.min to head - from + 1) ∧
    linked (reverse (sync_blocks resp)) ∧
    sync_has_more resp = bool_decide (to < head) ∧
    sync_next_height resp = (if decide (to < head) then Some (to + 1) else None)
  else
    sync_blocks resp = [] ∧ sync_has_more resp = false ∧
    sync_next_height resp = (if decide (from < lowest) then Some lowest else None).

Lemma last_height_seqZ (l : list Block) from n :
  map block_height l = seqZ from n → 0 < n → block_height <$> last l = Some (from + n - 1).
Proof.
  intros Hl Hn. rewrite <-(fmap_last block_height). change (block_height <$> l) with (map block_height l).
  rewrite Hl. replace n with ((n - 1) + 1) by lia.
  rewrite seqZ_app by lia. rewrite (seqZ_cons _ 1) by lia. rewrite last_app. simpl. f_equal. lia.
Qed.

Lemma on_sync_request_reply e peer r :
  engine_inv U missing e →
  ∃ head lowest resp frame,
    get_latest_block (blockchain e) = Ret head ∧
    earliest_contiguous_height (blockchain e) = Ret lowest ∧
    reply_ok r lowest (block_height head) resp ∧
    get_blocks (blockchain e) (sync_from_height r) (sync_to_height r) = Ret (sync_blocks resp) ∧
    message_to_bytes (MsgSyncResponse resp) = Ret frame ∧
    on_sync_request e peer r = Ret (e, [SendFrame peer frame]).
Proof.
  intros He. unfold on_sync_request.
  destruct (get_blocks_spec U missing (blockchain e) (sync_from_height r) (sync_to_height r) (proj1 He))
    as (hd & low & bs & Ehd & -> & Hle & -> & Hbs). cbn [mbind outcome_bind]. rewrite Ehd.
  cbn [mbind outcome_bind].
  assert (block_height hd < u64_max) as Hmax.
  { destruct (inv_head _ _ _ (proj1 He)) as (b & Hb & _).
    rewrite (get_latest_block_tree _ b Hb) in Ehd. injection Ehd as <-.
    apply (tree_keys _ _ _ (inv_tree _ _ _ (proj1 He))) in Hb as [Hb _].
    by apply sane_height, (delivered_sane b). }
  match goal with |- context [message_to_bytes (MsgSyncResponse ?resp)] =>
    destruct (message_to_bytes_Ret (MsgSyncResponse resp)) as [f Hf];
    exists hd, low, resp, f; rewrite Hf end.
  split_and!; try done. unfold reply_ok; simpl. case_decide as Hr.
  - destruct Hbs as (Hh & Hlink & _).
    rewrite (last_height_seqZ _ _ _ Hh) by lia. split_and!; [done..| |].
    + apply bool_decide_ext. lia.
    + destruct (decide (sync_to_height r < block_height hd));
        [rewrite bool_decide_true by lia|by rewrite bool_decide_false by lia].
      unfold u64_saturating_add, u64_max in *. f_equal. lia.
  - subst bs. split_and!; [done..|]. simpl.
    rewrite (bool_decide_true (low ≤ _)), andb_true_r by done. by rewrite bool_decide_decide; destruct (decide (sync_from_height r < low)).
Qed.

(** a node answers a synchronisation request with one frame to the peer that
    asked, and changes neither its chain nor its peers.  The reply holds exactly
    the requested heights of the branch of its head, linked parent to child;
    [has_more] says whether the head is above the range, and [next_height] is then
    the next height to ask for; a request that starts below the oldest block the
    node holds gets no block and is told where to start. *)
Theorem sync_request_reply e peer frame r e' acts :
  engine_inv U missing e → network_message_from_bytes frame = Ok (MsgSyncRequest r) →
  step e (FrameReceived peer frame) = Ret (e', acts) →
  blockchain e' = blockchain e ∧ peers e' = peers e ∧
  ∃ head lowest resp reply,
    get_latest_block (blockchain e) = Ret head ∧
    earliest_contiguous_height (blockchain e) = Ret lowest ∧
    reply_ok r lowest (block_height head) resp ∧
    message_to_bytes (MsgSyncResponse resp) = Ret reply ∧
    filter is_send acts = [SendFrame peer reply].
Proof.
  intros He Hm E. unfold step in E. cbn [handle_input] in E. unfold on_frame in E. rewrite Hm in E.
  destruct (on_sync_request_reply e peer r He) as (hd & low & resp & f & ? & ? & ? & _ & Hf & Er).
  rewrite Er in E. cbn [mbind outcome_bind] in E.
  pose proof (sync_wake_action_spec e) as Hw. destruct (sync_wake_action e) as [e2 a].
  destruct Hw as (Hbc & _ & Hp & _ & _ & Ha). injection E as <- <-.
  split_and!; [done..|]. exists hd, low, resp, f. split_and!; try done.
  destruct a as [[]|]; simpl in Ha; try done.
Qed.
End serving.

(** ** Following *)

Section following.
Context `{Target, Crypto, !CryptoLaws, !Postcard NetworkMessage}.
Context (U : Block → Prop) (missing : option (bytes * Z)) `{!Delivered U missing}.

(** The actions that ask a peer for blocks. *)
Definition is_request (a : NodeAction) : bool :=
  match a with RequestBlocks _ _ _ => true | _ => false end.

(** Each block names the one before it; the first one names [h]. *)
Fixpoint extends (h : bytes) (bs : list Block) : Prop :=
  match bs with
  | [] => True
  | b :: bs => block_previous_hash b = h ∧ extends (hash b) bs
  end.

(** A valid child of the head becomes the head. *)
Lemma add_child_of_head bc hb b st' :
  chain_inv U missing bc → tree_blocks (chain bc) !! head_hash bc = Some hb → U b →
  block_previous_hash b = head_hash bc →
  validate_and_apply_block hb (bc_state bc) b = Ret (Ok st') →
  ∃ bc', add_block bc b (bc_state bc) = Ret (bc', Ok (mkImportedBlock st' true)) ∧
         chain_inv U missing bc' ∧ added bc bc' b st' true ∧
         tree_blocks (chain bc') !! hash b = Some b.
Proof.
  intros Hbc Hhb Hb Hprev Hv.
  destruct (add_block_accepted U missing bc b (bc_state bc) hb st') as (bc' & hd & E & Hbc' & Hadd);
    [done|done|apply Hbc|by rewrite Hprev|done|].
  assert (block_height b = block_height hb + 1) as Hh.
  { apply validate_accepts in Hv as (_ & Hh & _).
    pose proof (tree_keys _ _ _ (inv_tree _ _ _ Hbc) _ _ Hhb) as [HUh _].
    pose proof (sane_height hb (delivered_sane hb HUh)). rewrite u64_add_small in Hh by u64_lia.
    congruence. }
  destruct Hadd as ((x & Hx & Ex) & Hmono & Hold & Hadd).
  destruct (erase_fields _ _ Ex) as (Hxh & _).
  assert (∀ (t : gmap bytes Block) h, t !! h = Some hb → ∀ y, (hash b = h ∨ head_lt (hash b, y) (h, hb)) →
    t !! hash b = Some y → block_height y = block_height b → False) as Hno.
  { intros t h Ht y [<-|Hlt%head_lt_spec] Hy Hyh; simpl in *; [|lia].
    rewrite Ht in Hy. injection Hy as <-. lia. }
  assert (x = b) as ->.
  { destruct (Hold _ _ Hx) as [Hx'|[_ ->]]; [|done].
    destruct (inv_head _ _ _ Hbc) as (hb' & Hhb' & _ & Hmax). rewrite Hhb in Hhb'. injection Hhb' as <-.
    exfalso. eapply (Hno _ _ Hhb x); [by apply Hmax|done..]. }
  destruct hd.
  - exists bc'. split_and!; try done. unfold added. split_and!; try done; naive_solver.
  - exfalso. destruct Hadd as (_ & _ & Ehd & _).
    destruct (inv_head _ _ _ Hbc') as (hb' & Hhb' & _ & Hmax). rewrite Ehd in *.
    rewrite (Hmono _ _ Hhb) in Hhb'. injection Hhb' as <-.
    eapply (Hno _ _ (Hmono _ _ Hhb) b); [by apply Hmax|done..].
Qed.

Lemma ingest_child_of_head e peer hb b st' :
  engine_inv U missing e → pending_blocks e = ∅ →
  tree_blocks (chain (blockchain e)) !! head_hash (blockchain e) = Some hb → U b →
  block_previous_hash b = head_hash (blockchain e) →
  validate_and_apply_block hb (bc_state (blockchain e)) b = Ret (Ok st') →
  ∃ e' acts, ingest_block e peer b = Ret (e', acts) ∧ engine_inv U missing e' ∧
    pending_blocks e' = ∅ ∧ head_hash (blockchain e') = hash b ∧
    bc_state (blockchain e') = st' ∧ tree_blocks (chain (blockchain e')) !! hash b = Some b ∧
    filter is_request acts = [].
Proof.
  intros He Hpend Hhb Hb Hprev Hv. unfold ingest_block. rewrite bool_decide_true by done.
  destruct (add_child_of_head (blockchain e) hb b st') as (bc' & -> & Hbc' & Hadd & Ht);
    [apply He|done..|]. cbn [mbind outcome_bind]. cbn [became_head next_state].
  unfold import_parked. cbn [import_parked_blocks pending_blocks set_blockchain].
  rewrite Hpend, lookup_empty. cbn [mbind outcome_bind].
  destruct Hadd as (_ & _ & _ & _ & _ & Hh & Hs).
  eexists _, _. split; [done|]. simpl. split_and!; try done. split; [done|apply He].
Qed.

Lemma ingest_branch e peer hb bs st' acts0 :
  engine_inv U missing e → pending_blocks e = ∅ →
  tree_blocks (chain (blockchain e)) !! head_hash (blockchain e) = Some hb →
  Forall U bs → extends (head_hash (blockchain e)) bs →
  branch hb (bc_state (blockchain e)) bs st' →
  ∃ e' acts, ingest_blocks e peer bs acts0 = Ret (e', acts) ∧ engine_inv U missing e' ∧
    bc_state (blockchain e') = st' ∧
    tree_blocks (chain (blockchain e')) !! head_hash (blockchain e') = last (hb :: bs) ∧
    pending_blocks e' = ∅ ∧ filter is_request acts = filter is_request acts0.
Proof.
  intros He Hpend Hhb Hbs. revert e hb acts0 He Hpend Hhb.
  induction Hbs as [|b bs Hb _ IH]; intros e hb acts0 He Hpend Hhb Hext Hbr; simpl.
  { inversion Hbr; subst. eauto 10. }
  inversion Hbr as [|? ? ? st1 ? ? Hv Hbr']; subst. destruct Hext as [Hprev Hext].
  destruct (ingest_child_of_head e peer hb b st1) as (e1 & a1 & -> & He1 & Hp1 & Hh1 & Hs1 & Ht1 & Ha1);
    [done..|]. cbn [mbind outcome_bind].
  rewrite <-Hs1 in Hbr'. rewrite <-Hh1 in Hext, Ht1.
  destruct (IH e1 b (acts0 ++ a1)) as (e2 & a2 & -> & ? & ? & Hl & ? & Ha2); [done..|].
  rewrite filter_app, Ha1, app_nil_r in Ha2. eauto 10.
Qed.

(** catching up: a node with nothing parked that receives, in one reply, blocks
    that are valid one after the other on top of its head ends with the last of
    them as its head and with the state they lead to. *)
Theorem sync_response_catches_up e peer hb resp st' :
  engine_inv U missing e → pending_blocks e = ∅ → get_latest_block (blockchain e) = Ret hb →
  Forall U (sync_blocks resp) → extends (head_hash (blockchain e)) (sync_blocks resp) →
  branch hb (bc_state (blockchain e)) (sync_blocks resp) st' →
  ∃ e' acts, on_sync_response e peer resp = Ret (e', acts) ∧
    bc_state (blockchain e') = st' ∧
    get_latest_block (blockchain e') = Ret (default hb (last (sync_blocks resp))).
Proof.
  intros He Hpend Hhb Hbs Hext Hbr.
  assert (tree_blocks (chain (blockchain e)) !! head_hash (blockchain e) = Some hb) as Ht.
  { destruct (inv_head _ _ _ (proj1 He)) as (b & Hb & _).
    rewrite (get_latest_block_tree _ b Hb) in Hhb. congruence. }
  unfold on_sync_response.
  destruct (ingest_branch (set_pending_requests e
    (filter (λ r, req_peer r ≠ peer) (pending_requests e))) peer hb (sync_blocks resp) st' [])
    as (e1 & a1 & -> & He1 & Hs1 & Ht1 & _); [done..|]. cbn [mbind outcome_bind].
  assert (get_latest_block (blockchain e1) = Ret (default hb (last (sync_blocks resp)))) as Hl1.
  { apply get_latest_block_tree. rewrite Ht1. destruct (sync_blocks resp) as [|b l]; [done|].
    change (last (hb :: b :: l)) with (last (b :: l)).
    destruct (last (b :: l)) eqn:E; [done|by apply last_None in E]. }
  destruct (sync_next_height resp) as [nh|]; [|eauto].
  pose proof (continue_requests_spec e1 (filter (λ r, req_peer r = peer) (pending_requests e)) nh a1)
    as (Hbc & _). destruct (continue_requests _ _ _ _) as [e2 a2]. simpl in Hbc.
  eexists _, _. split; [done|]. by rewrite Hbc.
Qed.
End following.

(** ** Requests *)

Section requests.
Context `{Target, Crypto, !Postcard NetworkMessage}.

(** The request that continues [r] at [nh], made at time [now]. *)
Definition continuation (now nh : Z) (r : PendingRequest) : PendingRequest :=
  mkPendingRequest (req_peer r) nh
    (if bool_decide (nh ≤ req_to_height r) then req_to_height r
     else u64_saturating_add nh (u64_saturating_sub (req_to_height r) (req_from_height r)))
    (u64_saturating_add now REQUEST_TIMEOUT_MS).

Lemma continue_requests_eq e rs nh acts :
  nh ≠ 0 →
  continue_requests e rs nh acts =
    (set_pending_requests e
       (pending_requests e ++ map (continuation (current_time_ms e) nh) rs),
     acts ++ map (λ r, RequestBlocks (req_peer r) (req_from_height r) (req_to_height r))
               (map (continuation (current_time_ms e) nh) rs)).
Proof.
  intros Hnh. revert e acts. induction rs as [|r rs IH]; intros e acts; simpl.
  { rewrite !app_nil_r. by destruct e. }
  unfold continue_request. rewrite bool_decide_false by done. cbn [queue_block_request].
  rewrite IH. simpl. by rewrite <-!app_assoc.
Qed.

(** Importing blocks does not touch the requests, the clock or the peers. *)
Definition same_requests (e e' : NodeEngine) : Prop :=
  pending_requests e' = pending_requests e ∧ current_time_ms e' = current_time_ms e ∧
  peers e' = peers e.

Lemma same_requests_trans e1 e2 e3 :
  same_requests e1 e2 → same_requests e2 e3 → same_requests e1 e3.
Proof. unfold same_requests. intros (?&?&?) (?&?&?). split_and!; congruence. Qed.

Lemma import_loop_requests rec pst parked e acts0 e' acts :
  (∀ e h st e' acts, rec e h st = Ret (e', acts) → same_requests e e') →
  import_loop rec pst e parked acts0 = Ret (e', acts) → same_requests e e'.
Proof.
  intros Hrec. revert e acts0. induction parked as [|p parked IH]; intros e acts0 E; simpl in E.
  { by injection E as <- <-. }
  apply bind_Ret in E as ([bc r] & _ & E). destruct r as [[st head]|err]; simpl in E.
  - destruct head; [|by apply IH in E].
    apply bind_Ret in E as ([e1 more] & E1%Hrec & E). apply IH in E.
    by eapply same_requests_trans.
  - by apply IH in E.
Qed.

Lemma import_parked_blocks_requests fuel e h st e' acts :
  import_parked_blocks fuel e h st = Ret (e', acts) → same_requests e e'.
Proof.
  revert e h st e' acts. induction fuel as [|fuel IH]; intros e h st e' acts E; simpl in E; [done|].
  destruct (pending_blocks e !! h); [|by injection E as <- <-].
  by apply import_loop_requests in E.
Qed.

Lemma ingest_blocks_requests e peer bs acts0 e' acts :
  ingest_blocks e peer bs acts0 = Ret (e', acts) → same_requests e e'.
Proof.
  revert e acts0. induction bs as [|b bs IH]; intros e acts0 E; simpl in E.
  { by injection E as <- <-. }
  apply bind_Ret in E as ([e1 more] & E1 & E). apply IH in E.
  eapply same_requests_trans; [|exact E]. clear E IH. unfold ingest_block in E1.
  case_bool_decide; [|by injection E1 as <- <-].
  apply bind_Ret in E1 as ([bc r] & _ & E1). destruct r as [[st head]|err]; simpl in E1.
  - destruct head; [|by injection E1 as <- <-].
    apply bind_Ret in E1 as ([e2 more2] & E2%import_parked_blocks_requests & E1).
    by injection E1 as <- <-.
  - by injection E1 as <- <-.
Qed.

(** a synchronisation reply settles every request made to the peer that sent it
    and no other: when the reply names a next height (other than 0), each of them is
    replaced by one request that starts there, keeps the requested end or moves the
    window past it, and has a fresh deadline; otherwise they are dropped. *)
Theorem sync_response_settles_requests e peer resp e' acts :
  on_sync_response e peer resp = Ret (e', acts) →
  pending_requests e' =
    filter (λ r, req_peer r ≠ peer) (pending_requests e) ++
    match sync_next_height resp with
    | Some nh =>
        if decide (nh = 0) then []
        else map (continuation (current_time_ms e) nh)
               (filter (λ r, req_peer r = peer) (pending_requests e))
    | None => []
    end.
Proof.
  unfold on_sync_response. intros ([e1 a1] & (Er & Ec & _)%ingest_blocks_requests & E)%bind_Ret.
  simpl in Er, Ec. destruct (sync_next_height resp) as [nh|].
  2: { injection E as <- _. rewrite app_nil_r. done. }
  destruct (decide (nh = 0)) as [->|Hnh].
  - assert (∀ rs acts, continue_requests e1 rs 0 acts = (e1, acts)) as Hz.
    { clear. induction rs as [|r rs IH]; intros acts; simpl; [done|]. apply IH. }
    rewrite Hz in E. injection E as <- _. by rewrite app_nil_r.
  - rewrite continue_requests_eq in E by done. injection E as <- _. simpl. by rewrite Er, Ec.
Qed.

(** when a peer disconnects, the engine forgets it: it is no longer in the peer
    table and no request to it is outstanding; other peers and requests, and the
    chain, are untouched. *)
Theorem disconnect_forgets_peer e peer e' acts :
  step e (PeerDisconnected peer) = Ret (e', acts) →
  peers e' = delete peer (peers e) ∧
  pending_requests e' = filter (λ r, req_peer r ≠ peer) (pending_requests e) ∧
  blockchain e' = blockchain e ∧
  (∀ f t, RequestBlocks peer f t ∉ acts) ∧ (∀ f, SendFrame peer f ∉ acts).
Proof.
  unfold step. cbn [handle_input mbind outcome_bind on_peer_disconnected].
  set (e1 := set_pending_requests _ _). pose proof (sync_wake_action_spec e1) as Hw.
  destruct (sync_wake_action e1) as [e2 a]. destruct Hw as (Hbc & _ & Hp & Hr & _ & Ha).
  intros E. injection E as <- <-. rewrite Hp, Hr, Hbc. split_and!; try done.
  - intros f t. destruct a as [[]|]; simpl in Ha; try done; set_solver.
  - intros f. destruct a as [[]|]; simpl in Ha; try done; set_solver.
Qed.

(** a transaction that a peer announces and the pool takes is relayed, once, to
    every other connected peer and not back to the sender. *)
Theorem relay_reaches_other_peers e source tx acts :
  relay_transaction e source tx = Ret acts →
  ∃ frame, message_to_bytes (MsgAnnounceRequest (announce_transaction tx)) = Ret frame ∧
    NoDup acts ∧
    ∀ a, a ∈ acts ↔ ∃ peer s, a = SendFrame peer frame ∧ peers e !! peer = Some s ∧
                             connected s = true ∧ peer ≠ source.
Proof.
  unfold relay_transaction. intros (f & Hf & [= <-])%bind_Ret. exists f. split_and!; [done| |].
  - apply (NoDup_fmap_2_strong (λ '(peer, _), SendFrame peer f)).
    + intros [p s] [q t] [_ Hp%elem_of_btree_iter]%list_elem_of_filter
        [_ Hq%elem_of_btree_iter]%list_elem_of_filter. intros [= ->]. congruence.
    + apply NoDup_filter. eapply NoDup_fmap_1, btree_iter_NoDup.
  - intros a. rewrite list_elem_of_fmap. split.
    + intros ([p s] & -> & [[Hne Hc] Hp%elem_of_btree_iter]%list_elem_of_filter). eauto 10.
    + intros (p & s & -> & Hp & Hc & Hne). exists (p, s). split; [done|].
      apply list_elem_of_filter. split; [done|]. by apply elem_of_btree_iter.
Qed.
End requests.

(** ** Restarting *)

Section restart.
Context `{Target, Crypto, !CryptoLaws, !Postcard NetworkMessage}.
Context (U : Block → Prop) (missing : option (bytes * Z)) `{!Delivered U missing}.

(** a node restarts where it stopped: given the block at the head and the
    snapshot that was persisted with it, [restore_latest_snapshot] yields a node
    whose head is that block and whose state is the persisted one, and whose block
    tree satisfies the invariant (the parent of the head is now the missing block). *)
Theorem restart_restores_head e b st :
  0 < pointer_width ≤ 64 → state_sound st → state_fits st → U b →
  block_state_root b = compute_state_root st → parked_inv U (pending_blocks e) →
  (block_height b = 0 ∧ missing = None ∨ missing = Some (block_previous_hash b, block_height b)) →
  ∃ e' acts, restore_latest_snapshot e (Some b) (Some (to_bytes st)) = Ret (e', acts) ∧
    get_latest_block (blockchain e') = Ret b ∧ head_hash (blockchain e') = hash b ∧
    bc_state (blockchain e') = st ∧ engine_inv U missing e'.
Proof.
  intros Hw [Hwf Hsup] Hfit Hb Hr Hp Hm. unfold restore_latest_snapshot.
  rewrite <-(app_nil_r (to_bytes st)), state_from_to_bytes by done. cbn [mbind outcome_bind].
  rewrite bool_decide_false by naive_solver. eexists _, _. split; [done|]. simpl. split_and!; try done.
  - unfold get_latest_block; simpl. by rewrite lookup_singleton_eq.
  - split; [|done]. simpl. by apply (single_block_inv U missing b st).
Qed.

(** whatever the storage returns at start-up, the node adopts a block only with a
    state whose root is the one in the block; anything else leaves the node as it
    was. *)
Theorem restore_checks_state_root e b bs e' acts :
  restore_latest_snapshot e b bs = Ret (e', acts) →
  e' = e ∨
  ∃ block state_bytes st, b = Some block ∧ bs = Some state_bytes ∧
    from_bytes state_bytes = Ret (Ok st) ∧ block_state_root block = compute_state_root st ∧
    e' = set_blockchain e (restore_head (blockchain e) block st).
Proof.
  unfold restore_latest_snapshot. destruct b as [b|], bs as [bs|]; intros E;
    try (injection E as <- <-; by left).
  apply bind_Ret in E as ([st|err] & Hst & E); [|injection E as <- <-; by left].
  case_bool_decide; [injection E as <- <-; by left|right].
  exists b, bs, st. split_and!; try done; [..|by injection E as <- <-]; by apply dec_stable.
Qed.
End restart.
