(* ===== verification/EngineWitness.v ===== *)
(** * Concrete runs of the engine

    A two-block universe and a toy wire format, on which the theorems of
    EngineSafety.v and EngineSync.v are applied. *)

From S2P Require Import Prelude.
From S2P Require Import Maps.
From S2P Require Import Crypto.
From S2P Require Import Models.
From S2P Require Import State.
From S2P Require Import StateCodec.
From S2P Require Import Ledger.
From S2P Require Import ChainCore.
From S2P Require Import Mempool.
From S2P Require Import Chain.
From S2P Require Import Messages.
From S2P Require Import Engine.
From S2P Require Import EngineSafety.
From S2P Require Import EngineSync.

Module EngineRuns.
Import ToyCrypto ModelsWitness ChainWitness.
#[local] Existing Instance dev_host.

(** Frames are one byte long. *)
Definition decode_frame (f : bytes) : option NetworkMessage :=
  match f with
  | [x01] => Some (MsgAnnounceRequest (announce_block first_block))
  | [x02] => Some (MsgSyncRequest (mkSyncRequest 0 10))
  | [x03] => Some (MsgSyncResponse (mkSyncResponse [first_block] true (Some 2)))
  | _ => None
  end.
#[export] Instance toy_postcard : Postcard NetworkMessage :=
  {| to_allocvec m := Some [x00]; postcard_from_bytes := decode_frame |}.
#[export] Instance toy_postcard_laws : PostcardLaws NetworkMessage.
Proof. split. by eexists. Qed.

Definition peer_a : bytes := replicate 32 x0a.
Definition peer_b : bytes := replicate 32 x0b.
Definition e0 : NodeEngine := NodeEngine_new fresh.
Definition inputs : list NodeInput :=
  [PeerConnected peer_a; Tick 5; FrameReceived peer_a [x03]; FrameReceived peer_a [x02];
   StorageLoaded (hash genesis) None; PeerDisconnected peer_a].

Lemma e0_inv : engine_inv known None e0.
Proof. split; [apply fresh_inv|apply map_Forall_empty]. Qed.

Lemma frame_ok f m : network_message_from_bytes f = Ok m → Forall known (message_blocks m).
Proof.
  unfold network_message_from_bytes, message_from_bytes. cbn [postcard_from_bytes toy_postcard].
  unfold decode_frame.
  destruct f as [|[] [|]]; intros E; try discriminate E; injection E as <-;
    solve [constructor|apply Forall_singleton; by right].
Qed.

Lemma inputs_ok : Forall (input_ok known) inputs.
Proof. repeat constructor; intros m; apply frame_ok. Qed.

Lemma engine_never_panics_witness :
  ∃ e' acts, run e0 inputs = Ret (e', acts) ∧ engine_inv known None e'.
Proof. apply (engine_never_panics known None); [apply e0_inv|apply inputs_ok]. Defined.

Lemma engine_persists_head_witness :
  ∃ e' acts, run e0 inputs = Ret (e', acts) ∧
    persist_ok acts ∧ head_saved (blockchain e0) (blockchain e') acts.
Proof.
  destruct (run_spec known None e0 inputs e0_inv inputs_ok) as (e' & acts & E & _).
  exists e', acts. split; [exact E|].
  exact (engine_persists_head known None e0 inputs e' acts e0_inv inputs_ok E).
Defined.

(** The run moves the head to [first_block]. *)
Lemma run_moves_head :
  (λ p, head_hash (blockchain p.1)) <$> run e0 inputs = Ret (hash first_block).
Proof. vm_compute. reflexivity. Qed.

Lemma wake_timer_is_earliest_deadline_witness :
  ∃ e' acts, step e0 (PeerConnected peer_a) = Ret (e', acts) ∧
    timer_after (scheduled_wake_at_ms e0) acts = scheduled_wake_at_ms e'.
Proof.
  destruct (step_spec known None e0 (PeerConnected peer_a) e0_inv I) as (e' & acts & E & _).
  exists e', acts. split; [exact E|].
  exact (proj1 (wake_timer_is_earliest_deadline e0 (PeerConnected peer_a) e' acts E)).
Defined.

Lemma connect_schedules_wake :
  (λ p, scheduled_wake_at_ms p.1) <$> step e0 (PeerConnected peer_a) = Ret (Some 30000).
Proof. vm_compute. reflexivity. Qed.

Lemma sync_request_reply_witness :
  ∃ e' acts, step e0 (FrameReceived peer_a [x02]) = Ret (e', acts) ∧
    blockchain e' = blockchain e0.
Proof.
  destruct (step_spec known None e0 (FrameReceived peer_a [x02]) e0_inv) as (e' & acts & E & _);
    [intros m; apply frame_ok|].
  exists e', acts. split; [exact E|].
  apply (sync_request_reply known None e0 peer_a [x02] (mkSyncRequest 0 10) e' acts e0_inv);
    [cbn; reflexivity|exact E].
Defined.

Definition reply : SyncResponse := mkSyncResponse [first_block] true (Some 2).

Lemma first_block_valid : validate_and_apply_block genesis State_new first_block = Ret (Ok State_new).
Proof. vm_compute. reflexivity. Qed.

Lemma sync_response_catches_up_witness :
  ∃ e' acts, on_sync_response e0 peer_a reply = Ret (e', acts) ∧
    bc_state (blockchain e') = State_new ∧
    get_latest_block (blockchain e') = Ret first_block.
Proof.
  apply (sync_response_catches_up known None e0 peer_a genesis reply State_new).
  - apply e0_inv.
  - reflexivity.
  - apply get_latest_block_tree. simpl. rewrite singleton_tree. apply lookup_singleton_eq.
  - constructor; [by right|constructor].
  - by split.
  - econstructor; [exact first_block_valid|constructor].
Defined.

Lemma sync_response_settles_requests_witness :
  ∃ e' acts, on_sync_response e0 peer_a reply = Ret (e', acts) ∧ pending_requests e' = [].
Proof.
  destruct (on_sync_response_spec known None e0 peer_a reply) as (e' & acts & E & _);
    [apply e0_inv|constructor; [by right|constructor]|].
  exists e', acts. split; [exact E|].
  exact (sync_response_settles_requests e0 peer_a reply e' acts E).
Defined.

Lemma disconnect_forgets_peer_witness :
  ∃ e' acts, step e0 (PeerDisconnected peer_a) = Ret (e', acts) ∧
    peers e' = delete peer_a (peers e0).
Proof.
  destruct (step_spec known None e0 (PeerDisconnected peer_a) e0_inv I) as (e' & acts & E & _).
  exists e', acts. split; [exact E|].
  exact (proj1 (disconnect_forgets_peer e0 peer_a e' acts E)).
Defined.

Definition connected_engine : NodeEngine :=
  set_peers e0 (<[peer_a := mkPeerState true 0]> {[ peer_b := mkPeerState true 0 ]}).
Definition gossip : Transaction := toy_tx x05 (Stake 3) 0 2.

Lemma relay_reaches_other_peers_witness :
  ∃ acts frame, relay_transaction connected_engine peer_a gossip = Ret acts ∧
    SendFrame peer_b frame ∈ acts.
Proof.
  destruct (relay_transaction connected_engine peer_a gossip) as [acts| |] eqn:E; [|discriminate E..].
  destruct (relay_reaches_other_peers connected_engine peer_a gossip acts E) as (f & _ & _ & Hin).
  exists acts, f. split; [reflexivity|]. apply Hin. exists peer_b, (mkPeerState true 0).
  split_and!; [reflexivity|vm_compute; reflexivity|reflexivity|by vm_compute].
Defined.

(** A node that restarts from [first_block]. *)
Definition restored (b : Block) : Prop := b = first_block.

#[export] Instance restored_delivered :
  Delivered restored (Some (hash genesis, 1)).
Proof.
  split.
  - intros b ->. apply known_sane. by right.
  - by intros b1 b2 -> ->.
  - intros b h z -> E Eh. injection E as <- <-. exfalso. by apply known_hashes.
Qed.

Lemma fits_new : state_fits State_new.
Proof. split; [by vm_compute..|apply map_Forall_empty]. Qed.

Lemma restart_restores_head_witness :
  ∃ e' acts, restore_latest_snapshot e0 (Some first_block) (Some (to_bytes State_new)) = Ret (e', acts) ∧
    get_latest_block (blockchain e') = Ret first_block ∧ head_hash (blockchain e') = hash first_block ∧
    bc_state (blockchain e') = State_new ∧ engine_inv restored (Some (hash genesis, 1)) e'.
Proof.
  apply (restart_restores_head restored (Some (hash genesis, 1)));
    [by vm_compute|apply sound_new|apply fits_new|reflexivity|vm_compute; reflexivity
    |apply map_Forall_empty|by right].
Defined.

Lemma restore_checks_state_root_witness :
  restore_latest_snapshot e0 (Some first_block) None = Ret (e0, [ReportEvent "no snapshot restored"]) ∧
  (e0 = e0 ∨
   ∃ block state_bytes st, Some first_block = Some block ∧ None = Some state_bytes ∧
     from_bytes state_bytes = Ret (Ok st) ∧ block_state_root block = compute_state_root st ∧
     e0 = set_blockchain e0 (restore_head (blockchain e0) block st)).
Proof.
  split; [reflexivity|].
  apply (restore_checks_state_root e0 (Some first_block) None e0 [ReportEvent "no snapshot restored"]).
  reflexivity.
Defined.
End EngineRuns.
