(* ===== verification/Errors.v ===== *)
(** * Errors of the two runtimes

    Models rp-runtime/src/runtime/errors.rs (the host runtime) and
    erp-runtime/src/runtime/errors.rs (the embedded runtime), and what the sources use
    of [std::io::Error]. *)

From S2P Require Import Prelude.
From S2P Require Import Crypto.
From S2P Require Import Models.
From S2P Require Import Chain.

(** ** std::io::Error: a kind and a message *)

Inductive ErrorKind : Type :=
| InvalidData
| InvalidInput
| UnexpectedEof
| WriteZero
| WouldBlock
| TimedOut
| ConnectionReset
| Other.

#[global] Instance ErrorKind_eq_dec : EqDecision ErrorKind.
Proof. solve_decision. Defined.

Record io_error : Type := mk_io_error {
  io_kind : ErrorKind;
  io_message : string;
}.

#[global] Instance io_error_eq_dec : EqDecision io_error.
Proof. solve_decision. Defined.

Abbreviation io_result A := (result A io_error).

Inductive ChannelKind : Type := ChEvent | ChNetwork | ChStorage | ChWake.

#[global] Instance ChannelKind_eq_dec : EqDecision ChannelKind.
Proof. solve_decision. Defined.

(** ** The host runtime *)

Module Host.
Inductive ChannelErrorKind : Type :=
| ErrRuntimeEvent | ErrNetworkCommand | ErrStorageCommand | ErrWakeCommand.

Inductive RuntimeError : Type :=
| Node (e : NodeError)
| Contract (e : ContractError)
| ErrCrypto (message : string)
| Config (message : string)
| ChannelSend (channel : ChannelKind) (kind : ChannelErrorKind)
| NetworkError (e : io_error).

Definition event_send : RuntimeError := ChannelSend ChEvent ErrRuntimeEvent.
Definition network_send : RuntimeError := ChannelSend ChNetwork ErrNetworkCommand.
Definition storage_send : RuntimeError := ChannelSend ChStorage ErrStorageCommand.
Definition wake_send : RuntimeError := ChannelSend ChWake ErrWakeCommand.
Definition io_other (message : string) : RuntimeError := NetworkError (mk_io_error Other message).
End Host.

(** ** The embedded runtime *)

Module Erp.
(** [futures::channel::mpsc::SendError]: the receiver is gone, or the queue is full. *)
Inductive SendError : Type := Disconnected | Full.

Inductive RuntimeError : Type :=
| Node (e : NodeError)
| Contract (e : ContractError)
| ErrCrypto (message : string)
| Config (message : string)
| Esp (code : Z)
| StorageInit (code : Z)
| ChannelSend (channel : ChannelKind) (source : SendError)
| NetworkError (e : io_error).

Definition event_send (source : SendError) : RuntimeError := ChannelSend ChEvent source.
Definition network_send (source : SendError) : RuntimeError := ChannelSend ChNetwork source.
Definition storage_send (source : SendError) : RuntimeError := ChannelSend ChStorage source.
Definition wake_send (source : SendError) : RuntimeError := ChannelSend ChWake source.
End Erp.
