(* ===== verification/Framing.v ===== *)
(** * Frames on a byte stream

    Models the crate rp-codec (length_prefixed.rs, postcard.rs), the wrappers of it in
    erp-runtime/src/network/codec and rp-runtime/src/network/codec, and the codecs of
    the announce and sync protocols.  A frame is the length of the payload as an
    unsigned varint, then the payload.  The varint codec is the crate
    [unsigned_varint], which is not part of the repository: it is the class
    [UnsignedVarint], and [Leb128] is an instance that satisfies its laws. *)

From S2P Require Import Prelude.
From S2P Require Import Crypto.
From S2P Require Import Models.
From S2P Require Import Messages.
From S2P Require Import Errors.

Definition is_u32 (z : Z) : Prop := 0 ≤ z < 2 ^ 32.

(** The continuation bit of a varint byte: [b & 0x80 != 0]. *)
Definition continues (b : byte) : bool := bool_decide (Z.land (byte_to_Z b) 128 ≠ 0).

(** A varint of a [u32]: at most five bytes, all but the last with the bit set. *)
Definition is_varint (p : bytes) : Prop :=
  ∃ init b, p = init ++ [b] ∧ Forall (λ c, continues c = true) init ∧ continues b = false ∧
            (length p ≤ 5)%nat.

Class UnsignedVarint : Type := {
  VarintError : Type;
  varint_error_display : VarintError → string;
  (** [unsigned_varint::encode::u32] and [unsigned_varint::decode::u32] *)
  varint_encode : Z → bytes;
  varint_decode : bytes → result (Z * bytes) VarintError;
}.

(** The documented format: a decoder reads exactly one varint and returns the rest of
    the input, whatever that rest is, and it inverts the encoder. *)
Class VarintLaws `{UnsignedVarint} : Prop := {
  is_varint_encode n : is_u32 n → is_varint (varint_encode n);
  varint_decode_encode n : is_u32 n → varint_decode (varint_encode n) = Ok (n, []);
  varint_decode_Ok bs n rest :
    varint_decode bs = Ok (n, rest) → is_u32 n ∧ ∃ p, bs = p ++ rest ∧ is_varint p;
  varint_decode_more bs n rest more :
    varint_decode bs = Ok (n, rest) → varint_decode (bs ++ more) = Ok (n, rest ++ more);
}.

(** ** Streams

    What a reader sees of an [AsyncRead]: the bytes that will arrive, and the error a
    read past them gets ([UnexpectedEof] when the peer closed the stream). *)

Record Stream : Type := mkStream {
  available : bytes;
  at_end : io_error;
}.

Definition eof : io_error := mk_io_error UnexpectedEof "unexpected end of file".

(** [read_exact] of [n] bytes *)
Definition read_exact (n : nat) (s : Stream) : io_result (bytes * Stream) :=
  if bool_decide (n ≤ length (available s))%nat
  then Ok (take n (available s), mkStream (drop n (available s)) (at_end s))
  else Err (at_end s).

Section framing.
Context `{UnsignedVarint}.

(** ** length_prefixed.rs *)

(** [payload.len() as u32] loses nothing after the check, since [max_len] is a [u32]. *)
Definition encode_length_prefixed (payload : bytes) (max_len : Z) : io_result bytes :=
  if bool_decide (max_len < Z.of_nat (length payload))
  then Err (mk_io_error InvalidData "payload exceeds configured frame length limit")
  else
    let prefix := varint_encode (Z.of_nat (length payload) mod 2 ^ 32) in
    Ok (prefix ++ payload).

(** Returns the length of the header and the payload.  (The sums of lengths do not
    overflow a [usize]: each is at most [max_len] plus five, and the limits the
    repository configures are far below [u32::MAX].) *)
Definition decode_length_prefix (input : bytes) (max_len : Z) : io_result (nat * bytes) :=
  match varint_decode input with
  | Err error => Err (mk_io_error InvalidData ("invalid length prefix: " +:+ varint_error_display error))
  | Ok (payload_len, remaining) =>
      if bool_decide (max_len < payload_len)
      then Err (mk_io_error InvalidData "length prefix exceeds configured frame length limit")
      else
        let header_len := (length input - length remaining)%nat in
        let total_len := (header_len + Z.to_nat payload_len)%nat in
        if bool_decide (length input < total_len)%nat
        then Err (mk_io_error UnexpectedEof "frame body shorter than advertised length")
        else Ok (header_len, take (total_len - header_len) (drop header_len input))
  end.

Definition decode_length_prefixed_payload_len (prefix : bytes) (max_len : Z) : io_result nat :=
  match varint_decode prefix with
  | Err error =>
      Err (mk_io_error InvalidData ("invalid frame length prefix: " +:+ varint_error_display error))
  | Ok (payload_len, _) =>
      if bool_decide (max_len < payload_len)
      then Err (mk_io_error InvalidData "frame length exceeds configured maximum")
      else Ok (Z.to_nat payload_len)
  end.

(** The loop of [read_length_prefixed_frame]: [room] is what is left of the five bytes
    of [prefix], so the recursion ends where the source checks [prefix_len]. *)
Fixpoint read_frame_loop (room : nat) (prefix : bytes) (s : Stream) (max_len : Z) :
    io_result (bytes * Stream) :=
  match room with
  | O => Err (mk_io_error InvalidData "frame length prefix exceeds u32 varint width")
  | S room =>
      let! r := read_exact 1 s in
      let '(b, s) := r in
      let prefix := prefix ++ b in
      if negb (continues (default x00 (last prefix)))
      then
        let! payload_len := decode_length_prefixed_payload_len prefix max_len in
        let! r := read_exact payload_len s in
        let '(payload, s) := r in
        Ok (prefix ++ payload, s)
      else read_frame_loop room prefix s max_len
  end.

Definition read_length_prefixed_frame (s : Stream) (max_len : Z) : io_result (bytes * Stream) :=
  read_frame_loop 5 [] s max_len.

(** ** postcard.rs *)

Definition encode_postcard `{Postcard A} (value : A) : io_result bytes :=
  match to_allocvec value with
  | Some b => Ok b
  | None => Err (mk_io_error InvalidData "failed to encode postcard payload")
  end.

Definition decode_postcard `{Postcard A} (b : bytes) : io_result A :=
  match postcard_from_bytes b with
  | Some a => Ok a
  | None => Err (mk_io_error InvalidData "failed to decode postcard payload")
  end.

Definition read_postcard_frame `{Postcard A} (s : Stream) (max_len : Z) : io_result (A * Stream) :=
  let! r := read_length_prefixed_frame s max_len in
  let '(frame, s) := r in
  let! r := decode_length_prefix frame max_len in
  let '(_, payload) := r in
  let! a := decode_postcard payload in
  Ok (a, s).

(** [write_postcard_frame] of the host runtime: what it writes to the stream (the
    errors of the stream itself are not modelled). *)
Definition write_postcard_frame `{Postcard A} (value : A) (max_len : Z) : io_result bytes :=
  let! payload := encode_postcard value in
  encode_length_prefixed payload max_len.

(** ** Wrappers of the embedded runtime (codec/postcard_codec.rs, length_prefixed.rs,
    framed.rs) *)

Definition PostcardCodec_encode `{Postcard A} (item : A) : result bytes Erp.RuntimeError :=
  map_err (λ _, Erp.ErrCrypto "failed to serialize postcard payload") (encode_postcard item).

Definition PostcardCodec_decode `{Postcard A} (b : bytes) : result A Erp.RuntimeError :=
  map_err (λ _, Erp.ErrCrypto "failed to deserialize postcard payload") (decode_postcard b).

Definition erp_encode_length_prefixed (payload : bytes) (max_len : Z) :
    result bytes Erp.RuntimeError :=
  map_err Erp.NetworkError (encode_length_prefixed payload max_len).

Definition erp_decode_length_prefix (input : bytes) (max_len : Z) :
    result (nat * bytes) Erp.RuntimeError :=
  map_err Erp.NetworkError (decode_length_prefix input max_len).

Definition erp_write_postcard_frame `{Postcard A} (value : A) (max_len : Z) :
    result bytes Erp.RuntimeError :=
  let! payload := PostcardCodec_encode value in
  erp_encode_length_prefixed payload max_len.

Definition erp_read_postcard_frame `{Postcard A} (s : Stream) (max_len : Z) :
    result (A * Stream) Erp.RuntimeError :=
  map_err Erp.NetworkError (read_postcard_frame s max_len).

Definition erp_read_length_prefixed_frame (s : Stream) (max_len : Z) :
    result (bytes * Stream) Erp.RuntimeError :=
  map_err Erp.NetworkError (read_length_prefixed_frame s max_len).

(** ** protocol/announce.rs and protocol/sync.rs: one shape at four types *)

Definition encode_protocol_message `{Postcard A} (m : A) (max_len : Z) :
    result bytes Erp.RuntimeError :=
  let! payload := PostcardCodec_encode m in
  erp_encode_length_prefixed payload max_len.

Definition decode_protocol_message `{Postcard A} (frame : bytes) (max_len : Z) :
    result A Erp.RuntimeError :=
  let! r := erp_decode_length_prefix frame max_len in
  let '(_, payload) := r in
  PostcardCodec_decode payload.
End framing.

Section protocols.
Context `{UnsignedVarint, Crypto}.

Definition encode_announce_request `{!Postcard AnnounceRequest} (req : AnnounceRequest) :=
  encode_protocol_message req.
Definition decode_announce_request `{!Postcard AnnounceRequest} :=
  decode_protocol_message (A:=AnnounceRequest).
Definition encode_announce_response `{!Postcard AnnounceResponse} (resp : AnnounceResponse) :=
  encode_protocol_message resp.
Definition decode_announce_response `{!Postcard AnnounceResponse} :=
  decode_protocol_message (A:=AnnounceResponse).
Definition encode_sync_request `{!Postcard SyncRequest} (req : SyncRequest) :=
  encode_protocol_message req.
Definition decode_sync_request `{!Postcard SyncRequest} :=
  decode_protocol_message (A:=SyncRequest).
Definition encode_sync_response `{!Postcard SyncResponse} (resp : SyncResponse) :=
  encode_protocol_message resp.
Definition decode_sync_response `{!Postcard SyncResponse} :=
  decode_protocol_message (A:=SyncResponse).
End protocols.

(** ** Reading and writing frames *)

Lemma read_exact_Ok n s b s' :
  read_exact n s = Ok (b, s') ↔
  available s = b ++ available s' ∧ length b = n ∧ at_end s' = at_end s.
Proof.
  destruct s as [a e], s' as [a' e']. unfold read_exact. simpl. case_bool_decide; split.
  - intros [= <- <- <-]. by rewrite take_drop, length_take_le.
  - intros (-> & <- & ->). by rewrite take_app_length, drop_app_length.
  - done.
  - intros (-> & <- & ->). rewrite length_app in *. lia.
Qed.

Lemma read_exact_app n a rest e :
  length a = n → read_exact n (mkStream (a ++ rest) e) = Ok (a, mkStream rest e).
Proof. intros. by apply read_exact_Ok. Qed.

Lemma read_exact_one c a e : read_exact 1 (mkStream (c :: a) e) = Ok ([c], mkStream a e).
Proof. by apply (read_exact_app 1 [c]). Qed.

Lemma read_exact_short n s : (length (available s) < n)%nat → read_exact n s = Err (at_end s).
Proof. intros. unfold read_exact. by rewrite bool_decide_false by lia. Qed.

Section read_frame.
Context `{UnsignedVarint}.

(** The loop on a stream that starts with a varint. *)
Lemma read_frame_loop_varint init b tail e prefix room max_len :
  Forall (λ c, continues c = true) init → continues b = false → (length init < room)%nat →
  read_frame_loop room prefix (mkStream (init ++ b :: tail) e) max_len =
  (let! n := decode_length_prefixed_payload_len (prefix ++ init ++ [b]) max_len in
   let! r := read_exact n (mkStream tail e) in
   let '(payload, s) := r in
   Ok ((prefix ++ init ++ [b]) ++ payload, s)).
Proof.
  revert prefix room. induction init as [|c init IH]; intros prefix room Hc Hb Hr;
    (destruct room as [|room]; [simpl in Hr; lia|]); cbn [read_frame_loop app].
  - rewrite read_exact_one. cbn [try_]. rewrite last_snoc. simpl. by rewrite Hb.
  - apply Forall_cons in Hc as [Hc Hi]. rewrite read_exact_one. cbn [try_].
    rewrite last_snoc. simpl. rewrite Hc. simpl. rewrite IH; [|done..|simpl in Hr; lia].
    by rewrite <-app_assoc.
Qed.

Lemma read_frame_loop_short init e prefix room max_len :
  Forall (λ c, continues c = true) init → (length init < room)%nat →
  read_frame_loop room prefix (mkStream init e) max_len = Err e.
Proof.
  revert prefix room. induction init as [|c init IH]; intros prefix room Hc Hr;
    (destruct room as [|room]; [simpl in Hr; lia|]); cbn [read_frame_loop].
  - by rewrite read_exact_short by (simpl; lia).
  - apply Forall_cons in Hc as [Hc Hi]. rewrite read_exact_one. cbn [try_].
    rewrite last_snoc. simpl. rewrite Hc. apply IH; [done|simpl in Hr; lia].
Qed.

(** A stream starts with a varint, or ends within the prefix, or has more continuation
    bytes than a [u32] needs. *)
Lemma stream_prefix_cases (room : nat) (a : bytes) :
  (∃ init b tail, a = init ++ b :: tail ∧ Forall (λ c, continues c = true) init ∧
                  continues b = false ∧ (length init < room)%nat) ∨
  (Forall (λ c, continues c = true) a ∧ (length a < room)%nat) ∨
  (Forall (λ c, continues c = true) (take room a) ∧ (room ≤ length a)%nat).
Proof.
  revert room. induction a as [|c a IH]; intros [|room]; simpl.
  - right; right. split; [constructor|lia].
  - right; left. split; [constructor|lia].
  - right; right. split; [constructor|lia].
  - destruct (continues c) eqn:Hc.
    + destruct (IH room) as [(init & b & tail & -> & ? & ? & ?)|[[??]|[??]]].
      * left. exists (c :: init), b, tail. split_and!; simpl; auto with lia.
      * right; left. split; [by constructor|lia].
      * right; right. split; [by constructor|lia].
    + left. exists [], c, a. split_and!; simpl; auto with lia.
Qed.

Lemma read_frame_loop_overlong prefix room s max_len :
  Forall (λ c, continues c = true) (take room (available s)) → (room ≤ length (available s))%nat →
  read_frame_loop room prefix s max_len =
  Err (mk_io_error InvalidData "frame length prefix exceeds u32 varint width").
Proof.
  destruct s as [a e]. simpl. revert prefix a. induction room as [|room IH]; intros prefix a Hc Hl; [done|].
  destruct a as [|c a]; [simpl in Hl; lia|]. cbn [read_frame_loop].
  rewrite read_exact_one. cbn [try_]. apply Forall_cons in Hc as [Hc Hi].
  rewrite last_snoc. simpl. rewrite Hc. apply IH; [done|simpl in Hl; lia].
Qed.

Lemma decode_payload_len_Ok prefix max_len n :
  decode_length_prefixed_payload_len prefix max_len = Ok n ↔
  ∃ z rest, varint_decode prefix = Ok (z, rest) ∧ z ≤ max_len ∧ n = Z.to_nat z.
Proof.
  unfold decode_length_prefixed_payload_len. destruct (varint_decode prefix) as [[z rest]|].
  - case_bool_decide; naive_solver lia.
  - naive_solver.
Qed.

Context `{!VarintLaws}.

(** The only varint that is a prefix of a varint is the whole of it. *)
Lemma is_varint_prefix p q : is_varint p → is_varint (p ++ q) → q = [].
Proof.
  intros (i1 & b1 & -> & H1 & Hb1 & _) (i2 & b2 & E & H2 & _).
  destruct q as [|x q _] using rev_ind; [done|].
  rewrite app_assoc in E. apply app_inj_2 in E as [E _]; [|done]. subst i2.
  rewrite !Forall_app, Forall_singleton in H2. destruct_and!. congruence.
Qed.

Lemma varint_decode_whole p n rest :
  is_varint p → varint_decode p = Ok (n, rest) → is_u32 n ∧ rest = [].
Proof.
  intros Hp Hd. apply varint_decode_Ok in Hd as (Hn & q & -> & Hq). split; [done|].
  by apply (is_varint_prefix q).
Qed.

Lemma decode_length_prefix_frame p payload max_len :
  is_varint p → varint_decode p = Ok (Z.of_nat (length payload), []) →
  Z.of_nat (length payload) ≤ max_len →
  decode_length_prefix (p ++ payload) max_len = Ok (length p, payload).
Proof.
  intros Hp Hd Hl. unfold decode_length_prefix.
  rewrite (varint_decode_more _ _ _ payload Hd), app_nil_l, bool_decide_false by lia.
  rewrite Nat2Z.id, length_app. replace (length p + length payload - length payload)%nat
    with (length p) by lia.
  rewrite bool_decide_false by lia. rewrite drop_app_length, take_ge by lia. done.
Qed.

Lemma encode_length_prefixed_Ok payload max_len f :
  max_len < 2 ^ 32 →
  encode_length_prefixed payload max_len = Ok f ↔
  Z.of_nat (length payload) ≤ max_len ∧ f = varint_encode (Z.of_nat (length payload)) ++ payload.
Proof.
  intros Hm. unfold encode_length_prefixed. case_bool_decide; [naive_solver lia|].
  rewrite Z.mod_small by lia. naive_solver lia.
Qed.

Lemma is_u32_length (payload : bytes) max_len :
  max_len < 2 ^ 32 → Z.of_nat (length payload) ≤ max_len → is_u32 (Z.of_nat (length payload)).
Proof. unfold is_u32. lia. Qed.

Lemma read_frame_header n tail e max_len :
  is_u32 n →
  read_length_prefixed_frame (mkStream (varint_encode n ++ tail) e) max_len =
  if bool_decide (max_len < n)
  then Err (mk_io_error InvalidData "frame length exceeds configured maximum")
  else let! r := read_exact (Z.to_nat n) (mkStream tail e) in
       let '(payload, s) := r in Ok (varint_encode n ++ payload, s).
Proof.
  intros Hu. pose proof (varint_decode_encode _ Hu) as Hd. unfold read_length_prefixed_frame.
  destruct (is_varint_encode _ Hu) as (init & b & E & Hi & Hb & H5). rewrite E in *.
  rewrite length_app in H5. simpl in H5. rewrite <-app_assoc. cbn [app].
  rewrite read_frame_loop_varint by (done || lia). cbn [app].
  unfold decode_length_prefixed_payload_len. rewrite Hd. by case_bool_decide.
Qed.

Lemma read_frame_cut_header n sent lost e max_len :
  is_u32 n → varint_encode n = sent ++ lost → lost ≠ [] →
  read_length_prefixed_frame (mkStream sent e) max_len = Err e.
Proof.
  intros Hu Hs Hne. destruct (is_varint_encode _ Hu) as (init & b & E & Hi & Hb & H5).
  destruct lost as [|x lost _] using rev_ind; [done|]. rewrite E, app_assoc in Hs.
  apply app_inj_2 in Hs as [-> _]; [|done]. apply Forall_app in Hi as [Hi _].
  apply read_frame_loop_short; [done|].
  rewrite E, !length_app in H5. simpl in H5. lia.
Qed.

Lemma read_encoded_frame payload max_len f rest e :
  max_len < 2 ^ 32 → encode_length_prefixed payload max_len = Ok f →
  read_length_prefixed_frame (mkStream (f ++ rest) e) max_len = Ok (f, mkStream rest e) ∧
  decode_length_prefix f max_len = Ok (length (varint_encode (Z.of_nat (length payload))), payload).
Proof.
  intros Hm (Hl & ->)%encode_length_prefixed_Ok; [|done].
  pose proof (is_u32_length _ _ Hm Hl) as Hu.
  split; [|apply decode_length_prefix_frame; auto using is_varint_encode, varint_decode_encode].
  rewrite <-app_assoc, read_frame_header, bool_decide_false, Nat2Z.id by (done || lia).
  by rewrite read_exact_app.
Qed.

(** ** Theorems *)

(** A postcard value decodes to itself. *)
Class PostcardRoundtrip (A : Type) `{Postcard A} : Prop :=
  postcard_from_to (a : A) (b : bytes) : to_allocvec a = Some b → postcard_from_bytes b = Some a.

(** Reads as many values as the list is long. *)
Fixpoint read_values `{Postcard A} (n : nat) (s : Stream) (max_len : Z) : io_result (list A * Stream) :=
  match n with
  | O => Ok ([], s)
  | S n =>
      let! r := read_postcard_frame s max_len in
      let '(a, s) := r in
      let! r := read_values n s max_len in
      let '(l, s) := r in
      Ok (a :: l, s)
  end.

(** values that are written one after the other on a stream are read back one after
    the other, each from exactly its own bytes: the reader gets the values in order and
    stops at the first byte that follows them, whatever that is. *)
Theorem postcard_stream_roundtrip {A} `{Postcard A, !PostcardRoundtrip A} (values : list A) frames rest e max_len :
  max_len < 2 ^ 32 → Forall2 (λ a f, write_postcard_frame a max_len = Ok f) values frames →
  read_values (length values) (mkStream (concat frames ++ rest) e) max_len =
  Ok (values, mkStream rest e).
Proof.
  intros Hm Hv. induction Hv as [|a f values frames Hf _ IH]; [done|].
  unfold write_postcard_frame in Hf. apply try_Ok in Hf as (payload & Hp & Hf).
  cbn [read_values length concat]. unfold read_postcard_frame. rewrite <-app_assoc.
  destruct (read_encoded_frame payload max_len f (concat frames ++ rest) e Hm Hf) as [Hr Hd].
  rewrite Hr. cbn [try_]. rewrite Hd. cbn [try_]. unfold encode_postcard in Hp. destruct (to_allocvec a) as [b|] eqn:Ha; simplify_eq.
  unfold decode_postcard. rewrite (postcard_from_to _ _ Ha). cbn [try_]. by rewrite IH.
Qed.

(** One frame off the stream. *)
Lemma read_frame_facts s max_len frame s' :
  read_length_prefixed_frame s max_len = Ok (frame, s') →
  available s = frame ++ available s' ∧ at_end s' = at_end s ∧
  ∃ header payload, frame = header ++ payload ∧ is_varint header ∧
    Z.of_nat (length payload) ≤ max_len ∧
    decode_length_prefix frame max_len = Ok (length header, payload).
Proof.
  unfold read_length_prefixed_frame. destruct s as [a e]. intros Hr.
  destruct (stream_prefix_cases 5 a) as [(init & b & tail & -> & Hi & Hb & Hl)|[[Hi Hl]|[Hi Hl]]].
  - rewrite read_frame_loop_varint in Hr by done. simpl in Hr. outcome_inv.
    match goal with Hd : decode_length_prefixed_payload_len _ _ = _ |- _ =>
      apply decode_payload_len_Ok in Hd as (z & rest & Hdec & Hz & ->) end.
    match goal with Hx : read_exact _ _ = _ |- _ => apply read_exact_Ok in Hx as (Ht & Hn & He) end.
    assert (is_varint (init ++ [b])) as Hv by (exists init, b; rewrite length_app; simpl; auto with lia).
    destruct (varint_decode_whole _ _ _ Hv Hdec) as [Hu ->]. simpl in *. subst tail.
    split_and!; [by rewrite <-!app_assoc|done|]. exists (init ++ [b]), l.
    assert (Z.of_nat (length l) = z) as <- by (unfold is_u32 in Hu; lia).
    split_and!; [done..|]. by apply decode_length_prefix_frame.
  - by rewrite read_frame_loop_short in Hr.
  - rewrite read_frame_loop_overlong in Hr; done.
Qed.

(** whatever bytes a peer sends, reading a frame either fails or takes exactly the
    bytes of one frame off the stream: a header of at most five bytes and a payload
    within the configured limit, which is what [decode_length_prefix] then returns. *)
Theorem read_frame_takes_one_frame s max_len frame s' :
  read_length_prefixed_frame s max_len = Ok (frame, s') →
  available s = frame ++ available s' ∧ at_end s' = at_end s ∧
  ∃ header payload, frame = header ++ payload ∧ is_varint header ∧
    Z.of_nat (length payload) ≤ max_len ∧
    decode_length_prefix frame max_len = Ok (length header, payload).
Proof. apply read_frame_facts. Qed.

(** what is refused: a payload above the limit is not sent; an announced length
    above the limit is rejected before any of the body is read; and a frame that is cut
    short, in its header or in its body, yields the error of the stream. *)
Theorem bad_frames_rejected max_len :
  0 ≤ max_len < 2 ^ 32 →
  (∀ payload, max_len < Z.of_nat (length payload) →
     encode_length_prefixed payload max_len =
     Err (mk_io_error InvalidData "payload exceeds configured frame length limit")) ∧
  (∀ n body e, is_u32 n → max_len < n →
     read_length_prefixed_frame (mkStream (varint_encode n ++ body) e) max_len =
     Err (mk_io_error InvalidData "frame length exceeds configured maximum")) ∧
  (∀ payload f sent lost e, encode_length_prefixed payload max_len = Ok f →
     f = sent ++ lost → lost ≠ [] →
     read_length_prefixed_frame (mkStream sent e) max_len = Err e).
Proof.
  intros Hm. split_and!.
  - intros payload Hp. unfold encode_length_prefixed. by rewrite bool_decide_true.
  - intros n body e Hn Hlt. by rewrite read_frame_header, bool_decide_true.
  - intros payload f sent lost e (Hl & ->)%encode_length_prefixed_Ok Hf Hne; [|lia].
    pose proof (is_u32_length payload max_len ltac:(lia) Hl) as Hu.
    apply app_eq_inv in Hf as [(k & Hk & ->)|(k & -> & Hk)].
    + destruct k as [|x k]; [|by eapply (read_frame_cut_header _ sent (x :: k))].
      rewrite app_nil_r in Hk. rewrite <-Hk, <-(app_nil_r (varint_encode _)).
      rewrite read_frame_header, bool_decide_false by (done || lia).
      rewrite read_exact_short; [done|]. destruct payload; [done|simpl; lia].
    + rewrite read_frame_header, bool_decide_false by (done || lia).
      rewrite read_exact_short; [done|]. simpl. rewrite Nat2Z.id, Hk, length_app.
      destruct lost; [done|simpl; lia].
Qed.
End read_frame.

(** ** A computable instance: LEB128 *)

Module Leb128.
Fixpoint encode (room : nat) (n : Z) : bytes :=
  match room with
  | O => []
  | S room =>
      if bool_decide (n < 128) then [byte_of_Z n]
      else byte_of_Z (n mod 128 + 128) :: encode room (n / 128)
  end.

Fixpoint decode (room : nat) (bs : bytes) : result (Z * bytes) string :=
  match room, bs with
  | O, _ => Err "overflow"
  | _, [] => Err "insufficient"
  | S room, b :: bs =>
      if continues b
      then let! r := decode room bs in Ok (byte_to_Z b - 128 + 128 * r.1, r.2)
      else Ok (byte_to_Z b, bs)
  end.

#[export] Instance leb128 : UnsignedVarint := {
  VarintError := string;
  varint_error_display := id;
  varint_encode := encode 5;
  varint_decode bs := let! r := decode 5 bs in Ok (r.1 mod 2 ^ 32, r.2);
}.

Lemma continues_spec b : continues b = bool_decide (128 ≤ byte_to_Z b).
Proof. by destruct b. Qed.

Lemma continues_low z : 0 ≤ z < 128 → continues (byte_of_Z z) = false.
Proof. intros. rewrite continues_spec, byte_to_of_Z, Z.mod_small by lia. apply bool_decide_false. lia. Qed.

Lemma continues_high z : 0 ≤ z < 128 → continues (byte_of_Z (z + 128)) = true.
Proof. intros. rewrite continues_spec, byte_to_of_Z, Z.mod_small by lia. apply bool_decide_true. lia. Qed.

Lemma encode_shape room n :
  0 ≤ n < 128 ^ Z.of_nat room → (0 < room)%nat →
  (∃ init b, encode room n = init ++ [b] ∧ Forall (λ c, continues c = true) init ∧
             continues b = false ∧ (length (encode room n) ≤ room)%nat) ∧
  decode room (encode room n) = Ok (n, []).
Proof.
  revert n. induction room as [|room IH]; intros n Hn Hr; [lia|]. cbn [encode].
  case_bool_decide as Hs.
  - split; [exists [], (byte_of_Z n); split_and!; simpl; auto using continues_low with lia|].
    cbn [decode]. rewrite continues_low, byte_to_of_Z, Z.mod_small by lia. done.
  - pose proof (Z.mod_pos_bound n 128 ltac:(lia)).
    rewrite Nat2Z.inj_succ, Z.pow_succ_r in Hn by lia.
    assert (0 ≤ n / 128 < 128 ^ Z.of_nat room) as Hq.
    { split; [apply Z.div_pos; lia|apply Z.div_lt_upper_bound; lia]. }
    destruct room as [|room]; [change (128 ^ Z.of_nat 0) with 1 in *; lia|].
    destruct (IH _ Hq ltac:(lia)) as [(init & b & E & Hi & Hb & Hl) Hd].
    split.
    + exists (byte_of_Z (n mod 128 + 128) :: init), b. rewrite E. split_and!; [done| |done|].
      * constructor; [by apply continues_high|done].
      * rewrite E in Hl. simpl in *. lia.
    + cbn [decode]. rewrite continues_high by done. cbn [encode decode] in Hd |- *.
      rewrite Hd. cbn [try_ fst snd]. rewrite byte_to_of_Z, (Z.mod_small (_ + _)) by lia.
      do 2 f_equal. pose proof (Z_div_mod_eq_full n 128). lia.
Qed.

Lemma decode_Ok room bs n rest :
  decode room bs = Ok (n, rest) →
  0 ≤ n ∧ ∃ init b, bs = (init ++ [b]) ++ rest ∧ Forall (λ c, continues c = true) init ∧
    continues b = false ∧ (length (init ++ [b]) ≤ room)%nat.
Proof.
  revert bs n rest. induction room as [|room IH]; intros [|b bs] n rest; cbn [decode]; try done.
  pose proof (byte_to_Z_bound b). pose proof (continues_spec b) as Hc.
  destruct (continues b) eqn:Hb.
  - intros ([m r] & Hd & [= <- <-])%try_Ok. symmetry in Hc. apply bool_decide_eq_true in Hc.
    destruct (IH _ _ _ Hd) as (? & init & b' & -> & ? & ? & ?). simpl. split; [lia|].
    exists (b :: init), b'. split_and!; [done|by constructor|done|simpl; lia].
  - intros [= <- <-]. split; [lia|]. exists [], b. split_and!; simpl; auto with lia.
Qed.

Lemma decode_more room bs n rest more :
  decode room bs = Ok (n, rest) → decode room (bs ++ more) = Ok (n, rest ++ more).
Proof.
  revert bs n rest. induction room as [|room IH]; intros [|b bs] n rest; cbn [decode app]; try done.
  destruct (continues b); [|naive_solver].
  intros ([m r] & Hd & [= <- <-])%try_Ok. by rewrite (IH _ _ _ Hd).
Qed.

#[export] Instance leb128_laws : VarintLaws.
Proof.
  split.
  - intros n Hn. destruct (encode_shape 5 n) as [(init & b & ?) _]; [unfold is_u32 in *; lia|lia|].
    exists init, b. done.
  - intros n Hn. cbn [varint_decode varint_encode leb128]. destruct (encode_shape 5 n) as [_ ->]; [unfold is_u32 in *; lia|lia|].
    cbn [try_ fst snd]. by rewrite Z.mod_small.
  - intros bs n rest ([m r] & Hd & [= <- <-])%try_Ok.
    apply decode_Ok in Hd as (? & init & b & ? & ? & ? & ?). split; [apply Z.mod_pos_bound; lia|].
    exists (init ++ [b]). split; [done|]. by exists init, b.
  - intros bs n rest more ([m r] & Hd & [= <- <-])%try_Ok. cbn [varint_decode leb128].
    by rewrite (decode_more _ _ _ _ _ Hd).
Qed.
End Leb128.

(** ** Witnesses *)

Module FramingWitness.
Import Leb128.

(** Byte strings as payloads. *)
#[local] Instance raw_postcard : Postcard bytes := { to_allocvec := Some; postcard_from_bytes := Some }.
#[local] Instance raw_roundtrip : PostcardRoundtrip bytes.
Proof. by intros a b [= ->]. Qed.

Definition long_payload : bytes := replicate 300 x2a.

Lemma postcard_stream_roundtrip_witness :
  read_values 2 (mkStream (concat [[x02; x01; x02]; xac :: x02 :: long_payload] ++ [xff]) eof) 65536 =
  Ok ([[x01; x02]; long_payload], mkStream [xff] eof).
Proof.
  apply (postcard_stream_roundtrip [[x01; x02]; long_payload]
    [[x02; x01; x02]; xac :: x02 :: long_payload]); [lia|].
  repeat constructor; vm_compute; reflexivity.
Defined.

Lemma read_frame_takes_one_frame_witness :
  ∃ header payload, [x02; x01; x02] = header ++ payload ∧
    decode_length_prefix [x02; x01; x02] 65536 = Ok (length header, payload).
Proof.
  destruct (read_frame_takes_one_frame (mkStream [x02; x01; x02; xff] eof) 65536 [x02; x01; x02]
    (mkStream [xff] eof)) as (_ & _ & h & p & ? & _ & _ & ?); [vm_compute; reflexivity|by exists h, p].
Defined.

Lemma bad_frames_rejected_witness :
  read_length_prefixed_frame (mkStream (varint_encode 5 ++ [x01]) eof) 4 =
    Err (mk_io_error InvalidData "frame length exceeds configured maximum") ∧
  read_length_prefixed_frame (mkStream [x02; x01] eof) 4 = Err eof.
Proof.
  destruct (bad_frames_rejected 4) as (_ & H1 & H2); [lia|]. split.
  - apply H1; [unfold is_u32; lia|lia].
  - apply (H2 [x01; x02] [x02; x01; x02] [x02; x01] [x02]); [vm_compute; reflexivity|done..].
Defined.
End FramingWitness.
