(* ===== verification/Identity.v ===== *)
(** * Node identities and signed blocks

    Models the trait [Identity] of rp-node/src/contract.rs, the identity of the
    embedded runtime (erp-runtime/src/identity/manager.rs: a key in the efuses of the
    chip, used through the PSA interface, or a development key in software), the
    identity of the host runtime (rp-runtime/src/network/manager.rs) and the signing of
    blocks (erp-runtime/src/runtime/block_signing.rs).  The PSA driver and the efuse
    controller are C code outside the repository: they are the class [Psa]. *)

From S2P Require Import Prelude.
From S2P Require Import Crypto.
From S2P Require Import Models.
From S2P Require Import State.
From S2P Require Import ChainCore.
From S2P Require Import Chain.
From S2P Require Import Errors.

(** ** The trait *)

Class Identity (I : Type) : Type := {
  peer_id : I → bytes;
  public_key : I → bytes;
  identity_sign : I → bytes → result bytes ContractError;
}.

(** ** The hardware *)

(** [psa_key_attributes_t] and [esp_ecdsa_opaque_key_t] *)
Record KeyAttributes : Type := mkKeyAttributes {
  key_type : Z;
  key_bits : Z;
  key_lifetime : Z;
  policy_usage : Z;
  policy_alg : Z;
  policy_alg2 : Z;
  key_id : Z;
}.

Inductive EcdsaCurve : Type := SECP192R1 | SECP256R1.

Record OpaqueKey : Type := mkOpaqueKey {
  opaque_curve : EcdsaCurve;
  use_km_key : bool;
  opaque_efuse_block : Z;
}.

Class Psa : Type := {
  (** [esp_efuse_find_purpose(ECDSA_KEY_PURPOSE, ..)] *)
  efuse_find_ecdsa_key : option Z;
  (** [esp_chip_info().revision] *)
  chip_revision : Z;
  (** [psa_crypto_init], [psa_import_key] of the opaque key of an efuse block,
      [psa_export_public_key] and [psa_sign_hash] of a key, an algorithm and a digest: a
      status, or what the call wrote to its output buffer *)
  psa_crypto_init : Z;
  psa_import_key : KeyAttributes → OpaqueKey → result Z Z;
  psa_export_public_key : Z → result bytes Z;
  psa_sign_hash : Z → Z → bytes → result bytes Z;
}.

Definition PSA_SUCCESS : Z := 0.
Definition ESP32P4_ECDSA_MIN_SUPPORTED_CHIP_REVISION : Z := 300.
Definition P256_SIGNATURE_COMPONENT_SIZE : nat := 32.
Definition DEVELOPMENT_IDENTITY_SIGNING_KEY_BYTES : bytes := replicate 32 x07.
Definition NO_ECDSA_KEY : string := "no efuse key with ECDSA_KEY purpose found".

Definition P256_KEY_BITS : Z := 256.
Definition PSA_ECC_FAMILY_SECP_R1 : Z := 0x12.
Definition PSA_KEY_TYPE_ECC_KEY_PAIR_BASE : Z := 0x7100.
Definition PSA_KEY_USAGE_SIGN_HASH : Z := 0x1000.
Definition PSA_ALG_SHA_256 : Z := 0x02000009.
Definition PSA_ALG_ECDSA_BASE : Z := 0x06000600.
Definition PSA_KEY_LOCATION_ESP_ECDSA : Z := 0x800001.
Definition PSA_KEY_PERSISTENCE_VOLATILE : Z := 0.

Definition psa_key_type_ecc_key_pair (curve : Z) : Z := Z.lor PSA_KEY_TYPE_ECC_KEY_PAIR_BASE curve.
Definition psa_alg_ecdsa (hash_alg : Z) : Z := Z.lor PSA_ALG_ECDSA_BASE (Z.land hash_alg 0xff).
(** [psa_key_lifetime_t] has 32 bits. *)
Definition psa_key_lifetime_esp_ecdsa_volatile : Z :=
  Z.lor (Z.shiftl PSA_KEY_LOCATION_ESP_ECDSA 8 mod 2 ^ 32) PSA_KEY_PERSISTENCE_VOLATILE.

Definition psa_ok (status : Z) : result unit Z :=
  if bool_decide (status = PSA_SUCCESS) then Ok tt else Err status.

Definition block_modulus : Z := 2 ^ 8.

Section manager.
Context `{Crypto, Psa}.

Definition find_ecdsa_key_block : result Z string :=
  match efuse_find_ecdsa_key with
  | Some block => Ok block
  | None => Err NO_ECDSA_KEY
  end.

Definition unsupported_esp32p4_ecdsa_revision : option (Z * Z) :=
  if bool_decide (ESP32P4_ECDSA_MIN_SUPPORTED_CHIP_REVISION ≤ chip_revision) then None
  else Some (chip_revision / 100, chip_revision mod 100).

Definition p256_attributes : KeyAttributes :=
  mkKeyAttributes (psa_key_type_ecc_key_pair PSA_ECC_FAMILY_SECP_R1) P256_KEY_BITS
    psa_key_lifetime_esp_ecdsa_volatile PSA_KEY_USAGE_SIGN_HASH (psa_alg_ecdsa PSA_ALG_SHA_256) 0 0.

(** [efuse_block as u8] truncates the block number. *)
Definition import_psa_opaque_key (efuse_block : Z) : result Z string :=
  let! _ := map_err (λ _, "psa_crypto_init failed"%string) (psa_ok psa_crypto_init) in
  let! key_id := map_err (λ _, "failed to import opaque efuse ECDSA key into PSA"%string)
                   (psa_import_key p256_attributes (mkOpaqueKey SECP256R1 false (efuse_block mod block_modulus))) in
  if bool_decide (key_id = 0) then Err "PSA returned an invalid opaque ECDSA key id"%string
  else Ok key_id.

Definition load_verifying_key_from_efuse (efuse_block : Z) : result VerifyingKey string :=
  let! key := import_psa_opaque_key efuse_block in
  let! public_key_bytes := map_err (λ _, "failed to export public key from opaque PSA ECDSA key"%string)
                             (psa_export_public_key key) in
  match from_sec1_bytes public_key_bytes with
  | Some k => Ok k
  | None => Err "invalid P-256 public key exported from efuse"%string
  end.

Definition sign_message_with_psa (message : bytes) (efuse_block : Z) : result Signature string :=
  let! key := import_psa_opaque_key efuse_block in
  let message_digest := Sha256_digest message in
  let! signature_bytes := map_err (λ _, "psa_sign_hash failed for opaque ECDSA key"%string)
                            (psa_sign_hash key (psa_alg_ecdsa PSA_ALG_SHA_256) message_digest) in
  if bool_decide (length signature_bytes ≠ P256_SIGNATURE_COMPONENT_SIZE * 2)%nat
  then Err "opaque ECDSA signer returned unexpected signature length"%string
  else match signature_from_slice signature_bytes with
       | Some s => Ok s
       | None => Err "invalid p256 signature bytes"%string
       end.

(** ** IdentityManager *)

Inductive IdentityBackend : Type :=
| Software (signing_key : SigningKey)
| Efuse (key_block : Z).

Record IdentityManager : Type := mkIdentityManager {
  im_peer_id : bytes;
  im_public_key : bytes;
  im_verifying_key : VerifyingKey;
  im_backend : IdentityBackend;
}.

Definition from_software_signing_key (signing_key : SigningKey) : IdentityManager :=
  let verifying_key := signing_key_verifying_key signing_key in
  let public_key := verifying_key_bytes verifying_key in
  mkIdentityManager (hash public_key) public_key verifying_key (Software signing_key).

Definition from_efuse_block (key_block : Z) : result IdentityManager Erp.RuntimeError :=
  let! verifying_key := map_err Erp.ErrCrypto (load_verifying_key_from_efuse key_block) in
  let public_key := verifying_key_bytes verifying_key in
  Ok (mkIdentityManager (hash public_key) public_key verifying_key (Efuse key_block)).

Definition try_efuse : result (option IdentityManager) Erp.RuntimeError :=
  match find_ecdsa_key_block with
  | Ok key_block =>
      match unsupported_esp32p4_ecdsa_revision with
      | Some _ => Ok None
      | None => let! identity := from_efuse_block key_block in Ok (Some identity)
      end
  | Err error =>
      if bool_decide (error = NO_ECDSA_KEY) then Ok None else Err (Erp.ErrCrypto error)
  end.

Definition development : result IdentityManager Erp.RuntimeError :=
  let! signing_key := map_err Erp.ErrCrypto
                        (signing_key_from_bytes DEVELOPMENT_IDENTITY_SIGNING_KEY_BYTES) in
  Ok (from_software_signing_key signing_key).

Definition IdentityManager_select : result IdentityManager Erp.RuntimeError :=
  let! identity := try_efuse in
  match identity with
  | Some identity => Ok identity
  | None => development
  end.

Definition manager_sign (id : IdentityManager) (message : bytes) : result bytes ContractError :=
  let! signature :=
    match im_backend id with
    | Software signing_key => Ok (signing_key_sign signing_key message)
    | Efuse key_block => map_err (λ _, ContractIdentity) (sign_message_with_psa message key_block)
    end in
  Ok (signature_to_bytes signature).

#[export] Instance manager_identity : Identity IdentityManager := {
  peer_id := im_peer_id;
  public_key := im_public_key;
  identity_sign := manager_sign;
}.
End manager.

(** ** The identity of the host runtime *)

Section host.
Context `{Crypto}.

Record HostNodeIdentity : Type := mkHostNodeIdentity {
  host_signing_key : SigningKey;
  host_public_key : bytes;
  host_peer_id : bytes;
}.

Definition from_signing_key (signing_key : SigningKey) : HostNodeIdentity :=
  let public_key := verifying_key_bytes (signing_key_verifying_key signing_key) in
  mkHostNodeIdentity signing_key public_key (hash public_key).

Definition build_signature (id : HostNodeIdentity) (message : bytes) : bytes :=
  signature_to_bytes (signing_key_sign (host_signing_key id) message).

(** [HostNodeIdentity::load_or_create]: [file] is what the path holds, [random] the key
    [SigningKey::random] draws, [write] whether writing it succeeds.  The result comes
    with the bytes written, if any. *)
Definition load_or_create (key_to_bytes : SigningKey → bytes) (file : option (result bytes string))
    (random : SigningKey) (write : result unit string) :
    result (HostNodeIdentity * option bytes) Host.RuntimeError :=
  match file with
  | Some contents =>
      let! b := map_err Host.io_other contents in
      if bool_decide (length b = 32%nat) then
        let! signing_key := map_err Host.ErrCrypto (signing_key_from_bytes b) in
        Ok (from_signing_key signing_key, None)
      else Err (Host.Config "invalid persisted node identity bytes")
  | None =>
      let b := key_to_bytes random in
      let! _ := map_err Host.io_other write in
      Ok (from_signing_key random, Some b)
  end.
End host.

(** ** block_signing.rs *)

Section signing.
Context `{Target, Crypto} {Id : Type} `{Identity Id}.

Definition identity_verifying_key (identity : Id) : result VerifyingKey Erp.RuntimeError :=
  let b := public_key identity in
  if bool_decide (length b = PUBLIC_KEY_SIZE)
  then map_err (λ _, Erp.Contract ContractIdentity) (verifying_key_from_bytes b)
  else Err (Erp.Contract ContractIdentity).

Definition identity_signature (identity : Id) (h : bytes) : result Signature Erp.RuntimeError :=
  let! signature_bytes := map_err Erp.Contract (identity_sign identity h) in
  match signature_from_slice signature_bytes with
  | Some s => Ok s
  | None => Err (Erp.Contract ContractIdentity)
  end.

Definition build_signed_block (parent : Block) (slot : Z) (transactions : list Transaction)
    (slash_proofs : list SlashProof) (state_root : bytes) (identity : Id) :
    outcome (result Block Erp.RuntimeError) :=
  height ← u64_add (block_height parent) 1;
  match identity_verifying_key identity with
  | Err e => Ret (Err e)
  | Ok validator =>
      let unsigned := mkBlock height slot (hash parent) validator transactions None slash_proofs
                        state_root in
      match identity_signature identity (hash unsigned) with
      | Err e => Ret (Err e)
      | Ok s => Ret (Ok (mkBlock height slot (hash parent) validator transactions (Some s)
                           slash_proofs state_root))
      end
  end.

Definition build_probe_block (identity : Id) : outcome (result Block Erp.RuntimeError) :=
  r ← Blockchain_new;
  match r with
  | Err _ => Panic
  | Ok blockchain =>
      parent ← get_latest_block blockchain;
      slot ← u64_add (block_slot parent) 1;
      build_signed_block parent slot [] [] (compute_state_root (bc_state blockchain)) identity
  end.
End signing.

(** ** What an identity promises *)

(** The numbers the PSA specification gives: [PSA_ALG_ECDSA(PSA_ALG_SHA_256)], and a volatile
    P-256 key pair in the ECDSA peripheral that may sign hashes with that algorithm. *)
Definition ECDSA_SHA_256 : Z := 0x06000609.
Definition signing_attributes (a : KeyAttributes) : Prop :=
  a = mkKeyAttributes 0x7112 256 0x80000100 0x1000 ECDSA_SHA_256 0 0.

(** The driver signs with the key it exports, for a key imported to do so. *)
Class PsaLaws `{Crypto, Psa} : Prop :=
  psa_signs attributes opaque key pkb vk m sb s :
    signing_attributes attributes → opaque_curve opaque = SECP256R1 → psa_import_key attributes opaque = Ok key →
    psa_export_public_key key = Ok pkb → from_sec1_bytes pkb = Some vk →
    psa_sign_hash key ECDSA_SHA_256 (Sha256_digest m) = Ok sb → signature_from_slice sb = Some s →
    verify vk m s = true.

Section genuine.
Context `{Target, Crypto, !CryptoLaws}.

(** The identity announces the key [vk], is named after it, and what it signs verifies
    under it. *)
Record genuine `{Identity Id} (id : Id) (vk : VerifyingKey) : Prop := {
  genuine_key : public_key id = verifying_key_bytes vk;
  genuine_peer_id : peer_id id = hash (public_key id);
  genuine_sign m sb : identity_sign id m = Ok sb →
    ∃ s, sb = signature_to_bytes s ∧ verify vk m s = true;
}.

(** Signing never fails. *)
Definition always_signs `{Identity Id} (id : Id) : Prop := ∀ m, ∃ sb, identity_sign id m = Ok sb.

Lemma software_genuine `{Psa} sk :
  genuine (from_software_signing_key sk) (signing_key_verifying_key sk) ∧
  always_signs (from_software_signing_key sk).
Proof.
  split; [|by intros m; eexists]. split; [done..|]. intros m sb [= <-].
  eexists. split; [done|]. apply verify_sign.
Qed.

Lemma import_psa_imports `{Psa} block key :
  import_psa_opaque_key block = Ok key →
  psa_import_key p256_attributes (mkOpaqueKey SECP256R1 false (block mod block_modulus)) = Ok key.
Proof.
  unfold import_psa_opaque_key. intros (u & _ & Hr)%try_Ok. apply try_Ok in Hr as (k & Hk & Hr).
  case_bool_decide; [done|]. injection Hr as ->. by destruct (psa_import_key _ _); simplify_eq/=.
Qed.

Lemma efuse_genuine `{Psa, !PsaLaws} block id :
  from_efuse_block block = Ok id → genuine id (im_verifying_key id).
Proof.
  unfold from_efuse_block, load_verifying_key_from_efuse. intros (vk & Hvk & [= <-])%try_Ok.
  split; [done..|]. intros m sb (s & Hs & [= <-])%try_Ok. exists s. split; [done|].
  destruct (import_psa_opaque_key block) as [key|] eqn:Hk; [|done]. simpl in *.
  unfold sign_message_with_psa in Hs. rewrite Hk in Hs. apply import_psa_imports in Hk. simpl in Hs.
  destruct (psa_export_public_key key) as [pkb|] eqn:He; [|done]. simpl in Hvk.
  destruct (from_sec1_bytes pkb) as [k|] eqn:Hf; [|done].
  destruct (psa_sign_hash key _ _) as [sb|] eqn:Hh; [|done]. simpl in Hs.
  case_bool_decide; [done|]. destruct (signature_from_slice sb) as [s'|] eqn:Hp; [|done].
  simpl in *. simplify_eq.
  by eapply (psa_signs p256_attributes (mkOpaqueKey SECP256R1 false _)); [reflexivity|reflexivity|..].
Qed.

(** whatever identity the embedded runtime selects at start-up (the key in the
    efuses when there is one the chip can use, else the development key), the peer id
    it goes by is the hash of the public key it announces, and every signature it
    produces verifies under that key. *)
Theorem selected_identity_genuine `{Psa, !PsaLaws} id :
  IdentityManager_select = Ok id → genuine id (im_verifying_key id).
Proof.
  unfold IdentityManager_select, try_efuse. intros (o & Ho & Hid)%try_Ok.
  assert (o = None → genuine id (im_verifying_key id)) as Hdev.
  { intros ->. unfold development in Hid. apply try_Ok in Hid as (sk & _ & [= <-]).
    apply software_genuine. }
  destruct find_ecdsa_key_block as [block|error].
  - destruct unsupported_esp32p4_ecdsa_revision as [p|]; simplify_eq; [by apply Hdev|].
    apply try_Ok in Ho as (id' & He & [= <-]). simplify_eq. by eapply efuse_genuine.
  - case_bool_decide; simplify_eq. by apply Hdev.
Qed.

Lemma identity_verifying_key_genuine `{Identity Id} (id : Id) vk :
  genuine id vk → identity_verifying_key id = Ok vk.
Proof.
  intros [Hk _ _]. unfold identity_verifying_key. rewrite Hk.
  rewrite bool_decide_true by apply length_verifying_key_to_bytes.
  unfold verifying_key_bytes. by rewrite verifying_key_from_to_bytes.
Qed.

Lemma build_signed_block_genuine `{Identity Id} (id : Id) vk parent slot txs proofs root h :
  genuine id vk → always_signs id → u64_add (block_height parent) 1 = Ret h →
  ∃ s, let b := mkBlock h slot (hash parent) vk txs (Some s) proofs root in
    build_signed_block parent slot txs proofs root id = Ret (Ok b) ∧ block_is_valid b = true.
Proof.
  intros Hg Hs Hh. unfold build_signed_block. rewrite Hh. cbn [mbind outcome_bind].
  rewrite (identity_verifying_key_genuine id vk Hg).
  set (u := mkBlock h slot (hash parent) vk txs None proofs root).
  destruct (Hs (hash u)) as [sb Hsb]. destruct (genuine_sign _ _ Hg _ _ Hsb) as (s & -> & Hv).
  unfold identity_signature. rewrite Hsb. simpl. rewrite signature_from_to_bytes.
  exists s. split; [done|]. exact Hv.
Qed.

(** a block that a node builds and signs with its identity is accepted by every
    node on top of the same parent, provided it is in a later slot, the signer is the
    validator the state expects (if it expects one), its transactions and slashing
    proofs are valid and the root is the one they lead to; and the block names its
    parent, its height and its signer. *)
Theorem signed_block_accepted `{Identity Id} (id : Id) vk parent slot txs proofs root st st1 st' h expected :
  genuine id vk → always_signs id → u64_add (block_height parent) 1 = Ret h →
  block_slot parent < slot →
  get_expected_validator st h = Ret expected → (expected = None ∨ expected = Some vk) →
  txs_step slot st txs st1 → apply_slash_proofs st1 proofs = Ok st' → root = compute_state_root st' →
  ∃ b, build_signed_block parent slot txs proofs root id = Ret (Ok b) ∧
    block_previous_hash b = hash parent ∧ block_validator b = vk ∧
    validate_and_apply_block parent st b = Ret (Ok st').
Proof.
  intros Hg Hs Hh Hslot He Hex Ht Hp Hr.
  destruct (build_signed_block_genuine id vk parent slot txs proofs root h Hg Hs Hh) as (s & Hb & Hv).
  eexists. split; [exact Hb|]. split_and!; [done..|]. apply validate_accepts. eauto 10.
Qed.
End genuine.

(** ** Witnesses *)

Module IdentityWitness.
Import ToyCrypto ModelsWitness.
#[local] Existing Instance dev_host.

(** A chip with a key in block 4: the toy key 9. *)
#[export] Instance chip : Psa := {
  efuse_find_ecdsa_key := Some 4;
  chip_revision := 301;
  psa_crypto_init := 0;
  psa_import_key _ _ := Ok 17;
  psa_export_public_key key := Ok (encode_key x09);
  psa_sign_hash key _ d := Ok (encode_sig (default x00 (last d), x09));
}.

#[export] Instance chip_laws : PsaLaws.
Proof.
  intros attributes opaque key pkb vk m sb s _ _ _ [= <-] Hk [= <-] Hs.
  cbn [from_sec1_bytes signature_from_slice toy_crypto] in *.
  rewrite decode_encode_point in Hk. rewrite decode_encode_sig in Hs. simplify_eq.
  by apply bool_decide_true.
Qed.

Lemma selected_identity_genuine_witness :
  ∃ id, IdentityManager_select = Ok id ∧ genuine id (im_verifying_key id).
Proof.
  assert (is_ok IdentityManager_select = true) as Hok by (vm_compute; reflexivity).
  destruct IdentityManager_select as [id|e] eqn:E; [|done].
  exists id. split; [done|]. by apply selected_identity_genuine.
Defined.

Definition producer_signing_key : SigningKey := x07.
Definition producer : IdentityManager := from_software_signing_key producer_signing_key.
Definition parent : Block := toy_block x01 3 8 zero_hash [] [] zero_hash.
Definition producer_key : VerifyingKey := x07.

Lemma signed_block_accepted_witness :
  ∃ b, build_signed_block parent 9 [] [] (compute_state_root State_new) producer = Ret (Ok b) ∧
    block_previous_hash b = hash parent ∧ block_validator b = producer_key ∧
    validate_and_apply_block parent State_new b = Ret (Ok State_new).
Proof.
  apply (signed_block_accepted producer producer_key parent 9 [] [] _ State_new State_new State_new
    (block_height parent + 1) None);
    [exact (proj1 (software_genuine producer_signing_key))|exact (proj2 (software_genuine producer_signing_key))
    |reflexivity|vm_compute; reflexivity
    |vm_compute; reflexivity|by left|constructor|reflexivity|reflexivity].
Defined.
End IdentityWitness.
