(* ===== verification/NodeHello.v ===== *)
(** * The node hello: binding a node identity to a transport

    Models erp-runtime/src/network/protocol/node_hello.rs and its counterpart in the
    host runtime (rp-runtime/src/network/manager.rs), with the reasons for which the
    two runtimes reject a hello.  The wire types are the same records in both. *)

From S2P Require Import Prelude.
From S2P Require Import Crypto.
From S2P Require Import Models.
From S2P Require Import Chain.
From S2P Require Import Messages.
From S2P Require Import Errors.
From S2P Require Import Identity.

Definition NODE_HELLO_PROTOCOL : string := "/rust-proof/node-hello/1".

Record PeerCapabilities : Type := mkPeerCapabilities {
  supports_sync_v1 : bool;
  supports_announce_v1 : bool;
  supports_ping : bool;
}.

Record NodeHello : Type := mkNodeHello {
  hello_version : Z;
  hello_public_key : bytes;
  hello_peer_id : bytes;
  hello_transport_peer_id : bytes;
  hello_max_frame_len : Z;
  hello_max_blocks_per_chunk : Z;
  hello_capabilities : PeerCapabilities;
  hello_signature : bytes;
}.

Inductive NodeHelloRejectReason : Type :=
| VersionMismatch
| InvalidSignature
| PeerIdMismatch
| TransportBindingMismatch
| UnsupportedRequiredProtocol.

Record NodeHelloResponse : Type := mkNodeHelloResponse {
  hello_accepted : bool;
  hello_remote : NodeHello;
  hello_reject_reason : option NodeHelloRejectReason;
}.

(** What the signature covers. *)
Record NodeHelloTranscript : Type := mkNodeHelloTranscript {
  transcript_version : Z;
  transcript_peer_id : bytes;
  transcript_transport_peer_id : bytes;
  transcript_max_frame_len : Z;
  transcript_max_blocks_per_chunk : Z;
  transcript_capabilities : PeerCapabilities;
}.

(** The embedded runtime's view of a verified peer, and the host's. *)
Record VerifiedPeer : Type := mkVerifiedPeer {
  verified_node_peer_id : bytes;
  verified_public_key : bytes;
  verified_transport_peer_id : bytes;
  verified_max_frame_len : Z;
  verified_max_blocks_per_chunk : Z;
  verified_capabilities : PeerCapabilities;
}.

Record HostVerifiedPeer : Type := mkHostVerifiedPeer {
  host_verified_peer_id : bytes;
  host_verified_max_blocks : Z;
}.

Definition transport_mismatch : string :=
  "node hello transport peer id does not match authenticated session peer".
Definition peer_id_mismatch : string := "node hello peer id does not match node public key".
Definition key_not_compressed : string :=
  "node hello public key must be a compressed 33-byte P-256 key".
Definition transcript_failed : string := "failed to serialize node hello transcript".
Definition bad_signature_bytes : string := "invalid node hello signature bytes".
Definition signature_failed : string := "node hello signature verification failed".

Definition transcript_of (h : NodeHello) : NodeHelloTranscript :=
  mkNodeHelloTranscript (hello_version h) (hello_peer_id h) (hello_transport_peer_id h)
    (hello_max_frame_len h) (hello_max_blocks_per_chunk h) (hello_capabilities h).

Section hello.
Context `{Crypto, !Postcard NodeHelloTranscript}.

(** ** The embedded runtime *)

Definition encode_transcript (transcript : NodeHelloTranscript) : result bytes Erp.RuntimeError :=
  match to_allocvec transcript with
  | Some b => Ok b
  | None => Err (Erp.ErrCrypto transcript_failed)
  end.

Record NodeHelloBuilder `{Identity Id} : Type := mkNodeHelloBuilder {
  builder_identity : Id;
  builder_transport_peer_id : bytes;
  builder_max_frame_len : Z;
  builder_max_blocks_per_chunk : Z;
  builder_capabilities : PeerCapabilities;
}.

Definition builder_build `{Identity Id} (b : NodeHelloBuilder) : result NodeHello Erp.RuntimeError :=
  let node_public_key := public_key (builder_identity b) in
  let node_peer_id := peer_id (builder_identity b) in
  let transcript :=
    mkNodeHelloTranscript 1 node_peer_id (builder_transport_peer_id b) (builder_max_frame_len b)
      (builder_max_blocks_per_chunk b) (builder_capabilities b) in
  let! transcript_bytes := encode_transcript transcript in
  let! signature := map_err Erp.Contract (identity_sign (builder_identity b) transcript_bytes) in
  Ok (mkNodeHello (transcript_version transcript) node_public_key node_peer_id
        (builder_transport_peer_id b) (builder_max_frame_len b) (builder_max_blocks_per_chunk b)
        (builder_capabilities b) signature).

Definition verifier_verify (remote : NodeHello) (authenticated_transport_peer : bytes) :
    result VerifiedPeer Erp.RuntimeError :=
  if bool_decide (hello_transport_peer_id remote ≠ authenticated_transport_peer)
  then Err (Erp.Config transport_mismatch)
  else if bool_decide (hash (hello_public_key remote) ≠ hello_peer_id remote)
  then Err (Erp.Config peer_id_mismatch)
  else if bool_decide (length (hello_public_key remote) ≠ PUBLIC_KEY_SIZE)
  then Err (Erp.Config key_not_compressed)
  else
    let! verifying_key := map_err Erp.ErrCrypto (verifying_key_from_bytes (hello_public_key remote)) in
    let! transcript_bytes := encode_transcript (transcript_of remote) in
    match signature_from_slice (hello_signature remote) with
    | None => Err (Erp.ErrCrypto bad_signature_bytes)
    | Some signature =>
        if verify verifying_key transcript_bytes signature
        then Ok (mkVerifiedPeer (hello_peer_id remote) (hello_public_key remote)
                   (hello_transport_peer_id remote) (hello_max_frame_len remote)
                   (hello_max_blocks_per_chunk remote) (hello_capabilities remote))
        else Err (Erp.Config signature_failed)
    end.

(** [node_hello_reject_reason] of session.rs *)
Definition node_hello_reject_reason (error : Erp.RuntimeError) : NodeHelloRejectReason :=
  match error with
  | Erp.Config message =>
      if bool_decide (message = transport_mismatch) then TransportBindingMismatch
      else if bool_decide (message = peer_id_mismatch) then PeerIdMismatch
      else InvalidSignature
  | _ => InvalidSignature
  end.

(** [build_node_hello] of session.rs *)
Definition all_capabilities : PeerCapabilities := mkPeerCapabilities true true true.

Definition build_node_hello `{Identity Id} (node_identity : Id) (transport_peer_id : bytes)
    (max_frame_len max_blocks_per_chunk : Z) : result NodeHello Erp.RuntimeError :=
  builder_build (mkNodeHelloBuilder _ _ node_identity transport_peer_id max_frame_len
                   max_blocks_per_chunk all_capabilities).

(** ** The host runtime *)

Definition host_verify (remote : NodeHello) (authenticated_transport_peer : bytes) :
    result HostVerifiedPeer Host.RuntimeError :=
  if bool_decide (hello_transport_peer_id remote ≠ authenticated_transport_peer)
  then Err (Host.Config transport_mismatch)
  else if bool_decide (hash (hello_public_key remote) ≠ hello_peer_id remote)
  then Err (Host.Config peer_id_mismatch)
  else if bool_decide (length (hello_public_key remote) ≠ PUBLIC_KEY_SIZE)
  then Err (Host.Config key_not_compressed)
  else
    let! verifying_key := map_err Host.ErrCrypto (verifying_key_from_bytes (hello_public_key remote)) in
    match to_allocvec (transcript_of remote) with
    | None => Err (Host.ErrCrypto transcript_failed)
    | Some transcript_bytes =>
        match signature_from_slice (hello_signature remote) with
        | None => Err (Host.ErrCrypto bad_signature_bytes)
        | Some signature =>
            if verify verifying_key transcript_bytes signature
            then Ok (mkHostVerifiedPeer (hello_peer_id remote) (hello_max_blocks_per_chunk remote))
            else Err (Host.Config signature_failed)
        end
    end.

Definition host_reject_reason (error : Host.RuntimeError) : NodeHelloRejectReason :=
  match error with
  | Host.Config message =>
      if bool_decide (message = transport_mismatch) then TransportBindingMismatch
      else if bool_decide (message = peer_id_mismatch) then PeerIdMismatch
      else InvalidSignature
  | _ => InvalidSignature
  end.

Definition host_build (id : HostNodeIdentity) (transport_peer_id : bytes)
    (max_frame_len max_blocks_per_chunk : Z) : result NodeHello Host.RuntimeError :=
  let capabilities := mkPeerCapabilities true true true in
  let transcript :=
    mkNodeHelloTranscript 1 (host_peer_id id) transport_peer_id max_frame_len
      max_blocks_per_chunk capabilities in
  match to_allocvec transcript with
  | None => Err (Host.ErrCrypto transcript_failed)
  | Some transcript_bytes =>
      Ok (mkNodeHello (transcript_version transcript) (host_public_key id) (host_peer_id id)
            transport_peer_id max_frame_len max_blocks_per_chunk capabilities
            (build_signature id transcript_bytes))
  end.

(** ** What a hello is accepted for *)

(** The hello is for this transport, its peer id is the hash of the 33 bytes of its key, and
    the transcript of everything it says is signed with the key that these bytes encode. *)
Definition hello_authentic (h : NodeHello) (transport : bytes) : Prop :=
  hello_transport_peer_id h = transport ∧ hello_peer_id h = hash (hello_public_key h) ∧
  length (hello_public_key h) = PUBLIC_KEY_SIZE ∧
  ∃ vk tb s, verifying_key_from_bytes (hello_public_key h) = Ok vk ∧
    to_allocvec (transcript_of h) = Some tb ∧
    signature_from_slice (hello_signature h) = Some s ∧ verify vk tb s = true.

Context `{!CryptoLaws}.

Lemma verifier_verify_Ok h transport :
  (∃ v, verifier_verify h transport = Ok v) ↔ hello_authentic h transport.
Proof.
  unfold verifier_verify, hello_authentic, encode_transcript. split.
  - intros (v & E). do 3 (case_bool_decide; [done|]).
    destruct (verifying_key_from_bytes _) as [vk|] eqn:Hvk; [|done]. simpl in E.
    destruct (to_allocvec _) as [tb|]; [|done]. simpl in E.
    destruct (signature_from_slice _) as [s|]; [|done].
    destruct (verify vk tb s) eqn:Hv; [|done].
    repeat match goal with Hn : ¬ _ |- _ => apply dec_stable in Hn end.
    split_and!; [done..|]. by exists vk, tb, s.
  - intros (-> & Hid & Hlen & vk & tb & s & Hk & -> & Hs & Hv). rewrite Hs, Hid, Hk.
    rewrite !bool_decide_false by naive_solver. simpl. rewrite Hv. eauto.
Qed.

(** What a verified peer says is what its hello says. *)
Lemma verifier_verify_fields h transport v :
  verifier_verify h transport = Ok v →
  v = mkVerifiedPeer (hello_peer_id h) (hello_public_key h) (hello_transport_peer_id h) (hello_max_frame_len h)
        (hello_max_blocks_per_chunk h) (hello_capabilities h).
Proof.
  unfold verifier_verify. do 3 (case_bool_decide; [done|]).
  intros (vk & _ & Hr)%try_Ok. apply try_Ok in Hr as (tb & _ & Hr).
  destruct (signature_from_slice _) as [s|]; [|done]. destruct (verify vk tb s); [|done]. by injection Hr as <-.
Qed.

(** The two runtimes take the same decisions, for the same reasons. *)
Definition same_verdict (r1 : result VerifiedPeer Erp.RuntimeError)
    (r2 : result HostVerifiedPeer Host.RuntimeError) : Prop :=
  match r1, r2 with
  | Ok v1, Ok v2 => verified_node_peer_id v1 = host_verified_peer_id v2 ∧
                    verified_max_blocks_per_chunk v1 = host_verified_max_blocks v2
  | Err e1, Err e2 => node_hello_reject_reason e1 = host_reject_reason e2
  | _, _ => False
  end.

Lemma verdicts_agree h transport :
  same_verdict (verifier_verify h transport) (host_verify h transport).
Proof.
  unfold verifier_verify, host_verify, encode_transcript.
  do 3 (case_bool_decide; [done|]). destruct (verifying_key_from_bytes _); [|done]. simpl.
  destruct (to_allocvec _); [|done]. simpl. destruct (signature_from_slice _); [|done].
  by destruct (verify _ _ _).
Qed.

(** A hello that is authentic for the transport is accepted by the host. *)
Lemma host_verify_authentic h t :
  hello_authentic h t →
  host_verify h t = Ok (mkHostVerifiedPeer (hello_peer_id h) (hello_max_blocks_per_chunk h)).
Proof.
  intros (<- & Hid & Hlen & vk & tb & s & Hk & Htb & Hs & Hv). unfold host_verify. rewrite Hid, Hk.
  rewrite !bool_decide_false by naive_solver. simpl. by rewrite Htb, Hs, Hv.
Qed.

Lemma reject_reasons_differ : transport_mismatch ≠ peer_id_mismatch.
Proof. done. Qed.

Lemma built_hello_authentic `{Identity Id} (id : Id) vk transport l c h :
  genuine id vk → build_node_hello id transport l c = Ok h → hello_authentic h transport.
Proof.
  intros Hg Hb. unfold build_node_hello, builder_build, encode_transcript in Hb. simpl in Hb.
  destruct (to_allocvec _) as [tb|] eqn:Htb; [|done]. simpl in Hb.
  apply try_Ok in Hb as (sb & Hsb & [= <-]).
  destruct (identity_sign id tb) as [sb'|] eqn:Hsign; simplify_eq/=.
  destruct (genuine_sign _ _ Hg _ _ Hsign) as (s & -> & Hv). split_and!; simpl.
  - done.
  - apply Hg.
  - rewrite (genuine_key _ _ Hg). apply length_verifying_key_to_bytes.
  - exists vk, tb, s. rewrite (genuine_key _ _ Hg).
    split_and!; [apply verifying_key_from_to_bytes|done|apply signature_from_to_bytes|done].
Qed.

(** A hello with any contents, signed with the key it names. *)
Definition signed_hello (sk : SigningKey) (version : Z) (transport : bytes) (max_frame max_blocks : Z)
    (caps : PeerCapabilities) (tb : bytes) : NodeHello :=
  let key := verifying_key_to_bytes (signing_key_verifying_key sk) in
  mkNodeHello version key (hash key) transport max_frame max_blocks caps
    (signature_to_bytes (signing_key_sign sk tb)).

Lemma signed_hello_authentic sk version transport l c caps tb :
  let h := signed_hello sk version transport l c caps tb in
  to_allocvec (transcript_of h) = Some tb → hello_authentic h transport.
Proof.
  intros h Htb. split_and!; [done..|apply length_verifying_key_to_bytes|].
  exists (signing_key_verifying_key sk), tb, (signing_key_sign sk tb).
  split_and!; [apply verifying_key_from_to_bytes|done|apply signature_from_to_bytes|apply verify_sign].
Qed.

Lemma host_hello_authentic sk transport l c h :
  host_build (from_signing_key sk) transport l c = Ok h → hello_authentic h transport.
Proof.
  unfold host_build. destruct (to_allocvec _) as [tb|] eqn:Htb; [|done]. intros [= <-].
  by apply signed_hello_authentic.
Qed.

(** C34: the two runtimes accept exactly the same node hellos: those that name the
    authenticated transport peer, whose peer id is the hash of the node key, and whose
    contents are signed with the node key.  What they learn is then what was signed,
    and a hello that either rejects is rejected by the other for the same reason.  That is
    all they check: docs/embedded-libp2p-profile.md, section 6.2, also asks for a check of
    the version and of the required capabilities, and a signed hello with any version and
    any capabilities is accepted by both. *)
Theorem node_hello_verdict h transport :
  same_verdict (verifier_verify h transport) (host_verify h transport) ∧
  ((∃ v, host_verify h transport = Ok v) ↔ hello_authentic h transport) ∧
  match verifier_verify h transport with
  | Ok v => v = mkVerifiedPeer (hello_peer_id h) (hello_public_key h) transport
                  (hello_max_frame_len h) (hello_max_blocks_per_chunk h) (hello_capabilities h)
  | Err e => node_hello_reject_reason e =
      if decide (hello_transport_peer_id h = transport)
      then if decide (hash (hello_public_key h) = hello_peer_id h) then InvalidSignature else PeerIdMismatch
      else TransportBindingMismatch
  end ∧
  (∀ sk version l c caps tb, h = signed_hello sk version transport l c caps tb →
     to_allocvec (transcript_of h) = Some tb →
     (∃ v, verifier_verify h transport = Ok v ∧ verified_capabilities v = caps) ∧
     ∃ v, host_verify h transport = Ok v).
Proof.
  pose proof (verdicts_agree h transport) as Hs. split_and!; [done| | |].
  - rewrite <-verifier_verify_Ok. destruct (verifier_verify _ _), (host_verify _ _); naive_solver.
  - clear Hs. unfold verifier_verify, encode_transcript.
    destruct (decide (hello_transport_peer_id h = transport)) as [<-|Ht];
      [rewrite bool_decide_false by naive_solver|by rewrite bool_decide_true by done].
    destruct (decide (hash _ = _)) as [Hid|Hid];
      [rewrite bool_decide_false by naive_solver|by rewrite bool_decide_true by done].
    case_bool_decide; [done|]. destruct (verifying_key_from_bytes _); [|done]. simpl.
    destruct (to_allocvec _); [|done]. simpl. destruct (signature_from_slice _); [|done].
    by destruct (verify _ _ _).
  - intros sk version l c caps tb -> Htb. pose proof (signed_hello_authentic sk version transport l c caps tb Htb) as Ha.
    apply verifier_verify_Ok in Ha as [v Hv]. rewrite Hv in Hs. split.
    + exists v. split; [done|]. by rewrite (verifier_verify_fields _ _ _ Hv).
    + destruct (host_verify _ _); naive_solver.
Qed.

(** honest nodes of either runtime recognise each other: the hello that a node
    builds with its identity (embedded or host) is accepted by an embedded and by a
    host peer that authenticated the transport it names, and by neither over any other
    transport, so that a hello cannot be replayed by a third node. *)
Theorem honest_hello_accepted `{Identity Id} (id : Id) vk sk transport other l c h :
  genuine id vk → other ≠ transport →
  (build_node_hello id transport l c = Ok h ∨ host_build (from_signing_key sk) transport l c = Ok h) →
  (∃ v, verifier_verify h transport = Ok v ∧ verified_node_peer_id v = hello_peer_id h) ∧
  (∃ v, host_verify h transport = Ok v ∧ host_verified_peer_id v = hello_peer_id h) ∧
  verifier_verify h other = Err (Erp.Config transport_mismatch) ∧
  host_verify h other = Err (Host.Config transport_mismatch).
Proof.
  intros Hg Hne Hh.
  assert (hello_authentic h transport) as Ha
    by (destruct Hh; eauto using built_hello_authentic, host_hello_authentic).
  assert (hello_transport_peer_id h ≠ other) as Ho by (destruct Ha; naive_solver).
  pose proof (verdicts_agree h transport) as Hs.
  destruct (proj2 (verifier_verify_Ok h transport) Ha) as (v & Hv).
  assert (verified_node_peer_id v = hello_peer_id h) as Hid.
  { revert Hv. unfold verifier_verify. do 3 (case_bool_decide; [done|]). intros Hv. outcome_inv.
    destruct (signature_from_slice _); [|done]. destruct (verify _ _ _); by simplify_eq. }
  rewrite Hv in Hs. destruct (host_verify h transport) as [v'|] eqn:Hv'; [|done].
  split_and!; [eauto| |unfold verifier_verify|unfold host_verify].
  - exists v'. split; [done|]. destruct Hs. congruence.
  - by rewrite bool_decide_true.
  - by rewrite bool_decide_true.
Qed.
End hello.

(** ** Witnesses *)

Module NodeHelloWitness.
Import ToyCrypto IdentityWitness.

(** A stand-in for the wire format of transcripts. *)
#[export] Instance toy_transcripts : Postcard NodeHelloTranscript := {
  to_allocvec t := Some (u64_to_be_bytes (transcript_version t) ++ transcript_peer_id t ++
                         u64_to_be_bytes (transcript_max_frame_len t) ++
                         u64_to_be_bytes (transcript_max_blocks_per_chunk t) ++
                         transcript_transport_peer_id t);
  postcard_from_bytes _ := None;
}.

Definition host_key : SigningKey := x0b.

Lemma node_hello_verdict_witness :
  ∃ h, host_build (from_signing_key host_key) [x01; x02] 65536 8 = Ok h ∧
    hello_authentic h [x01; x02].
Proof.
  destruct (host_build (from_signing_key host_key) [x01; x02] 65536 8) as [h|] eqn:E; [|done].
  exists h. split; [done|]. apply (node_hello_verdict h [x01; x02]).
  assert (is_ok (host_verify h [x01; x02]) = true) as Hok.
  { injection E as <-. vm_compute. reflexivity. }
  destruct (host_verify h [x01; x02]) as [v|]; [by exists v|done].
Defined.

Lemma honest_hello_accepted_witness :
  ∃ h, host_build (from_signing_key host_key) [x01; x02] 65536 8 = Ok h ∧
    (∃ v, verifier_verify h [x01; x02] = Ok v ∧ verified_node_peer_id v = hello_peer_id h) ∧
    host_verify h [x03] = Err (Host.Config transport_mismatch).
Proof.
  destruct (host_build (from_signing_key host_key) [x01; x02] 65536 8) as [h|] eqn:E; [|done].
  exists h. split; [done|].
  destruct (honest_hello_accepted (Id:=IdentityManager) producer producer_key host_key [x01; x02] [x03] 65536 8 h)
    as (Hv & _ & _ & Ho); [apply (proj1 (software_genuine producer_signing_key))|done|by right|].
  by split.
Defined.
End NodeHelloWitness.
