(* ===== verification/Runtime.v ===== *)
(** * The runtimes: tasks that exchange events and commands over bounded channels

    Models runtime/manager.rs of rp-runtime and of erp-runtime (the two files differ
    only in their channel library and their error type), the wake loop of
    rp-runtime/src/main.rs and erp-runtime/src/wake/manager.rs.  The node manager owns
    the engine: it takes events from one channel, and sends the commands that the
    actions of the engine ask for to the network, storage and wake managers over three
    others.  All four channels are bounded, and a send waits while its channel is full. *)

From S2P Require Import Prelude.
From S2P Require Import Maps.
From S2P Require Import Crypto.
From S2P Require Import Models.
From S2P Require Import State.
From S2P Require Import Chain.
From S2P Require Import Messages.
From S2P Require Import Engine.
From S2P Require Import EngineSafety.
From S2P Require Import EngineWitness.
From S2P Require Import Errors.

(** ** Channels *)

Record Channel (A : Type) : Type := mkChannel {
  ch_queue : list A;
  ch_capacity : nat;
  ch_open : bool;
}.
Arguments mkChannel {A} _ _ _.
Arguments ch_queue {A} _.
Arguments ch_capacity {A} _.
Arguments ch_open {A} _.

(** [Sender::send]: fails when the receiver is gone, waits when the queue is full. *)
Definition ch_send {A} (c : Channel A) (x : A) : poll (result (Channel A) unit) :=
  if negb (ch_open c) then Ready (Err tt)
  else if bool_decide (length (ch_queue c) < ch_capacity c)%nat
  then Ready (Ok (mkChannel (ch_queue c ++ [x]) (ch_capacity c) (ch_open c)))
  else Pending.

Definition ch_pop {A} (c : Channel A) : option (A * Channel A) :=
  match ch_queue c with
  | [] => None
  | x :: q => Some (x, mkChannel q (ch_capacity c) (ch_open c))
  end.

Section manager.
Context `{Target, Crypto, !Postcard NetworkMessage}.

(** ** The messages between the managers *)

Inductive RuntimeEvent : Type :=
| EvTick (now_ms : Z)
| EvPeerConnected (peer : bytes)
| EvPeerDisconnected (peer : bytes)
| EvFrameReceived (peer frame : bytes)
| EvStorageLoaded (block_hash : bytes) (state_bytes : option bytes)
| EvLatestSnapshotLoaded (block : option Block) (state_bytes : option bytes).

Inductive NetworkCommand : Type :=
| NetSendFrame (peer frame : bytes)
| NetBroadcastFrame (frame : bytes)
| NetDisconnectPeer (peer : bytes)
| NetRequestBlocks (peer : bytes) (from_height to_height : Z).

Inductive StorageCommand : Type :=
| StLoadLatestSnapshot
| StPersistBlock (block : Block)
| StPersistSnapshot (block_hash state_bytes : bytes)
| StLoadSnapshot (block_hash : bytes).

Inductive WakeCommand : Type :=
| WakeSchedule (at_ms : Z)
| WakeCancel.

(** ** NodeManager *)

(** The sending ends the node manager holds. *)
Record Outboxes : Type := mkOutboxes {
  network_tx : Channel NetworkCommand;
  storage_tx : Channel StorageCommand;
  wake_tx : Channel WakeCommand;
}.

(** The body of the loop of [NodeManager::run], up to the actions. *)
Definition handle_event (e : NodeEngine) (ev : RuntimeEvent) : outcome (NodeEngine * list NodeAction) :=
  match ev with
  | EvLatestSnapshotLoaded block state_bytes => restore_latest_snapshot e block state_bytes
  | EvTick now_ms => step e (Tick now_ms)
  | EvPeerConnected peer => step e (PeerConnected peer)
  | EvPeerDisconnected peer => step e (PeerDisconnected peer)
  | EvFrameReceived peer frame => step e (FrameReceived peer frame)
  | EvStorageLoaded block_hash state_bytes => step e (StorageLoaded block_hash state_bytes)
  end.

(** [NodeManager::handle_action], for the errors that a failed send is mapped to. *)
Section handle_action.
Context {E : Type} (network_err storage_err wake_err : E).

Definition send_network (o : Outboxes) (c : NetworkCommand) : poll (result Outboxes E) :=
  poll_map (λ r, match r with
                 | Ok ch => Ok (mkOutboxes ch (storage_tx o) (wake_tx o))
                 | Err _ => Err network_err
                 end) (ch_send (network_tx o) c).

Definition send_storage (o : Outboxes) (c : StorageCommand) : poll (result Outboxes E) :=
  poll_map (λ r, match r with
                 | Ok ch => Ok (mkOutboxes (network_tx o) ch (wake_tx o))
                 | Err _ => Err storage_err
                 end) (ch_send (storage_tx o) c).

Definition send_wake (o : Outboxes) (c : WakeCommand) : poll (result Outboxes E) :=
  poll_map (λ r, match r with
                 | Ok ch => Ok (mkOutboxes (network_tx o) (storage_tx o) ch)
                 | Err _ => Err wake_err
                 end) (ch_send (wake_tx o) c).

Definition handle_action (o : Outboxes) (action : NodeAction) : poll (result Outboxes E) :=
  match action with
  | BroadcastFrame frame => send_network o (NetBroadcastFrame frame)
  | DisconnectPeer peer => send_network o (NetDisconnectPeer peer)
  | ActFrameReceived _ => Ready (Ok o)
  | LoadSnapshot block_hash => send_storage o (StLoadSnapshot block_hash)
  | PersistBlock block => send_storage o (StPersistBlock block)
  | ActPersistCompleted _ => Ready (Ok o)
  | PersistSnapshot block_hash state_bytes => send_storage o (StPersistSnapshot block_hash state_bytes)
  | ReportEvent _ => Ready (Ok o)
  | RequestBlocks peer from_height to_height =>
      send_network o (NetRequestBlocks peer from_height to_height)
  | ScheduleWake at_ms => send_wake o (WakeSchedule at_ms)
  | CancelWake => send_wake o WakeCancel
  | SendFrame peer frame => send_network o (NetSendFrame peer frame)
  end.
End handle_action.

Definition host_handle_action : Outboxes → NodeAction → poll (result Outboxes Host.RuntimeError) :=
  handle_action Host.network_send Host.storage_send Host.wake_send.

Definition erp_handle_action : Outboxes → NodeAction → poll (result Outboxes Erp.RuntimeError) :=
  handle_action (Erp.network_send Erp.Disconnected) (Erp.storage_send Erp.Disconnected)
    (Erp.wake_send Erp.Disconnected).

(** ** WakeManager and the wake loop of the host *)

Definition STARTUP_HEARTBEAT_DELAY_MS : Z := 1000.

Definition startup_heartbeat_deadline_ms (now_ms : Z) : Z :=
  u64_saturating_add now_ms STARTUP_HEARTBEAT_DELAY_MS.

(** [wake_at] of [WakeManager], and the [next_tick_at_ms] of [run_wake_loop]. *)
Record WakeManager : Type := mkWakeManager { wake_at : option Z }.

Definition WakeManager_new (now_ms : Z) : WakeManager :=
  mkWakeManager (Some (startup_heartbeat_deadline_ms now_ms)).

Definition schedule_wake (_ : WakeManager) (deadline_ms : Z) : WakeManager :=
  mkWakeManager (Some deadline_ms).
Definition cancel_wake (_ : WakeManager) : WakeManager := mkWakeManager None.

Definition wake_handle_command (w : WakeManager) (command : WakeCommand) : WakeManager :=
  match command with
  | WakeSchedule at_ms => schedule_wake w at_ms
  | WakeCancel => cancel_wake w
  end.

(** One round of [WakeManager::run] at time [now_ms]: a command that is waiting wins
    ([select_biased!]); otherwise the timer fires if it is due, and the tick that is
    sent carries the current time. *)
Definition wake_round (w : WakeManager) (command : option WakeCommand) (now_ms : Z) :
    WakeManager * list RuntimeEvent :=
  match command with
  | Some command => (wake_handle_command w command, [])
  | None =>
      match wake_at w with
      | Some at_ms =>
          if bool_decide (u64_saturating_sub at_ms now_ms = 0)
          then (mkWakeManager None, [EvTick now_ms]) else (w, [])
      | None => (w, [])
      end
  end.

(** One round of [run_wake_loop] of the host; [select!] there may take either branch
    when both are ready: [prefer_timer] is its choice. *)
Definition host_wake_round (next_tick_at_ms : option Z) (prefer_timer : bool)
    (command : option WakeCommand) (now_ms : Z) : option Z * list RuntimeEvent :=
  let on_command :=
    match command with
    | Some (WakeSchedule at_ms) => (Some at_ms, [])
    | Some WakeCancel => (None, [])
    | None => (next_tick_at_ms, [])
    end in
  match next_tick_at_ms with
  | Some deadline_ms =>
      let due := bool_decide (u64_saturating_sub deadline_ms now_ms = 0) in
      match command with
      | None => if due then (None, [EvTick now_ms]) else on_command
      | Some _ => if due && prefer_timer then (None, [EvTick now_ms]) else on_command
      end
  | None => on_command
  end.

(** ** The whole runtime

    A manager that is sending an event does nothing else: [busy] lists what each of
    the three has left to send.  What the network, the disk and the clock make them
    send is arbitrary here. *)

Record Busy : Type := mkBusy {
  network_busy : list RuntimeEvent;
  storage_busy : list RuntimeEvent;
  wake_busy : list RuntimeEvent;
}.

Record Runtime : Type := mkRuntime {
  rt_engine : NodeEngine;
  rt_todo : list NodeAction;
  rt_events : Channel RuntimeEvent;
  rt_out : Outboxes;
  rt_busy : Busy;
}.

(** What happens in a step, as the history records it. *)
Inductive label : Type :=
| LHandle (ev : RuntimeEvent) (acts : list NodeAction)
| LAction (a : NodeAction)
| LPost (ev : RuntimeEvent)
| LNetwork (c : NetworkCommand)
| LStorage (c : StorageCommand)
| LWake (c : WakeCommand)
| LWork.

Inductive rt_step : Runtime → label → Runtime → Prop :=
(** the node manager takes an event and runs the engine on it *)
| step_handle e ev events events' out busy e' acts :
    ch_pop events = Some (ev, events') → handle_event e ev = Ret (e', acts) →
    rt_step (mkRuntime e [] events out busy) (LHandle ev acts) (mkRuntime e' acts events' out busy)
(** the node manager completes the next action *)
| step_action e a todo events out out' busy :
    host_handle_action out a = Ready (Ok out') →
    rt_step (mkRuntime e (a :: todo) events out busy) (LAction a) (mkRuntime e todo events out' busy)
(** a manager takes a command, and may then have events to send *)
| step_network e todo events c n n' s w evs sb wb :
    ch_pop n = Some (c, n') →
    rt_step (mkRuntime e todo events (mkOutboxes n s w) (mkBusy [] sb wb)) (LNetwork c)
            (mkRuntime e todo events (mkOutboxes n' s w) (mkBusy evs sb wb))
| step_storage e todo events c n s s' w evs nb wb :
    ch_pop s = Some (c, s') →
    rt_step (mkRuntime e todo events (mkOutboxes n s w) (mkBusy nb [] wb)) (LStorage c)
            (mkRuntime e todo events (mkOutboxes n s' w) (mkBusy nb evs wb))
| step_wake e todo events c n s w w' evs nb sb :
    ch_pop w = Some (c, w') →
    rt_step (mkRuntime e todo events (mkOutboxes n s w) (mkBusy nb sb [])) (LWake c)
            (mkRuntime e todo events (mkOutboxes n s w') (mkBusy nb sb evs))
(** the network or the clock produces events on its own *)
| step_swarm e todo events out evs sb wb :
    rt_step (mkRuntime e todo events out (mkBusy [] sb wb)) LWork
            (mkRuntime e todo events out (mkBusy evs sb wb))
| step_timer e todo events out ev nb sb :
    rt_step (mkRuntime e todo events out (mkBusy nb sb [])) LWork
            (mkRuntime e todo events out (mkBusy nb sb [ev]))
(** a manager completes the sending of an event *)
| step_post_network e todo events events' out ev nb sb wb :
    ch_send events ev = Ready (Ok events') →
    rt_step (mkRuntime e todo events out (mkBusy (ev :: nb) sb wb)) (LPost ev)
            (mkRuntime e todo events' out (mkBusy nb sb wb))
| step_post_storage e todo events events' out ev nb sb wb :
    ch_send events ev = Ready (Ok events') →
    rt_step (mkRuntime e todo events out (mkBusy nb (ev :: sb) wb)) (LPost ev)
            (mkRuntime e todo events' out (mkBusy nb sb wb))
| step_post_wake e todo events events' out ev nb sb wb :
    ch_send events ev = Ready (Ok events') →
    rt_step (mkRuntime e todo events out (mkBusy nb sb (ev :: wb))) (LPost ev)
            (mkRuntime e todo events' out (mkBusy nb sb wb)).

(** Runs, with their history. *)
Inductive rt_run : Runtime → list label → Runtime → Prop :=
| rt_run_nil rt : rt_run rt [] rt
| rt_run_snoc rt tr rt1 l rt2 : rt_run rt tr rt1 → rt_step rt1 l rt2 → rt_run rt (tr ++ [l]) rt2.

(** The channels of main.rs, with the command that [NodeManager::run] sends first. *)
Definition rt_start (event_cap network_cap storage_cap wake_cap : nat) (e : NodeEngine) : Runtime :=
  mkRuntime e [] (mkChannel [] event_cap true)
    (mkOutboxes (mkChannel [] network_cap true)
       (mkChannel [StLoadLatestSnapshot] storage_cap true)
       (mkChannel [] wake_cap true))
    (mkBusy [] [] []).

Definition EVENT_CHANNEL_CAPACITY : nat := 32.
Definition NETWORK_CHANNEL_CAPACITY : nat := 32.
Definition STORAGE_CHANNEL_CAPACITY : nat := 32.
Definition WAKE_CHANNEL_CAPACITY : nat := 8.

Definition host_start (e : NodeEngine) : Runtime :=
  rt_start EVENT_CHANNEL_CAPACITY NETWORK_CHANNEL_CAPACITY STORAGE_CHANNEL_CAPACITY
    WAKE_CHANNEL_CAPACITY e.
End manager.

(** ** Refinement: the asynchronous runtime runs the engine sequentially *)

Section refinement.
Context `{Target, Crypto, !Postcard NetworkMessage}.

(** The commands that a list of actions asks for. *)
Definition network_command (a : NodeAction) : option NetworkCommand :=
  match a with
  | BroadcastFrame frame => Some (NetBroadcastFrame frame)
  | DisconnectPeer peer => Some (NetDisconnectPeer peer)
  | RequestBlocks peer from_height to_height => Some (NetRequestBlocks peer from_height to_height)
  | SendFrame peer frame => Some (NetSendFrame peer frame)
  | _ => None
  end.
Definition storage_command (a : NodeAction) : option StorageCommand :=
  match a with
  | PersistBlock block => Some (StPersistBlock block)
  | PersistSnapshot block_hash state_bytes => Some (StPersistSnapshot block_hash state_bytes)
  | LoadSnapshot block_hash => Some (StLoadSnapshot block_hash)
  | _ => None
  end.
Definition wake_command (a : NodeAction) : option WakeCommand :=
  match a with
  | ScheduleWake at_ms => Some (WakeSchedule at_ms)
  | CancelWake => Some WakeCancel
  | _ => None
  end.

(** The engine on a list of events, one after the other. *)
Fixpoint run_events (e : NodeEngine) (evs : list RuntimeEvent) : outcome (NodeEngine * list NodeAction) :=
  match evs with
  | [] => Ret (e, [])
  | ev :: evs =>
      '(e, a1) ← handle_event e ev;
      '(e, a2) ← run_events e evs;
      Ret (e, a1 ++ a2)
  end.

(** What a history says. *)
Definition posted (tr : list label) : list RuntimeEvent :=
  omap (λ l, match l with LPost ev => Some ev | _ => None end) tr.
Definition handled (tr : list label) : list RuntimeEvent :=
  omap (λ l, match l with LHandle ev _ => Some ev | _ => None end) tr.
Definition emitted (tr : list label) : list NodeAction :=
  flat_map (λ l, match l with LHandle _ acts => acts | _ => [] end) tr.
Definition network_taken (tr : list label) : list NetworkCommand :=
  omap (λ l, match l with LNetwork c => Some c | _ => None end) tr.
Definition storage_taken (tr : list label) : list StorageCommand :=
  omap (λ l, match l with LStorage c => Some c | _ => None end) tr.
Definition wake_taken (tr : list label) : list WakeCommand :=
  omap (λ l, match l with LWake c => Some c | _ => None end) tr.

Lemma run_events_snoc e evs e1 acts ev e2 acts2 :
  run_events e evs = Ret (e1, acts) → handle_event e1 ev = Ret (e2, acts2) →
  run_events e (evs ++ [ev]) = Ret (e2, acts ++ acts2).
Proof.
  revert e acts. induction evs as [|x evs IH]; intros e acts Hr Hh; simpl in *.
  - injection Hr as -> <-. rewrite Hh. simpl. by rewrite app_nil_r.
  - apply bind_Ret in Hr as ([e' a1] & -> & Hr). apply bind_Ret in Hr as ([e'' a2] & Hr & [= <- <-]).
    simpl. rewrite (IH _ _ Hr Hh). simpl. by rewrite app_assoc.
Qed.

Lemma ch_pop_Some {A} (c c' : Channel A) x :
  ch_pop c = Some (x, c') →
  ch_queue c = x :: ch_queue c' ∧ ch_capacity c' = ch_capacity c ∧ ch_open c' = ch_open c.
Proof. unfold ch_pop. destruct c as [[|y q] n o]; naive_solver. Qed.

Lemma ch_send_Ok {A} (c c' : Channel A) x :
  ch_send c x = Ready (Ok c') ↔
  ch_open c = true ∧ (length (ch_queue c) < ch_capacity c)%nat ∧
  c' = mkChannel (ch_queue c ++ [x]) (ch_capacity c) (ch_open c).
Proof.
  unfold ch_send. destruct (ch_open c); simpl; [|naive_solver].
  case_bool_decide; naive_solver.
Qed.

(** An action completes by adding its command, if it has one, to the right channel. *)
Definition sent_to {A} (c c' : Channel A) (x : option A) : Prop :=
  match x with
  | Some x => (length (ch_queue c) < ch_capacity c)%nat ∧
              c' = mkChannel (ch_queue c ++ [x]) (ch_capacity c) (ch_open c)
  | None => c' = c
  end.

Lemma host_handle_action_Ok out a out' :
  host_handle_action out a = Ready (Ok out') →
  sent_to (network_tx out) (network_tx out') (network_command a) ∧
  sent_to (storage_tx out) (storage_tx out') (storage_command a) ∧
  sent_to (wake_tx out) (wake_tx out') (wake_command a).
Proof.
  destruct out as [n s w]. unfold host_handle_action, handle_action.
  destruct a; unfold send_network, send_storage, send_wake; simpl;
    try (intros [= <-]; done);
    match goal with |- context [ch_send ?c ?x] => destruct (ch_send c x) as [[c'|]|] eqn:E end;
    simpl; try done; intros [= <-]; simpl; apply ch_send_Ok in E; naive_solver.
Qed.

(** The commands of a channel: those taken, then those queued, then those still to be
    sent are the ones asked for. *)
Definition delivered {A} (asked taken : list A) (c : Channel A) (left : list A) : Prop :=
  asked = taken ++ ch_queue c ++ left ∧ (length (ch_queue c) ≤ ch_capacity c)%nat.

Lemma delivered_send {A B} (f : B → option A) (asked taken : list A) c c' x l :
  sent_to c c' (f x) → delivered asked taken c (omap f (x :: l)) → delivered asked taken c' (omap f l).
Proof.
  simpl. destruct (f x) as [y|]; simpl; [intros [Hl ->]|by intros ->]. intros [-> Hc]. split; simpl.
  - by rewrite <-!app_assoc.
  - rewrite length_app. simpl. lia.
Qed.

Lemma delivered_pop {A} (asked taken left : list A) c c' x :
  ch_pop c = Some (x, c') → delivered asked taken c left → delivered asked (taken ++ [x]) c' left.
Proof.
  intros (Hq & Hc & _)%ch_pop_Some [-> Hl]. split; rewrite Hq in *; [|simpl in Hl; lia].
  by rewrite <-!app_assoc.
Qed.

Lemma delivered_more {A} (asked more taken : list A) c :
  delivered asked taken c [] → delivered (asked ++ more) taken c more.
Proof. intros [-> Hl]. split; [|done]. by rewrite app_nil_r, <-app_assoc. Qed.

Lemma delivered_post {A} (asked taken : list A) c c' x :
  ch_send c x = Ready (Ok c') → delivered asked taken c [] → delivered (asked ++ [x]) taken c' [].
Proof.
  intros (_ & Hl & ->)%ch_send_Ok [-> _]. split; simpl.
  - by rewrite !app_nil_r, <-app_assoc.
  - rewrite length_app. simpl. lia.
Qed.

(** The invariant of a run. *)
Definition refines (e0 : NodeEngine) (first : list StorageCommand) (tr : list label) (rt : Runtime) : Prop :=
  run_events e0 (handled tr) = Ret (rt_engine rt, emitted tr) ∧
  delivered (posted tr) (handled tr) (rt_events rt) [] ∧
  delivered (omap network_command (emitted tr)) (network_taken tr) (network_tx (rt_out rt))
    (omap network_command (rt_todo rt)) ∧
  delivered (first ++ omap storage_command (emitted tr)) (storage_taken tr) (storage_tx (rt_out rt))
    (omap storage_command (rt_todo rt)) ∧
  delivered (omap wake_command (emitted tr)) (wake_taken tr) (wake_tx (rt_out rt))
    (omap wake_command (rt_todo rt)).

Lemma refines_step e0 first tr rt l rt' :
  refines e0 first tr rt → rt_step rt l rt' → refines e0 first (tr ++ [l]) rt'.
Proof.
  intros (Hr & He & Hn & Hs & Hw) Hstep.
  unfold refines, posted, handled, emitted, network_taken, storage_taken, wake_taken in *.
  rewrite !omap_app, flat_map_app.
  destruct Hstep; simpl in *; rewrite ?app_nil_r in *;
    try (split_and!; solve [done | by eapply delivered_pop | by eapply delivered_post]).
  - split_and!.
    + by eapply run_events_snoc.
    + by eapply delivered_pop.
    + rewrite omap_app. by apply delivered_more.
    + rewrite omap_app, app_assoc. by apply delivered_more.
    + rewrite omap_app. by apply delivered_more.
  - match goal with Ha : host_handle_action _ _ = _ |- _ =>
      apply host_handle_action_Ok in Ha as (Hn' & Hs' & Hw') end.
    split_and!; [done|done|exact (delivered_send network_command _ _ _ _ _ _ Hn' Hn)
      |exact (delivered_send storage_command _ _ _ _ _ _ Hs' Hs)
      |exact (delivered_send wake_command _ _ _ _ _ _ Hw' Hw)].
Qed.

(** C15: however the tasks of the runtime interleave, the node behaves like the engine
    run on one event after the other in the order in which they were sent: the engine
    is in the state that run ends in, and each of the network, storage and wake
    managers receives exactly the commands the run asks for, each once and in order
    (those not yet received are queued, or still to be sent by the node manager).  No
    channel ever holds more than its capacity. *)
Theorem runtime_refines_engine ec nc sc wc e0 tr rt :
  (0 < sc)%nat → rt_run (rt_start ec nc sc wc e0) tr rt → refines e0 [StLoadLatestSnapshot] tr rt.
Proof.
  intros Hsc Hrun. remember (rt_start ec nc sc wc e0) as rt0 eqn:E.
  induction Hrun as [rt|rt tr rt1 l rt2 Hrun IH Hstep]; subst.
  - split_and!; [done|split..]; simpl; done || lia.
  - eauto using refines_step.
Qed.
End refinement.

(** ** The wake manager and the engine *)

Section wake.
Context `{Target, Crypto, !Postcard NetworkMessage}.

Definition wake_follow (w : WakeManager) (acts : list NodeAction) : WakeManager :=
  foldl wake_handle_command w (omap wake_command acts).

Lemma wake_follow_timer w acts : wake_at (wake_follow w acts) = timer_after (wake_at w) acts.
Proof.
  unfold wake_follow, timer_after. revert w. induction acts as [|a acts IH]; intros w; [done|].
  simpl. destruct a; simpl; rewrite ?IH; done.
Qed.

Definition earliest_scheduled (e : NodeEngine) : Prop :=
  scheduled_wake_at_ms e = min_option (map req_deadline_ms (pending_requests e)).

(** the engine and the wake manager stay in step.  When the timer is set for the
    engine's deadline, it fires only once that deadline has passed, and after the
    engine has handled the tick and the manager the commands that follow, the timer is
    again set for the earliest deadline of the requests that are left, all of which
    are still in the future (or it is off, and there are none): no timeout is lost. *)
Theorem fired_timer_is_rearmed e w now w' evs e' acts :
  earliest_scheduled e → wake_at w = scheduled_wake_at_ms e →
  wake_round w None now = (w', evs) → evs ≠ [] → step e (Tick now) = Ret (e', acts) →
  evs = [EvTick now] ∧ (∃ t, wake_at w = Some t ∧ t ≤ now) ∧
  wake_at (wake_follow w' acts) = scheduled_wake_at_ms e' ∧ earliest_scheduled e' ∧
  Forall (λ r, r ∈ pending_requests e ∧ now < req_deadline_ms r) (pending_requests e').
Proof.
  unfold earliest_scheduled, wake_round. intros He Hw Hr Hne Hs.
  destruct (wake_at w) as [t|]; [|naive_solver]. case_bool_decide as Hdue; [|naive_solver].
  injection Hr as <- <-. unfold u64_saturating_sub in Hdue.
  set (left := filter (λ r, now < req_deadline_ms r) (pending_requests e)).
  assert (min_option (map req_deadline_ms left) ≠ scheduled_wake_at_ms e) as Hmin.
  { rewrite <-Hw. intros Hm. pose proof (min_option_spec (map req_deadline_ms left)) as Hin.
    rewrite Hm in Hin. destruct Hin as [Hin _].
    apply list_elem_of_fmap in Hin as (r & -> & [Hlt _]%list_elem_of_filter). simpl in Hlt. lia. }
  assert (pending_requests e' = left ∧ scheduled_wake_at_ms e' = min_option (map req_deadline_ms left) ∧
          timer_after None acts = min_option (map req_deadline_ms left)) as (Hp & Hs' & Ht).
  { unfold step, handle_input, on_tick, prune_expired_requests, sync_wake_action in Hs. simpl in Hs.
    fold left in Hs. rewrite bool_decide_false in Hs by done. cbn [mbind outcome_bind] in Hs.
    revert Hs. destruct (min_option (map req_deadline_ms left)) as [m|] eqn:Hm; intros Hs; simplify_eq; by rewrite ?Hm. }
  split_and!; [done|exists t; split; [done|lia]| | |].
  - by rewrite wake_follow_timer, Hs'.
  - by rewrite Hs', Hp.
  - rewrite Hp. apply Forall_forall. by intros r [? ?]%list_elem_of_filter.
Qed.
End wake.

(** ** The bounded channels can deadlock *)

Section deadlock.
Context `{Target, Crypto, !Postcard NetworkMessage}.

(** A peer that connects makes the engine send one command to the network manager. *)
Lemma peer_connected_actions e p b :
  get_latest_block (blockchain e) = Ret b →
  ∃ e' m from to wake, handle_event e (EvPeerConnected p) =
      Ret (e', [ReportEvent m; RequestBlocks p from to] ++ wake) ∧
    get_latest_block (blockchain e') = Ret b ∧
    (wake = [] ∨ ∃ t, wake = [ScheduleWake t] ∨ wake = [CancelWake]).
Proof.
  intros Hb. cbn [handle_event]. unfold step. cbn [handle_input]. unfold on_peer_connected. simpl.
  rewrite Hb. simpl. unfold sync_wake_action. case_bool_decide.
  - eexists _, _, _, _, []. split_and!; [done|done|by left].
  - destruct (min_option _) as [t|];
      eexists _, _, _, _, _; (split_and!; [reflexivity|done|]); right; eexists; [by left|by right].
  Unshelve. exact 0.
Qed.

(** The node manager idle, the network manager idle, [q] waiting for the latter. *)
Definition waiting (ec nc wc : nat) (s : Channel StorageCommand) (e : NodeEngine)
    (q : list NetworkCommand) : Runtime :=
  mkRuntime e [] (mkChannel [] ec true)
    (mkOutboxes (mkChannel q nc true) s (mkChannel [] wc true)) (mkBusy [] [] []).

Lemma ch_send_room {A} (q : list A) n x :
  (length q < n)%nat → ch_send (mkChannel q n true) x = Ready (Ok (mkChannel (q ++ [x]) n true)).
Proof. intros. by apply ch_send_Ok. Qed.

(** The node manager waits for room in the network channel, the network manager for
    room in the event channel. *)
Definition stuck (rt : Runtime) : Prop :=
  (∃ p from to todo, rt_todo rt = RequestBlocks p from to :: todo) ∧
  network_busy (rt_busy rt) ≠ [] ∧
  (ch_capacity (rt_events rt) ≤ length (ch_queue (rt_events rt)))%nat ∧
  (ch_capacity (network_tx (rt_out rt)) ≤ length (ch_queue (network_tx (rt_out rt))))%nat.

(** What no longer changes. *)
Definition frozen (rt rt' : Runtime) : Prop :=
  rt_engine rt' = rt_engine rt ∧ rt_todo rt' = rt_todo rt ∧ rt_events rt' = rt_events rt ∧
  network_tx (rt_out rt') = network_tx (rt_out rt) ∧ network_busy (rt_busy rt') = network_busy (rt_busy rt).

Definition no_progress (l : label) : Prop :=
  match l with LHandle _ _ | LAction _ | LPost _ | LNetwork _ => False | _ => True end.

Lemma stuck_step rt l rt' : stuck rt → rt_step rt l rt' → frozen rt rt' ∧ no_progress l.
Proof.
  intros ((p & from & to & todo & Ht) & Hb & He & Hn) Hs. destruct Hs; simpl in *; simplify_eq; try done.
  - match goal with Ha : host_handle_action _ _ = _ |- _ => apply host_handle_action_Ok in Ha as ([Hl _] & _) end.
    lia.
  - match goal with Hp : ch_send _ _ = _ |- _ => apply ch_send_Ok in Hp end. lia.
  - match goal with Hp : ch_send _ _ = _ |- _ => apply ch_send_Ok in Hp end. lia.
  - match goal with Hp : ch_send _ _ = _ |- _ => apply ch_send_Ok in Hp end. lia.
Qed.

Lemma stuck_forever rt tr rt' : stuck rt → rt_run rt tr rt' → frozen rt rt' ∧ Forall no_progress tr.
Proof.
  intros Hst Hr. induction Hr as [|rt tr rt1 l rt2 Hr IH Hs]; [by repeat constructor|].
  destruct (IH Hst) as [(He & Ht & Hev & Hn & Hb) Htr].
  assert (stuck rt1) as Hst1 by (unfold stuck; by rewrite Ht, Hb, Hev, Hn).
  destruct (stuck_step rt1 l rt2 Hst1 Hs) as [(He' & Ht' & Hev' & Hn' & Hb') Hl].
  split; [split_and!; congruence|]. apply Forall_app. by rewrite Forall_singleton.
Qed.

End deadlock.

(** ** Witnesses *)

Module RuntimeWitness.
Import ToyCrypto ModelsWitness ChainWitness EngineRuns.
#[local] Existing Instance dev_host.

(** The storage manager answers the first command: there is no snapshot. *)
Definition no_snapshot : RuntimeEvent := EvLatestSnapshotLoaded None None.
Definition told : NodeAction := ReportEvent "no snapshot restored".

Lemma runtime_refines_engine_witness :
  ∃ tr rt, rt_run (rt_start 1 1 1 1 e0) tr rt ∧ refines e0 [StLoadLatestSnapshot] tr rt ∧
    handled tr = [no_snapshot] ∧ emitted tr = [told].
Proof.
  eexists ([] ++ [LStorage StLoadLatestSnapshot] ++ [LPost no_snapshot] ++
           [LHandle no_snapshot [told]] ++ [LAction told]), _.
  rewrite !app_assoc.
  refine ((λ Hr, conj Hr (conj (runtime_refines_engine 1 1 1 1 e0 _ _ _ Hr) _)) _); [lia|done|].
  eapply rt_run_snoc; [eapply rt_run_snoc; [eapply rt_run_snoc; [eapply rt_run_snoc; [apply rt_run_nil|]|]|]|].
  - by eapply (step_storage _ _ _ _ _ _ _ _ [no_snapshot]).
  - apply step_post_storage, ch_send_room. simpl. lia.
  - by eapply step_handle.
  - by apply step_action.
Defined.

Definition asking : NodeEngine :=
  mkNodeEngine fresh ∅ [mkPendingRequest [] 1 2 5000; mkPendingRequest [x01] 1 2 7000] ∅ 0 (Some 5000).

Lemma fired_timer_is_rearmed_witness :
  ∃ e' acts, step asking (Tick 6000) = Ret (e', acts) ∧
    wake_at (wake_follow (mkWakeManager None) acts) = scheduled_wake_at_ms e' ∧
    scheduled_wake_at_ms e' = Some 7000.
Proof.
  eexists _, _. split; [reflexivity|]. split; [|reflexivity].
  eapply (fired_timer_is_rearmed asking (mkWakeManager (Some 5000)) 6000 _ [EvTick 6000]);
    [reflexivity|reflexivity|reflexivity|done|reflexivity].
Defined.

End RuntimeWitness.
