(* ===== verification/Storage.v ===== *)
(** * Storage: blocks, snapshots and the pointer to the latest snapshot

    Models the trait [Storage] of rp-node/src/contract.rs, the sled database of the
    host (rp-runtime/src/storage/manager.rs), the flash storage of the embedded runtime
    (erp-runtime/src/storage/nvs_storage.rs) and the two storage managers.  The
    databases are not part of the repository: each is a map from keys to byte strings
    whose operations may fail at any time, as a list of faults says, and whose writes
    survive the process from the next flush on; when the process is stopped before, the
    first of them may survive, as many as it happens.  The class [StorageLaws] is what the
    managers rely on; both implementations satisfy it. *)

From Stdlib Require Import Ascii.
From S2P Require Import Prelude.
From S2P Require Import Maps.
From S2P Require Import Crypto.
From S2P Require Import Models.
From S2P Require Import State.
From S2P Require Import StateCodec.
From S2P Require Import Chain.
From S2P Require Import Messages.
From S2P Require Import Engine.
From S2P Require Import EngineSafety.
From S2P Require Import EngineWitness.
From S2P Require Import Errors.
From S2P Require Import Framing.
From S2P Require Import Runtime.

(** ** A key-value store that may fail *)

(** What has been flushed, the writes since then in their order, and which of the next
    operations fail. *)
Record Device (K : Type) `{Countable K} : Type := mkDevice {
  synced : gmap K bytes;
  unsynced : list (K * bytes);
  faults : list bool;
}.
Arguments mkDevice {K _ _} _ _ _.
Arguments synced {K _ _} _.
Arguments unsynced {K _ _} _.
Arguments faults {K _ _} _.

Section device.
Context `{Countable K}.
Abbreviation DM := (M (Device K) ContractError).

Definition replay (ws : list (K * bytes)) (c : gmap K bytes) : gmap K bytes :=
  foldl (λ c '(k, v), <[k := v]> c) c ws.

(** What the process reads: every write counts. *)
Definition cells (d : Device K) : gmap K bytes := replay (unsynced d) (synced d).

(** Whether the next operation succeeds.  Its errors all become [ContractError::Storage]
    ([map_storage_error]). *)
Definition dev_try : DM unit := λ d,
  match faults d with
  | [] => (d, Ok tt)
  | f :: fs => (mkDevice (synced d) (unsynced d) fs, if f then Err ContractStorage else Ok tt)
  end.
Definition dev_get (k : K) : DM (option bytes) :=
  let* _ := dev_try in λ d, (d, Ok (cells d !! k)).
(** A write, as sled does it: it is buffered. *)
Definition dev_set (k : K) (v : bytes) : DM unit :=
  let* _ := dev_try in λ d, (mkDevice (synced d) (unsynced d ++ [(k, v)]) (faults d), Ok tt).
Definition dev_flush : DM unit :=
  let* _ := dev_try in λ d, (mkDevice (cells d) [] (faults d), Ok tt).
(** A write, as the flash does it: it is committed before the call returns. *)
Definition dev_put (k : K) (v : bytes) : DM unit :=
  let* _ := dev_try in λ d, (mkDevice (<[k := v]> (cells d)) [] (faults d), Ok tt).

(** A device with these contents and no faults. *)
Definition device (c : gmap K bytes) : Device K := mkDevice c [] [].
End device.

(** *** Stopping *)

(** What becomes of a storage when the process that uses it ends at any moment:
    [settled], nothing is left to flush; [stopped s s'], the next process may find [s'];
    [disturbed s s'], the same storage, whose next operations may fail otherwise. *)
Class Stops (S : Type) : Type := {
  settled : S → Prop;
  stopped : S → S → Prop;
  disturbed : S → S → Prop;
}.

(** The log of a database is recovered up to some point after the last flush. *)
#[export] Instance device_stops `{Countable K} : Stops (Device K) := {
  settled d := unsynced d = [];
  stopped d d' := ∃ ws, ws `prefix_of` unsynced d ∧ d' = device (replay ws (synced d));
  disturbed d d' := synced d' = synced d ∧ unsynced d' = unsynced d;
}.

(** ** The trait *)

Section storage.
Context `{Crypto}.

Class Storage (S : Type) : Type := {
  save_block : Block → M S ContractError unit;
  load_block : bytes → M S ContractError (option Block);
  save_snapshot : bytes → bytes → M S ContractError unit;
  load_snapshot : bytes → M S ContractError (option bytes);
  load_latest_snapshot_bundle : M S ContractError (option (Block * bytes));
}.
End storage.

(** ** SledStorage *)

Definition META_TREE : string := "meta".
Definition BLOCKS_TREE : string := "blocks".
Definition SNAPSHOTS_TREE : string := "snapshots".
Definition LATEST_SNAPSHOT_KEY : bytes := String.list_byte_of_string "latest_snapshot".

Section sled.
Context `{Crypto, !Postcard Block}.

(** A key of the database is the name of a tree and a key of that tree. *)
Definition SledStorage : Type := Device (string * bytes).

#[export] Instance sled_stops : Stops SledStorage := device_stops.

Definition sled_flush : M SledStorage ContractError unit := dev_flush.

Definition sled_save_block (block : Block) : M SledStorage ContractError unit :=
  let block_hash := hash block in
  match to_allocvec block with
  | None => M_fail ContractStorage
  | Some block_bytes =>
      let* _ := dev_set (BLOCKS_TREE, block_hash) block_bytes in
      sled_flush
  end.

Definition sled_load_block (h : bytes) : M SledStorage ContractError (option Block) :=
  let* found := dev_get (BLOCKS_TREE, h) in
  match found with
  | None => M_ret None
  | Some block_bytes =>
      match postcard_from_bytes block_bytes with
      | None => M_fail ContractStorage
      | Some block =>
          if bool_decide (hash (A:=Block) block ≠ h) then M_fail ContractStorage else M_ret (Some block)
      end
  end.

Definition sled_save_snapshot (block_hash state_bytes : bytes) : M SledStorage ContractError unit :=
  let* _ := dev_set (SNAPSHOTS_TREE, block_hash) state_bytes in
  let* _ := dev_set (META_TREE, LATEST_SNAPSHOT_KEY) block_hash in
  sled_flush.

Definition sled_load_snapshot (block_hash : bytes) : M SledStorage ContractError (option bytes) :=
  dev_get (SNAPSHOTS_TREE, block_hash).

Definition sled_load_latest_snapshot_bundle : M SledStorage ContractError (option (Block * bytes)) :=
  let* pointer := dev_get (META_TREE, LATEST_SNAPSHOT_KEY) in
  match pointer with
  | None => M_ret None
  | Some b =>
      if bool_decide (length b = 32%nat) then
        let* block := sled_load_block b in
        match block with
        | None => M_ret None
        | Some block =>
            let* state_bytes := sled_load_snapshot b in
            match state_bytes with
            | None => M_ret None
            | Some state_bytes => M_ret (Some (block, state_bytes))
            end
        end
      else M_ret None
  end.

#[export] Instance sled_storage : Storage SledStorage := {
  save_block := sled_save_block;
  load_block := sled_load_block;
  save_snapshot := sled_save_snapshot;
  load_snapshot := sled_load_snapshot;
  load_latest_snapshot_bundle := sled_load_latest_snapshot_bundle;
}.
End sled.

(** ** NvsStorage

    Keys of the flash storage have at most 15 characters, so that a hash does not fit:
    an entry is filed under a prefix, the first six bytes of the hash and the number
    of a slot, and holds the whole hash before the payload. *)

Definition HASH_BUCKET_BYTES : nat := 6.
Definition BLOCK_KEY_PREFIX : ascii := "b"%char.
Definition SNAPSHOT_KEY_PREFIX : ascii := "s"%char.
Definition NVS_LATEST_SNAPSHOT_KEY : string := "latest_snap".

(** [{byte:02x}] *)
Definition hex_digit (n : Z) : ascii :=
  Ascii.ascii_of_N (Z.to_N (if bool_decide (n < 10) then 48 + n else 87 + n)).
Definition hex_byte (b : byte) : list ascii :=
  [hex_digit (byte_to_Z b / 16); hex_digit (byte_to_Z b mod 16)].

Section nvs.
Context `{Crypto, !Postcard Block}.

Definition NvsStorage : Type := Device string.

#[export] Instance nvs_stops : Stops NvsStorage := device_stops.

Definition slot_key (prefix : ascii) (h : bytes) (slot : byte) : string :=
  String.string_of_list_ascii
    ([prefix] ++ flat_map hex_byte (take HASH_BUCKET_BYTES h) ++ hex_byte slot).

(** [len], then [get_raw] into a buffer of that length *)
Definition read_blob (key : string) : M NvsStorage ContractError (option bytes) :=
  let* len := dev_get key in
  match len with
  | None => M_ret None
  | Some _ => dev_get key
  end.

Definition write_blob (key : string) (b : bytes) : M NvsStorage ContractError unit := dev_put key b.

Definition encode_envelope (h payload : bytes) : bytes := h ++ payload.

(** The loop of [load_hashed_blob] over the slots that are left. *)
Fixpoint load_slots (prefix : ascii) (h : bytes) (slots : list byte) :
    M NvsStorage ContractError (option bytes) :=
  match slots with
  | [] => M_ret None
  | slot :: slots =>
      let* found := read_blob (slot_key prefix h slot) in
      match found with
      | None => load_slots prefix h slots
      | Some buffer =>
          if bool_decide (length buffer < length h)%nat then M_fail ContractStorage
          else if bool_decide (take (length h) buffer = h) then M_ret (Some (drop (length h) buffer))
          else load_slots prefix h slots
      end
  end.

(** The loop of [save_hashed_blob]. *)
Fixpoint save_slots (prefix : ascii) (h encoded : bytes) (slots : list byte) :
    M NvsStorage ContractError unit :=
  match slots with
  | [] => M_fail ContractStorage
  | slot :: slots =>
      let key := slot_key prefix h slot in
      let* found := read_blob key in
      match found with
      | Some buffer =>
          if bool_decide (length buffer < length h)%nat then M_fail ContractStorage
          else if bool_decide (take (length h) buffer = h) then write_blob key encoded
          else save_slots prefix h encoded slots
      | None => write_blob key encoded
      end
  end.

(** [u8::MIN..=u8::MAX] *)
Definition all_slots : list byte := map byte_of_Z (seqZ 0 256).

Definition load_hashed_blob (prefix : ascii) (h : bytes) : M NvsStorage ContractError (option bytes) :=
  load_slots prefix h all_slots.

Definition save_hashed_blob (prefix : ascii) (h payload : bytes) : M NvsStorage ContractError unit :=
  save_slots prefix h (encode_envelope h payload) all_slots.

Definition read_hash_key (key : string) : M NvsStorage ContractError (option bytes) :=
  let* found := read_blob key in
  match found with
  | None => M_ret None
  | Some b => if bool_decide (length b ≠ 32%nat) then M_fail ContractStorage else M_ret (Some b)
  end.

Definition write_hash_key (key : string) (h : bytes) : M NvsStorage ContractError unit := write_blob key h.

Definition nvs_save_block (block : Block) : M NvsStorage ContractError unit :=
  let block_hash := hash block in
  match to_allocvec block with
  | None => M_fail ContractStorage
  | Some block_bytes => save_hashed_blob BLOCK_KEY_PREFIX block_hash block_bytes
  end.

Definition nvs_load_block (h : bytes) : M NvsStorage ContractError (option Block) :=
  let* found := load_hashed_blob BLOCK_KEY_PREFIX h in
  match found with
  | None => M_ret None
  | Some block_bytes =>
      match postcard_from_bytes block_bytes with
      | None => M_fail ContractStorage
      | Some block =>
          if bool_decide (hash (A:=Block) block ≠ h) then M_fail ContractStorage else M_ret (Some block)
      end
  end.

Definition nvs_save_snapshot (block_hash state_bytes : bytes) : M NvsStorage ContractError unit :=
  let* _ := save_hashed_blob SNAPSHOT_KEY_PREFIX block_hash state_bytes in
  write_hash_key NVS_LATEST_SNAPSHOT_KEY block_hash.

Definition nvs_load_snapshot (block_hash : bytes) : M NvsStorage ContractError (option bytes) :=
  load_hashed_blob SNAPSHOT_KEY_PREFIX block_hash.

(** Every failure means starting without a snapshot. *)
Definition nvs_load_latest_snapshot_bundle : M NvsStorage ContractError (option (Block * bytes)) :=
  let* pointer := M_catch (read_hash_key NVS_LATEST_SNAPSHOT_KEY) in
  match pointer with
  | Ok (Some block_hash) =>
      let* block := M_catch (nvs_load_block block_hash) in
      match block with
      | Ok (Some block) =>
          let* state_bytes := M_catch (nvs_load_snapshot block_hash) in
          match state_bytes with
          | Ok (Some state_bytes) => M_ret (Some (block, state_bytes))
          | Ok None | Err _ => M_ret None
          end
      | Ok None | Err _ => M_ret None
      end
  | Ok None | Err _ => M_ret None
  end.

#[export] Instance nvs_storage : Storage NvsStorage := {
  save_block := nvs_save_block;
  load_block := nvs_load_block;
  save_snapshot := nvs_save_snapshot;
  load_snapshot := nvs_load_snapshot;
  load_latest_snapshot_bundle := nvs_load_latest_snapshot_bundle;
}.
End nvs.

(** ** StorageManager *)

Section manager.
Context `{Crypto} {S : Type} `{!Storage S}.

(** One round of [StorageManager::run]: the events to send, for the error type of the
    runtime.  An error ends the manager. *)
Definition storage_round {E} (contract : ContractError → E) (command : StorageCommand) :
    M S E (list RuntimeEvent) :=
  match command with
  | StLoadLatestSnapshot =>
      let* latest_snapshot := M_map_err contract load_latest_snapshot_bundle in
      let '(block, state_bytes) :=
        match latest_snapshot with
        | Some (block, state_bytes) => (Some block, Some state_bytes)
        | None => (None, None)
        end in
      M_ret [EvLatestSnapshotLoaded block state_bytes]
  | StLoadSnapshot block_hash =>
      let* state_bytes := M_map_err contract (load_snapshot block_hash) in
      M_ret [EvStorageLoaded block_hash state_bytes]
  | StPersistBlock block =>
      let* _ := M_map_err contract (save_block block) in
      M_ret []
  | StPersistSnapshot block_hash state_bytes =>
      let* _ := M_map_err contract (save_snapshot block_hash state_bytes) in
      M_ret []
  end.

Definition host_storage_round : StorageCommand → M S Host.RuntimeError (list RuntimeEvent) :=
  storage_round Host.Contract.
Definition erp_storage_round : StorageCommand → M S Erp.RuntimeError (list RuntimeEvent) :=
  storage_round Erp.Contract.

(** The loop, on the commands received one after the other. *)
Fixpoint storage_run (commands : list StorageCommand) : M S Host.RuntimeError (list RuntimeEvent) :=
  match commands with
  | [] => M_ret []
  | c :: commands =>
      let* evs := host_storage_round c in
      let* more := storage_run commands in
      M_ret (evs ++ more)
  end.
End manager.

(** ** The contract *)

Section contract.
Context `{Crypto}.

(** What a storage holds: what a load that meets no fault returns for each hash. *)
Record view : Type := mkView {
  v_block : bytes → result (option Block) ContractError;
  v_snapshot : bytes → result (option bytes) ContractError;
  v_latest : option bytes;
}.

(** Two views that no load tells apart (hashes are 32 bytes long). *)
Definition same_view (v w : view) : Prop :=
  (∀ h, length h = 32%nat → v_block v h = v_block w h) ∧
  (∀ h, length h = 32%nat → v_snapshot v h = v_snapshot w h) ∧
  v_latest v = v_latest w.

#[global] Instance same_view_equivalence : Equivalence same_view.
Proof.
  split.
  - by intros v.
  - intros v w (? & ? & ?). split_and!; naive_solver.
  - intros u v w (H1 & H2 & H3) (H4 & H5 & H6). split_and!; [| |congruence]; intros h Hh.
    + by rewrite H1, H4.
    + by rewrite H2, H5.
Qed.

Definition put_block (b : Block) (v : view) : view :=
  mkView (λ h, if decide (h = hash b) then Ok (Some b) else v_block v h) (v_snapshot v) (v_latest v).
Definition put_snapshot (h bs : bytes) (v : view) : view :=
  mkView (v_block v) (λ h', if decide (h' = h) then Ok (Some bs) else v_snapshot v h') (v_latest v).
Definition put_latest (h : bytes) (v : view) : view :=
  mkView (v_block v) (v_snapshot v) (Some h).

#[global] Instance put_block_proper b : Proper (same_view ==> same_view) (put_block b).
Proof. intros v w (H1 & H2 & H3). split_and!; simpl; [|done..]. intros h Hh. case_decide; auto. Qed.
#[global] Instance put_snapshot_proper h bs : Proper (same_view ==> same_view) (put_snapshot h bs).
Proof. intros v w (H1 & H2 & H3). split_and!; simpl; [done| |done]. intros h' Hh. case_decide; auto. Qed.
#[global] Instance put_latest_proper h : Proper (same_view ==> same_view) (put_latest h).
Proof. intros v w (H1 & H2 & H3). by split_and!. Qed.

(** The block and the snapshot under the pointer, when both are there. *)
Definition latest_is (v : view) (o : option (Block * bytes)) : Prop :=
  match v_latest v with
  | None => o = None
  | Some h => ∀ b bs, length h = 32%nat → v_block v h = Ok (Some b) → v_snapshot v h = Ok (Some bs) → o = Some (b, bs)
  end.

(** What a storage promises.  A save that succeeds takes effect, changes nothing else and
    is settled; one that fails or is cut short may have taken effect in part: the snapshot
    before the pointer to it, never the pointer before the snapshot.  Loads change nothing,
    and when they return they return what is there, as long as the storage is healthy (the
    flash storage takes a failing read for an absent value). *)
Class StorageLaws (S : Type) `{!Storage S, !Stops S} (view_of : S → view) (healthy : S → Prop) : Prop := {
  save_block_view b s s' r : save_block b s = (s', r) →
    (same_view (view_of s') (view_of s) ∨ same_view (view_of s') (put_block b (view_of s))) ∧
    (r = Ok tt → same_view (view_of s') (put_block b (view_of s)));
  save_snapshot_view h bs s s' r : length h = 32%nat → save_snapshot h bs s = (s', r) →
    (same_view (view_of s') (view_of s) ∨ same_view (view_of s') (put_snapshot h bs (view_of s)) ∨
     same_view (view_of s') (put_latest h (put_snapshot h bs (view_of s)))) ∧
    (r = Ok tt → same_view (view_of s') (put_latest h (put_snapshot h bs (view_of s))));
  load_snapshot_view h s s' r : load_snapshot h s = (s', r) → view_of s' = view_of s;
  load_latest_view s s' r : load_latest_snapshot_bundle s = (s', r) → view_of s' = view_of s;
  healthy_save_block b s : healthy s → healthy (save_block b s).1;
  healthy_save_snapshot h bs s : healthy s → healthy (save_snapshot h bs s).1;
  healthy_load_snapshot h s s' o : healthy s → load_snapshot h s = (s', Ok o) →
    healthy s' ∧ v_snapshot (view_of s) h = Ok o;
  healthy_load_latest s s' o : healthy s → load_latest_snapshot_bundle s = (s', Ok o) →
    healthy s' ∧ latest_is (view_of s) o;
  save_block_settled b s s' : settled s → save_block b s = (s', Ok tt) → settled s';
  save_snapshot_settled h bs s s' : settled s → save_snapshot h bs s = (s', Ok tt) → settled s';
  load_snapshot_settled h s s' r : settled s → load_snapshot h s = (s', r) → settled s';
  load_latest_settled s s' r : settled s → load_latest_snapshot_bundle s = (s', r) → settled s';
  settled_stopped s s' : settled s → stopped s s' → view_of s' = view_of s;
  save_block_stopped b s s' r s'' : settled s → save_block b s = (s', r) → stopped s' s'' →
    same_view (view_of s'') (view_of s) ∨ same_view (view_of s'') (put_block b (view_of s));
  save_snapshot_stopped h bs s s' r s'' : length h = 32%nat → settled s → save_snapshot h bs s = (s', r) →
    stopped s' s'' →
    same_view (view_of s'') (view_of s) ∨ same_view (view_of s'') (put_snapshot h bs (view_of s)) ∨
    same_view (view_of s'') (put_latest h (put_snapshot h bs (view_of s)));
  stopped_ready s0 s : stopped s0 s → healthy s ∧ settled s;
  stopped_load_latest s0 s h b bs : stopped s0 s → v_latest (view_of s) = Some h → length h = 32%nat →
    v_block (view_of s) h = Ok (Some b) → v_snapshot (view_of s) h = Ok (Some bs) →
    load_latest_snapshot_bundle s = (s, Ok (Some (b, bs)));
  stopped_load_none s0 s : stopped s0 s → v_latest (view_of s) = None →
    load_latest_snapshot_bundle s = (s, Ok None);
  disturbed_view s s' : disturbed s s' → view_of s' = view_of s;
  disturbed_settled s s' : disturbed s s' → settled s → settled s';
}.
End contract.

(** ** Devices *)

Section devices.
Context `{Countable K}.
Implicit Types d : Device K.

Lemma cells_device (c : gmap K bytes) : cells (device c) = c.
Proof. done. Qed.

Lemma replay_snoc ws k v (c : gmap K bytes) : replay (ws ++ [(k, v)]) c = <[k := v]> (replay ws c).
Proof. unfold replay. by rewrite foldl_app. Qed.

Lemma dev_try_raw d d' r :
  dev_try d = (d', r) →
  synced d' = synced d ∧ unsynced d' = unsynced d ∧ (r = Ok tt ∨ r = Err ContractStorage).
Proof. unfold dev_try. destruct (faults d) as [|[] fs]; intros [= <- <-]; auto. Qed.

Lemma dev_get_raw k d d' r :
  dev_get k d = (d', r) →
  synced d' = synced d ∧ unsynced d' = unsynced d ∧ (r = Ok (cells d !! k) ∨ r = Err ContractStorage).
Proof.
  intros [(e & (-> & -> & Ht)%dev_try_raw & ->)|(d1 & [] & (Hs & Hu & _)%dev_try_raw & [= <- <-])]%M_bind_cases.
  - destruct Ht; naive_solver.
  - unfold cells. rewrite Hs, Hu. auto.
Qed.

Lemma dev_set_raw k v d d' r :
  dev_set k v d = (d', r) →
  synced d' = synced d ∧
  (r = Ok tt ∧ unsynced d' = unsynced d ++ [(k, v)] ∨ r = Err ContractStorage ∧ unsynced d' = unsynced d).
Proof.
  intros [(e & (-> & -> & Ht)%dev_try_raw & ->)|(d1 & [] & (Hs & Hu & _)%dev_try_raw & [= <- <-])]%M_bind_cases.
  - destruct Ht; naive_solver.
  - simpl. rewrite Hs, Hu. auto.
Qed.

Lemma dev_flush_raw d d' r :
  dev_flush d = (d', r) →
  (r = Ok tt ∧ synced d' = cells d ∧ unsynced d' = []) ∨
  (r = Err ContractStorage ∧ synced d' = synced d ∧ unsynced d' = unsynced d).
Proof.
  intros [(e & (-> & -> & Ht)%dev_try_raw & ->)|(d1 & [] & (Hs & Hu & _)%dev_try_raw & [= <- <-])]%M_bind_cases.
  - destruct Ht; naive_solver.
  - left. unfold cells. simpl. by rewrite Hs, Hu.
Qed.

Lemma dev_put_raw k v d d' r :
  dev_put k v d = (d', r) →
  (r = Ok tt ∧ synced d' = <[k := v]> (cells d) ∧ unsynced d' = []) ∨
  (r = Err ContractStorage ∧ synced d' = synced d ∧ unsynced d' = unsynced d).
Proof.
  intros [(e & (-> & -> & Ht)%dev_try_raw & ->)|(d1 & [] & (Hs & Hu & _)%dev_try_raw & [= <- <-])]%M_bind_cases.
  - destruct Ht; naive_solver.
  - left. unfold cells. simpl. by rewrite Hs, Hu.
Qed.

(** The same, in terms of what the process reads. *)
Lemma dev_get_cases k d d' r :
  dev_get k d = (d', r) → cells d' = cells d ∧ (r = Ok (cells d !! k) ∨ r = Err ContractStorage).
Proof. intros (Hs & Hu & Hr)%dev_get_raw. unfold cells. by rewrite Hs, Hu. Qed.

Lemma dev_set_cases k v d d' r :
  dev_set k v d = (d', r) →
  (r = Ok tt ∧ cells d' = <[k := v]> (cells d)) ∨ (r = Err ContractStorage ∧ cells d' = cells d).
Proof. intros [Hs [[-> Hu]|[-> Hu]]]%dev_set_raw; unfold cells; rewrite Hs, Hu, ?replay_snoc; auto. Qed.

Lemma dev_flush_cases d d' r :
  dev_flush d = (d', r) → cells d' = cells d ∧ (r = Ok tt → unsynced d' = []).
Proof. intros [(-> & Hs & Hu)|(-> & Hs & Hu)]%dev_flush_raw; unfold cells; by rewrite Hs, Hu. Qed.

Lemma dev_put_cases k v d d' r :
  dev_put k v d = (d', r) →
  (r = Ok tt ∧ cells d' = <[k := v]> (cells d)) ∨ (r = Err ContractStorage ∧ cells d' = cells d).
Proof. intros [(-> & Hs & Hu)|(-> & Hs & Hu)]%dev_put_raw; unfold cells; rewrite Hs, Hu; auto. Qed.

Lemma dev_get_calm k d : faults d = [] → dev_get k d = (d, Ok (cells d !! k)).
Proof. destruct d as [c u f]. simpl. by intros ->. Qed.

Lemma dev_put_calm k v d : faults d = [] → dev_put k v d = (device (<[k := v]> (cells d)), Ok tt).
Proof. destruct d as [c u f]. simpl. by intros ->. Qed.

(** What a process that starts finds, after one that had nothing to flush. *)
Lemma stopped_settled d d' : settled d → stopped d d' → d' = device (cells d).
Proof. intros Hd (ws & Hp & ->). unfold settled in Hd. simpl in Hd. rewrite Hd in *. apply prefix_nil_inv in Hp as ->. unfold cells. by rewrite Hd. Qed.
End devices.

(** ** The sled database keeps the contract *)

Section sled_laws.
Context `{Crypto, !CryptoLaws, !Postcard Block, !PostcardRoundtrip Block}.

Lemma tree_ne (t1 t2 : string) (k1 k2 : bytes) : t1 ≠ t2 → (t1, k1) ≠ (t2, k2).
Proof. congruence. Qed.

Definition sled_view (d : SledStorage) : view :=
  mkView (λ h, (sled_load_block h (device (cells d))).2) (λ h, (sled_load_snapshot h (device (cells d))).2)
    (cells d !! (META_TREE, LATEST_SNAPSHOT_KEY)).

(** An operation that fails is reported, so that any device will do. *)
Definition sled_healthy (d : SledStorage) : Prop := True.

(** What the loads see, as a function of the contents. *)
Definition sled_block_at (c : gmap (string * bytes) bytes) (h : bytes) : result (option Block) ContractError :=
  match c !! (BLOCKS_TREE, h) with
  | None => Ok None
  | Some block_bytes =>
      match postcard_from_bytes block_bytes with
      | None => Err ContractStorage
      | Some block => if bool_decide (hash (A:=Block) block ≠ h) then Err ContractStorage else Ok (Some block)
      end
  end.

Lemma sled_load_block_calm h d :
  faults d = [] → sled_load_block h d = (d, sled_block_at (cells d) h).
Proof.
  intros Hf. unfold sled_load_block, sled_block_at, M_bind. rewrite dev_get_calm by done.
  destruct (cells d !! _) as [bb|]; [|done]. destruct (postcard_from_bytes bb) as [b|]; [|done].
  by case_bool_decide.
Qed.

Lemma sled_view_block d h : v_block (sled_view d) h = sled_block_at (cells d) h.
Proof. simpl. by rewrite sled_load_block_calm. Qed.

Lemma sled_view_cells d d' : cells d' = cells d → sled_view d' = sled_view d.
Proof. intros E. unfold sled_view. by rewrite E. Qed.

Lemma sled_view_snapshot d h : v_snapshot (sled_view d) h = Ok (cells d !! (SNAPSHOTS_TREE, h)).
Proof. done. Qed.

Lemma sled_put_block b bb d d' :
  to_allocvec b = Some bb → cells d' = <[(BLOCKS_TREE, hash b) := bb]> (cells d) →
  same_view (sled_view d') (put_block b (sled_view d)).
Proof.
  intros Hb Hc. split_and!.
  - intros h _. rewrite sled_view_block. unfold put_block. cbn [v_block].
    rewrite sled_view_block, Hc. unfold sled_block_at.
    destruct (decide (h = hash b)) as [->|Hne].
    + rewrite lookup_insert_eq, (postcard_from_to _ _ Hb). by rewrite bool_decide_false by naive_solver.
    + by rewrite lookup_insert_ne by naive_solver.
  - intros h _. unfold put_block. cbn [v_snapshot]. rewrite !sled_view_snapshot, Hc.
    by rewrite lookup_insert_ne by (by apply tree_ne).
  - simpl. by rewrite Hc, lookup_insert_ne by (by apply tree_ne).
Qed.

Lemma sled_put_snapshot h bs d d' :
  cells d' = <[(SNAPSHOTS_TREE, h) := bs]> (cells d) →
  same_view (sled_view d') (put_snapshot h bs (sled_view d)).
Proof.
  intros Hc. split_and!.
  - intros h' _. unfold put_snapshot. cbn [v_block]. rewrite !sled_view_block, Hc.
    unfold sled_block_at. by rewrite lookup_insert_ne by (by apply tree_ne).
  - intros h' _. unfold put_snapshot. cbn [v_snapshot]. rewrite !sled_view_snapshot, Hc. case_decide as Hd.
    + subst. by rewrite lookup_insert_eq.
    + by rewrite lookup_insert_ne by naive_solver.
  - simpl. by rewrite Hc, lookup_insert_ne by (by apply tree_ne).
Qed.

Lemma sled_put_latest h d d' :
  cells d' = <[(META_TREE, LATEST_SNAPSHOT_KEY) := h]> (cells d) →
  same_view (sled_view d') (put_latest h (sled_view d)).
Proof.
  intros Hc. split_and!.
  - intros h' _. unfold put_latest. cbn [v_block]. rewrite !sled_view_block, Hc.
    unfold sled_block_at. by rewrite lookup_insert_ne by (by apply tree_ne).
  - intros h' _. unfold put_latest. cbn [v_snapshot]. rewrite !sled_view_snapshot, Hc.
    by rewrite lookup_insert_ne by (by apply tree_ne).
  - simpl. by rewrite Hc, lookup_insert_eq.
Qed.

Lemma sled_load_block_cells h d d' r : sled_load_block h d = (d', r) → cells d' = cells d.
Proof.
  unfold sled_load_block.
  intros [(e & [Hc _]%dev_get_cases & _)|(d1 & o & [Hc _]%dev_get_cases & Hr)]%M_bind_cases; [done|].
  destruct o as [bb|]; [destruct (postcard_from_bytes bb); [case_bool_decide|]|];
    by injection Hr as <- <-.
Qed.

Lemma sled_load_latest_cells d d' r : sled_load_latest_snapshot_bundle d = (d', r) → cells d' = cells d.
Proof.
  unfold sled_load_latest_snapshot_bundle.
  intros [(e & [Hc _]%dev_get_cases & ->)|(d1 & p & [Hc _]%dev_get_cases & Hr)]%M_bind_cases; [done|].
  destruct p as [p|]; [|by injection Hr as <- <-].
  case_bool_decide; [|by injection Hr as <- <-].
  apply M_bind_cases in Hr as [(e & Hb%sled_load_block_cells & ->)|(d2 & ob & Hb%sled_load_block_cells & Hr)];
    [congruence|].
  destruct ob as [b|]; [|injection Hr as <- <-; congruence].
  apply M_bind_cases in Hr as [(e & [Hs _]%dev_get_cases & ->)|(d3 & os & [Hs _]%dev_get_cases & Hr)];
    [congruence|]. destruct os; injection Hr as <- <-; congruence.
Qed.

(** What is left to flush. *)
Definition same_writes (d d' : SledStorage) : Prop := synced d' = synced d ∧ unsynced d' = unsynced d.

#[local] Instance same_writes_preorder : PreOrder same_writes.
Proof. split; unfold same_writes; [done|]. intros d1 d2 d3 [] []. split; congruence. Qed.

Lemma sled_load_block_writes h d d' r : sled_load_block h d = (d', r) → same_writes d d'.
Proof.
  unfold sled_load_block.
  intros [(e & (Hs & Hu & _)%dev_get_raw & _)|(d1 & o & (Hs & Hu & _)%dev_get_raw & Hr)]%M_bind_cases; [done|].
  destruct o as [bb|]; [destruct (postcard_from_bytes bb); [case_bool_decide|]|];
    by injection Hr as <- <-.
Qed.

Lemma sled_load_latest_writes d d' r : sled_load_latest_snapshot_bundle d = (d', r) → same_writes d d'.
Proof.
  unfold sled_load_latest_snapshot_bundle.
  intros [(e & (Hs & Hu & _)%dev_get_raw & ->)|(d1 & p & (Hs & Hu & _)%dev_get_raw & Hr)]%M_bind_cases; [done|].
  transitivity d1; [done|].
  destruct p as [p|]; [|by injection Hr as <- <-].
  case_bool_decide; [|by injection Hr as <- <-].
  apply M_bind_cases in Hr as [(e & Hb%sled_load_block_writes & ->)|(d2 & ob & Hb%sled_load_block_writes & Hr)]; [done|].
  transitivity d2; [done|]. destruct ob as [b|]; [|by injection Hr as <- <-].
  apply M_bind_cases in Hr as [(e & (? & ? & _)%dev_get_raw & ->)|(d3 & os & (? & ? & _)%dev_get_raw & Hr)]; [done|].
  destruct os; by injection Hr as <- <-.
Qed.

Lemma same_writes_cells d d' : same_writes d d' → cells d' = cells d.
Proof. intros [Hs Hu]. unfold cells. by rewrite Hs, Hu. Qed.

(** What a load returns, when it does. *)
Lemma sled_load_block_Ok h d d' ob : sled_load_block h d = (d', Ok ob) → sled_block_at (cells d) h = Ok ob.
Proof.
  unfold sled_load_block, sled_block_at. intros (d1 & o & [_ [[= ->]|?]]%dev_get_cases & Hr)%M_bind_Ok; [|done].
  unfold M_ret, M_fail in Hr.
  destruct (cells d !! _) as [bb|]; [destruct (postcard_from_bytes bb); [case_bool_decide|]|]; by simplify_eq.
Qed.

Lemma sled_load_latest_Ok d d' o : sled_load_latest_snapshot_bundle d = (d', Ok o) → latest_is (sled_view d) o.
Proof.
  unfold sled_load_latest_snapshot_bundle, latest_is. cbn [v_latest sled_view].
  intros (d1 & p & (Hs & Hu & [[= ->]|?])%dev_get_raw & Hr)%M_bind_Ok; [|done].
  pose proof (same_writes_cells d d1 (conj Hs Hu)) as Hc.
  destruct (cells d !! _) as [h|]; [|by injection Hr].
  intros b bs Hh. rewrite sled_view_block. intros Hb Hsn. rewrite bool_decide_true in Hr by done.
  apply M_bind_Ok in Hr as (d2 & ob & Hl & Hr). pose proof (sled_load_block_writes _ _ _ _ Hl) as Hw%same_writes_cells.
  apply sled_load_block_Ok in Hl. rewrite Hc, Hb in Hl. injection Hl as <-.
  apply M_bind_Ok in Hr as (d3 & os & [_ [[= ->]|?]]%dev_get_cases & Hr); [|done].
  rewrite Hw, Hc in Hr. rewrite sled_view_snapshot in Hsn. injection Hsn as Hsn. rewrite Hsn in Hr. by injection Hr.
Qed.

(** The writes of a save that are not flushed yet, and one that is complete. *)
Lemma sled_save_block_writes b d d' r :
  sled_save_block b d = (d', r) → settled d →
  (r = Ok tt → settled d') ∧
  ∀ d'', stopped d' d'' →
    cells d'' = cells d ∨ ∃ bb, to_allocvec b = Some bb ∧ cells d'' = <[(BLOCKS_TREE, hash b) := bb]> (cells d).
Proof.
  intros Hr Hd. unfold sled_save_block in Hr. destruct (to_allocvec b) as [bb|].
  2:{ injection Hr as <- <-. split; [done|]. intros d'' ->%stopped_settled; [|done]. by left. }
  assert (cells d = synced d) as Hcd by (unfold cells; by rewrite Hd).
  apply M_bind_cases in Hr as [(e & (Hs & [[? _]|[_ Hu]])%dev_set_raw & ->)|(d1 & [] & (Hs & [[_ Hu]|[? _]])%dev_set_raw & Hf)];
    [done| | |done].
  - assert (settled d') as Hd' by (simpl; congruence). split; [done|]. intros d'' ->%stopped_settled; [|done].
    left. rewrite cells_device, Hcd, <-Hs. unfold cells. by rewrite Hd'.
  - unfold settled in Hd. simpl in Hd. rewrite Hd in Hu.
    apply dev_flush_raw in Hf as [(-> & Hs2 & Hu2)|(-> & Hs2 & Hu2)].
    + split; [done|]. intros d'' ->%stopped_settled; [|done]. right. exists bb. split; [done|].
      rewrite cells_device. unfold cells at 1. rewrite Hu2, Hs2. unfold cells at 1. by rewrite Hu, Hs, Hcd.
    + split; [done|]. rewrite Hu in Hu2. rewrite Hs in Hs2. intros d'' (ws & Hp & ->). rewrite Hu2 in Hp. rewrite Hs2, Hcd.
      destruct ws as [|w ws]; [by left|right]. apply prefix_cons_inv_1 in Hp as Hw. subst w.
      apply prefix_cons_inv_2, prefix_nil_inv in Hp as ->. by exists bb.
Qed.

Lemma prefix_of_two {A} (l : list A) x y : l `prefix_of` [x; y] → l = [] ∨ l = [x] ∨ l = [x; y].
Proof.
  intros Hp. destruct l as [|a l]; [auto|]. apply prefix_cons_inv_1 in Hp as Ha. subst a.
  apply prefix_cons_inv_2 in Hp. destruct l as [|a l]; [auto|]. apply prefix_cons_inv_1 in Hp as Ha. subst a.
  apply prefix_cons_inv_2, prefix_nil_inv in Hp as ->. auto.
Qed.

(** The two writes of a snapshot. *)
Definition snapshot_writes (h bs : bytes) : list ((string * bytes) * bytes) :=
  [((SNAPSHOTS_TREE, h), bs); ((META_TREE, LATEST_SNAPSHOT_KEY), h)].

Lemma sled_save_snapshot_writes h bs d d' r :
  sled_save_snapshot h bs d = (d', r) → settled d →
  (r = Ok tt → settled d') ∧
  ∀ d'', stopped d' d'' → ∃ ws, ws `prefix_of` snapshot_writes h bs ∧ cells d'' = replay ws (cells d).
Proof.
  intros Hr Hd. assert (cells d = synced d) as Hcd by (unfold cells; by rewrite Hd). unfold settled in Hd. simpl in Hd.
  assert ((r = Ok tt ∧ synced d' = replay (snapshot_writes h bs) (synced d) ∧ unsynced d' = []) ∨
    r ≠ Ok tt ∧ synced d' = synced d ∧ unsynced d' `prefix_of` snapshot_writes h bs) as Hw.
  { unfold sled_save_snapshot in Hr.
    apply M_bind_cases in Hr as [(e & (Hs & [[? _]|[_ Hu]])%dev_set_raw & ->)|(d1 & [] & (Hs & [[_ Hu]|[? _]])%dev_set_raw & Hr)];
      [done|right; split_and!; [done..|]; rewrite Hu, Hd; apply prefix_nil| |done].
    apply M_bind_cases in Hr as [(e & (Hs2 & [[? _]|[_ Hu2]])%dev_set_raw & ->)|(d2 & [] & (Hs2 & [[_ Hu2]|[? _]])%dev_set_raw & Hr)];
      [done|right; split_and!; [done|congruence|]; rewrite Hu2, Hu, Hd; by eexists| |done].
    rewrite Hu, Hd in Hu2. rewrite Hs in Hs2.
    apply dev_flush_raw in Hr as [(-> & Hs3 & Hu3)|(-> & Hs3 & Hu3)].
    - left. split_and!; [done| |done]. rewrite Hs3. unfold cells. by rewrite Hu2, Hs2.
    - right. split_and!; [done|congruence|]. rewrite Hu3, Hu2. done. }
  destruct Hw as [(-> & Hs & Hu)|(Hne & Hs & Hp)].
  - split; [done|]. intros d'' ->%stopped_settled; [|done]. exists (snapshot_writes h bs). split; [done|].
    rewrite cells_device. unfold cells. by rewrite Hu, Hs, Hd.
  - split; [done|]. intros d'' (ws & Hws & ->). exists ws. split; [by etrans|]. by rewrite Hs, Hcd.
Qed.

#[export] Instance sled_laws : StorageLaws SledStorage sled_view sled_healthy.
Proof.
  split; try done.
  - intros b d d' r. cbn [save_block sled_storage]. unfold sled_save_block.
    destruct (to_allocvec b) as [bb|] eqn:Hb.
    2:{ intros [= <- <-]. by split; [left|]. }
    intros [(e & Hs & ->)|(d1 & [] & Hs & Hf)]%M_bind_cases; apply dev_set_cases in Hs.
    + destruct Hs as [[? _]|[_ Hc]]; [done|]. rewrite (sled_view_cells _ _ Hc). by split; [left|].
    + destruct Hs as [[_ Hc]|[? _]]; [|done]. apply dev_flush_cases in Hf as [Hc' _].
      rewrite <-Hc' in Hc. pose proof (sled_put_block b bb d d' Hb Hc). auto.
  - intros h bs d d' r _. cbn [save_snapshot sled_storage]. unfold sled_save_snapshot.
    intros [(e & Hs & ->)|(d1 & [] & Hs & Hr)]%M_bind_cases; apply dev_set_cases in Hs.
    { destruct Hs as [[? _]|[_ Hc]]; [done|]. rewrite (sled_view_cells _ _ Hc). by split; [left|]. }
    destruct Hs as [[_ Hc]|[? _]]; [|done]. pose proof (sled_put_snapshot h bs d d1 Hc) as H1.
    apply M_bind_cases in Hr as [(e & Hs & ->)|(d2 & [] & Hs & Hf)]; apply dev_set_cases in Hs.
    + destruct Hs as [[? _]|[_ Hc2]]; [done|]. rewrite (sled_view_cells _ _ Hc2). by split; [right; left|].
    + destruct Hs as [[_ Hc2]|[? _]]; [|done]. apply dev_flush_cases in Hf as [Hc' _].
      rewrite <-Hc' in Hc2. pose proof (sled_put_latest h d1 d' Hc2) as H2. rewrite H1 in H2. auto.
  - intros h d d' r [Hc _]%dev_get_cases. by apply sled_view_cells.
  - intros d d' r Hr. by eapply sled_view_cells, sled_load_latest_cells.
  - intros h d d' o _ [_ [[= ->]|?]]%dev_get_cases; [|done]. done.
  - intros d d' o _ Hr. split; [done|]. by eapply sled_load_latest_Ok.
  - intros b d d' Hd Hr. by apply (sled_save_block_writes b d d' (Ok tt)).
  - intros h bs d d' Hd Hr. by apply (sled_save_snapshot_writes h bs d d' (Ok tt)).
  - intros h d d' r Hd (_ & Hu & _)%dev_get_raw. simpl. by rewrite Hu.
  - intros d d' r Hd [_ Hu]%sled_load_latest_writes. simpl. by rewrite Hu.
  - intros d d' Hd ->%stopped_settled; [|done]. by apply sled_view_cells.
  - intros b d d' r d'' Hd Hr Hst. destruct (sled_save_block_writes _ _ _ _ Hr Hd) as [_ Hs].
    destruct (Hs d'' Hst) as [Hc|(bb & Hb & Hc)]; [left; by rewrite (sled_view_cells _ _ Hc)|right].
    by eapply sled_put_block.
  - intros h bs d d' r d'' _ Hd Hr Hst. destruct (sled_save_snapshot_writes _ _ _ _ _ Hr Hd) as [_ Hs].
    destruct (Hs d'' Hst) as (ws & [->|[->| ->]]%prefix_of_two & Hc); [left|right; left|right; right].
    + by rewrite (sled_view_cells _ _ Hc).
    + by apply sled_put_snapshot.
    + rewrite <-(sled_put_snapshot h bs d (device (<[(SNAPSHOTS_TREE, h) := bs]> (cells d)))) by done.
      by apply sled_put_latest.
  - intros d0 d (ws & _ & ->). done.
  - intros d0 d h b bs (ws & _ & ->) Hl Hh Hb Hs. cbn [load_latest_snapshot_bundle sled_storage].
    unfold sled_load_latest_snapshot_bundle, M_bind. rewrite dev_get_calm by done.
    simpl in Hl. rewrite Hl, bool_decide_true by done. rewrite sled_load_block_calm by done.
    rewrite sled_view_block in Hb. rewrite Hb. unfold sled_load_snapshot. rewrite dev_get_calm by done.
    rewrite sled_view_snapshot in Hs. by injection Hs as ->.
  - intros d0 d (ws & _ & ->) Hl. cbn [load_latest_snapshot_bundle sled_storage].
    unfold sled_load_latest_snapshot_bundle, M_bind. rewrite dev_get_calm by done.
    simpl in Hl. by rewrite Hl.
  - intros d d' [Hs Hu]. apply sled_view_cells. unfold cells. by rewrite Hs, Hu.
  - intros d d' [Hs Hu] Hd. simpl. by rewrite Hu.
Qed.
End sled_laws.

(** ** The flash storage keeps the contract

    The slots of a bucket work like a chained hash table: a hash is filed in the first
    slot that is free or already holds it, and every slot is searched for it. *)

Section slot_keys.
Definition undigit (a : ascii) : Z :=
  let n := Z.of_N (Ascii.N_of_ascii a) in if bool_decide (n < 58) then n - 48 else n - 87.

Lemma undigit_hex n : 0 ≤ n < 16 → undigit (hex_digit n) = n.
Proof.
  intros Hn. unfold undigit, hex_digit.
  destruct (decide (n < 10)); [rewrite (bool_decide_true (n < 10)) by done
    |rewrite (bool_decide_false (n < 10)) by done];
    rewrite Ascii.N_ascii_embedding by lia; rewrite Z2N.id by lia; case_bool_decide; lia.
Qed.

#[global] Instance hex_byte_inj : Inj (=) (=) hex_byte.
Proof.
  intros a b E. injection E as E1 E2. apply (f_equal undigit) in E1, E2.
  pose proof (byte_to_Z_bound a). pose proof (byte_to_Z_bound b).
  pose proof (Z.mod_pos_bound (byte_to_Z a) 16 ltac:(lia)).
  pose proof (Z.mod_pos_bound (byte_to_Z b) 16 ltac:(lia)).
  assert (∀ z, 0 ≤ z < 256 → 0 ≤ z / 16 < 16) as Hdiv.
  { intros z Hz. split; [apply Z.div_pos; lia|apply Z.div_lt_upper_bound; lia]. }
  rewrite !undigit_hex in E1 by auto. rewrite !undigit_hex in E2 by lia.
  apply (inj byte_to_Z). pose proof (Z_div_mod_eq_full (byte_to_Z a) 16).
  pose proof (Z_div_mod_eq_full (byte_to_Z b) 16). lia.
Qed.

Lemma length_hex_bytes l : length (flat_map hex_byte l) = (2 * length l)%nat.
Proof. induction l as [|b l IH]; simpl; [done|]. rewrite IH. lia. Qed.

(** Different prefixes or slots give different keys, and no key is the pointer's. *)
Lemma slot_key_inj p p' h h' s s' :
  length h = length h' → slot_key p h s = slot_key p' h' s' → p = p' ∧ s = s'.
Proof.
  intros Hl E. apply (f_equal String.list_ascii_of_string) in E. unfold slot_key in E.
  rewrite !String.list_ascii_of_string_of_list_ascii in E. simpl in E.
  injection E as -> E. split; [done|].
  apply app_inj_1 in E as [_ E]; [by apply (inj hex_byte)|].
  rewrite !length_hex_bytes, !length_take. lia.
Qed.

Lemma slot_key_latest p h s : p ≠ "l"%char → slot_key p h s ≠ NVS_LATEST_SNAPSHOT_KEY.
Proof.
  intros Hp E. apply (f_equal String.list_ascii_of_string) in E. unfold slot_key in E.
  rewrite String.list_ascii_of_string_of_list_ascii in E. simpl in E. by injection E as -> _.
Qed.

Lemma length_string_of_list l : String.length (String.string_of_list_ascii l) = length l.
Proof. induction l; simpl; congruence. Qed.

(** The 15 characters that NVS allows are enough. *)
Lemma length_slot_key p h s : (String.length (slot_key p h s) ≤ 15)%nat.
Proof.
  unfold slot_key, HASH_BUCKET_BYTES.
  rewrite length_string_of_list, !length_app, length_hex_bytes, length_take.
  change (length [p]) with 1%nat. change (length (hex_byte s)) with 2%nat. lia.
Qed.
End slot_keys.

Section nvs_laws.
Context `{Crypto, !CryptoLaws, !Postcard Block, !PostcardRoundtrip Block}.

(** What [load_hashed_blob] finds, as a function of the contents. *)
Fixpoint find_slots (c : gmap string bytes) (prefix : ascii) (h : bytes) (slots : list byte) :
    result (option bytes) ContractError :=
  match slots with
  | [] => Ok None
  | slot :: slots =>
      match c !! slot_key prefix h slot with
      | None => find_slots c prefix h slots
      | Some buffer =>
          if bool_decide (length buffer < length h)%nat then Err ContractStorage
          else if bool_decide (take (length h) buffer = h) then Ok (Some (drop (length h) buffer))
          else find_slots c prefix h slots
      end
  end.

Lemma read_blob_calm k (d : NvsStorage) : faults d = [] → read_blob k d = (d, Ok (cells d !! k)).
Proof.
  intros Hf. unfold read_blob, M_bind. rewrite dev_get_calm by done.
  destruct (cells d !! k) eqn:E; [|done]. by rewrite dev_get_calm, E.
Qed.

Lemma load_slots_calm prefix h slots (d : NvsStorage) :
  faults d = [] → load_slots prefix h slots d = (d, find_slots (cells d) prefix h slots).
Proof.
  intros Hf. induction slots as [|s slots IH]; [done|]. simpl. unfold M_bind.
  rewrite read_blob_calm by done. destruct (cells d !! _) as [buffer|]; [|done].
  case_bool_decide; [done|]. by case_bool_decide.
Qed.

Lemma read_blob_cases k (d d' : NvsStorage) r :
  read_blob k d = (d', r) → cells d' = cells d ∧ (r = Ok (cells d !! k) ∨ r = Err ContractStorage).
Proof.
  unfold read_blob. intros [(e & [Hc Hr]%dev_get_cases & ->)|(d1 & o & [Hc Ho]%dev_get_cases & Hr)]%M_bind_cases.
  - destruct Hr; naive_solver.
  - destruct Ho as [[= ->]|?]; [|done]. destruct (cells d !! k) eqn:E.
    + apply dev_get_cases in Hr as [Hc' Hr]. rewrite Hc in *. by rewrite E in Hr.
    + injection Hr as <- <-. auto.
Qed.

(** A save takes effect in the first slot that is free or holds the hash, after slots
    that hold other hashes; or it fails and changes nothing. *)
Definition holds_other (c : gmap string bytes) (prefix : ascii) (h : bytes) (s : byte) : Prop :=
  ∃ buffer, c !! slot_key prefix h s = Some buffer ∧ (length h ≤ length buffer)%nat ∧
            take (length h) buffer ≠ h.
Definition usable (c : gmap string bytes) (prefix : ascii) (h : bytes) (s : byte) : Prop :=
  ∀ buffer, c !! slot_key prefix h s = Some buffer →
    (length h ≤ length buffer)%nat ∧ take (length h) buffer = h.

Lemma save_slots_cases prefix h encoded slots (d d' : NvsStorage) r :
  save_slots prefix h encoded slots d = (d', r) →
  (cells d' = cells d ∧ r ≠ Ok tt) ∨
  (r = Ok tt ∧ ∃ pre s post, slots = pre ++ s :: post ∧ Forall (holds_other (cells d) prefix h) pre ∧
     usable (cells d) prefix h s ∧ cells d' = <[slot_key prefix h s := encoded]> (cells d)).
Proof.
  revert d. induction slots as [|s slots IH]; intros d; simpl; [intros [= <- <-]; auto|].
  intros [(e & [Hc _]%read_blob_cases & ->)|(d1 & o & [Hc Ho]%read_blob_cases & Hr)]%M_bind_cases; [by left|].
  destruct Ho as [[= ->]|?]; [|done].
  assert (usable (cells d) prefix h s →
    write_blob (slot_key prefix h s) encoded d1 = (d', r) →
    (cells d' = cells d ∧ r ≠ Ok tt) ∨
    (r = Ok tt ∧ ∃ pre s' post, s :: slots = pre ++ s' :: post ∧
      Forall (holds_other (cells d) prefix h) pre ∧ usable (cells d) prefix h s' ∧
      cells d' = <[slot_key prefix h s' := encoded]> (cells d))) as Hw.
  { intros Hu [[-> Hs]|[-> Hs]]%dev_put_cases; rewrite Hc in Hs; [right|by left].
    split; [done|]. exists [], s, slots. by split_and!; [|constructor|..]. }
  destruct (cells d !! slot_key prefix h s) as [buffer|] eqn:E; [|apply Hw; [intros b' Hb'; congruence|done]].
  case_bool_decide; [injection Hr as <- <-; left; by rewrite Hc|].
  case_bool_decide; [apply Hw; [intros b' Hb'; rewrite E in Hb'; injection Hb' as <-; split; [lia|done]|done]|].
  apply IH in Hr as [[Hs ?]|(-> & pre & s' & post & -> & Hpre & Hu & Hs)]; rewrite ?Hc in *; [by left|right].
  split; [done|]. exists (s :: pre), s', post. split_and!; [done| |done|done].
  constructor; [|done]. exists buffer. split_and!; [done|lia|done].
Qed.

Lemma find_slots_saved c prefix h payload pre s post :
  NoDup (pre ++ s :: post) → Forall (holds_other c prefix h) pre →
  find_slots (<[slot_key prefix h s := encode_envelope h payload]> c) prefix h (pre ++ s :: post) =
  Ok (Some payload).
Proof.
  intros Hnd Hpre. induction Hpre as [|x pre (buffer & Hb & Hl & Hne) _ IH]; simpl in *.
  - rewrite lookup_insert_eq. unfold encode_envelope.
    rewrite bool_decide_false by (rewrite length_app; lia).
    by rewrite bool_decide_true, drop_app_length by (apply take_app_length).
  - apply NoDup_cons in Hnd as [Hx Hnd].
    rewrite lookup_insert_ne.
    + rewrite Hb, bool_decide_false, bool_decide_false by (done || lia). by apply IH.
    + intros [_ ->]%slot_key_inj; [|done]. set_solver.
Qed.

Lemma find_slots_other c prefix h payload s prefix' h' slots :
  length h = 32%nat → length h' = 32%nat → (prefix', h') ≠ (prefix, h) → usable c prefix h s →
  find_slots (<[slot_key prefix h s := encode_envelope h payload]> c) prefix' h' slots =
  find_slots c prefix' h' slots.
Proof.
  intros Hh Hh' Hne Hu. induction slots as [|t slots IH]; [done|]. simpl.
  destruct (decide (slot_key prefix h s = slot_key prefix' h' t)) as [E|E];
    [|rewrite lookup_insert_ne by done; by rewrite IH].
  destruct (slot_key_inj _ _ h h' _ _ ltac:(lia) E) as [-> ->].
  assert (h ≠ h') as Hhne by congruence.
  rewrite <-E, lookup_insert_eq, IH. unfold encode_envelope.
  rewrite bool_decide_false by (rewrite length_app; lia).
  rewrite bool_decide_false by (rewrite Hh', <-Hh, take_app_length; done).
  destruct (c !! _) as [buffer|] eqn:Hb; [|done]. destruct (Hu _ Hb) as [Hl Ht].
  rewrite bool_decide_false by lia. by rewrite bool_decide_false by (rewrite Hh', <-Hh, Ht; done).
Qed.

Lemma find_slots_key c k v prefix h slots :
  (∀ s, slot_key prefix h s ≠ k) → find_slots (<[k := v]> c) prefix h slots = find_slots c prefix h slots.
Proof.
  intros Hk. induction slots as [|s slots IH]; [done|]. simpl.
  rewrite lookup_insert_ne by (intros ->; by eapply Hk). by rewrite IH.
Qed.

Lemma all_slots_NoDup : NoDup all_slots.
Proof. apply (bool_decide_unpack _). vm_compute. exact I. Qed.

(** The two kinds of blob. *)
Definition is_prefix (p : ascii) : Prop := p = BLOCK_KEY_PREFIX ∨ p = SNAPSHOT_KEY_PREFIX.

Lemma is_prefix_latest p h s : is_prefix p → slot_key p h s ≠ NVS_LATEST_SNAPSHOT_KEY.
Proof. intros [-> | ->]; by apply slot_key_latest. Qed.

(** What the loads see. *)
Definition blob_at (c : gmap string bytes) (p : ascii) (h : bytes) : result (option bytes) ContractError :=
  find_slots c p h all_slots.

Lemma load_hashed_blob_calm p h (d : NvsStorage) :
  faults d = [] → load_hashed_blob p h d = (d, blob_at (cells d) p h).
Proof. apply load_slots_calm. Qed.

(** A save either changes nothing, or puts one blob and leaves the pointer alone. *)
Lemma save_hashed_blob_cases p h payload (d d' : NvsStorage) r :
  is_prefix p → length h = 32%nat → save_hashed_blob p h payload d = (d', r) →
  (cells d' = cells d ∧ r ≠ Ok tt) ∨
  (r = Ok tt ∧ blob_at (cells d') p h = Ok (Some payload) ∧
   (∀ p' h', length h' = 32%nat → (p', h') ≠ (p, h) → blob_at (cells d') p' h' = blob_at (cells d) p' h') ∧
   cells d' !! NVS_LATEST_SNAPSHOT_KEY = cells d !! NVS_LATEST_SNAPSHOT_KEY).
Proof.
  intros Hp Hh [?|(-> & pre & s & post & E & Hpre & Hu & Hc)]%save_slots_cases; [by left|right].
  unfold blob_at. rewrite Hc. split_and!; [done| | |].
  - rewrite E. apply find_slots_saved; [|done]. rewrite <-E. apply all_slots_NoDup.
  - intros p' h' Hh' Hne. by apply find_slots_other.
  - by rewrite lookup_insert_ne by (by apply is_prefix_latest).
Qed.

Lemma blob_at_key c k v p h : (∀ s, slot_key p h s ≠ k) → blob_at (<[k := v]> c) p h = blob_at c p h.
Proof. apply find_slots_key. Qed.

Lemma load_slots_cells p h slots (d d' : NvsStorage) r : load_slots p h slots d = (d', r) → cells d' = cells d.
Proof.
  revert d. induction slots as [|s slots IH]; intros d; simpl; [by intros [= <- <-]|].
  intros [(e & [Hc _]%read_blob_cases & _)|(d1 & o & [Hc _]%read_blob_cases & Hr)]%M_bind_cases; [done|].
  destruct o as [buffer|]; [|rewrite <-Hc; by apply IH].
  case_bool_decide; [injection Hr as <- <-; done|].
  case_bool_decide; [injection Hr as <- <-; done|]. rewrite <-Hc. by apply IH.
Qed.

Lemma load_blob_cells p h (d d' : NvsStorage) r : load_hashed_blob p h d = (d', r) → cells d' = cells d.
Proof. apply load_slots_cells. Qed.

#[local] Opaque all_slots blob_at load_hashed_blob.

Lemma write_latest_cases h (d d' : NvsStorage) r :
  write_hash_key NVS_LATEST_SNAPSHOT_KEY h d = (d', r) →
  (cells d' = cells d ∧ r ≠ Ok tt) ∨
  (r = Ok tt ∧ (∀ p h', is_prefix p → blob_at (cells d') p h' = blob_at (cells d) p h') ∧
   cells d' !! NVS_LATEST_SNAPSHOT_KEY = Some h).
Proof.
  intros [[-> Hc]|[-> Hc]]%dev_put_cases; [right|by left]. rewrite Hc. split_and!; [done| |].
  - intros p h' Hp. apply blob_at_key. intros s. by apply is_prefix_latest.
  - by rewrite lookup_insert_eq.
Qed.

Definition nvs_view (d : NvsStorage) : view :=
  mkView (λ h, (nvs_load_block h (device (cells d))).2) (λ h, (nvs_load_snapshot h (device (cells d))).2)
    (cells d !! NVS_LATEST_SNAPSHOT_KEY).

Definition nvs_healthy (d : NvsStorage) : Prop := faults d = [].

Definition decode_block (h : bytes) (r : result (option bytes) ContractError) :
    result (option Block) ContractError :=
  match r with
  | Err e => Err e
  | Ok None => Ok None
  | Ok (Some block_bytes) =>
      match postcard_from_bytes block_bytes with
      | None => Err ContractStorage
      | Some block => if bool_decide (hash (A:=Block) block ≠ h) then Err ContractStorage else Ok (Some block)
      end
  end.

Lemma nvs_load_block_calm h (d : NvsStorage) :
  faults d = [] → nvs_load_block h d = (d, decode_block h (blob_at (cells d) BLOCK_KEY_PREFIX h)).
Proof.
  intros Hf. unfold nvs_load_block, M_bind. rewrite load_hashed_blob_calm by done.
  destruct (blob_at _ _ _) as [[bb|]|e]; [|done..]. unfold decode_block.
  destruct (postcard_from_bytes bb) as [b|]; [|done]. by case_bool_decide.
Qed.

Lemma nvs_view_block d h : v_block (nvs_view d) h = decode_block h (blob_at (cells d) BLOCK_KEY_PREFIX h).
Proof. simpl. by rewrite nvs_load_block_calm. Qed.

Lemma nvs_view_snapshot d h : v_snapshot (nvs_view d) h = blob_at (cells d) SNAPSHOT_KEY_PREFIX h.
Proof. simpl. unfold nvs_load_snapshot. by rewrite load_hashed_blob_calm. Qed.

Lemma nvs_view_cells d d' : cells d' = cells d → nvs_view d' = nvs_view d.
Proof. intros E. unfold nvs_view. by rewrite E. Qed.

Lemma decode_block_saved b bb : to_allocvec b = Some bb → decode_block (hash b) (Ok (Some bb)) = Ok (Some b).
Proof.
  intros Hb. unfold decode_block. rewrite (postcard_from_to _ _ Hb). by rewrite bool_decide_false by naive_solver.
Qed.

Lemma nvs_save_block_view b d d' r :
  nvs_save_block b d = (d', r) →
  (cells d' = cells d ∧ r ≠ Ok tt) ∨ (r = Ok tt ∧ same_view (nvs_view d') (put_block b (nvs_view d))).
Proof.
  unfold nvs_save_block. destruct (to_allocvec b) as [bb|] eqn:Hb; [|intros [= <- <-]; by left].
  intros [?|(-> & Hs & Ho & Hl)]%save_hashed_blob_cases; [by left|right|by left|auto with rust].
  split; [done|]. split_and!; [| |exact Hl].
  - intros h Hh. unfold put_block. cbn [v_block]. rewrite !nvs_view_block.
    destruct (decide (h = hash b)) as [->|Hne]; [by rewrite Hs, (decode_block_saved b bb Hb)|].
    rewrite Ho; [done|done|congruence].
  - intros h Hh. unfold put_block. cbn [v_snapshot]. rewrite !nvs_view_snapshot. by rewrite Ho.
Qed.

Lemma nvs_save_snapshot_view h bs d d' r :
  length h = 32%nat → nvs_save_snapshot h bs d = (d', r) →
  (cells d' = cells d ∧ r ≠ Ok tt) ∨
  (r ≠ Ok tt ∧ same_view (nvs_view d') (put_snapshot h bs (nvs_view d))) ∨
  (r = Ok tt ∧ same_view (nvs_view d') (put_latest h (put_snapshot h bs (nvs_view d)))).
Proof.
  intros Hh [(e & Hs & ->)|(d1 & [] & Hs & Hr)]%M_bind_cases;
    apply save_hashed_blob_cases in Hs; [|by right|done| |by right|done].
  { destruct Hs as [?|[? _]]; [by left|done]. }
  destruct Hs as [[_ ?]|(_ & Hs & Ho & Hl)]; [done|].
  assert (same_view (nvs_view d1) (put_snapshot h bs (nvs_view d))) as H1.
  { split_and!; [| |exact Hl].
    - intros h' Hh'. unfold put_snapshot. cbn [v_block]. rewrite !nvs_view_block. by rewrite Ho.
    - intros h' Hh'. unfold put_snapshot. cbn [v_snapshot]. rewrite !nvs_view_snapshot.
      destruct (decide (h' = h)) as [->|Hne]; [done|]. rewrite Ho; [done|done|congruence]. }
  apply write_latest_cases in Hr as [[Hc Hr]|(-> & Ho2 & Hl2)].
  - right; left. split; [done|]. by rewrite (nvs_view_cells _ _ Hc).
  - right; right. split; [done|]. rewrite <-H1. split_and!; [| |exact Hl2].
    + intros h' Hh'. unfold put_latest. cbn [v_block]. rewrite !nvs_view_block. by rewrite Ho2 by (by left).
    + intros h' Hh'. unfold put_latest. cbn [v_snapshot]. rewrite !nvs_view_snapshot.
      by rewrite Ho2 by (by right).
Qed.

Lemma nvs_load_block_cells h (d d' : NvsStorage) r : nvs_load_block h d = (d', r) → cells d' = cells d.
Proof.
  unfold nvs_load_block.
  intros [(e & Hc%load_blob_cells & _)|(d1 & o & Hc%load_blob_cells & Hr)]%M_bind_cases; [done|].
  destruct o as [bb|]; [destruct (postcard_from_bytes bb); [case_bool_decide|]|];
    by injection Hr as <- <-.
Qed.

Lemma M_catch_eq {S E A} (m : M S E A) s s' r :
  M_catch m s = (s', r) → ∃ x, m s = (s', x) ∧ r = Ok x.
Proof. unfold M_catch. destruct (m s) as [s1 x]. intros [= <- <-]. eauto. Qed.

Lemma read_hash_key_cells k (d d' : NvsStorage) r : read_hash_key k d = (d', r) → cells d' = cells d.
Proof.
  unfold read_hash_key.
  intros [(e & [Hc _]%read_blob_cases & _)|(d1 & o & [Hc _]%read_blob_cases & Hr)]%M_bind_cases; [done|].
  destruct o; [case_bool_decide|]; by injection Hr as <- <-.
Qed.

Lemma nvs_load_latest_cells (d d' : NvsStorage) r :
  nvs_load_latest_snapshot_bundle d = (d', r) → cells d' = cells d.
Proof.
  unfold nvs_load_latest_snapshot_bundle.
  intros [(e & (x & _ & [=])%M_catch_eq & _)|(d1 & p & (x & Hk%read_hash_key_cells & [= ->])%M_catch_eq & Hr)]%M_bind_cases.
  destruct x as [[h|]|]; [|by injection Hr as <- <-..].
  apply M_bind_cases in Hr as [(e & (x & _ & [=])%M_catch_eq & _)|(d2 & ob & (x & Hb%nvs_load_block_cells & [= ->])%M_catch_eq & Hr)].
  rewrite <-Hk, <-Hb. destruct x as [[b|]|]; [|by injection Hr as <- <-..].
  apply M_bind_cases in Hr as [(e & (x & _ & [=])%M_catch_eq & _)|(d3 & os & (x & Hs%load_blob_cells & [= ->])%M_catch_eq & Hr)].
  rewrite <-Hs. destruct x as [[bs|]|]; by injection Hr as <- <-.
Qed.

Lemma save_slots_healthy p h encoded slots (d : NvsStorage) :
  faults d = [] → faults (save_slots p h encoded slots d).1 = [].
Proof.
  intros Hd. induction slots as [|s slots IH]; [done|]. simpl. unfold M_bind.
  rewrite read_blob_calm by done. unfold write_blob.
  destruct (cells d !! _) as [buffer|]; [|by rewrite dev_put_calm].
  case_bool_decide; [done|]. case_bool_decide; [by rewrite dev_put_calm|done].
Qed.

(** Every write is committed, so that nothing is ever left to flush. *)
Definition stays_settled {A} (m : M NvsStorage ContractError A) : Prop :=
  ∀ d d' r, m d = (d', r) → settled d → settled d'.

Lemma settled_bind {A B} (m : M NvsStorage ContractError A) (k : A → M NvsStorage ContractError B) :
  stays_settled m → (∀ a, stays_settled (k a)) → stays_settled (M_bind m k).
Proof.
  intros Hm Hk d d' r [(e & Hr & ->)|(d1 & a & Hr & Hr')]%M_bind_cases Hd; [by eapply Hm|].
  eapply Hk; [exact Hr'|]. by eapply Hm.
Qed.
Lemma settled_ret {A} (a : A) : stays_settled (M_ret a).
Proof. by intros d d' r [= <- <-]. Qed.
Lemma settled_fail {A} e : stays_settled (A:=A) (M_fail e).
Proof. by intros d d' r [= <- <-]. Qed.
Lemma settled_catch {A} (m : M NvsStorage ContractError A) : stays_settled m → stays_settled (M_catch m).
Proof. intros Hm d d' r (x & Hx & _)%M_catch_eq Hd. by eapply Hm. Qed.
Lemma settled_read k : stays_settled (read_blob k).
Proof.
  assert (∀ k, stays_settled (dev_get k : M NvsStorage ContractError _)) as Hg.
  { intros k' d d' r (_ & Hu & _)%dev_get_raw Hd. simpl. by rewrite Hu. }
  apply settled_bind; [apply Hg|]. intros [|]; [apply Hg|apply settled_ret].
Qed.
Lemma settled_write k v : stays_settled (write_blob k v).
Proof. intros d d' r [(_ & _ & Hu)|(_ & _ & Hu)]%dev_put_raw Hd; simpl; by rewrite Hu. Qed.

Lemma settled_load p h slots : stays_settled (load_slots p h slots).
Proof.
  induction slots as [|s slots IH]; [apply settled_ret|]. apply settled_bind; [apply settled_read|].
  intros [buffer|]; [|done]. repeat case_bool_decide; auto using settled_fail, settled_ret.
Qed.
#[local] Transparent load_hashed_blob.
Lemma settled_blob p h : stays_settled (load_hashed_blob p h).
Proof. apply settled_load. Qed.
#[local] Opaque load_hashed_blob.
Lemma settled_save p h encoded slots : stays_settled (save_slots p h encoded slots).
Proof.
  induction slots as [|s slots IH]; [apply settled_fail|]. apply settled_bind; [apply settled_read|].
  intros [buffer|]; [|apply settled_write]. repeat case_bool_decide; auto using settled_fail, settled_write.
Qed.
Lemma settled_nvs_block b : stays_settled (nvs_save_block b).
Proof. unfold nvs_save_block. destruct (to_allocvec b); [apply settled_save|apply settled_fail]. Qed.
Lemma settled_nvs_snapshot h bs : stays_settled (nvs_save_snapshot h bs).
Proof. apply settled_bind; [apply settled_save|]. intros _. apply settled_write. Qed.
Lemma settled_nvs_latest : stays_settled nvs_load_latest_snapshot_bundle.
Proof.
  apply settled_bind; [apply settled_catch, settled_bind; [apply settled_read|]|].
  { intros [b|]; [case_bool_decide|]; auto using settled_fail, settled_ret. }
  intros [[h|]|]; auto using settled_ret. apply settled_bind; [apply settled_catch, settled_bind; [apply settled_blob|]|].
  { intros [bb|]; [|apply settled_ret]. destruct (postcard_from_bytes bb); [case_bool_decide|];
      auto using settled_fail, settled_ret. }
  intros [[b|]|]; auto using settled_ret. apply settled_bind; [apply settled_catch, settled_blob|].
  intros [[bs|]|]; auto using settled_ret.
Qed.

(** The flash holds what was last read or written. *)
Lemma nvs_stopped_view d d' : settled d → stopped d d' → nvs_view d' = nvs_view d.
Proof. intros Hd ->%stopped_settled; [|done]. by apply nvs_view_cells. Qed.

Lemma nvs_load_latest_calm (d : NvsStorage) h b bs :
  faults d = [] → v_latest (nvs_view d) = Some h → length h = 32%nat → v_block (nvs_view d) h = Ok (Some b) →
  v_snapshot (nvs_view d) h = Ok (Some bs) → nvs_load_latest_snapshot_bundle d = (d, Ok (Some (b, bs))).
Proof.
  intros Hd Hl Hh Hb Hs. rewrite nvs_view_block in Hb. rewrite nvs_view_snapshot in Hs.
  unfold nvs_load_latest_snapshot_bundle, M_bind, M_catch, read_hash_key, M_bind.
  rewrite read_blob_calm by done. simpl in Hl. rewrite Hl, bool_decide_false by naive_solver.
  cbn [M_ret]. rewrite nvs_load_block_calm, Hb by done. unfold nvs_load_snapshot.
  by rewrite load_hashed_blob_calm, Hs.
Qed.

Lemma nvs_load_latest_none (d : NvsStorage) :
  faults d = [] → v_latest (nvs_view d) = None → nvs_load_latest_snapshot_bundle d = (d, Ok None).
Proof.
  intros Hd Hl. unfold nvs_load_latest_snapshot_bundle, M_bind, M_catch, read_hash_key, M_bind.
  rewrite read_blob_calm by done. simpl in Hl. by rewrite Hl.
Qed.

Lemma nvs_load_latest_faults (d : NvsStorage) : faults d = [] → (nvs_load_latest_snapshot_bundle d).1 = d.
Proof.
  intros Hd. unfold nvs_load_latest_snapshot_bundle, M_bind, M_catch, read_hash_key, M_bind.
  rewrite read_blob_calm by done. destruct (cells d !! _) as [h|]; [|done]. case_bool_decide; [done|].
  cbn [M_ret]. rewrite nvs_load_block_calm by done. destruct (decode_block _ _) as [[b|]|]; [|done..].
  unfold nvs_load_snapshot. rewrite load_hashed_blob_calm by done. by destruct (blob_at _ _ _) as [[bs|]|].
Qed.

#[export] Instance nvs_laws : StorageLaws NvsStorage nvs_view nvs_healthy.
Proof.
  split.
  - intros b d d' r [[Hc Hr]|[-> Hs]]%nvs_save_block_view; [|by split; [right|]].
    rewrite (nvs_view_cells _ _ Hc). by split; [left|].
  - intros h bs d d' r Hh [[Hc Hr]|[[Hr Hs]|[-> Hs]]]%nvs_save_snapshot_view;
      [|by split; [right; left|]|by split; [right; right|]|done].
    rewrite (nvs_view_cells _ _ Hc). by split; [left|].
  - intros h d d' r Hr. apply nvs_view_cells. exact (load_blob_cells SNAPSHOT_KEY_PREFIX h d d' r Hr).
  - intros d d' r Hr. apply nvs_view_cells. exact (nvs_load_latest_cells d d' r Hr).
  - intros b d Hd. cbn [save_block nvs_storage]. unfold nvs_save_block.
    destruct (to_allocvec b); [by apply save_slots_healthy|done].
  - intros h bs d Hd. cbn [save_snapshot nvs_storage]. unfold nvs_save_snapshot, M_bind.
    pose proof (save_slots_healthy SNAPSHOT_KEY_PREFIX h (encode_envelope h bs) all_slots d Hd) as Hs.
    unfold save_hashed_blob. destruct (save_slots _ _ _ _ _) as [d1 [[]|e]]; simpl in *; [|done].
    unfold write_hash_key, write_blob. by rewrite dev_put_calm.
  - intros h d d' o Hd. cbn [load_snapshot nvs_storage]. unfold nvs_load_snapshot.
    rewrite load_hashed_blob_calm by done. intros [= <- Hb]. split; [done|]. by rewrite nvs_view_snapshot.
  - intros d d' o Hd Hr. cbn [load_latest_snapshot_bundle nvs_storage] in Hr.
    pose proof (nvs_load_latest_faults d Hd) as Hf. rewrite Hr in Hf. simpl in Hf. subst d'. split; [done|].
    unfold latest_is. destruct (v_latest (nvs_view d)) as [h|] eqn:El.
    + intros b bs Hh Hb Hs. rewrite (nvs_load_latest_calm d h b bs) in Hr by done. by injection Hr.
    + rewrite nvs_load_latest_none in Hr by done. by injection Hr.
  - intros b d d' Hd Hr. exact (settled_nvs_block b d d' _ Hr Hd).
  - intros h bs d d' Hd Hr. exact (settled_nvs_snapshot h bs d d' _ Hr Hd).
  - intros h d d' r Hd Hr. exact (settled_blob SNAPSHOT_KEY_PREFIX h d d' r Hr Hd).
  - intros d d' r Hd Hr. exact (settled_nvs_latest d d' r Hr Hd).
  - apply nvs_stopped_view.
  - intros b d d' r d'' Hd Hr Hst. rewrite (nvs_stopped_view d' d''); [|exact (settled_nvs_block b d d' r Hr Hd)|done].
    apply nvs_save_block_view in Hr as [[Hc _]|[_ Hs]]; [left; by rewrite (nvs_view_cells _ _ Hc)|by right].
  - intros h bs d d' r d'' Hh Hd Hr Hst. rewrite (nvs_stopped_view d' d''); [|exact (settled_nvs_snapshot h bs d d' r Hr Hd)|done].
    apply nvs_save_snapshot_view in Hr as [[Hc _]|[[_ Hs]|[_ Hs]]]; [|by right; left|by right; right|done].
    left. by rewrite (nvs_view_cells _ _ Hc).
  - by intros d0 d (ws & _ & ->).
  - intros d0 d h b bs (ws & _ & ->). by apply nvs_load_latest_calm.
  - intros d0 d (ws & _ & ->). by apply nvs_load_latest_none.
  - intros d d' [Hs Hu]. apply nvs_view_cells. unfold cells. by rewrite Hs, Hu.
  - intros d d' [Hs Hu] Hd. simpl. by rewrite Hu.
Qed.
End nvs_laws.

(** ** What a client may rely on *)

Section client.
Context `{Target, Crypto, !CryptoLaws, !Postcard NetworkMessage}.
Context {S : Type} `{!Storage S, !Stops S} (view_of : S → view) (healthy : S → Prop).
Context `{!StorageLaws S view_of healthy}.

(** The commands of an engine name snapshots by block hashes. *)
Definition command_ok (c : StorageCommand) : Prop :=
  match c with StPersistSnapshot h _ => length h = 32%nat | _ => True end.

(** The pointer, if set, is a hash under which a snapshot can be found. *)
Definition pointer_ok (v : view) : Prop :=
  ∀ h, v_latest v = Some h → length h = 32%nat ∧ ∃ bs, v_snapshot v h = Ok (Some bs).

Lemma pointer_ok_same v w : same_view v w → pointer_ok w → pointer_ok v.
Proof.
  intros (_ & Hs & Hl) Hw h Hh. rewrite Hl in Hh. destruct (Hw h Hh) as (Hlen & bs & Hb).
  split; [done|]. exists bs. by rewrite Hs.
Qed.

Lemma pointer_ok_snapshot h bs v : pointer_ok v → pointer_ok (put_snapshot h bs v).
Proof.
  intros Hv h' Hh'. destruct (Hv h' Hh') as (Hlen & bs' & Hb). split; [done|]. simpl. case_decide; eauto.
Qed.

Lemma pointer_ok_latest h bs v :
  length h = 32%nat → pointer_ok v → pointer_ok (put_latest h (put_snapshot h bs v)).
Proof. intros Hl Hv h' [= <-]. split; [done|]. exists bs. simpl. by rewrite decide_True. Qed.

Lemma M_map_err_eq {S' E F A} (f : E → F) (m : M S' E A) s s' r :
  M_map_err f m s = (s', r) → ∃ x, m s = (s', x) ∧ r = map_err f x.
Proof. unfold M_map_err. destruct (m s) as [s1 x]. intros [= <- <-]. eauto. Qed.

(** The call to the storage behind a round. *)
Lemma map_err_round {E F A B} (f : E → F) (m : M S E A) (k : A → M S F B) s s' r :
  (∀ a s s' r, k a s = (s', r) → s' = s) → M_bind (M_map_err f m) k s = (s', r) →
  ∃ x, m s = (s', x) ∧ (∀ y, r = Ok y → ∃ a, x = Ok a ∧ k a s' = (s', Ok y)).
Proof.
  intros Hk [(e & (x & Hx & Hr)%M_map_err_eq & ->)|(s1 & a & (x & Hx & Hr)%M_map_err_eq & Hka)]%M_bind_cases.
  - exists x. split; [done|]. naive_solver.
  - pose proof (Hk _ _ _ _ Hka) as ->. exists x. split; [done|]. intros y ->.
    destruct x as [a'|]; simplify_eq/=. eauto.
Qed.

Lemma round_pointer_ok c s s' r :
  command_ok c → host_storage_round c s = (s', r) → pointer_ok (view_of s) → pointer_ok (view_of s').
Proof.
  intros Hc Hr Hp. destruct c as [|b|h bs|h]; apply map_err_round in Hr as (x & Hx & _);
    try (by intros a s0 s1 r0; repeat case_match; intros [= <- <-]).
  - by rewrite (load_latest_view _ _ _ Hx).
  - destruct (save_block_view _ _ _ _ Hx) as [[Hs|Hs] _]; by eapply pointer_ok_same.
  - destruct (save_snapshot_view _ _ _ _ _ Hc Hx) as [[Hs|[Hs|Hs]] _]; eapply pointer_ok_same; try done.
    + by apply pointer_ok_snapshot.
    + by apply pointer_ok_latest.
  - by rewrite (load_snapshot_view _ _ _ _ Hx).
Qed.

(** the pointer to the latest snapshot never dangles: whatever operations of the
    database fail, and at whatever point of a save they do, after any commands the
    pointer names a snapshot that is there. *)
Theorem storage_pointer_consistent commands s s' r :
  Forall command_ok commands → pointer_ok (view_of s) →
  storage_run commands s = (s', r) → pointer_ok (view_of s').
Proof.
  intros Hc. revert s s' r. induction Hc as [|c commands Hc _ IH]; intros s s' r Hp; simpl; [by intros [= <- <-]|].
  intros [(e & Hr & ->)|(s1 & evs & Hr & Hrest)]%M_bind_cases; [by eapply round_pointer_ok|].
  apply M_bind_cases in Hrest as [(e & Hrun & ->)|(s2 & more & Hrun & [= <- <-])];
    (eapply (IH s1); [by eapply round_pointer_ok|done]).
Qed.

Lemma restore_saved e b st :
  0 < pointer_width ≤ 64 → state_wf st → state_fits st → block_state_root b = compute_state_root st →
  ∃ e' acts', handle_event e (EvLatestSnapshotLoaded (Some b) (Some (to_bytes st))) = Ret (e', acts') ∧
    get_latest_block (blockchain e') = Ret b ∧ bc_state (blockchain e') = st.
Proof.
  intros Hw Hwf Hfit Hr. cbn [handle_event]. unfold restore_latest_snapshot.
  rewrite <-(app_nil_r (to_bytes st)), state_from_to_bytes by done. cbn [mbind outcome_bind].
  rewrite bool_decide_false by naive_solver. eexists _, _. split_and!; [done| |done].
  unfold get_latest_block; simpl. by rewrite lookup_singleton_eq.
Qed.

End client.

(** ** Witnesses *)

Module StorageWitness.
Import ToyCrypto ModelsWitness ChainWitness EngineRuns.
#[local] Existing Instance dev_host.

(** A wire format that knows one block. *)
Definition encode_block (b : Block) : option bytes :=
  match b with
  | mkBlock h s p v [] (Some sg) [] r =>
      if bool_decide ((h, s, p, v, sg, r) =
           (block_height first_block, block_slot first_block, block_previous_hash first_block,
            block_validator first_block, default (x00, x00) (block_signature first_block),
            block_state_root first_block))
      then Some [x01] else None
  | _ => None
  end.
#[export] Instance block_postcard : Postcard Block :=
  {| to_allocvec := encode_block; postcard_from_bytes b := if bool_decide (b = [x01]) then Some first_block else None |}.
#[export] Instance block_roundtrip : PostcardRoundtrip Block.
Proof.
  intros b bb. cbn [to_allocvec postcard_from_bytes block_postcard]. unfold encode_block.
  destruct b as [h s p v [|] [sg|] [|] r]; try done. case_bool_decide as E; [|done].
  intros [= <-]. rewrite bool_decide_true by done. injection E as -> -> -> -> -> ->. done.
Qed.

(** The write of the pointer fails. *)
Definition failing : SledStorage := mkDevice ∅ [] [false; true].

Lemma storage_pointer_consistent_witness :
  ∃ s', storage_run [StPersistSnapshot zero_hash [x05]] failing = (s', Err (Host.Contract ContractStorage)) ∧
    pointer_ok (sled_view s') ∧ v_snapshot (sled_view s') zero_hash = Ok (Some [x05]).
Proof.
  eexists. split; [reflexivity|]. split; [|vm_compute; reflexivity].
  eapply (storage_pointer_consistent sled_view sled_healthy [StPersistSnapshot zero_hash [x05]] failing);
    [by repeat constructor|by intros h|reflexivity].
Defined.
End StorageWitness.
