(* ===== verification/HostNetwork.v ===== *)
(** * The network manager of the host runtime

    Models rp-runtime/src/network/manager.rs: the manager registers peers once their
    node hello is verified, forwards their messages to the engine as events, and turns
    the engine's commands into requests and responses of the swarm.  The swarm is the
    crate [libp2p]: its events are inputs, the calls made on it are recorded in order,
    and whether a response can still be sent is up to the environment. *)

From S2P Require Import Prelude.
From S2P Require Import Maps.
From S2P Require Import Crypto.
From S2P Require Import Models.
From S2P Require Import Messages.
From S2P Require Import Errors.
From S2P Require Import Framing.
From S2P Require Import Identity.
From S2P Require Import NodeHello.
From S2P Require Import Runtime.
From S2P Require Import Chain.
From S2P Require Import Engine.
From S2P Require Import EngineWitness.

Definition DEFAULT_MAX_FRAME_LEN : Z := 64 * 1024.
Definition DEFAULT_MAX_BLOCKS_PER_CHUNK : Z := 8.

(** The order in which a [HashMap] yields its keys is unspecified. *)
Class HashOrder : Type := {
  hash_keys {A : Type} : gmap bytes A → list bytes;
  hash_keys_perm {A : Type} (m : gmap bytes A) : hash_keys m ≡ₚ (map_to_list m).*1;
}.

(** ** Events of the swarm

    A transport peer ([PeerId]) is given by its bytes; a [ResponseChannel], a request
    id and an address by a number or a string. *)

Inductive ConnectedPoint : Type :=
| Dialer (address : string)
| Listener (send_back_addr : string).

Inductive rr_event (A B : Type) : Type :=
| RrRequest (peer : bytes) (request : A) (channel : Z)
| RrResponse (peer : bytes) (request_id : Z) (response : B)
| RrOutboundFailure (peer : bytes) (request_id : Z)
| RrInboundFailure (peer : bytes) (request_id : Z)
| RrResponseSent (peer : bytes) (request_id : Z).
Arguments RrRequest {A B} _ _ _.
Arguments RrResponse {A B} _ _ _.
Arguments RrOutboundFailure {A B} _ _.
Arguments RrInboundFailure {A B} _ _.
Arguments RrResponseSent {A B} _ _.

Inductive IdentifyEvent : Type :=
| IdReceived (peer_id : bytes) (agent_version : string) (listen_addrs : list string)
| IdError (peer_id : bytes)
| IdOther.

Inductive GossipEvent : Type :=
| GossipMessage (propagation_source : bytes) (data : bytes)
| GossipOther.

Section network.
Context `{Crypto, !Postcard NetworkMessage, !Postcard NodeHelloTranscript, HashOrder}.

Inductive SwarmEvent : Type :=
| NewListenAddr
| IncomingConnection
| IncomingConnectionError
| ConnectionEstablished (peer_id : bytes) (endpoint : ConnectedPoint)
| ConnectionClosed (peer_id : bytes)
| OutgoingConnectionError
| EvIdentify (event : IdentifyEvent)
| EvPing (peer : bytes) (succeeded : bool)
| EvGossipsub (event : GossipEvent)
| EvKademlia
| EvNodeHello (event : rr_event NodeHello NodeHelloResponse)
| EvSync (event : rr_event SyncRequest SyncResponse)
| EvAnnounce (event : rr_event AnnounceRequest AnnounceResponse)
| OtherSwarmEvent.

(** The calls made on the swarm. *)
Inductive SwarmCall : Type :=
| Dial (address : string)
| Disconnect (peer : bytes)
| AddAddress (peer : bytes) (address : string)
| Publish (frame : bytes)
| SendHello (peer : bytes) (hello : NodeHello)
| RespondHello (channel : Z) (response : NodeHelloResponse)
| SendSync (request_id : Z) (peer : bytes) (request : SyncRequest)
| RespondSync (channel : Z) (response : SyncResponse)
| SendAnnounce (peer : bytes) (request : AnnounceRequest)
| RespondAnnounce (channel : Z) (response : AnnounceResponse).

(** ** The state *)

(** What never changes: configuration and identities. *)
Record HostConfig : Type := mkHostConfig {
  cfg_bootstrap_addrs : list string;
  cfg_max_frame_len : Z;
  cfg_max_blocks_per_chunk : Z;
  cfg_identity : HostNodeIdentity;
  cfg_transport_peer_id : bytes;
}.

(** What the environment decides: whether the node manager still listens, and which
    response channels are still open. *)
Record Env : Type := mkEnv {
  events_open : bool;
  channel_alive : Z → bool;
}.

Record PeerTables : Type := mkPeerTables {
  peer_by_node : gmap bytes bytes;
  node_by_transport : gmap bytes bytes;
  peer_max_blocks_per_chunk : gmap bytes Z;
  host_transport_peers : gset bytes;
  pending_node_hello : gset bytes;
  pending_sync_responses : gmap bytes (list Z);
  outbound_sync_requests : gmap Z bytes;
}.

Record NetworkManager : Type := mkNetworkManager {
  tables : PeerTables;
  swarm : list SwarmCall;
  next_request_id : Z;
  sent_events : list RuntimeEvent;
}.

Definition NetworkManager_new : NetworkManager :=
  mkNetworkManager (mkPeerTables ∅ ∅ ∅ ∅ ∅ ∅ ∅) [] 0 [].

Definition set_tables (m : NetworkManager) t :=
  mkNetworkManager t (swarm m) (next_request_id m) (sent_events m).
Definition call (m : NetworkManager) (c : SwarmCall) : NetworkManager :=
  mkNetworkManager (tables m) (swarm m ++ [c]) (next_request_id m) (sent_events m).

Definition set_peer_by_node t x :=
  mkPeerTables x (node_by_transport t) (peer_max_blocks_per_chunk t) (host_transport_peers t)
    (pending_node_hello t) (pending_sync_responses t) (outbound_sync_requests t).
Definition set_node_by_transport t x :=
  mkPeerTables (peer_by_node t) x (peer_max_blocks_per_chunk t) (host_transport_peers t)
    (pending_node_hello t) (pending_sync_responses t) (outbound_sync_requests t).
Definition set_max_blocks t x :=
  mkPeerTables (peer_by_node t) (node_by_transport t) x (host_transport_peers t)
    (pending_node_hello t) (pending_sync_responses t) (outbound_sync_requests t).
Definition set_host_peers t x :=
  mkPeerTables (peer_by_node t) (node_by_transport t) (peer_max_blocks_per_chunk t) x
    (pending_node_hello t) (pending_sync_responses t) (outbound_sync_requests t).
Definition set_pending_hello t x :=
  mkPeerTables (peer_by_node t) (node_by_transport t) (peer_max_blocks_per_chunk t)
    (host_transport_peers t) x (pending_sync_responses t) (outbound_sync_requests t).
Definition set_pending_sync t x :=
  mkPeerTables (peer_by_node t) (node_by_transport t) (peer_max_blocks_per_chunk t)
    (host_transport_peers t) (pending_node_hello t) x (outbound_sync_requests t).
Definition set_outbound_sync t x :=
  mkPeerTables (peer_by_node t) (node_by_transport t) (peer_max_blocks_per_chunk t)
    (host_transport_peers t) (pending_node_hello t) (pending_sync_responses t) x.

(** ** Handlers *)

Definition NM : Type := outcome (NetworkManager * result unit Host.RuntimeError).

Definition done_ok (m : NetworkManager) : NM := Ret (m, Ok tt).

(** [self.event_tx.send(ev).await.map_err(RuntimeError::event_send)] *)
Definition send_event (env : Env) (m : NetworkManager) (ev : RuntimeEvent) : NM :=
  if events_open env
  then Ret (mkNetworkManager (tables m) (swarm m) (next_request_id m) (sent_events m ++ [ev]), Ok tt)
  else Ret (m, Err Host.event_send).

(** [request_response::Behaviour::send_response]: the answer, or an error when the
    channel is closed. *)
Definition respond (env : Env) (m : NetworkManager) (channel : Z) (c : SwarmCall) :
    NetworkManager * bool :=
  if channel_alive env channel then (call m c, true) else (m, false).

Definition clamp_sync_request (m : NetworkManager) (peer : bytes) (request : SyncRequest) : SyncRequest :=
  match peer_max_blocks_per_chunk (tables m) !! peer with
  | None => request
  | Some limit =>
      if bool_decide (limit = 0) || bool_decide (sync_to_height request < sync_from_height request)
      then request
      else
        let max_to_height := u64_saturating_add (sync_from_height request) (u64_saturating_sub limit 1) in
        mkSyncRequest (sync_from_height request) (Z.min (sync_to_height request) max_to_height)
  end.

Definition send_sync_request (m : NetworkManager) (peer : bytes) (request : SyncRequest) : NM :=
  match peer_by_node (tables m) !! peer with
  | None => done_ok m
  | Some transport_peer =>
      let request := clamp_sync_request m peer request in
      let request_id := next_request_id m in
      let m := call m (SendSync request_id transport_peer request) in
      let m := mkNetworkManager (tables m) (swarm m) (request_id + 1) (sent_events m) in
      done_ok (set_tables m (set_outbound_sync (tables m)
        (<[request_id := peer]> (outbound_sync_requests (tables m)))))
  end.

Definition send_sync_response (env : Env) (m : NetworkManager) (peer : bytes) (response : SyncResponse) : NM :=
  match pending_sync_responses (tables m) !! peer with
  | None | Some [] => done_ok m
  | Some (channel :: queue) =>
      let pending :=
        match queue with
        | [] => delete peer (pending_sync_responses (tables m))
        | _ => <[peer := queue]> (pending_sync_responses (tables m))
        end in
      let m := set_tables m (set_pending_sync (tables m) pending) in
      let '(m, answered) := respond env m channel (RespondSync channel response) in
      Ret (m, if answered then Ok tt else Err (Host.io_other "failed to send sync response"))
  end.

Definition send_frame (env : Env) (m : NetworkManager) (peer frame : bytes) : NM :=
  match peer_by_node (tables m) !! peer with
  | None => done_ok m
  | Some transport_peer =>
      match network_message_from_bytes frame with
      | Err _ => Ret (m, Err (Host.Config "invalid outbound network frame"))
      | Ok (MsgAnnounceRequest request) => done_ok (call m (SendAnnounce transport_peer request))
      | Ok (MsgSyncRequest request) => send_sync_request m peer request
      | Ok (MsgSyncResponse response) => send_sync_response env m peer response
      | Ok (MsgAnnounceResponse _) => done_ok m
      end
  end.

(** The loop of [BroadcastFrame] over the peers. *)
Fixpoint broadcast_loop (env : Env) (m : NetworkManager) (peers : list bytes) (frame : bytes) : NM :=
  match peers with
  | [] => done_ok m
  | peer :: peers =>
      let on_host :=
        match peer_by_node (tables m) !! peer with
        | Some transport_peer => bool_decide (transport_peer ∈ host_transport_peers (tables m))
        | None => false
        end in
      if negb on_host then
        '(m, r) ← send_frame env m peer frame;
        match r with
        | Ok _ => broadcast_loop env m peers frame
        | Err e => Ret (m, Err e)
        end
      else broadcast_loop env m peers frame
  end.

Definition handle_command (env : Env) (m : NetworkManager) (command : NetworkCommand) : NM :=
  match command with
  | NetSendFrame peer frame => send_frame env m peer frame
  | NetBroadcastFrame frame =>
      let m :=
        match network_message_from_bytes frame with
        | Ok (MsgAnnounceRequest _) => call m (Publish frame)
        | _ => m
        end in
      broadcast_loop env m (hash_keys (peer_by_node (tables m))) frame
  | NetDisconnectPeer peer =>
      match peer_by_node (tables m) !! peer with
      | Some transport_peer => done_ok (call m (Disconnect transport_peer))
      | None => done_ok m
      end
  | NetRequestBlocks peer from_height to_height =>
      send_sync_request m peer (mkSyncRequest from_height to_height)
  end.

Definition register_verified_peer (env : Env) (m : NetworkManager) (transport_peer : bytes)
    (verified : HostVerifiedPeer) : NM :=
  let node_peer := host_verified_peer_id verified in
  let t := tables m in
  let previous_transport := peer_by_node t !! node_peer in
  let t := set_peer_by_node t (<[node_peer := transport_peer]> (peer_by_node t)) in
  let previous_node := node_by_transport t !! transport_peer in
  let t := set_node_by_transport t (<[transport_peer := node_peer]> (node_by_transport t)) in
  let t := set_max_blocks t (<[node_peer := host_verified_max_blocks verified]> (peer_max_blocks_per_chunk t)) in
  let t :=
    match previous_transport with
    | Some previous_transport =>
        if bool_decide (previous_transport ≠ transport_peer)
        then set_node_by_transport t (delete previous_transport (node_by_transport t)) else t
    | None => t
    end in
  let t :=
    match previous_node with
    | Some previous_node =>
        if bool_decide (previous_node ≠ node_peer)
        then set_peer_by_node t (delete previous_node (peer_by_node t)) else t
    | None => t
    end in
  let is_new_mapping :=
    bool_decide (previous_transport ≠ Some transport_peer) || bool_decide (previous_node ≠ Some node_peer) in
  let m := set_tables m t in
  if is_new_mapping then send_event env m (EvPeerConnected node_peer) else done_ok m.

Definition unregister_transport_peer (env : Env) (m : NetworkManager) (transport_peer : bytes) : NM :=
  match node_by_transport (tables m) !! transport_peer with
  | None => done_ok m
  | Some node_peer =>
      let t := tables m in
      let t := set_node_by_transport t (delete transport_peer (node_by_transport t)) in
      let t := set_peer_by_node t (delete node_peer (peer_by_node t)) in
      let t := set_max_blocks t (delete node_peer (peer_max_blocks_per_chunk t)) in
      let t := set_host_peers t (host_transport_peers t ∖ {[ transport_peer ]}) in
      let t := set_pending_hello t (pending_node_hello t ∖ {[ transport_peer ]}) in
      let t := set_pending_sync t (delete node_peer (pending_sync_responses t)) in
      let t := set_outbound_sync t (filter (λ p, p.2 ≠ node_peer) (outbound_sync_requests t)) in
      send_event env (set_tables m t) (EvPeerDisconnected node_peer)
  end.

Context (cfg : HostConfig).

Definition build_local_node_hello : result NodeHello Host.RuntimeError :=
  host_build (cfg_identity cfg) (cfg_transport_peer_id cfg) (cfg_max_frame_len cfg)
    (cfg_max_blocks_per_chunk cfg).

Definition build_local_node_hello_or_disconnect (m : NetworkManager) (peer : bytes) :
    NetworkManager * option NodeHello :=
  match build_local_node_hello with
  | Ok hello => (m, Some hello)
  | Err _ => (call m (Disconnect peer), None)
  end.

Definition handle_ping_event (m : NetworkManager) (peer : bytes) (succeeded : bool) : NetworkManager :=
  if succeeded then m else call m (Disconnect peer).

Definition handle_identify_event (m : NetworkManager) (event : IdentifyEvent) : NM :=
  match event with
  | IdReceived peer_id agent_version listen_addrs =>
      let m := foldl (λ m address, call m (AddAddress peer_id address)) m listen_addrs in
      let t := tables m in
      let t :=
        if String.prefix "rp-runtime/" agent_version
        then set_host_peers t (host_transport_peers t ∪ {[ peer_id ]})
        else set_host_peers t (host_transport_peers t ∖ {[ peer_id ]}) in
      let was_pending := bool_decide (peer_id ∈ pending_node_hello t) in
      let t := set_pending_hello t (pending_node_hello t ∖ {[ peer_id ]}) in
      let m := set_tables m t in
      if was_pending && bool_decide (node_by_transport t !! peer_id = None) then
        let '(m, hello) := build_local_node_hello_or_disconnect m peer_id in
        match hello with
        | None => done_ok m
        | Some hello => done_ok (call m (SendHello peer_id hello))
        end
      else done_ok m
  | IdError _ | IdOther => done_ok m
  end.

Definition handle_gossipsub_event (env : Env) (m : NetworkManager) (event : GossipEvent) : NM :=
  match event with
  | GossipMessage propagation_source data =>
      match node_by_transport (tables m) !! propagation_source with
      | None => done_ok m
      | Some node_peer => send_event env m (EvFrameReceived node_peer data)
      end
  | GossipOther => done_ok m
  end.

Definition handle_node_hello_event (env : Env) (m : NetworkManager)
    (event : rr_event NodeHello NodeHelloResponse) : NM :=
  match event with
  | RrRequest peer request channel =>
      match host_verify request peer with
      | Err error =>
          let reject_reason := host_reject_reason error in
          let '(m, remote) := build_local_node_hello_or_disconnect m peer in
          match remote with
          | None => done_ok m
          | Some remote =>
              let response := mkNodeHelloResponse false remote (Some reject_reason) in
              let '(m, _) := respond env m channel (RespondHello channel response) in
              done_ok (call m (Disconnect peer))
          end
      | Ok verified =>
          let '(m, remote) := build_local_node_hello_or_disconnect m peer in
          match remote with
          | None => done_ok m
          | Some remote =>
              let response := mkNodeHelloResponse true remote None in
              let '(m, answered) := respond env m channel (RespondHello channel response) in
              if negb answered then done_ok (call m (Disconnect peer))
              else register_verified_peer env m peer verified
          end
      end
  | RrResponse peer _ response =>
      if negb (hello_accepted response) then done_ok (call m (Disconnect peer))
      else
        match host_verify (hello_remote response) peer with
        | Err _ => done_ok (call m (Disconnect peer))
        | Ok verified => register_verified_peer env m peer verified
        end
  | RrOutboundFailure _ _ | RrInboundFailure _ _ | RrResponseSent _ _ => done_ok m
  end.

Definition handle_sync_event (env : Env) (m : NetworkManager)
    (event : rr_event SyncRequest SyncResponse) : NM :=
  match event with
  | RrRequest peer request channel =>
      match node_by_transport (tables m) !! peer with
      | None =>
          let empty := mkSyncResponse [] false None in
          let '(m, answered) := respond env m channel (RespondSync channel empty) in
          Ret (m, if answered then Ok tt else Err (Host.io_other "failed to send fallback sync response"))
      | Some node_peer =>
          let queue := default [] (pending_sync_responses (tables m) !! node_peer) in
          let m := set_tables m (set_pending_sync (tables m)
                     (<[node_peer := queue ++ [channel]]> (pending_sync_responses (tables m)))) in
          frame ← message_to_bytes (MsgSyncRequest request);
          send_event env m (EvFrameReceived node_peer frame)
      end
  | RrResponse peer request_id response =>
      match outbound_sync_requests (tables m) !! request_id with
      | None => done_ok m
      | Some node_peer =>
          let m := set_tables m (set_outbound_sync (tables m)
                     (delete request_id (outbound_sync_requests (tables m)))) in
          frame ← message_to_bytes (MsgSyncResponse response);
          send_event env m (EvFrameReceived node_peer frame)
      end
  | RrOutboundFailure _ request_id =>
      done_ok (set_tables m (set_outbound_sync (tables m)
        (delete request_id (outbound_sync_requests (tables m)))))
  | RrInboundFailure _ _ | RrResponseSent _ _ => done_ok m
  end.

Definition handle_announce_event (env : Env) (m : NetworkManager)
    (event : rr_event AnnounceRequest AnnounceResponse) : NM :=
  match event with
  | RrRequest peer request channel =>
      let answer (m : NetworkManager) (accepted : bool) : NM :=
        let '(m, answered) := respond env m channel (RespondAnnounce channel (mkAnnounceResponse accepted)) in
        Ret (m, if answered then Ok tt else Err (Host.io_other "failed to send announce response")) in
      match node_by_transport (tables m) !! peer with
      | Some node_peer =>
          frame ← message_to_bytes (MsgAnnounceRequest request);
          '(m, r) ← send_event env m (EvFrameReceived node_peer frame);
          match r with
          | Err e => Ret (m, Err e)
          | Ok _ => answer m true
          end
      | None => answer m false
      end
  | RrResponse peer _ response =>
      match node_by_transport (tables m) !! peer with
      | None => done_ok m
      | Some node_peer =>
          frame ← message_to_bytes (MsgAnnounceResponse response);
          send_event env m (EvFrameReceived node_peer frame)
      end
  | RrOutboundFailure _ _ | RrInboundFailure _ _ | RrResponseSent _ _ => done_ok m
  end.

Definition handle_swarm_event (env : Env) (m : NetworkManager) (event : SwarmEvent) : NM :=
  match event with
  | NewListenAddr | IncomingConnection | IncomingConnectionError | OutgoingConnectionError
  | EvKademlia | OtherSwarmEvent => done_ok m
  | ConnectionEstablished peer_id endpoint =>
      let address := match endpoint with Dialer address => address | Listener address => address end in
      let m := call m (AddAddress peer_id address) in
      let dialed := match endpoint with Dialer _ => true | Listener _ => false end in
      if dialed && bool_decide (node_by_transport (tables m) !! peer_id = None)
      then done_ok (set_tables m (set_pending_hello (tables m) (pending_node_hello (tables m) ∪ {[ peer_id ]})))
      else done_ok m
  | ConnectionClosed peer_id => unregister_transport_peer env m peer_id
  | EvIdentify event => handle_identify_event m event
  | EvPing peer succeeded => done_ok (handle_ping_event m peer succeeded)
  | EvGossipsub event => handle_gossipsub_event env m event
  | EvNodeHello event => handle_node_hello_event env m event
  | EvSync event => handle_sync_event env m event
  | EvAnnounce event => handle_announce_event env m event
  end.

(** ** The loop of [run]: commands and events in the order they are picked *)

Inductive NetworkInput : Type :=
| InCommand (command : NetworkCommand)
| InEvent (event : SwarmEvent).

Definition network_step (env : Env) (m : NetworkManager) (i : NetworkInput) : NM :=
  match i with
  | InCommand command => handle_command env m command
  | InEvent event => handle_swarm_event env m event
  end.

(** [run]: dials the bootstrap peers, then handles inputs until one fails. *)
Definition network_start : NetworkManager :=
  foldl (λ m address, call m (Dial address)) NetworkManager_new (cfg_bootstrap_addrs cfg).

Fixpoint network_run (m : NetworkManager) (inputs : list (Env * NetworkInput)) : NM :=
  match inputs with
  | [] => done_ok m
  | (env, i) :: inputs =>
      '(m, r) ← network_step env m i;
      match r with
      | Ok _ => network_run m inputs
      | Err e => Ret (m, Err e)
      end
  end.
End network.

(** ** The invariant of the manager *)

(** Node ids and transports are in one-to-one correspondence. *)
Definition inverse (a b : gmap bytes bytes) : Prop := ∀ n t, a !! n = Some t ↔ b !! t = Some n.

Lemma inverse_delete a b n t : inverse a b → b !! t = Some n → inverse (delete n a) (delete t b).
Proof.
  intros Hi Ht n' t'. rewrite !lookup_delete. apply Hi in Ht as Hn.
  destruct (decide (n = n')) as [<-|], (decide (t = t')) as [<-|]; [done|..|apply Hi].
  - split; [done|]. intros Ht'%Hi. congruence.
  - split; [|done]. intros Hn'%Hi. congruence.
Qed.

(** Registering a peer drops the links it replaces, on both sides. *)
Definition relink (m : gmap bytes bytes) (old : option bytes) (new : bytes) : gmap bytes bytes :=
  match old with
  | Some o => if bool_decide (o ≠ new) then delete o m else m
  | None => m
  end.

Lemma lookup_relink m old new x :
  old ≠ Some x ∨ x = new → relink m old new !! x = m !! x.
Proof.
  unfold relink. intros Hx. destruct old as [o|]; [|done]. case_bool_decide; [|done].
  apply lookup_delete_ne. naive_solver.
Qed.

Lemma lookup_relink_old m x new : x ≠ new → relink m (Some x) new !! x = None.
Proof. intros. unfold relink. rewrite bool_decide_true by done. apply lookup_delete_eq. Qed.

Lemma inverse_register a b n t :
  inverse a b → inverse (relink (<[n := t]> a) (b !! t) n) (relink (<[t := n]> b) (a !! n) t).
Proof.
  intros Hi n' t'.
  destruct (decide (n' = n)) as [->|Hn], (decide (t' = t)) as [->|Ht].
  - rewrite !lookup_relink by naive_solver. by rewrite !lookup_insert_eq.
  - rewrite lookup_relink, lookup_insert_eq by naive_solver. split; [naive_solver|].
    destruct (decide (a !! n = Some t')) as [E|E].
    + rewrite E. by rewrite lookup_relink_old.
    + rewrite lookup_relink, lookup_insert_ne by naive_solver. by intros ?%Hi.
  - rewrite (lookup_relink _ (a !! n)), lookup_insert_eq by naive_solver. split; [|naive_solver].
    destruct (decide (b !! t = Some n')) as [E|E].
    + rewrite E. by rewrite lookup_relink_old.
    + rewrite lookup_relink, lookup_insert_ne by naive_solver. by intros ?%Hi.
  - split.
    + destruct (decide (b !! t = Some n')) as [E|E]; [by rewrite E, lookup_relink_old|].
      rewrite lookup_relink, lookup_insert_ne by naive_solver. intros H'%Hi.
      rewrite lookup_relink, lookup_insert_ne; [done|done|]. left. intros H2%Hi. congruence.
    + destruct (decide (a !! n = Some t')) as [E|E]; [by rewrite E, lookup_relink_old|].
      rewrite lookup_relink, lookup_insert_ne by naive_solver. intros H'%Hi.
      rewrite lookup_relink, lookup_insert_ne; [done|done|]. left. intros H2%Hi. congruence.
Qed.

Section invariant.
Context `{Crypto, !CryptoLaws, !Postcard NetworkMessage, !Postcard NodeHelloTranscript, HashOrder}.
Implicit Types hist : list (Env * NetworkInput).

(** A hello that came in from a transport: as a request, or in a positive response. *)
Definition heard hist (t : bytes) (h : NodeHello) : Prop :=
  (∃ env channel, (env, InEvent (EvNodeHello (RrRequest t h channel))) ∈ hist) ∨
  (∃ env id response, (env, InEvent (EvNodeHello (RrResponse t id response))) ∈ hist ∧
     hello_remote response = h ∧ hello_accepted response = true).

(** The node [n] has shown, over the transport [t], a hello signed with its key. *)
Definition shown hist (n t : bytes) : Prop :=
  ∃ h, heard hist t h ∧ hello_authentic h t ∧ hello_peer_id h = n.

Definition event_ok hist (ev : RuntimeEvent) : Prop :=
  match ev with
  | EvPeerConnected n | EvPeerDisconnected n | EvFrameReceived n _ => ∃ t, shown hist n t
  | _ => False
  end.

Definition tables_ok hist (t : PeerTables) : Prop :=
  inverse (peer_by_node t) (node_by_transport t) ∧
  (∀ tr n, node_by_transport t !! tr = Some n → shown hist n tr) ∧
  (∀ id n, outbound_sync_requests t !! id = Some n → ∃ tr, shown hist n tr).

Definition manager_ok hist (m : NetworkManager) : Prop :=
  tables_ok hist (tables m) ∧ Forall (event_ok hist) (sent_events m).

Lemma shown_app hist hist' n t : shown hist n t → shown (hist ++ hist') n t.
Proof.
  intros (h & Hh & Ha & Hn). exists h. split; [|done].
  destruct Hh as [(env & ch & ?)|(env & id & r & ? & ?)]; [left|right]; do 2 eexists;
    [apply elem_of_app; eauto|eexists; split; [apply elem_of_app; eauto|done]].
Qed.

Lemma event_ok_app hist hist' ev : event_ok hist ev → event_ok (hist ++ hist') ev.
Proof. destruct ev; simpl; try done; intros [t Ht]; eauto using shown_app. Qed.

Lemma manager_ok_app hist hist' m : manager_ok hist m → manager_ok (hist ++ hist') m.
Proof.
  intros [(Hi & Hn & Ho) He]. split; [split_and!; [done|..]|].
  - intros tr n Ht. eauto using shown_app.
  - intros id n Hid. destruct (Ho _ _ Hid) as [tr ?]. eauto using shown_app.
  - eapply Forall_impl; [exact He|]. intros ev. apply event_ok_app.
Qed.

Lemma manager_ok_call hist m c : manager_ok hist m → manager_ok hist (call m c).
Proof. done. Qed.

Lemma manager_ok_tables hist m t : manager_ok hist m → tables_ok hist t → manager_ok hist (set_tables m t).
Proof. intros [_ He] Ht. by split. Qed.

Lemma send_event_ok hist env m ev m' r :
  manager_ok hist m → event_ok hist ev → send_event env m ev = Ret (m', r) → manager_ok hist m'.
Proof.
  unfold send_event. intros [Ht He] Hev. destruct (events_open env); intros [= <- <-]; [|done].
  split; [done|]. simpl. apply Forall_app. by rewrite Forall_singleton.
Qed.

Lemma respond_ok hist env m ch c m' b : manager_ok hist m → respond env m ch c = (m', b) → manager_ok hist m'.
Proof. unfold respond. destruct (channel_alive env ch); intros ? [= <- <-]; done. Qed.

Lemma host_verify_shown hist h t v :
  heard hist t h → host_verify h t = Ok v → shown hist (host_verified_peer_id v) t.
Proof.
  intros Hh Hv. exists h. split; [done|]. pose proof (verdicts_agree h t) as Hs.
  rewrite Hv in Hs. destruct (verifier_verify h t) as [v'|] eqn:Hv'; [|done].
  split; [apply verifier_verify_Ok; eauto|].
  revert Hv. unfold host_verify. do 3 (case_bool_decide; [done|]).
  destruct (verifying_key_from_bytes _); [|done]. simpl. destruct (to_allocvec _); [|done].
  destruct (signature_from_slice _); [|done]. destruct (verify _ _ _); [|done]. by intros [= <-].
Qed.

(** ** Every handler keeps it *)

Lemma tables_ok_peer hist t n tr : tables_ok hist t → peer_by_node t !! n = Some tr → shown hist n tr.
Proof. intros (Hi & Hn & _) E. by apply Hn, Hi. Qed.

Lemma send_sync_request_ok hist m p req m' r :
  manager_ok hist m → send_sync_request m p req = Ret (m', r) → manager_ok hist m'.
Proof.
  unfold send_sync_request. intros Hm. destruct (peer_by_node _ !! p) as [tr|] eqn:E; intros [= <- <-]; [|done].
  destruct Hm as [Ht He]. pose proof (tables_ok_peer _ _ _ _ Ht E). destruct Ht as (Hi & Hn & Ho).
  split; [|done]. split_and!; [done..|]. simpl. intros id n. rewrite lookup_insert.
  case_decide; [intros [= <-]|]; eauto.
Qed.

Lemma send_sync_response_ok hist env m p resp m' r :
  manager_ok hist m → send_sync_response env m p resp = Ret (m', r) → manager_ok hist m'.
Proof.
  unfold send_sync_response. intros Hm. destruct (_ !! p) as [[|ch q]|]; [by intros [= <- <-]| |by intros [= <- <-]].
  destruct (respond _ _ _ _) as [m1 b] eqn:Hr. intros [= <- <-]. by eapply respond_ok; [|exact Hr].
Qed.

Lemma send_frame_ok hist env m p f m' r :
  manager_ok hist m → send_frame env m p f = Ret (m', r) → manager_ok hist m'.
Proof.
  unfold send_frame. intros Hm. destruct (_ !! p) as [tr|]; [|by intros [= <- <-]].
  destruct (network_message_from_bytes f) as [[]|]; try (intros [= <- <-]; done);
    eauto using send_sync_request_ok, send_sync_response_ok.
Qed.

Lemma broadcast_loop_ok hist env m ps f m' r :
  manager_ok hist m → broadcast_loop env m ps f = Ret (m', r) → manager_ok hist m'.
Proof.
  revert m. induction ps as [|p ps IH]; intros m Hm; simpl; [by intros [= <- <-]|].
  destruct (negb _); [|by apply IH]. intros ([m1 [[]|e]] & Hs & Hr)%bind_Ret.
  - eapply IH; [|exact Hr]. by eapply send_frame_ok.
  - injection Hr as <- <-. by eapply send_frame_ok.
Qed.

Lemma handle_command_ok hist env m c m' r :
  manager_ok hist m → handle_command env m c = Ret (m', r) → manager_ok hist m'.
Proof.
  intros Hm. destruct c as [p f|f|p|p from to]; simpl.
  - by apply send_frame_ok.
  - apply broadcast_loop_ok. by destruct (network_message_from_bytes f) as [[]|].
  - destruct (_ !! p); by intros [= <- <-].
  - by apply send_sync_request_ok.
Qed.

Lemma register_ok hist env m tr v m' r :
  manager_ok hist m → shown hist (host_verified_peer_id v) tr →
  register_verified_peer env m tr v = Ret (m', r) → manager_ok hist m'.
Proof.
  intros [(Hi & Hn & Ho) He] Hv. unfold register_verified_peer. set (n := host_verified_peer_id v) in *.
  set (t' := match node_by_transport _ !! tr with Some _ => _ | None => _ end).
  assert (peer_by_node t' = relink (<[n := tr]> (peer_by_node (tables m))) (node_by_transport (tables m) !! tr) n ∧
    node_by_transport t' = relink (<[tr := n]> (node_by_transport (tables m))) (peer_by_node (tables m) !! n) tr ∧
    outbound_sync_requests t' = outbound_sync_requests (tables m)) as (Hp & Ht & Hout).
  { subst t'. simpl. unfold relink. destruct (_ !! n), (_ !! tr); simpl; repeat case_bool_decide; done. }
  assert (manager_ok hist (set_tables m t')) as Hm.
  { split; [|done]. simpl. split_and!.
    - rewrite Hp, Ht. by apply inverse_register.
    - intros tr' n'. rewrite Ht. unfold relink.
      assert (∀ x, <[tr := n]> (node_by_transport (tables m)) !! tr' = Some x → shown hist x tr') as Hx.
      { intros x. rewrite lookup_insert. case_decide; [by intros [= <-]; subst|apply Hn]. }
      destruct (_ !! n); [|by apply Hx]. case_bool_decide; [|by apply Hx].
      rewrite lookup_delete. case_decide; [done|apply Hx].
    - by rewrite Hout. }
  destruct (_ || _); [|by intros [= <- <-]]. apply send_event_ok; [done|]. by exists tr.
Qed.

Lemma unregister_ok hist env m tr m' r :
  manager_ok hist m → unregister_transport_peer env m tr = Ret (m', r) → manager_ok hist m'.
Proof.
  unfold unregister_transport_peer. intros Hm. destruct (_ !! tr) as [n|] eqn:E; [|by intros [= <- <-]].
  destruct Hm as [(Hi & Hn & Ho) He]. apply send_event_ok; [|by exists tr; apply Hn].
  split; [|done]. simpl. split_and!; simpl.
  - by apply inverse_delete.
  - intros tr' n'. rewrite lookup_delete. case_decide; [done|apply Hn].
  - intros id n' (? & _)%map_lookup_filter_Some. eauto.
Qed.

Context (cfg : HostConfig).

Lemma build_or_disconnect_ok hist m p m' o :
  manager_ok hist m → build_local_node_hello_or_disconnect cfg m p = (m', o) → manager_ok hist m'.
Proof. unfold build_local_node_hello_or_disconnect. destruct (build_local_node_hello cfg); by intros ? [= <- <-]. Qed.

Lemma handle_identify_ok hist m ev m' r :
  manager_ok hist m → handle_identify_event cfg m ev = Ret (m', r) → manager_ok hist m'.
Proof.
  intros Hm. destruct ev as [p agent addrs|p|]; simpl; [|by intros [= <- <-]..].
  assert (manager_ok hist (foldl (λ m address, call m (AddAddress p address)) m addrs)) as Hm1.
  { revert m Hm. induction addrs as [|a addrs IH]; intros m Hm; [done|]. by apply IH. }
  set (m1 := foldl _ _ _) in *. set (t := if String.prefix _ _ then _ else _).
  assert (manager_ok hist (set_tables m1 (set_pending_hello t (pending_node_hello t ∖ {[p]})))) as Hm2.
  { apply manager_ok_tables; [done|]. subst t. by destruct (String.prefix _ _), Hm1. }
  destruct (_ && _); [|by intros [= <- <-]].
  destruct (build_local_node_hello_or_disconnect _ _ _) as [m3 o] eqn:Hb.
  apply build_or_disconnect_ok with (hist:=hist) in Hb; [|done]. destruct o; by intros [= <- <-].
Qed.

Lemma handle_node_hello_ok hist env m ev m' r :
  (env, InEvent (EvNodeHello ev)) ∈ hist → manager_ok hist m →
  handle_node_hello_event cfg env m ev = Ret (m', r) → manager_ok hist m'.
Proof.
  intros Hin Hm. destruct ev as [p h ch|p id resp|p id|p id|p id]; simpl; [| |by intros [= <- <-]..].
  - destruct (host_verify h p) as [v|e] eqn:Hv.
    + destruct (build_local_node_hello_or_disconnect _ _ _) as [m1 [remote|]] eqn:Hb;
        apply build_or_disconnect_ok with (hist:=hist) in Hb; [|done| |done]; [|by intros [= <- <-]].
      destruct (respond _ _ _ _) as [m2 b] eqn:Hr. apply respond_ok with (hist:=hist) in Hr; [|done].
      destruct b; simpl; [|by intros [= <- <-]]. apply register_ok; [done|].
      eapply host_verify_shown; [|exact Hv]. left. eauto.
    + destruct (build_local_node_hello_or_disconnect _ _ _) as [m1 [remote|]] eqn:Hb;
        apply build_or_disconnect_ok with (hist:=hist) in Hb; [|done| |done]; [|by intros [= <- <-]].
      destruct (respond _ _ _ _) as [m2 b] eqn:Hr. apply respond_ok with (hist:=hist) in Hr; [|done].
      by intros [= <- <-].
  - destruct (hello_accepted resp) eqn:Ha; simpl; [|by intros [= <- <-]].
    destruct (host_verify _ p) as [v|e] eqn:Hv; [|by intros [= <- <-]].
    apply register_ok; [done|]. eapply host_verify_shown; [|exact Hv]. right. eauto 10.
Qed.

Lemma manager_ok_node hist m tr n :
  manager_ok hist m → node_by_transport (tables m) !! tr = Some n → ∃ tr, shown hist n tr.
Proof. intros [(_ & Hn & _) _] E. eauto. Qed.

Lemma handle_sync_ok hist env m ev m' r :
  manager_ok hist m → handle_sync_event env m ev = Ret (m', r) → manager_ok hist m'.
Proof.
  intros Hm. destruct ev as [p req ch|p id resp|p id|p id|p id]; simpl; [| | |by intros [= <- <-]..].
  - destruct (_ !! p) as [n|] eqn:E.
    + intros (f & _ & Hs)%bind_Ret. revert Hs. apply send_event_ok; [done|by eapply manager_ok_node].
    + destruct (respond _ _ _ _) as [m1 b] eqn:Hr. intros [= <- <-]. by eapply respond_ok.
  - destruct (_ !! id) as [n|] eqn:E; [|by intros [= <- <-]].
    intros (f & _ & Hs)%bind_Ret. destruct Hm as [(Hi & Hn & Ho) He].
    revert Hs. apply send_event_ok; [|by apply (Ho _ _ E)].
    split; [|done]. split_and!; [done..|]. simpl. intros id' n'. rewrite lookup_delete. case_decide; [done|eauto].
  - intros [= <- <-]. destruct Hm as [(Hi & Hn & Ho) He]. split; [|done]. split_and!; [done..|].
    simpl. intros id' n'. rewrite lookup_delete. case_decide; [done|eauto].
Qed.

Lemma handle_announce_ok hist env m ev m' r :
  manager_ok hist m → handle_announce_event env m ev = Ret (m', r) → manager_ok hist m'.
Proof.
  intros Hm. destruct ev as [p req ch|p id resp|p id|p id|p id]; simpl; [| |by intros [= <- <-]..].
  - destruct (_ !! p) as [n|] eqn:E.
    + intros (f & _ & Hb)%bind_Ret. apply bind_Ret in Hb as ([m1 [[]|e]] & Hs & Hb);
        apply send_event_ok with (hist:=hist) in Hs; [|done|by eapply manager_ok_node| |done|by eapply manager_ok_node].
      * destruct (respond _ _ _ _) as [m2 b] eqn:Hr. injection Hb as <- <-. by eapply respond_ok.
      * by injection Hb as <- <-.
    + destruct (respond _ _ _ _) as [m2 b] eqn:Hr. intros [= <- <-]. by eapply respond_ok.
  - destruct (_ !! p) as [n|] eqn:E; [|by intros [= <- <-]].
    intros (f & _ & Hs)%bind_Ret. revert Hs. apply send_event_ok; [done|by eapply manager_ok_node].
Qed.

Lemma network_step_ok hist env i m m' r :
  (env, i) ∈ hist → manager_ok hist m → network_step cfg env m i = Ret (m', r) → manager_ok hist m'.
Proof.
  intros Hin Hm. destruct i as [c|ev]; simpl; [by apply handle_command_ok|].
  destruct ev as [| | |p endpoint|p| |ev|p ok|ev| |ev|ev|ev|]; simpl; try (by intros [= <- <-]).
  - destruct (_ && _); by intros [= <- <-].
  - by apply unregister_ok.
  - by apply handle_identify_ok.
  - intros [= <- <-]. by destruct ok.
  - destruct ev as [p data|]; simpl; [|by intros [= <- <-]].
    destruct (_ !! p) as [n|] eqn:E; [|by intros [= <- <-]]. apply send_event_ok; [done|].
    by eapply manager_ok_node.
  - by apply handle_node_hello_ok.
  - by apply handle_sync_ok.
  - by apply handle_announce_ok.
Qed.

Lemma network_run_ok hist inputs m m' r :
  manager_ok hist m → network_run cfg m inputs = Ret (m', r) → manager_ok (hist ++ inputs) m'.
Proof.
  revert hist m. induction inputs as [|[env i] inputs IH]; intros hist m Hm; simpl.
  - intros [= <- <-]. by rewrite app_nil_r.
  - intros ([m1 r1] & Hs & Hr)%bind_Ret.
    apply (network_step_ok (hist ++ [(env, i)])) in Hs; [|set_solver|by apply manager_ok_app].
    change ((env, i) :: inputs) with ([(env, i)] ++ inputs). rewrite app_assoc.
    destruct r1 as [[]|e]; [by eapply IH|]. injection Hr as <- <-. by apply manager_ok_app.
Qed.

Lemma network_start_ok : manager_ok [] (network_start cfg).
Proof.
  unfold network_start. assert (manager_ok [] NetworkManager_new) as Hm.
  { split; [|constructor]. split_and!; done. }
  revert Hm. generalize NetworkManager_new. induction (cfg_bootstrap_addrs cfg) as [|a l IH]; intros m Hm; [done|].
  by apply IH.
Qed.

(** C18: the engine hears only from authenticated nodes.  Whatever the swarm delivers and
    whatever commands are given, every event the network manager sends names a node
    that has shown, over some transport, a hello that is signed with the key its id is
    the hash of and names that very transport; and at every moment the registered
    nodes and their transports are in one-to-one correspondence, each pair backed by
    such a hello. *)
Theorem frames_come_from_authenticated_nodes inputs m r :
  network_run cfg (network_start cfg) inputs = Ret (m, r) →
  inverse (peer_by_node (tables m)) (node_by_transport (tables m)) ∧
  (∀ n t, peer_by_node (tables m) !! n = Some t → shown inputs n t) ∧
  (∀ n f, EvFrameReceived n f ∈ sent_events m → ∃ t, shown inputs n t) ∧
  (∀ n, EvPeerConnected n ∈ sent_events m → ∃ t, shown inputs n t).
Proof.
  intros Hr%(network_run_ok []); [|apply network_start_ok]. destruct Hr as [Ht He].
  split_and!; [apply Ht|by intros n t; apply tables_ok_peer| |].
  - intros n f Hin. rewrite Forall_forall in He. apply (He _ Hin).
  - intros n Hin. rewrite Forall_forall in He. apply (He _ Hin).
Qed.
End invariant.

(** ** What can stop the manager *)

Section survival.
Context `{Crypto, !Postcard NetworkMessage, !PostcardLaws NetworkMessage,
  !Postcard NodeHelloTranscript, HashOrder}.
Context (cfg : HostConfig).

(** The node manager listens, and every peer still waits for its answers. *)
Definition responsive (env : Env) : Prop :=
  events_open env = true ∧ ∀ channel, channel_alive env channel = true.

(** The frames of commands are messages. *)
Definition command_decodes (c : NetworkCommand) : Prop :=
  match c with
  | NetSendFrame _ f | NetBroadcastFrame f => ∃ msg, network_message_from_bytes f = Ok msg
  | _ => True
  end.
Definition input_decodes (i : NetworkInput) : Prop :=
  match i with InCommand c => command_decodes c | InEvent _ => True end.

Lemma send_event_open env m ev :
  events_open env = true → ∃ m', send_event env m ev = Ret (m', Ok tt) ∧ tables m' = tables m.
Proof. unfold send_event. intros ->. by eexists. Qed.

Lemma respond_alive env m ch c : channel_alive env ch = true → respond env m ch c = (call m c, true).
Proof. unfold respond. by intros ->. Qed.

Lemma send_sync_request_survives m p req : ∃ m', send_sync_request m p req = Ret (m', Ok tt).
Proof. unfold send_sync_request. destruct (_ !! p); by eexists. Qed.

Lemma send_frame_survives env m p f msg :
  responsive env → network_message_from_bytes f = Ok msg → ∃ m', send_frame env m p f = Ret (m', Ok tt).
Proof.
  intros [_ Ha] Hf. unfold send_frame. destruct (_ !! p) as [tr|]; [|by eexists]. rewrite Hf.
  destruct msg; [by eexists|apply send_sync_request_survives| |by eexists].
  unfold send_sync_response. destruct (_ !! p) as [[|ch q]|]; [by eexists| |by eexists].
  rewrite respond_alive by done. by eexists.
Qed.

Lemma broadcast_survives env m ps f msg :
  responsive env → network_message_from_bytes f = Ok msg →
  ∃ m', broadcast_loop env m ps f = Ret (m', Ok tt).
Proof.
  intros He Hf. revert m. induction ps as [|p ps IH]; intros m; simpl; [by eexists|].
  destruct (negb _); [|by apply IH]. destruct (send_frame_survives env m p f msg He Hf) as (m1 & ->).
  simpl. apply IH.
Qed.

Lemma register_survives env m tr v :
  events_open env = true → ∃ m', register_verified_peer env m tr v = Ret (m', Ok tt).
Proof.
  intros He. unfold register_verified_peer.
  match goal with |- context [if ?b then _ else _] => destruct b eqn:E end.
  - unfold send_event. rewrite He. by eexists.
  - by eexists.
Qed.

Lemma to_bytes_Ret (msg : NetworkMessage) : ∃ f, message_to_bytes msg = Ret f.
Proof. unfold message_to_bytes. destruct (to_allocvec_Some msg) as [f ->]. eauto. Qed.

Lemma send_event_survives env m ev : events_open env = true → ∃ m', send_event env m ev = Ret (m', Ok tt).
Proof. intros He. destruct (send_event_open env m ev He) as (m' & ? & _). eauto. Qed.

Lemma node_hello_survives env m ev :
  responsive env → ∃ m', handle_node_hello_event cfg env m ev = Ret (m', Ok tt).
Proof.
  intros [He Ha]. destruct ev as [p h ch|p id resp|p id|p id|p id]; simpl; [| |by eexists..].
  - destruct (host_verify h p) as [v|e], (build_local_node_hello_or_disconnect _ _ _) as [m1 [remote|]];
      rewrite ?respond_alive by done; simpl; [by apply register_survives|by eexists..].
  - destruct (negb _); [by eexists|]. destruct (host_verify _ p); [by apply register_survives|by eexists].
Qed.

Lemma sync_event_survives env m ev :
  responsive env → ∃ m', handle_sync_event env m ev = Ret (m', Ok tt).
Proof.
  intros [He Ha]. destruct ev as [p req ch|p id resp|p id|p id|p id]; simpl; [| |by eexists..].
  - destruct (_ !! p) as [n|]; [|rewrite respond_alive by done; by eexists].
    destruct (to_bytes_Ret (MsgSyncRequest req)) as [f ->]. by apply send_event_survives.
  - destruct (_ !! id) as [n|]; [|by eexists].
    destruct (to_bytes_Ret (MsgSyncResponse resp)) as [f ->]. by apply send_event_survives.
Qed.

Lemma announce_event_survives env m ev :
  responsive env → ∃ m', handle_announce_event env m ev = Ret (m', Ok tt).
Proof.
  intros [He Ha]. destruct ev as [p req ch|p id resp|p id|p id|p id]; simpl; [| |by eexists..].
  - destruct (_ !! p) as [n|]; [|rewrite respond_alive by done; by eexists].
    destruct (to_bytes_Ret (MsgAnnounceRequest req)) as [f ->]. simpl.
    destruct (send_event_survives env m (EvFrameReceived n f) He) as [m1 ->]. simpl.
    rewrite respond_alive by done. by eexists.
  - destruct (_ !! p) as [n|]; [|by eexists].
    destruct (to_bytes_Ret (MsgAnnounceResponse resp)) as [f ->]. by apply send_event_survives.
Qed.

Lemma network_step_survives env m i :
  responsive env → input_decodes i → ∃ m', network_step cfg env m i = Ret (m', Ok tt).
Proof.
  intros He Hi. destruct i as [c|ev]; simpl.
  - destruct c as [p f|f|p|p from to]; simpl in *.
    + destruct Hi as [msg Hf]. by eapply send_frame_survives.
    + destruct Hi as [msg Hf]. by eapply broadcast_survives.
    + destruct (_ !! p); by eexists.
    + apply send_sync_request_survives.
  - destruct ev as [| | |p endpoint|p| |ev|p ok|ev| |ev|ev|ev|]; simpl; try by eexists.
    + destruct (_ && _); by eexists.
    + unfold unregister_transport_peer. destruct (_ !! p); [by apply send_event_survives, He|by eexists].
    + destruct ev; simpl; [|by eexists..]. destruct (_ && _); [|by eexists].
      destruct (build_local_node_hello_or_disconnect _ _ _) as [m1 [h|]]; by eexists.
    + destruct ev as [p data|]; simpl; [|by eexists].
      destruct (_ !! p); [by apply send_event_survives, He|by eexists].
    + by apply node_hello_survives.
    + by apply sync_event_survives.
    + by apply announce_event_survives.
Qed.

(** no message of a peer, however malformed or out of order, stops the network
    manager or makes it panic, as long as the node manager listens and the peers that
    asked something still wait for the answer: it handles any sequence of events and
    of commands whose frames are messages to the end. *)
Theorem network_manager_survives m inputs :
  Forall (λ p, responsive p.1 ∧ input_decodes p.2) inputs →
  ∃ m', network_run cfg m inputs = Ret (m', Ok tt).
Proof.
  intros Hi. revert m. induction Hi as [|[env i] inputs [He Hd] _ IH]; intros m; simpl; [by eexists|].
  destruct (network_step_survives env m i He Hd) as [m1 ->]. simpl. apply IH.
Qed.

(** a peer can stop the node.  A transport that has not introduced itself sends a
    synchronisation request and closes the connection before the answer goes out: the
    answer cannot be sent, the error ends the manager, whatever else is waiting, and
    with it the process. *)
Theorem unregistered_peer_stops_manager m env t req ch inputs :
  node_by_transport (tables m) !! t = None → channel_alive env ch = false →
  network_run cfg m ((env, InEvent (EvSync (RrRequest t req ch))) :: inputs) =
  Ret (m, Err (Host.io_other "failed to send fallback sync response")).
Proof.
  intros Ht Hc. cbn [network_run network_step handle_swarm_event handle_sync_event].
  rewrite Ht. unfold respond. by rewrite Hc.
Qed.
End survival.

(** ** Requests, responses and broadcasts *)

Section requests.
Context `{Crypto, !Postcard NetworkMessage, !PostcardLaws NetworkMessage,
  !Postcard NodeHelloTranscript, HashOrder}.
Context (cfg : HostConfig).

(** the manager never asks a peer for more blocks than the peer said it serves, and
    asks for as many as it may: the range starts where the engine asked, is not empty,
    and ends at the engine's end or at the peer's limit, whichever comes first. *)
Theorem sync_requests_respect_limit m n req limit :
  peer_max_blocks_per_chunk (tables m) !! n = Some limit → 0 < limit < 2 ^ 16 →
  is_u64 (sync_from_height req) → is_u64 (sync_to_height req) →
  sync_from_height req ≤ sync_to_height req →
  let req' := clamp_sync_request m n req in
  sync_from_height req' = sync_from_height req ∧
  sync_from_height req' ≤ sync_to_height req' ≤ sync_to_height req ∧
  sync_to_height req' - sync_from_height req' + 1 ≤ limit ∧
  (sync_to_height req' = sync_to_height req ∨ sync_to_height req' - sync_from_height req' + 1 = limit).
Proof.
  intros Hl Hlim Hf Ht Hle. unfold clamp_sync_request. rewrite Hl.
  rewrite !bool_decide_false by lia. simpl. unfold u64_saturating_add, u64_saturating_sub. u64_lia.
Qed.

(** The requests of one peer, and the answers of the engine. *)
Definition sync_asks (env : Env) (t : bytes) (asks : list (SyncRequest * Z)) : list (Env * NetworkInput) :=
  map (λ a, (env, InEvent (EvSync (RrRequest t a.1 a.2)))) asks.
Definition answers (env : Env) (n : bytes) (frames : list bytes) : list (Env * NetworkInput) :=
  map (λ f, (env, InCommand (NetSendFrame n f))) frames.

Lemma network_run_app m l1 l2 m1 :
  network_run cfg m l1 = Ret (m1, Ok tt) → network_run cfg m (l1 ++ l2) = network_run cfg m1 l2.
Proof.
  revert m. induction l1 as [|[env i] l1 IH]; intros m; simpl; [by intros [= ->]|].
  intros ([m2 [[]|e]] & -> & Hr)%bind_Ret; [|done]. simpl. by apply IH.
Qed.

(** What the handlers of a peer's requests leave alone. *)
Definition keeps_peers (m m' : NetworkManager) : Prop :=
  peer_by_node (tables m') = peer_by_node (tables m) ∧
  node_by_transport (tables m') = node_by_transport (tables m).

Lemma asks_queue m env t n asks :
  responsive env → node_by_transport (tables m) !! t = Some n →
  ∃ m', network_run cfg m (sync_asks env t asks) = Ret (m', Ok tt) ∧ swarm m' = swarm m ∧ keeps_peers m m' ∧
    (asks ≠ [] → pending_sync_responses (tables m') !! n =
       Some (default [] (pending_sync_responses (tables m) !! n) ++ map snd asks)).
Proof.
  intros [He Ha]. revert m. induction asks as [|[req ch] asks IH]; intros m Hn; simpl; [by exists m|].
  rewrite Hn. destruct (to_bytes_Ret (MsgSyncRequest req)) as [f ->]. simpl.
  unfold send_event. rewrite He. simpl.
  match goal with |- context [network_run cfg ?m1 _] =>
    destruct (IH m1 Hn) as (m' & Hr & Hs & [Hp Ht] & Hq) end.
  exists m'. split_and!; [exact Hr|exact Hs|by split|]. intros _. destruct asks as [|a asks].
  - injection Hr as <-. simpl. by rewrite lookup_insert_eq.
  - rewrite Hq by done. simpl. rewrite lookup_insert_eq. simpl. by rewrite <-app_assoc.
Qed.

Lemma answers_pop m env t n chs frames resps :
  responsive env → peer_by_node (tables m) !! n = Some t →
  pending_sync_responses (tables m) !! n = Some chs →
  Forall2 (λ f resp, network_message_from_bytes f = Ok (MsgSyncResponse resp)) frames resps →
  (length frames ≤ length chs)%nat →
  ∃ m', network_run cfg m (answers env n frames) = Ret (m', Ok tt) ∧
    swarm m' = swarm m ++ zip_with RespondSync chs resps ∧
    default [] (pending_sync_responses (tables m') !! n) = drop (length frames) chs.
Proof.
  intros He Hp Hq Hf. revert m chs Hp Hq. induction Hf as [|f resp frames resps Hf _ IH];
    intros m chs Hp Hq Hl; simpl.
  - exists m. split_and!; [done| |by rewrite Hq]. destruct chs; simpl; by rewrite app_nil_r.
  - destruct chs as [|ch chs]; [simpl in Hl; lia|]. simpl in Hl.
    unfold send_frame. rewrite Hp, Hf. unfold send_sync_response. rewrite Hq.
    rewrite respond_alive by apply He. simpl. destruct chs as [|ch' chs].
    + destruct frames; [|simpl in Hl; lia]. simpl. eexists. split_and!; [done|by destruct resps|].
      simpl. by rewrite lookup_delete_eq.
    + match goal with |- context [network_run cfg ?m1 _] =>
        destruct (IH m1 (ch' :: chs)) as (m' & Hr & Hs & Hd) end;
        [done|simpl; by rewrite lookup_insert_eq|simpl in *; lia|].
      exists m'. split_and!; [exact Hr| |exact Hd]. rewrite Hs. simpl. by rewrite <-app_assoc.
Qed.

(** every synchronisation answer goes to the request it answers.  When a registered
    peer asks several times, the engine's answers, sent in the order in which it was
    asked, are delivered one by one on the channels of the requests in that order, and
    the requests that are left keep waiting. *)
Theorem sync_answers_in_order m env t n asks frames resps :
  responsive env → inverse (peer_by_node (tables m)) (node_by_transport (tables m)) →
  node_by_transport (tables m) !! t = Some n → pending_sync_responses (tables m) !! n = None →
  asks ≠ [] → (length frames ≤ length asks)%nat →
  Forall2 (λ f resp, network_message_from_bytes f = Ok (MsgSyncResponse resp)) frames resps →
  ∃ m', network_run cfg m (sync_asks env t asks ++ answers env n frames) = Ret (m', Ok tt) ∧
    swarm m' = swarm m ++ zip_with RespondSync (map snd asks) resps ∧
    default [] (pending_sync_responses (tables m') !! n) = drop (length frames) (map snd asks).
Proof.
  intros He Hi Hn Hq Hne Hl Hf.
  destruct (asks_queue m env t n asks He Hn) as (m1 & Hr1 & Hs1 & [Hp1 Ht1] & Hq1).
  specialize (Hq1 Hne). rewrite Hq in Hq1. simpl in Hq1.
  destruct (answers_pop m1 env t n (map snd asks) frames resps) as (m2 & Hr2 & Hs2 & Hd);
    [done|by rewrite Hp1; apply Hi|done|done|by rewrite length_map|].
  exists m2. rewrite (network_run_app _ _ _ _ Hr1), Hs2, Hs1. done.
Qed.

(** The transports that a broadcast reaches directly. *)
Definition direct_peers (m : NetworkManager) (ps : list bytes) : list bytes :=
  omap (λ p, match peer_by_node (tables m) !! p with
             | Some t => if bool_decide (t ∈ host_transport_peers (tables m)) then None else Some t
             | None => None
             end) ps.

Lemma broadcast_announce env m ps f req :
  network_message_from_bytes f = Ok (MsgAnnounceRequest req) →
  ∃ m', broadcast_loop env m ps f = Ret (m', Ok tt) ∧ tables m' = tables m ∧
    swarm m' = swarm m ++ map (λ t, SendAnnounce t req) (direct_peers m ps).
Proof.
  intros Hf. revert m. induction ps as [|p ps IH]; intros m; simpl; [exists m; by rewrite app_nil_r|].
  unfold send_frame. destruct (peer_by_node (tables m) !! p) as [t|] eqn:E; simpl.
  - case_bool_decide; simpl; [apply IH|]. rewrite Hf. simpl.
    destruct (IH (call m (SendAnnounce t req))) as (m' & -> & Ht & Hs). exists m'. split_and!; [done..|].
    rewrite Hs. simpl. by rewrite <-app_assoc.
  - apply IH.
Qed.

(** an announcement reaches every peer: it is published once over gossip, which the
    other hosts follow, and sent to every registered peer that is not a host, each on
    its transport and exactly once; nothing else is sent and no table changes. *)
Theorem broadcast_reaches_every_peer env m f req :
  inverse (peer_by_node (tables m)) (node_by_transport (tables m)) →
  network_message_from_bytes f = Ok (MsgAnnounceRequest req) →
  ∃ m' ts, handle_command env m (NetBroadcastFrame f) = Ret (m', Ok tt) ∧
    swarm m' = swarm m ++ Publish f :: map (λ t, SendAnnounce t req) ts ∧ tables m' = tables m ∧
    NoDup ts ∧ ∀ t, t ∈ ts ↔ (∃ n, peer_by_node (tables m) !! n = Some t) ∧
                             t ∉ host_transport_peers (tables m).
Proof.
  intros Hi Hf. unfold handle_command. rewrite Hf.
  destruct (broadcast_announce env (call m (Publish f)) (hash_keys (peer_by_node (tables m))) f req Hf)
    as (m' & Hr & Ht & Hs). simpl in *.
  exists m', (direct_peers m (hash_keys (peer_by_node (tables m)))).
  split_and!; [done|by rewrite Hs, <-app_assoc|done| |].
  - assert (NoDup (hash_keys (peer_by_node (tables m)))) as Hnd
      by (rewrite hash_keys_perm; apply NoDup_fst_map_to_list).
    revert Hnd. generalize (hash_keys (peer_by_node (tables m))). induction l as [|p l IH]; simpl; [constructor|].
    intros [Hp Hl]%NoDup_cons. destruct (_ !! p) as [t|] eqn:E; [|by apply IH].
    case_bool_decide; [by apply IH|]. apply NoDup_cons. split; [|by apply IH].
    intros (p' & Hp' & E')%list_elem_of_omap. destruct (_ !! p') as [t'|] eqn:E2; [|done].
    case_bool_decide; [done|]. injection E' as ->. apply Hi in E, E2. congruence.
  - intros t. unfold direct_peers. rewrite list_elem_of_omap. setoid_rewrite hash_keys_perm. split.
    + intros (p & _ & Hp). destruct (_ !! p) as [t'|] eqn:E; [|done]. case_bool_decide; [done|].
      injection Hp as ->. eauto.
    + intros [[n Hn] Hh]. exists n. split; [|by rewrite Hn, bool_decide_false].
      apply list_elem_of_fmap. exists (n, t). split; [done|]. by apply elem_of_map_to_list.
Qed.
End requests.


(** ** Concrete runs *)

Module HostNetworkWitness.
Import ToyCrypto IdentityWitness NodeHelloWitness EngineRuns.

#[export] Program Instance key_order : HashOrder := {| hash_keys A m := (map_to_list m).*1 |}.
Next Obligation. done. Qed.

Definition own_key : SigningKey := x0c.
Definition host_cfg : HostConfig :=
  mkHostConfig ["/ip4/10.0.0.1"] DEFAULT_MAX_FRAME_LEN DEFAULT_MAX_BLOCKS_PER_CHUNK
    (from_signing_key own_key) [x07].
Definition open_env : Env := mkEnv true (λ _, true).
Definition closed_env : Env := mkEnv true (λ _, false).
Definition transport_a : bytes := [x01; x02].

(** A peer introduces itself, asks for blocks, and the engine answers and announces. *)
Definition exchange : list (Env * NetworkInput) :=
  match host_build (from_signing_key host_key) transport_a 65536 8 with
  | Ok h =>
      [(open_env, InEvent (ConnectionEstablished transport_a (Listener "/ip4/10.0.0.2")));
       (open_env, InEvent (EvNodeHello (RrRequest transport_a h 1)));
       (open_env, InEvent (EvSync (RrRequest transport_a (mkSyncRequest 0 10) 2)));
       (open_env, InCommand (NetSendFrame (hello_peer_id h) [x03]));
       (open_env, InCommand (NetBroadcastFrame [x01]));
       (open_env, InEvent (ConnectionClosed transport_a))]
  | Err _ => []
  end.

Definition exchanged : option (nat * nat) :=
  match network_run host_cfg (network_start host_cfg) exchange with
  | Ret (m, Ok _) => Some (length (sent_events m), length (swarm m))
  | _ => None
  end.

(** Three events reach the node manager; the swarm dials, learns an address, and
    sends the hello, the answer, and the announcement twice. *)
Lemma exchange_runs : exchanged = Some (3, 6)%nat.
Proof. vm_compute. reflexivity. Qed.

Lemma frames_come_from_authenticated_nodes_witness :
  ∃ m r, network_run host_cfg (network_start host_cfg) exchange = Ret (m, r) ∧
    length (sent_events m) = 3%nat ∧
    ∀ n, EvPeerConnected n ∈ sent_events m → ∃ t, shown exchange n t.
Proof.
  pose proof exchange_runs as Hx. unfold exchanged in Hx.
  destruct (network_run host_cfg (network_start host_cfg) exchange) as [[m r]| |] eqn:E; [|discriminate Hx..].
  exists m, r. destruct r as [[]|]; [|discriminate Hx]. injection Hx as Hn _.
  split_and!; [reflexivity|exact Hn|].
  exact (proj2 (proj2 (proj2 (frames_come_from_authenticated_nodes host_cfg exchange m (Ok tt) E)))).
Defined.

Definition hostile : list (Env * NetworkInput) :=
  [(open_env, InEvent (EvSync (RrRequest transport_a (mkSyncRequest 10 0) 4)));
   (open_env, InEvent (EvSync (RrResponse transport_a 77 (mkSyncResponse [] false None))));
   (open_env, InEvent (EvGossipsub (GossipMessage transport_a [x00; x00])));
   (open_env, InCommand (NetSendFrame peer_a [x02]))].

Lemma network_manager_survives_witness :
  ∃ m', network_run host_cfg (network_start host_cfg) hostile = Ret (m', Ok tt).
Proof.
  apply network_manager_survives.
  repeat constructor; simpl; try done; by eexists.
Defined.

Lemma unregistered_peer_stops_manager_witness :
  network_run host_cfg (network_start host_cfg)
    [(closed_env, InEvent (EvSync (RrRequest transport_a (mkSyncRequest 0 10) 4)));
     (open_env, InCommand (NetBroadcastFrame [x01]))] =
  Ret (network_start host_cfg, Err (Host.io_other "failed to send fallback sync response")).
Proof. by apply unregistered_peer_stops_manager. Defined.

(** A manager with two registered peers, the second of them a host. *)
Definition transport_b : bytes := [x05].
Definition two_peers : NetworkManager :=
  mkNetworkManager
    (mkPeerTables {[ peer_a := transport_a; peer_b := transport_b ]}
       {[ transport_a := peer_a; transport_b := peer_b ]} {[ peer_a := 4 ]} {[ transport_b ]} ∅ ∅ ∅) [] 0 [].

Lemma two_peers_inverse :
  inverse (peer_by_node (tables two_peers)) (node_by_transport (tables two_peers)).
Proof.
  intros n t. simpl. rewrite !lookup_insert_Some, !lookup_singleton_Some. unfold peer_a, peer_b, transport_a, transport_b.
  naive_solver.
Qed.

Lemma sync_requests_respect_limit_witness :
  sync_to_height (clamp_sync_request two_peers peer_a (mkSyncRequest 3 100)) - 3 + 1 ≤ 4.
Proof.
  apply (sync_requests_respect_limit two_peers peer_a (mkSyncRequest 3 100) 4); [vm_compute; reflexivity|..];
    unfold is_u64, u64_modulus; simpl; lia.
Defined.

Lemma sync_answers_in_order_witness :
  ∃ m', network_run host_cfg two_peers
    (sync_asks open_env transport_a [(mkSyncRequest 0 10, 8); (mkSyncRequest 11 20, 9)] ++
     answers open_env peer_a [[x03]]) = Ret (m', Ok tt) ∧
    swarm m' = [RespondSync 8 (mkSyncResponse [ChainWitness.first_block] true (Some 2))] ∧
    default [] (pending_sync_responses (tables m') !! peer_a) = [9].
Proof.
  apply (sync_answers_in_order host_cfg two_peers open_env transport_a peer_a
    [(mkSyncRequest 0 10, 8); (mkSyncRequest 11 20, 9)] [[x03]]
    [mkSyncResponse [ChainWitness.first_block] true (Some 2)]);
    [by split|apply two_peers_inverse|vm_compute; reflexivity|reflexivity|done|simpl; lia|by repeat constructor].
Defined.

Lemma broadcast_reaches_every_peer_witness :
  ∃ m' ts, handle_command open_env two_peers (NetBroadcastFrame [x01]) = Ret (m', Ok tt) ∧
    NoDup ts ∧ transport_a ∈ ts.
Proof.
  destruct (broadcast_reaches_every_peer open_env two_peers [x01] (announce_block ChainWitness.first_block))
    as (m' & ts & Hr & _ & _ & Hn & Hts); [apply two_peers_inverse|reflexivity|].
  exists m', ts. split_and!; [exact Hr|exact Hn|]. apply Hts. split; [by exists peer_a|].
  simpl. by rewrite elem_of_singleton.
Defined.
End HostNetworkWitness.
