(* ===== verification/PeerRegistry.v ===== *)
(** * The registry of sessions of the embedded runtime

    Models erp-runtime/src/network/peer_registry.rs: the slots of the sessions, reused
    when a session ends, and the index from node ids to sessions.  The sessions of the
    registry and the index agree, session ids are slot numbers, and the registry never
    outgrows its limit. *)

From S2P Require Import Prelude.
From S2P Require Import Errors.

Abbreviation SessionId := nat.

(** [std::net::SocketAddr] *)
Inductive SocketAddr : Type :=
| SocketV4 (ip : bytes) (port : Z)
| SocketV6 (ip : bytes) (port : Z).

#[global] Instance SocketAddr_eq_dec : EqDecision SocketAddr.
Proof. solve_decision. Defined.

Inductive SessionState : Type :=
| TcpConnected | NoiseReady | YamuxReady | Identified | NodeReady | Closing.

#[global] Instance SessionState_eq_dec : EqDecision SessionState.
Proof. solve_decision. Defined.

Record PeerSession : Type := mkPeerSession {
  session_slot : SessionId;
  is_outbound : bool;
  outbound_addr : option SocketAddr;
  node_peer_id : option bytes;
  transport_peer_id : bytes;
  session_state : SessionState;
  max_frame_len : Z;
  max_blocks_per_chunk : Z;
  last_seen_ms : Z;
}.

Record PeerRegistry : Type := mkPeerRegistry {
  sessions : list (option PeerSession);
  by_node_peer : gmap bytes SessionId;
  max_peers : nat;
}.

Definition PeerRegistry_new (max_peers : nat) : PeerRegistry := mkPeerRegistry [] ∅ max_peers.

Definition set_sessions (r : PeerRegistry) l := mkPeerRegistry l (by_node_peer r) (max_peers r).

Definition new_session (id : SessionId) (transport_peer_id : bytes) (is_outbound : bool)
    (outbound_addr : option SocketAddr) : PeerSession :=
  mkPeerSession id is_outbound outbound_addr None transport_peer_id TcpConnected 0 0 0.

Definition alloc (r : PeerRegistry) (transport_peer_id : bytes) (is_outbound : bool)
    (outbound_addr : option SocketAddr) : result (SessionId * PeerRegistry) Erp.RuntimeError :=
  match list_find (λ slot, slot = None) (sessions r) with
  | Some (session_id, _) =>
      let session := new_session session_id transport_peer_id is_outbound outbound_addr in
      Ok (session_id, set_sessions r (<[session_id := Some session]> (sessions r)))
  | None =>
      if bool_decide (max_peers r ≤ length (sessions r))%nat
      then Err (Erp.Config "peer registry is full")
      else
        let session_id := length (sessions r) in
        let session := new_session session_id transport_peer_id is_outbound outbound_addr in
        Ok (session_id, set_sessions r (sessions r ++ [Some session]))
  end.

(** [get]; [get_mut] is [get] followed by [set_session]. *)
Definition get (r : PeerRegistry) (id : SessionId) : option PeerSession := mjoin (sessions r !! id).
Definition set_session (r : PeerRegistry) (id : SessionId) (s : PeerSession) : PeerRegistry :=
  set_sessions r (<[id := Some s]> (sessions r)).

Definition set_node_peer_id (s : PeerSession) (n : bytes) : PeerSession :=
  mkPeerSession (session_slot s) (is_outbound s) (outbound_addr s) (Some n) (transport_peer_id s)
    (session_state s) (max_frame_len s) (max_blocks_per_chunk s) (last_seen_ms s).

Definition register_node_peer (r : PeerRegistry) (id : SessionId) (node : bytes) :
    result PeerRegistry Erp.RuntimeError :=
  let taken :=
    match by_node_peer r !! node with
    | Some existing => bool_decide (existing ≠ id)
    | None => false
    end in
  if taken then Err (Erp.Config "node peer is already registered to another session")
  else
    match get r id with
    | None => Err (Erp.Config "unknown peer session")
    | Some session =>
        let r := set_session r id (set_node_peer_id session node) in
        Ok (mkPeerRegistry (sessions r) (<[node := id]> (by_node_peer r)) (max_peers r))
    end.

Definition session_for_node (r : PeerRegistry) (peer : bytes) : option SessionId := by_node_peer r !! peer.

Definition ready (slot : option PeerSession) : bool :=
  match slot with Some s => bool_decide (session_state s = NodeReady) | None => false end.

Definition ready_sessions (r : PeerRegistry) : list SessionId :=
  omap (λ p, if ready p.2 then Some p.1 else None) (imap pair (sessions r)).

Definition outbound_session_count (r : PeerRegistry) : nat :=
  length (filter (λ s, is_outbound s = true) (omap id (sessions r))).

Definition has_outbound_session_for (r : PeerRegistry) (address : SocketAddr) : bool :=
  existsb (λ s, bool_decide (outbound_addr s = Some address)) (omap id (sessions r)).

Definition remove (r : PeerRegistry) (id : SessionId) : PeerRegistry * option PeerSession :=
  match get r id with
  | None => (r, None)
  | Some session =>
      let by_node :=
        match node_peer_id session with
        | Some n => delete n (by_node_peer r)
        | None => by_node_peer r
        end in
      (mkPeerRegistry (<[id := None]> (sessions r)) by_node (max_peers r), Some session)
  end.

(** ** Slots *)

Lemma get_lookup r i s : get r i = Some s ↔ sessions r !! i = Some (Some s).
Proof. unfold get. destruct (sessions r !! i) as [[]|]; simpl; naive_solver. Qed.

Lemma get_insert r l i s j :
  sessions r !! i ≠ None → l = <[i := s]> (sessions r) →
  mjoin (l !! j) = if decide (i = j) then s else get r j.
Proof.
  intros Hi ->. unfold get. destruct (sessions r !! i) as [o|] eqn:E; [|done].
  destruct (decide (i = j)) as [<-|].
  - rewrite list_lookup_insert_eq; [done|]. by eapply lookup_lt_Some.
  - by rewrite list_lookup_insert_ne.
Qed.

Lemma get_set_session r i s0 s j :
  get r i = Some s0 → get (set_session r i s) j = if decide (i = j) then Some s else get r j.
Proof. intros Hg%get_lookup. apply get_insert; [by rewrite Hg|done]. Qed.

(** A new session takes a slot that was free and leaves the others alone. *)
Lemma alloc_Ok r t o a i r' :
  alloc r t o a = Ok (i, r') →
  get r i = None ∧ (∀ j, get r' j = if decide (i = j) then Some (new_session i t o a) else get r j) ∧
  by_node_peer r' = by_node_peer r ∧ max_peers r' = max_peers r ∧
  ((length (sessions r) ≤ max_peers r)%nat → (length (sessions r') ≤ max_peers r)%nat).
Proof.
  unfold alloc. destruct (list_find _ _) as [[k slot]|] eqn:E.
  - apply list_find_Some in E as (E & -> & _). intros [= <- <-]. simpl. split_and!; try done.
    + unfold get. by rewrite E.
    + intros j. apply get_insert; [by rewrite E|done].
    + by rewrite length_insert.
  - case_bool_decide; [done|]. intros [= <- <-]. simpl. split_and!; try done.
    + unfold get. by rewrite lookup_ge_None_2 by done.
    + intros j. unfold get. simpl. destruct (decide (length (sessions r) = j)) as [<-|].
      * by rewrite list_lookup_middle by done.
      * destruct (decide (j < length (sessions r))%nat); [by rewrite lookup_app_l|].
        rewrite !lookup_ge_None_2; [done|lia|]. rewrite length_app. simpl. lia.
    + rewrite length_app. simpl. lia.
Qed.

(** It fails only when every slot is taken. *)
Lemma alloc_Err r t o a e :
  alloc r t o a = Err e →
  e = Erp.Config "peer registry is full" ∧ (max_peers r ≤ length (sessions r))%nat ∧
  ∀ i, (i < length (sessions r))%nat → is_Some (get r i).
Proof.
  unfold alloc. destruct (list_find _ _) as [[k slot]|] eqn:E; [done|].
  case_bool_decide; [|done]. intros [= <-]. split_and!; [done..|]. intros i [slot Ho]%lookup_lt_is_Some.
  rewrite list_find_None, Forall_lookup in E. specialize (E i slot Ho). unfold get. rewrite Ho.
  destruct slot; [by eexists|done].
Qed.

(** ** The invariant *)

Record registry_ok (r : PeerRegistry) : Prop := {
  registry_bound : (length (sessions r) ≤ max_peers r)%nat;
  registry_slots i s : get r i = Some s → session_slot s = i;
  registry_index n i : by_node_peer r !! n = Some i ↔ ∃ s, get r i = Some s ∧ node_peer_id s = Some n;
}.

Lemma PeerRegistry_new_ok max : registry_ok (PeerRegistry_new max).
Proof. split; simpl; [lia|done|]. intros n i. split; [done|]. by intros (s & Hs & _). Qed.

Lemma alloc_ok r t o a i r' : registry_ok r → alloc r t o a = Ok (i, r') → registry_ok r'.
Proof.
  intros [Hb Hs Hi] (Hf & Hg & Hn & Hm & Hl)%alloc_Ok. split.
  - rewrite Hm. auto.
  - intros j s. rewrite Hg. destruct (decide _) as [<-|]; [by intros [= <-]|apply Hs].
  - intros n j. rewrite Hn, Hi, Hg. destruct (decide (i = j)) as [<-|]; [|done].
    rewrite Hf. split; [by intros (s & ? & _)|]. by intros (s & [= <-] & ?).
Qed.

(** Changes of a session that keep its slot and node keep the invariant. *)
Lemma set_session_ok r i s0 s :
  registry_ok r → get r i = Some s0 → session_slot s = session_slot s0 →
  node_peer_id s = node_peer_id s0 → registry_ok (set_session r i s).
Proof.
  intros [Hb Hs Hi] Hg Hid Hn. pose proof (get_set_session r i s0 s) as Hget. split.
  - simpl. by rewrite length_insert.
  - intros j s'. rewrite Hget by done. destruct (decide _) as [<-|]; [|apply Hs].
    intros [= <-]. rewrite Hid. by apply Hs.
  - intros n j. simpl. rewrite Hi, Hget by done. destruct (decide _) as [<-|]; [|done].
    split; intros (s' & Hs' & ?); simplify_eq; [exists s|exists s0]; split; congruence.
Qed.

Lemma register_node_peer_Ok r i n r' s0 :
  registry_ok r → get r i = Some s0 → node_peer_id s0 = None → register_node_peer r i n = Ok r' →
  registry_ok r' ∧ by_node_peer r !! n = None ∧ by_node_peer r' = <[n := i]> (by_node_peer r) ∧
  max_peers r' = max_peers r ∧
  ∀ j, get r' j = if decide (i = j) then Some (set_node_peer_id s0 n) else get r j.
Proof.
  intros [Hb Hs Hi] Hg Hn. unfold register_node_peer. rewrite Hg.
  assert (by_node_peer r !! n ≠ Some i) as Hne.
  { intros (s & ? & ?)%Hi. congruence. }
  destruct (by_node_peer r !! n) as [j|] eqn:E; simpl.
  { case_bool_decide; [done|]. congruence. }
  intros [= <-]. pose proof (get_set_session r i s0 (set_node_peer_id s0 n)) as Hget.
  split_and!; [|done..|]; [split|]; simpl.
  - by rewrite length_insert.
  - intros j s. change (get (set_session r i (set_node_peer_id s0 n)) j = Some s → session_slot s = j).
    rewrite Hget by done. destruct (decide _) as [<-|]; [|apply Hs]. intros [= <-]. exact (Hs i s0 Hg).
  - intros m j. change (<[n:=i]> (by_node_peer r) !! m = Some j ↔
      ∃ s, get (set_session r i (set_node_peer_id s0 n)) j = Some s ∧ node_peer_id s = Some m).
    rewrite Hget by done. destruct (decide (n = m)) as [<-|Hnm].
    + rewrite lookup_insert_eq. destruct (decide (i = j)) as [<-|]; [split; [by eexists|done]|].
      rewrite <-Hi. split; congruence.
    + rewrite lookup_insert_ne, Hi by done. destruct (decide (i = j)) as [<-|]; [|done].
      split; intros (s & ? & ?); simplify_eq/=; congruence.
  - intros j. by apply Hget.
Qed.

Lemma remove_Some r i s r' :
  registry_ok r → get r i = Some s → r' = (remove r i).1 →
  registry_ok r' ∧ max_peers r' = max_peers r ∧
  (∀ n, by_node_peer r' !! n = if decide (node_peer_id s = Some n) then None else by_node_peer r !! n) ∧
  ∀ j, get r' j = if decide (i = j) then None else get r j.
Proof.
  intros [Hb Hs Hi] Hg ->. unfold remove. rewrite Hg.
  assert (∀ n, match node_peer_id s with Some n => delete n (by_node_peer r) | None => by_node_peer r end !! n =
    if decide (node_peer_id s = Some n) then None else by_node_peer r !! n) as Hd.
  { intros n. destruct (node_peer_id s) as [m|]; [|by rewrite decide_False].
    destruct (decide (m = n)) as [->|]; [by rewrite lookup_delete_eq, decide_True|].
    rewrite lookup_delete_ne, decide_False by congruence. done. }
  assert (∀ j, mjoin (<[i:=None]> (sessions r) !! j) = if decide (i = j) then None else get r j) as Hget.
  { intros j. apply get_insert; [|done]. apply get_lookup in Hg. by rewrite Hg. }
  split_and!; [|done|done|done]. split; simpl.
  - by rewrite length_insert.
  - intros j s'. unfold get at 1. simpl. rewrite Hget. destruct (decide _); [done|apply Hs].
  - intros n j. rewrite Hd. unfold get at 1. simpl. rewrite Hget.
    destruct (decide (node_peer_id s = Some n)) as [Hn|Hn].
    + split; [done|]. destruct (decide (i = j)); [by intros (?&?&?)|]. intros Hj. exfalso.
      apply Hi in Hj. assert (by_node_peer r !! n = Some i) by (apply Hi; eauto). congruence.
    + destruct (decide (i = j)) as [<-|]; [|apply Hi]. rewrite Hi. split; [|by intros (?&?&?)].
      intros (s' & ? & ?). congruence.
Qed.

(** The sessions that are ready, each once. *)
Lemma ready_sessions_NoDup r : NoDup (ready_sessions r).
Proof.
  unfold ready_sessions. assert (∀ l k, NoDup (omap (λ p : nat * option PeerSession,
    if ready p.2 then Some p.1 else None) (imap (λ i x, (k + i, x)%nat) l))) as Haux.
  { induction l as [|o l IH]; intros k; simpl; [constructor|].
    assert (imap ((λ i x, ((k + i)%nat, x)) ∘ S) l = imap (λ i x, (S k + i, x)%nat) l) as ->.
    { apply imap_ext. intros i x _. simpl. f_equal. lia. }
    destruct (ready o); [|apply IH]. apply NoDup_cons. split; [|apply IH].
    intros ([i x] & Hin & Hi)%list_elem_of_omap. simpl in Hi. destruct (ready x); [|done].
    injection Hi as ->. apply elem_of_lookup_imap in Hin as (j & y & [= Hk ->] & _). lia. }
  apply (Haux _ 0%nat).
Qed.

Lemma elem_of_ready_sessions r i :
  i ∈ ready_sessions r ↔ ∃ s, get r i = Some s ∧ session_state s = NodeReady.
Proof.
  unfold ready_sessions. rewrite list_elem_of_omap. split.
  - intros ([k x] & Hin & Hr). apply elem_of_lookup_imap in Hin as (j & y & [= -> ->] & Hl). simpl in Hr.
    destruct y as [s|]; simpl in Hr; [|done]. case_bool_decide; [|done]. simplify_eq. exists s.
    by rewrite get_lookup.
  - intros (s & Hs%get_lookup & Hst). exists (i, Some s). split.
    + apply elem_of_lookup_imap. eauto.
    + simpl. by rewrite bool_decide_true.
Qed.

(** ** Outbound sessions *)

Definition slot_outbound (slot : option PeerSession) : nat :=
  match slot with Some s => if is_outbound s then 1 else 0 | None => 0 end.

Lemma count_slots r : outbound_session_count r = sum_list (slot_outbound <$> sessions r).
Proof.
  unfold outbound_session_count. induction (sessions r) as [|[s|] l IH]; [done| |exact IH].
  change (length (filter (λ s, is_outbound s = true) (s :: omap id l)) =
    (slot_outbound (Some s) + sum_list (slot_outbound <$> l))%nat).
  rewrite <-IH. simpl. by destruct (is_outbound s) eqn:E;
    [rewrite filter_cons_True|rewrite filter_cons_False by congruence].
Qed.

Lemma count_insert (l : list (option PeerSession)) i x y :
  l !! i = Some x →
  (sum_list (slot_outbound <$> <[i := y]> l) + slot_outbound x = sum_list (slot_outbound <$> l) + slot_outbound y)%nat.
Proof.
  revert i. induction l as [|z l IH]; intros [|i] E; simplify_eq/=; [lia|]. specialize (IH i E). lia.
Qed.

Lemma alloc_count r t o a i r' :
  alloc r t o a = Ok (i, r') →
  outbound_session_count r' = (outbound_session_count r + if o then 1 else 0)%nat.
Proof.
  rewrite !count_slots. unfold alloc. destruct (list_find _ _) as [[k slot]|] eqn:E.
  - apply list_find_Some in E as (E & -> & _). intros [= <- <-]. simpl.
    pose proof (count_insert _ _ _ (Some (new_session k t o a)) E) as Hc. simpl in Hc. destruct o; lia.
  - case_bool_decide; [done|]. intros [= <- <-]. simpl. rewrite fmap_app.
    induction (slot_outbound <$> sessions r) as [|k l IH]; simpl in *; destruct o; lia.
Qed.

Lemma set_session_count r i s0 s :
  get r i = Some s0 → is_outbound s = is_outbound s0 →
  outbound_session_count (set_session r i s) = outbound_session_count r.
Proof.
  intros Hg%get_lookup Ho. rewrite !count_slots. simpl.
  pose proof (count_insert _ _ _ (Some s) Hg) as Hc. simpl in Hc. rewrite Ho in Hc. lia.
Qed.

Lemma register_count r i n r' :
  register_node_peer r i n = Ok r' → outbound_session_count r' = outbound_session_count r.
Proof.
  unfold register_node_peer. destruct (match _ with Some _ => _ | None => _ end); [done|].
  destruct (get r i) as [s|] eqn:Hg; [|done]. intros [= <-].
  exact (set_session_count r i s (set_node_peer_id s n) Hg eq_refl).
Qed.

Lemma remove_count r i : (outbound_session_count (remove r i).1 ≤ outbound_session_count r)%nat.
Proof.
  unfold remove. destruct (get r i) as [s|] eqn:Hg; [|done]. apply get_lookup in Hg.
  rewrite !count_slots. simpl. pose proof (count_insert _ _ _ None Hg) as Hc. simpl in Hc. lia.
Qed.

Lemma no_outbound_session r a i s :
  has_outbound_session_for r a = false → get r i = Some s → outbound_addr s ≠ Some a.
Proof.
  unfold has_outbound_session_for. intros Hh Hg%get_lookup Ha.
  assert (existsb (λ s, bool_decide (outbound_addr s = Some a)) (omap id (sessions r)) = true); [|congruence].
  apply existsb_exists. exists s. split; [|by apply bool_decide_eq_true].
  apply list_elem_of_In, list_elem_of_omap. exists (Some s). split; [|done]. by eapply list_elem_of_lookup_2.
Qed.
