(* ===== verification/ErpNetwork.v ===== *)
(** * The network manager of the embedded runtime

    Models erp-runtime/src/network/manager.rs and bootstrap.rs, and the data of
    config.rs: the manager accepts and dials connections, starts a session worker for
    each, routes the commands of the node manager to the sessions, and follows the
    events the workers send.  The workers, the sockets and the name resolution are the
    environment; the workers follow the protocol of [SessionWorker::run_async]. *)

From S2P Require Import Prelude.
From S2P Require Import Maps.
From S2P Require Import Crypto.
From S2P Require Import Models.
From S2P Require Import Messages.
From S2P Require Import Errors.
From S2P Require Import NodeHello.
From S2P Require Import Runtime.
From S2P Require Import PeerRegistry.
From S2P Require Import EngineWitness.

(** ** config.rs *)

Definition DEFAULT_LISTEN_PORT : Z := 4001.
Definition DEFAULT_MAX_PEERS : nat := 16.
Definition DEFAULT_MAX_OUTBOUND_DIALS : nat := 4.
Definition DEFAULT_MAX_FRAME_LEN : Z := 64 * 1024.
Definition DEFAULT_MAX_BLOCKS_PER_CHUNK : Z := 8.
Definition DEFAULT_IDLE_TIMEOUT_MS : Z := 60000.

Inductive MultiaddrLite : Type :=
| Ip4Tcp (addr : bytes) (port : Z)
| Dns4Tcp (host : string) (port : Z).

#[global] Instance MultiaddrLite_eq_dec : EqDecision MultiaddrLite.
Proof. solve_decision. Defined.

Record BootstrapPeer : Type := mkBootstrapPeer {
  bootstrap_address : MultiaddrLite;
  expected_transport_peer : option bytes;
}.

Record NetworkConfig : Type := mkNetworkConfig {
  listen_port : Z;
  config_max_peers : nat;
  max_outbound_dials : nat;
  config_max_frame_len : Z;
  config_max_blocks_per_chunk : Z;
  idle_timeout_ms : Z;
  bootstrap_peers : list BootstrapPeer;
}.

Definition NetworkConfig_default : NetworkConfig :=
  mkNetworkConfig DEFAULT_LISTEN_PORT DEFAULT_MAX_PEERS DEFAULT_MAX_OUTBOUND_DIALS
    DEFAULT_MAX_FRAME_LEN DEFAULT_MAX_BLOCKS_PER_CHUNK DEFAULT_IDLE_TIMEOUT_MS [].

#[global] Instance BootstrapPeer_eq_dec : EqDecision BootstrapPeer.
Proof. solve_decision. Defined.

(** ** bootstrap.rs *)

(** [to_socket_addrs] is the resolver of the system. *)
Definition Resolver : Type := string → Z → io_result (list SocketAddr).

Definition is_ipv4 (a : SocketAddr) : bool := match a with SocketV4 _ _ => true | SocketV6 _ _ => false end.

Definition resolve_bootstrap_addr (resolver : Resolver) (addr : MultiaddrLite) :
    result SocketAddr Erp.RuntimeError :=
  match addr with
  | Ip4Tcp addr port => Ok (SocketV4 addr port)
  | Dns4Tcp host port =>
      let! addrs := map_err Erp.NetworkError (resolver host port) in
      match List.find is_ipv4 addrs with
      | Some a => Ok a
      | None => Err (Erp.Config "bootstrap DNS name did not resolve to an IPv4 address")
      end
  end.

Definition bootstrap_targets (config : NetworkConfig) : list BootstrapPeer := bootstrap_peers config.

(** ** session.rs: what the manager and the workers exchange *)

Inductive SessionCommand : Type :=
| SessSendFrame (frame : bytes)
| SessDisconnect.

Inductive SessionEvent : Type :=
| SessReady (session_id : SessionId) (verified_peer : VerifiedPeer)
| SessClosed (session_id : SessionId) (closed_node_peer_id : option bytes).

Inductive ConnectionRole : Type := Inbound | Outbound.

(** ** The manager *)

(** A worker the manager started: the session it serves, and the transport it expects. *)
Record Spawned : Type := mkSpawned {
  worker_session : SessionId;
  worker_role : ConnectionRole;
  worker_expected : option bytes;
}.

(** The workers that run, each with the node id it has announced to the manager. *)
Abbreviation Workers := (gmap SessionId (option bytes)).

(** What the environment decides at each step: whether the node manager still listens,
    which workers still do, and how names resolve. *)
Record ErpEnv : Type := mkErpEnv {
  erp_events_open : bool;
  commands_open : SessionId → bool;
  resolver : Resolver;
}.

Inductive ErpInput : Type :=
| InAccepted (spawn : result unit string)
| InAcceptFailed
| InNetCommand (command : NetworkCommand)
| InSession (event : SessionEvent)
| InBootstrapTimer (connected : bool) (spawn : result unit string).

Section manager.
Context `{Target, Crypto, !Postcard NetworkMessage}.
Context (config : NetworkConfig).

(** [session_commands] holds, for each session, the commands sent to it. *)
Record ErpNetworkManager : Type := mkErpNetworkManager {
  peers : PeerRegistry;
  session_commands : gmap SessionId (list SessionCommand);
  bootstrap_cursor : Z;
  erp_events : list RuntimeEvent;
  workers_started : list Spawned;
}.

Definition EM : Type := outcome (ErpNetworkManager * result unit Erp.RuntimeError).

Definition erp_done (m : ErpNetworkManager) : EM := Ret (m, Ok tt).

Definition set_peers (m : ErpNetworkManager) r :=
  mkErpNetworkManager r (session_commands m) (bootstrap_cursor m) (erp_events m) (workers_started m).
Definition set_commands (m : ErpNetworkManager) c :=
  mkErpNetworkManager (peers m) c (bootstrap_cursor m) (erp_events m) (workers_started m).
Definition set_cursor (m : ErpNetworkManager) c :=
  mkErpNetworkManager (peers m) (session_commands m) c (erp_events m) (workers_started m).

Definition ErpNetworkManager_new : ErpNetworkManager :=
  mkErpNetworkManager (PeerRegistry_new (config_max_peers config)) ∅ 0 [] [].

Definition erp_send_event (env : ErpEnv) (m : ErpNetworkManager) (ev : RuntimeEvent) : EM :=
  if erp_events_open env
  then Ret (mkErpNetworkManager (peers m) (session_commands m) (bootstrap_cursor m)
              (erp_events m ++ [ev]) (workers_started m), Ok tt)
  else Ret (m, Err (Erp.event_send Erp.Disconnected)).

(** [command_tx.send(..).await.map_err(RuntimeError::network_send)] to a session that
    has an entry in [session_commands] *)
Definition send_command (env : ErpEnv) (m : ErpNetworkManager) (id : SessionId)
    (sent : list SessionCommand) (command : SessionCommand) : EM :=
  if commands_open env id
  then erp_done (set_commands m (<[id := sent ++ [command]]> (session_commands m)))
  else Ret (m, Err (Erp.network_send Erp.Disconnected)).

Definition erp_clamp_sync_request (m : ErpNetworkManager) (peer : bytes) (request : SyncRequest) :
    SyncRequest :=
  match session_for_node (peers m) peer with
  | None => request
  | Some session_id =>
      match get (peers m) session_id with
      | None => request
      | Some session =>
          let limit := max_blocks_per_chunk session in
          if bool_decide (limit = 0) || bool_decide (sync_to_height request < sync_from_height request)
          then request
          else
            let max_to_height := u64_saturating_add (sync_from_height request) (u64_saturating_sub limit 1) in
            mkSyncRequest (sync_from_height request) (Z.min (sync_to_height request) max_to_height)
      end
  end.

Definition send_frame_to_peer (env : ErpEnv) (m : ErpNetworkManager) (peer frame : bytes) : EM :=
  match session_for_node (peers m) peer with
  | None => erp_done m
  | Some session_id =>
      match session_commands m !! session_id with
      | None => erp_done m
      | Some sent => send_command env m session_id sent (SessSendFrame frame)
      end
  end.

Definition disconnect_peer (env : ErpEnv) (m : ErpNetworkManager) (peer : bytes) : EM :=
  match session_for_node (peers m) peer with
  | None => erp_done m
  | Some session_id =>
      match session_commands m !! session_id with
      | None => erp_done m
      | Some sent => send_command env m session_id sent SessDisconnect
      end
  end.

(** The loop of [BroadcastFrame] over the ready sessions. *)
Fixpoint erp_broadcast_loop (env : ErpEnv) (m : ErpNetworkManager) (ids : list SessionId) (frame : bytes) : EM :=
  match ids with
  | [] => erp_done m
  | session_id :: ids =>
      '(m, r) ← match session_commands m !! session_id with
                | Some sent => send_command env m session_id sent (SessSendFrame frame)
                | None => erp_done m
                end;
      match r with
      | Ok _ => erp_broadcast_loop env m ids frame
      | Err e => Ret (m, Err e)
      end
  end.

Definition handle_network_command (env : ErpEnv) (m : ErpNetworkManager) (command : NetworkCommand) : EM :=
  match command with
  | NetSendFrame peer frame => send_frame_to_peer env m peer frame
  | NetBroadcastFrame frame => erp_broadcast_loop env m (ready_sessions (peers m)) frame
  | NetDisconnectPeer peer => disconnect_peer env m peer
  | NetRequestBlocks peer from_height to_height =>
      frame ← message_to_bytes
        (MsgSyncRequest (erp_clamp_sync_request m peer (mkSyncRequest from_height to_height)));
      send_frame_to_peer env m peer frame
  end.

(** A session that has proved its node id. *)
Definition ready_session (s : PeerSession) (v : VerifiedPeer) : PeerSession :=
  mkPeerSession (session_slot s) (is_outbound s) (outbound_addr s) (node_peer_id s)
    (verified_transport_peer_id v) NodeReady (verified_max_frame_len v)
    (verified_max_blocks_per_chunk v) (last_seen_ms s).

Definition handle_session_event (env : ErpEnv) (m : ErpNetworkManager) (event : SessionEvent) : EM :=
  match event with
  | SessReady session_id verified_peer =>
      match get (peers m) session_id with
      | None => Ret (m, Err (Erp.Config "session ready event referenced an unknown session"))
      | Some session =>
          let m := set_peers m (set_session (peers m) session_id (ready_session session verified_peer)) in
          match register_node_peer (peers m) session_id (verified_node_peer_id verified_peer) with
          | Err e => Ret (m, Err e)
          | Ok r =>
              erp_send_event env (set_peers m r) (EvPeerConnected (verified_node_peer_id verified_peer))
          end
      end
  | SessClosed session_id node =>
      let m := set_commands m (delete session_id (session_commands m)) in
      let m := set_peers m (remove (peers m) session_id).1 in
      match node with
      | Some node => erp_send_event env m (EvPeerDisconnected node)
      | None => erp_done m
      end
  end.

(** [spawn] is the outcome of starting the thread. *)
Definition spawn_session (m : ErpNetworkManager) (role : ConnectionRole) (outbound_addr : option SocketAddr)
    (expected : option bytes) (spawn : result unit string) : EM :=
  match alloc (peers m) [] (match role with Outbound => true | Inbound => false end) outbound_addr with
  | Err e => Ret (m, Err e)
  | Ok (session_id, r) =>
      let m := set_peers m r in
      let m := set_commands m (<[session_id := []]> (session_commands m)) in
      match spawn with
      | Err message => Ret (m, Err (Erp.NetworkError (mk_io_error Other message)))
      | Ok _ =>
          Ret (mkErpNetworkManager (peers m) (session_commands m) (bootstrap_cursor m) (erp_events m)
                 (workers_started m ++ [mkSpawned session_id role expected]), Ok tt)
      end
  end.

(** [connected] tells whether [sockets.connect] succeeds. *)
Definition bootstrap_once (env : ErpEnv) (m : ErpNetworkManager) (connected : bool)
    (spawn : result unit string) : EM :=
  if bool_decide (max_outbound_dials config ≤ outbound_session_count (peers m))%nat then erp_done m
  else
    let targets := bootstrap_targets config in
    if bool_decide (targets = []) then erp_done m else
    match targets !! Z.to_nat (bootstrap_cursor m mod Z.of_nat (length targets)) with
    | None => Panic
    | Some target =>
        let m := set_cursor m (Z.min (bootstrap_cursor m + 1) usize_max) in
        match resolve_bootstrap_addr (resolver env) (bootstrap_address target) with
        | Err _ => erp_done m
        | Ok address =>
            if has_outbound_session_for (peers m) address then erp_done m
            else if connected
            then spawn_session m Outbound (Some address) (expected_transport_peer target) spawn
            else erp_done m
        end
    end.

Definition erp_step (env : ErpEnv) (m : ErpNetworkManager) (i : ErpInput) : EM :=
  match i with
  | InAccepted spawn => spawn_session m Inbound None None spawn
  | InAcceptFailed => erp_done m
  | InNetCommand command => handle_network_command env m command
  | InSession event => handle_session_event env m event
  | InBootstrapTimer connected spawn => bootstrap_once env m connected spawn
  end.

(** The loop of [run] after the set-up: it ends at the first error. *)
Fixpoint erp_run (m : ErpNetworkManager) (inputs : list (ErpEnv * ErpInput)) : EM :=
  match inputs with
  | [] => erp_done m
  | (env, i) :: inputs =>
      '(m, r) ← erp_step env m i;
      match r with
      | Ok _ => erp_run m inputs
      | Err e => Ret (m, Err e)
      end
  end.

(** ** The manager and its workers

    A worker ([SessionWorker::run_async]) sends [Ready] at most once, when the peer has
    proved its node id, and [Closed] exactly once, at the end, with the node id it had
    announced.  Its sends reach the manager in order. *)

Definition start_workers (ws : Workers) (m m' : ErpNetworkManager) : Workers :=
  foldl (λ ws w, <[worker_session w := None]> ws) ws
    (drop (length (workers_started m)) (workers_started m')).

Definition from_worker (i : ErpInput) : bool := match i with InSession _ => true | _ => false end.

Inductive world_step : ErpNetworkManager * Workers → ErpNetworkManager * Workers → Prop :=
| world_own env i m m' ws :
    from_worker i = false → erp_step env m i = Ret (m', Ok tt) →
    world_step (m, ws) (m', start_workers ws m m')
| world_ready env id v m m' ws :
    ws !! id = Some None → erp_step env m (InSession (SessReady id v)) = Ret (m', Ok tt) →
    world_step (m, ws) (m', <[id := Some (verified_node_peer_id v)]> ws)
| world_closed env id node m m' ws :
    ws !! id = Some node → erp_step env m (InSession (SessClosed id node)) = Ret (m', Ok tt) →
    world_step (m, ws) (m', delete id ws).

Definition world_start : ErpNetworkManager * Workers := (ErpNetworkManager_new, ∅).

Definition reachable (m : ErpNetworkManager) (ws : Workers) : Prop := rtc world_step world_start (m, ws).

(** The nodes the node manager has been told are connected. *)
Definition track_peer (nodes : gset bytes) (ev : RuntimeEvent) : gset bytes :=
  match ev with
  | EvPeerConnected n => nodes ∪ {[ n ]}
  | EvPeerDisconnected n => nodes ∖ {[ n ]}
  | _ => nodes
  end.
Definition connected_nodes (events : list RuntimeEvent) : gset bytes := foldl track_peer ∅ events.

Record world_ok (m : ErpNetworkManager) (ws : Workers) : Prop := {
  world_registry : registry_ok (peers m);
  world_max : max_peers (peers m) = config_max_peers config;
  world_workers id : ws !! id = node_peer_id <$> get (peers m) id;
  world_commands id : is_Some (session_commands m !! id) ↔ is_Some (get (peers m) id);
  world_states id s : get (peers m) id = Some s → session_state s = NodeReady ↔ is_Some (node_peer_id s);
  world_outbound : (outbound_session_count (peers m) ≤ max_outbound_dials config)%nat;
  world_addresses i j s s' a :
    get (peers m) i = Some s → get (peers m) j = Some s' →
    outbound_addr s = Some a → outbound_addr s' = Some a → i = j;
  world_view : connected_nodes (erp_events m) = dom (by_node_peer (peers m));
}.

Lemma connected_nodes_snoc events ev :
  connected_nodes (events ++ [ev]) = track_peer (connected_nodes events) ev.
Proof. unfold connected_nodes. by rewrite foldl_app. Qed.

Lemma erp_send_event_Ok env m ev m' :
  erp_send_event env m ev = Ret (m', Ok tt) →
  peers m' = peers m ∧ session_commands m' = session_commands m ∧ erp_events m' = erp_events m ++ [ev] ∧
  workers_started m' = workers_started m.
Proof. unfold erp_send_event. destruct (erp_events_open env); [|done]. by intros [= <-]. Qed.

(** Routing a command changes nothing but the commands of sessions that exist. *)
Definition routed (m m' : ErpNetworkManager) : Prop :=
  peers m' = peers m ∧ erp_events m' = erp_events m ∧ workers_started m' = workers_started m ∧
  ∀ id, is_Some (session_commands m' !! id) ↔ is_Some (session_commands m !! id).

#[local] Instance routed_preorder : PreOrder routed.
Proof.
  split; [intros m; by unfold routed|]. intros m1 m2 m3 (? & ? & ? & Hc1) (? & ? & ? & Hc2).
  split_and!; [congruence..|]. intros id. by rewrite Hc2.
Qed.

Lemma send_command_routed env m id sent c m' r :
  session_commands m !! id = Some sent → send_command env m id sent c = Ret (m', r) → routed m m'.
Proof.
  unfold send_command. intros Hs. destruct (commands_open env id); intros [= <- _]; [|done].
  split_and!; [done..|]. intros j. simpl. destruct (decide (id = j)) as [<-|].
  - rewrite lookup_insert_eq, Hs. split; by eexists.
  - by rewrite lookup_insert_ne.
Qed.

Lemma send_frame_to_peer_routed env m peer f m' r :
  send_frame_to_peer env m peer f = Ret (m', r) → routed m m'.
Proof.
  unfold send_frame_to_peer. destruct (session_for_node _ _) as [id|]; [|by intros [= <- _]].
  destruct (_ !! id) eqn:E; [by apply send_command_routed|by intros [= <- _]].
Qed.

Lemma disconnect_peer_routed env m peer m' r :
  disconnect_peer env m peer = Ret (m', r) → routed m m'.
Proof.
  unfold disconnect_peer. destruct (session_for_node _ _) as [id|]; [|by intros [= <- _]].
  destruct (_ !! id) eqn:E; [by apply send_command_routed|by intros [= <- _]].
Qed.

Lemma erp_broadcast_routed env m ids f m' r :
  erp_broadcast_loop env m ids f = Ret (m', r) → routed m m'.
Proof.
  revert m. induction ids as [|id ids IH]; intros m; simpl; [by intros [= <- _]|].
  intros ([m1 r1] & E & Hr)%bind_Ret. trans m1.
  - destruct (_ !! id) eqn:Es; [by eapply send_command_routed|by injection E as <- _].
  - destruct r1; [by apply IH|by injection Hr as <- _].
Qed.

Lemma handle_network_command_routed env m c m' r :
  handle_network_command env m c = Ret (m', r) → routed m m'.
Proof.
  destruct c; simpl.
  - apply send_frame_to_peer_routed.
  - apply erp_broadcast_routed.
  - apply disconnect_peer_routed.
  - intros (fr & _ & Hr)%bind_Ret. by eapply send_frame_to_peer_routed.
Qed.

Lemma start_workers_same ws m m' : workers_started m' = workers_started m → start_workers ws m m' = ws.
Proof. unfold start_workers. intros ->. by rewrite drop_all. Qed.

Lemma routed_ok m m' ws : world_ok m ws → routed m m' → world_ok m' (start_workers ws m m').
Proof.
  intros [] (Hp & He & Hs & Hc). rewrite start_workers_same by done.
  split; rewrite ?Hp, ?He; try done. intros id. by rewrite Hc.
Qed.

(** A session is started within the limits. *)
Lemma spawn_session_ok m ws role addr expected spawn m' :
  world_ok m ws → spawn_session m role addr expected spawn = Ret (m', Ok tt) →
  (role = Outbound → (outbound_session_count (peers m) < max_outbound_dials config)%nat) →
  (∀ a, addr = Some a → has_outbound_session_for (peers m) a = false) →
  world_ok m' (start_workers ws m m').
Proof.
  intros [Hr Hmax Hw Hc Hst Ho Ha Hv] Hs Hlim Haddr. unfold spawn_session in Hs.
  destruct (alloc _ _ _ _) as [[id r]|] eqn:E; [|done]. destruct spawn; [|done]. injection Hs as <-.
  pose proof (alloc_count _ _ _ _ _ _ E) as Hcount. pose proof (alloc_ok _ _ _ _ _ _ Hr E) as Hr'.
  apply alloc_Ok in E as (Hf & Hg & Hn & Hm & _). unfold start_workers. simpl. rewrite drop_app_length. simpl.
  split; simpl.
  - done.
  - by rewrite Hm.
  - intros j. rewrite Hg. destruct (decide (id = j)) as [<-|]; [by rewrite lookup_insert_eq|].
    by rewrite lookup_insert_ne.
  - intros j. rewrite Hg. destruct (decide (id = j)) as [<-|]; [by rewrite lookup_insert_eq|].
    by rewrite lookup_insert_ne.
  - intros j s. rewrite Hg. destruct (decide (id = j)) as [<-|]; [|apply Hst].
    intros [= <-]. simpl. split; [done|by intros []].
  - rewrite Hcount. destruct role; [lia|]. specialize (Hlim eq_refl). lia.
  - intros i j s s1 a1. rewrite !Hg.
    destruct (decide (id = i)) as [<-|], (decide (id = j)) as [<-|]; [done|..|apply Ha];
      intros Hi Hj Hai Haj; simplify_eq/=; exfalso.
    + apply (no_outbound_session (peers m) a1 j s1); [by apply Haddr|done|done].
    + apply (no_outbound_session (peers m) a1 i s); [by apply Haddr|done|done].
  - by rewrite Hn.
Qed.

Lemma bootstrap_once_ok env m ws connected spawn m' :
  world_ok m ws → bootstrap_once env m connected spawn = Ret (m', Ok tt) →
  world_ok m' (start_workers ws m m').
Proof.
  intros Hok. assert (world_ok m (start_workers ws m m)) as Hsame by by apply routed_ok.
  unfold bootstrap_once. case_bool_decide; [by intros [= <-]|]. case_bool_decide; [by intros [= <-]|].
  destruct (_ !! _) as [target|]; [|done].
  assert (routed m (set_cursor m (Z.min (bootstrap_cursor m + 1) usize_max))) as Hcur by done.
  pose proof (routed_ok m _ ws Hok Hcur) as Hok1. rewrite start_workers_same in Hok1 by done.
  destruct (resolve_bootstrap_addr _ _) as [a|]; [|intros [= <-]; by apply routed_ok].
  destruct (has_outbound_session_for _ a) eqn:Ha; [intros [= <-]; by apply routed_ok|].
  destruct connected; [|intros [= <-]; by apply routed_ok]. intros Hs.
  apply (spawn_session_ok _ ws _ _ _ _ m' Hok1 Hs); [simpl; lia|by intros ? [= <-]].
Qed.

Lemma session_ready_ok env m ws id v m' :
  world_ok m ws → ws !! id = Some None →
  handle_session_event env m (SessReady id v) = Ret (m', Ok tt) →
  world_ok m' (<[id := Some (verified_node_peer_id v)]> ws).
Proof.
  intros [Hr Hmax Hw Hc Hst Ho Ha Hv] Hid. pose proof (Hw id) as Hg. rewrite Hid in Hg.
  destruct (get (peers m) id) as [s|] eqn:Eg; [|done]. injection Hg as Hs. symmetry in Hs. simpl. rewrite Eg.
  pose proof (get_set_session (peers m) id s (ready_session s v)) as Hget.
  assert (registry_ok (set_session (peers m) id (ready_session s v))) as Hr1 by (by eapply set_session_ok).
  pose proof (set_session_count (peers m) id s (ready_session s v) Eg eq_refl) as Hcnt.
  destruct (register_node_peer _ _ _) as [r|] eqn:Er; [|done].
  intros (Hp & Hcm & He & _)%erp_send_event_Ok. simpl in *.
  pose proof (register_count _ _ _ _ Er) as Hcnt2.
  apply (register_node_peer_Ok _ _ _ _ (ready_session s v)) in Er as (Hr2 & Hnew & Hix & Hm2 & Hget2);
    [|done|by rewrite Hget, decide_True|done].
  assert (∀ j, get r j = if decide (id = j) then
    Some (set_node_peer_id (ready_session s v) (verified_node_peer_id v)) else get (peers m) j) as Hgj.
  { intros j. rewrite Hget2. destruct (decide (id = j)); [done|]. by rewrite Hget, decide_False. }
  split; rewrite ?Hp, ?He, ?Hcm; try done.
  - by rewrite Hm2.
  - intros j. rewrite Hgj. destruct (decide (id = j)) as [<-|]; [by rewrite lookup_insert_eq|].
    by rewrite lookup_insert_ne.
  - intros j. rewrite Hgj, Hc. destruct (decide (id = j)) as [<-|]; [|done].
    rewrite Eg. split; by eexists.
  - intros j s'. rewrite Hgj. destruct (decide (id = j)) as [<-|]; [|apply Hst].
    intros [= <-]. split; [by eexists|done].
  - lia.
  - intros i j s1 s2 a. rewrite !Hgj.
    destruct (decide (id = i)) as [<-|], (decide (id = j)) as [<-|]; [done|..|apply Ha];
      intros; simplify_eq/=; by eapply Ha.
  - rewrite connected_nodes_snoc, Hv, Hix. simpl. rewrite dom_insert_L. set_solver.
Qed.

Lemma session_closed_ok env m ws id node m' :
  world_ok m ws → ws !! id = Some node →
  handle_session_event env m (SessClosed id node) = Ret (m', Ok tt) → world_ok m' (delete id ws).
Proof.
  intros [Hr Hmax Hw Hc Hst Ho Ha Hv] Hid. pose proof (Hw id) as Hg. rewrite Hid in Hg.
  destruct (get (peers m) id) as [s|] eqn:Eg; [|done]. injection Hg as Hs. symmetry in Hs.
  pose proof (remove_count (peers m) id) as Hcnt.
  destruct (remove_Some (peers m) id s _ Hr Eg eq_refl) as (Hr' & Hm' & Hix & Hget). simpl.
  intros Hstep.
  assert (peers m' = (remove (peers m) id).1 ∧ session_commands m' = delete id (session_commands m) ∧
    connected_nodes (erp_events m') = match node with
      | Some n => connected_nodes (erp_events m) ∖ {[ n ]} | None => connected_nodes (erp_events m) end)
    as (Hp & Hcm & He).
  { destruct node as [n|]; [|by injection Hstep as <-].
    apply erp_send_event_Ok in Hstep as (-> & -> & -> & _). by rewrite connected_nodes_snoc. }
  split; rewrite ?Hp, ?Hcm; try done.
  - by rewrite Hm'.
  - intros j. rewrite Hget. destruct (decide (id = j)) as [<-|]; [by rewrite lookup_delete_eq|].
    by rewrite lookup_delete_ne.
  - intros j. rewrite Hget. destruct (decide (id = j)) as [<-|]; [by rewrite lookup_delete_eq|].
    by rewrite lookup_delete_ne.
  - intros j s'. rewrite Hget. destruct (decide _); [done|apply Hst].
  - lia.
  - intros i j s1 s2 a. rewrite !Hget. destruct (decide _); [done|]. destruct (decide _); [done|]. apply Ha.
  - rewrite He. apply set_eq. intros n. rewrite elem_of_dom, Hix. rewrite Hs, Hv.
    destruct node as [n'|]; [|rewrite decide_False, elem_of_dom by done; done].
    destruct (decide (Some n' = Some n)) as [[= <-]|Hne].
    + split; [set_solver|by intros []].
    + rewrite <-elem_of_dom. assert (n ≠ n') by congruence. set_solver.
Qed.

Lemma world_start_ok : world_ok ErpNetworkManager_new ∅.
Proof.
  split; simpl; try done; [apply PeerRegistry_new_ok|..].
  - intros id. split; by intros [].
  - unfold outbound_session_count. simpl. lia.
Qed.

Lemma world_step_ok w w' : world_step w w' → world_ok w.1 w.2 → world_ok w'.1 w'.2.
Proof.
  intros [env i m m' ws Hi Hs|env id v m m' ws Hid Hs|env id node m m' ws Hid Hs] Hok; simpl in *.
  - destruct i as [spawn| |c|ev|connected spawn]; simpl in Hs.
    + eapply spawn_session_ok; [done|exact Hs|done|done].
    + injection Hs as <-. by apply routed_ok.
    + eapply routed_ok; [done|]. by eapply handle_network_command_routed.
    + done.
    + by eapply bootstrap_once_ok.
  - by eapply session_ready_ok.
  - by eapply session_closed_ok.
Qed.

Lemma reachable_ok m ws : reachable m ws → world_ok m ws.
Proof.
  intros Hr. unfold reachable in Hr.
  cut (world_ok (m, ws).1 (m, ws).2); [done|]. revert Hr. generalize (m, ws).
  apply rtc_ind_r; [apply world_start_ok|]. intros w w' _ Hs Hw. by eapply world_step_ok.
Qed.

(** C19: the registry of the embedded runtime follows the workers.  However connections,
    commands and session events interleave, there is a slot exactly for every worker
    that runs, with the node id it proved; the index finds the one session of each
    node; the node manager has been told of exactly the nodes that have a session;
    and there are never more than the configured sessions, or outbound sessions, or
    two dials of one address. *)
Theorem registry_follows_workers m ws :
  reachable m ws →
  (∀ id, ws !! id = node_peer_id <$> get (peers m) id) ∧
  (∀ n id, by_node_peer (peers m) !! n = Some id ↔ ws !! id = Some (Some n)) ∧
  connected_nodes (erp_events m) = dom (by_node_peer (peers m)) ∧
  (∀ id, is_Some (ws !! id) → (id < config_max_peers config)%nat) ∧
  (outbound_session_count (peers m) ≤ max_outbound_dials config)%nat ∧
  (∀ i j s s' a, get (peers m) i = Some s → get (peers m) j = Some s' →
     outbound_addr s = Some a → outbound_addr s' = Some a → i = j).
Proof.
  intros [[Hb Hsl Hix] Hmax Hw Hc Hst Ho Ha Hv]%reachable_ok. split_and!; try done.
  - intros n id. rewrite Hix, Hw. destruct (get (peers m) id) as [s|]; simpl.
    { split; [by intros (? & [= <-] & ->)|]. intros [= Hn]. by exists s. }
    split; [by intros (? & ? & _)|done].
  - intros id. rewrite Hw, <-Hmax. intros [? (s & Hs & _)%fmap_Some_1].
    apply get_lookup, lookup_lt_Some in Hs. lia.
Qed.

(** Which inputs the workers can send. *)
Definition legal (ws : Workers) (i : ErpInput) : Prop :=
  match i with
  | InSession (SessReady id _) => ws !! id = Some None
  | InSession (SessClosed id node) => ws !! id = Some node
  | _ => True
  end.

(** Why a step can fail. *)
Inductive failure (m : ErpNetworkManager) (ws : Workers) (env : ErpEnv) (i : ErpInput) :
    Erp.RuntimeError → Prop :=
| fails_full :
    (∀ id, (id < config_max_peers config)%nat → is_Some (ws !! id)) →
    failure m ws env i (Erp.Config "peer registry is full")
| fails_thread message :
    i = InAccepted (Err message) ∨ (∃ c, i = InBootstrapTimer c (Err message)) →
    failure m ws env i (Erp.NetworkError (mk_io_error Other message))
| fails_ended id :
    is_Some (ws !! id) → commands_open env id = false →
    failure m ws env i (Erp.network_send Erp.Disconnected)
| fails_duplicate id other v :
    i = InSession (SessReady id v) → other ≠ id → ws !! other = Some (Some (verified_node_peer_id v)) →
    failure m ws env i (Erp.Config "node peer is already registered to another session")
| fails_events :
    erp_events_open env = false → failure m ws env i (Erp.event_send Erp.Disconnected).

Definition step_fails_only (m : ErpNetworkManager) (ws : Workers) (env : ErpEnv) (i : ErpInput) (r : EM) : Prop :=
  ∃ m' o, r = Ret (m', o) ∧ ∀ e, o = Err e → failure m ws env i e.

Lemma send_event_fails_only m ws env i m0 ev : step_fails_only m ws env i (erp_send_event env m0 ev).
Proof.
  unfold erp_send_event. destruct (erp_events_open env) eqn:E; do 2 eexists; (split; [done|]); [done|].
  intros e [= <-]. by constructor.
Qed.

Lemma send_command_fails_only m ws env i m0 id sent c :
  is_Some (ws !! id) → step_fails_only m ws env i (send_command env m0 id sent c).
Proof.
  intros Hid. unfold send_command. destruct (commands_open env id) eqn:E; do 2 eexists; (split; [done|]); [done|].
  intros e [= <-]. by eapply fails_ended.
Qed.

Lemma done_fails_only m ws env i m0 : step_fails_only m ws env i (erp_done m0).
Proof. by do 2 eexists. Qed.

Lemma commands_have_workers m ws id sent :
  world_ok m ws → session_commands m !! id = Some sent → is_Some (ws !! id).
Proof.
  intros Hok Hs. rewrite (world_workers m ws Hok).
  destruct (proj1 (world_commands m ws Hok id)) as [s ->]; [by eexists|]. by eexists.
Qed.

Lemma send_frame_fails_only m ws env i peer f :
  world_ok m ws → step_fails_only m ws env i (send_frame_to_peer env m peer f).
Proof.
  intros Hok. unfold send_frame_to_peer. destruct (session_for_node _ _) as [id|]; [|apply done_fails_only].
  destruct (_ !! id) eqn:E; [|apply done_fails_only]. by eapply send_command_fails_only, commands_have_workers.
Qed.

Lemma disconnect_fails_only m ws env i peer :
  world_ok m ws → step_fails_only m ws env i (disconnect_peer env m peer).
Proof.
  intros Hok. unfold disconnect_peer. destruct (session_for_node _ _) as [id|]; [|apply done_fails_only].
  destruct (_ !! id) eqn:E; [|apply done_fails_only]. by eapply send_command_fails_only, commands_have_workers.
Qed.

Lemma broadcast_fails_only m ws env i m0 ids f :
  (∀ id, is_Some (session_commands m0 !! id) → is_Some (ws !! id)) →
  step_fails_only m ws env i (erp_broadcast_loop env m0 ids f).
Proof.
  revert m0. induction ids as [|id ids IH]; intros m0 Hc; simpl; [apply done_fails_only|].
  destruct (session_commands m0 !! id) as [sent|] eqn:E; simpl; [|by apply IH].
  destruct (send_command_fails_only m ws env i m0 id sent (SessSendFrame f)) as (m1 & o & Hs & Ho);
    [apply Hc; by eexists|].
  rewrite Hs. simpl. destruct o as [[]|e]; [|by do 2 eexists]. apply IH. intros j Hj. apply Hc.
  by apply (send_command_routed _ _ _ _ _ _ _ E Hs).
Qed.

Lemma spawn_fails_only m ws env i m0 role addr expected spawn :
  world_ok m ws → peers m0 = peers m →
  (∀ message, spawn = Err message →
     i = InAccepted (Err message) ∨ ∃ c, i = InBootstrapTimer c (Err message)) →
  step_fails_only m ws env i (spawn_session m0 role addr expected spawn).
Proof.
  intros Hok Hp Hspawn. unfold spawn_session. rewrite Hp. destruct (alloc _ _ _ _) as [[id r]|e] eqn:E.
  - destruct spawn as [|message]; do 2 eexists; (split; [done|]); [done|]. intros e [= <-].
    apply fails_thread. by apply Hspawn.
  - do 2 eexists. split; [done|]. intros ? [= <-]. apply alloc_Err in E as (-> & Hl & Hg).
    apply fails_full. intros id Hid. rewrite (world_workers m ws Hok).
    rewrite <-(world_max m ws Hok) in Hid. destruct (Hg id) as [s ->]; [lia|by eexists].
Qed.

Lemma bootstrap_fails_only m ws env connected spawn :
  world_ok m ws →
  step_fails_only m ws env (InBootstrapTimer connected spawn) (bootstrap_once env m connected spawn).
Proof.
  intros Hok. unfold bootstrap_once. case_bool_decide; [apply done_fails_only|].
  case_bool_decide as Hne; [apply done_fails_only|].
  assert (0 < Z.of_nat (length (bootstrap_targets config))) as Hlen.
  { destruct (bootstrap_targets config); [done|]. simpl. lia. }
  pose proof (Z.mod_pos_bound (bootstrap_cursor m) _ Hlen) as Hb.
  destruct (_ !! Z.to_nat _) as [target|] eqn:E; [|apply lookup_ge_None in E; lia].
  destruct (resolve_bootstrap_addr _ _); [|apply done_fails_only].
  destruct (has_outbound_session_for _ _); [apply done_fails_only|].
  destruct connected; [|apply done_fails_only]. apply spawn_fails_only; [done|done|]. intros message ->. eauto.
Qed.

Lemma session_event_fails_only m ws env ev :
  world_ok m ws → legal ws (InSession ev) →
  step_fails_only m ws env (InSession ev) (handle_session_event env m ev).
Proof.
  intros Hok. destruct ev as [id v|id node]; simpl; intros Hid.
  - pose proof (world_workers m ws Hok id) as Hg. rewrite Hid in Hg.
    destruct (get (peers m) id) as [s|] eqn:Eg; [|done]. injection Hg as Hs.
    unfold register_node_peer. simpl. rewrite (get_set_session _ _ s), decide_True by done.
    destruct (by_node_peer (peers m) !! verified_node_peer_id v) as [other|] eqn:E;
      [|apply send_event_fails_only].
    case_bool_decide as Ho; [|apply send_event_fails_only]. do 2 eexists. split; [done|].
    intros ? [= <-]. eapply fails_duplicate; [done|exact Ho|].
    apply (registry_index _ (world_registry m ws Hok)) in E as (s' & Hs' & Hn).
    by rewrite (world_workers m ws Hok), Hs', <-Hn.
  - destruct node; [apply send_event_fails_only|apply done_fails_only].
Qed.

Context `{!PostcardLaws NetworkMessage}.

(** C38: the embedded manager never panics, and ends only for one of five reasons: every
    session slot is taken when a connection arrives, the thread of a session cannot be
    started, a session it sends a command to has just ended, a node opens a second
    session, or the node manager is gone.  In particular the events of the workers
    never refer to a session it does not know. *)
Theorem manager_failures m ws env i :
  reachable m ws → legal ws i → step_fails_only m ws env i (erp_step env m i).
Proof.
  intros Hok%reachable_ok Hl. destruct i as [spawn| |c|ev|connected spawn]; simpl.
  - apply spawn_fails_only; [done|done|]. intros message ->. by left.
  - apply done_fails_only.
  - destruct c as [p f|f|p|p from to]; simpl.
    + by apply send_frame_fails_only.
    + apply broadcast_fails_only. intros id [sent Hs]. by eapply commands_have_workers.
    + by apply disconnect_fails_only.
    + unfold message_to_bytes. destruct (to_allocvec_Some (MsgSyncRequest
        (erp_clamp_sync_request m p (mkSyncRequest from to)))) as [f ->]. by apply send_frame_fails_only.
  - by apply session_event_fails_only.
  - by apply bootstrap_fails_only.
Qed.

(** the end of one session can stop the node.  When the worker of a session has
    ended but its [Closed] event has not been handled yet, a frame for its peer cannot
    be sent, and the error ends the manager, whatever is still to be handled. *)
Theorem ended_session_stops_manager m ws env n id f inputs :
  reachable m ws → ws !! id = Some (Some n) → commands_open env id = false →
  erp_run m ((env, InNetCommand (NetSendFrame n f)) :: inputs) =
  Ret (m, Err (Erp.network_send Erp.Disconnected)).
Proof.
  intros Hok%reachable_ok Hid Hc. simpl. unfold send_frame_to_peer, session_for_node.
  rewrite (world_workers m ws Hok) in Hid. apply fmap_Some_1 in Hid as (s & Hs & Hn).
  rewrite (proj2 (registry_index _ (world_registry m ws Hok) n id)) by eauto.
  destruct (proj2 (world_commands m ws Hok id)) as [sent ->]; [by eexists|].
  unfold send_command. by rewrite Hc.
Qed.

(** ** Where commands go *)

Definition append_command (c : SessionCommand) (sent : list SessionCommand) := sent ++ [c].

Lemma send_command_open env m id sent c :
  commands_open env id = true → session_commands m !! id = Some sent →
  ∃ m', send_command env m id sent c = Ret (m', Ok tt) ∧
    ∀ j, session_commands m' !! j =
      if decide (j = id) then append_command c <$> session_commands m !! j else session_commands m !! j.
Proof.
  unfold send_command. intros -> Hs. eexists. split; [done|]. intros j. simpl.
  destruct (decide (j = id)) as [->|]; [by rewrite lookup_insert_eq, Hs|by rewrite lookup_insert_ne].
Qed.

Lemma broadcast_open env m ids f :
  (∀ id, commands_open env id = true) → NoDup ids →
  ∃ m', erp_broadcast_loop env m ids f = Ret (m', Ok tt) ∧
    ∀ j, session_commands m' !! j =
      if decide (j ∈ ids) then append_command (SessSendFrame f) <$> session_commands m !! j
      else session_commands m !! j.
Proof.
  intros Ho Hnd. revert m. induction Hnd as [|id ids Hid Hnd IH]; intros m; cbn [erp_broadcast_loop].
  { exists m. split; [done|]. intros j. by rewrite decide_False by apply not_elem_of_nil. }
  destruct (session_commands m !! id) as [sent|] eqn:E; cbn.
  - destruct (send_command_open env m id sent (SessSendFrame f) (Ho id) E) as (m1 & -> & H1'). cbn.
    destruct (IH m1) as (m' & -> & Hm'). exists m'. split; [done|]. intros j. rewrite Hm', H1'.
    destruct (decide (j = id)) as [->|Hne].
    + rewrite decide_False, decide_True by set_solver. done.
    + destruct (decide (j ∈ ids)); [rewrite decide_True by set_solver|rewrite decide_False by set_solver]; done.
  - destruct (IH m) as (m' & -> & Hm'). exists m'. split; [done|]. intros j. rewrite Hm'.
    destruct (decide (j = id)) as [->|Hne].
    + by rewrite decide_False, decide_True, E by set_solver.
    + destruct (decide (j ∈ ids)); [rewrite decide_True by set_solver|rewrite decide_False by set_solver]; done.
Qed.

(** frames go to the sessions of the peers they are for: a frame for a node is
    handed to the worker that proved that node id and to no other, and a broadcast is
    handed once to every worker whose peer has proved its node id. *)
Theorem frames_reach_their_sessions m ws env f :
  reachable m ws → (∀ id, commands_open env id = true) →
  (∀ n, ∃ m', erp_step env m (InNetCommand (NetSendFrame n f)) = Ret (m', Ok tt) ∧
     ∀ id, session_commands m' !! id =
       if decide (ws !! id = Some (Some n)) then append_command (SessSendFrame f) <$> session_commands m !! id
       else session_commands m !! id) ∧
  (∃ m', erp_step env m (InNetCommand (NetBroadcastFrame f)) = Ret (m', Ok tt) ∧
     ∀ id, session_commands m' !! id =
       if decide (is_Some (mjoin (ws !! id))) then append_command (SessSendFrame f) <$> session_commands m !! id
       else session_commands m !! id).
Proof.
  intros Hok%reachable_ok Ho. pose proof (world_workers m ws Hok) as Hw. split.
  - intros n. simpl. unfold send_frame_to_peer, session_for_node.
    pose proof (registry_index _ (world_registry m ws Hok) n) as Hix.
    destruct (by_node_peer (peers m) !! n) as [id|] eqn:E.
    + destruct (proj1 (Hix id) eq_refl) as (s & Hs & Hn).
      destruct (proj2 (world_commands m ws Hok id)) as [sent Hc]; [by eexists|]. rewrite Hc.
      destruct (send_command_open env m id sent (SessSendFrame f) (Ho id) Hc) as (m' & -> & Hm').
      exists m'. split; [done|]. intros j. rewrite Hm', Hw. destruct (decide (j = id)) as [->|Hne].
      * rewrite Hs. simpl. by rewrite Hn, decide_True.
      * rewrite decide_False; [done|]. intros (s' & Hs' & Hn')%fmap_Some_1. apply Hne.
        assert (Some id = Some j) by (apply Hix; eauto). congruence.
    + exists m. split; [done|]. intros j. rewrite Hw, decide_False; [done|].
      intros (s' & Hs' & Hn')%fmap_Some_1. assert (None = Some j) by (apply Hix; eauto). done.
  - simpl. destruct (broadcast_open env m (ready_sessions (peers m)) f Ho (ready_sessions_NoDup _)) as (m' & -> & Hm').
    exists m'. split; [done|]. intros j. rewrite Hm', Hw.
    apply decide_ext. rewrite elem_of_ready_sessions. destruct (get (peers m) j) as [s|] eqn:E; simpl.
    + rewrite <-(world_states m ws Hok j s E). naive_solver.
    + split; [by intros (? & ? & _)|by intros []].
Qed.
End manager.

(** ** A concrete run *)

Module ErpNetworkWitness.
Import ToyCrypto EngineRuns.
#[local] Existing Instance release_embedded.

Definition dial_config : NetworkConfig :=
  mkNetworkConfig DEFAULT_LISTEN_PORT 2 1 DEFAULT_MAX_FRAME_LEN DEFAULT_MAX_BLOCKS_PER_CHUNK
    DEFAULT_IDLE_TIMEOUT_MS [mkBootstrapPeer (Ip4Tcp [x0a; x00; x00; x01] 4001) None].
Definition all_open : ErpEnv := mkErpEnv true (λ _, true) (λ _ _, Ok []).
Definition first_ended : ErpEnv := mkErpEnv true (λ id, negb (Nat.eqb id 0)) (λ _ _, Ok []).
Definition proved_a : VerifiedPeer :=
  mkVerifiedPeer peer_a [] [x01; x02] 65536 8 (mkPeerCapabilities true true true).

(** The manager dials its bootstrap peer, which proves to be [peer_a], and accepts a
    connection. *)
Definition dialled : PeerSession :=
  mkPeerSession 0 true (Some (SocketV4 [x0a; x00; x00; x01] 4001)) (Some peer_a) [x01; x02] NodeReady
    65536 8 0.
Definition m2 : ErpNetworkManager :=
  mkErpNetworkManager
    (mkPeerRegistry [Some dialled; Some (new_session 1 [] false None)] {[ peer_a := 0%nat ]} 2)
    (<[1%nat := []]> (<[0%nat := []]> ∅)) 1 [EvPeerConnected peer_a]
    [mkSpawned 0 Outbound None; mkSpawned 1 Inbound None].
Definition ws2 : Workers := <[1%nat := None]> (<[0%nat := Some peer_a]> (<[0%nat := None]> ∅)).

Lemma m2_reachable : reachable dial_config m2 ws2.
Proof.
  eapply rtc_l; [apply (world_own _ all_open (InBootstrapTimer true (Ok tt))); reflexivity|].
  eapply rtc_l; [apply (world_ready _ all_open 0 proved_a); reflexivity|].
  eapply rtc_l; [apply (world_own _ all_open (InAccepted (Ok tt))); reflexivity|].
  apply rtc_refl.
Qed.

Lemma registry_follows_workers_witness :
  connected_nodes (erp_events m2) = dom (by_node_peer (peers m2)) ∧
  (outbound_session_count (peers m2) ≤ 1)%nat.
Proof.
  destruct (registry_follows_workers dial_config m2 ws2 m2_reachable) as (_ & _ & Hc & _ & Ho & _). by split.
Defined.

Lemma manager_failures_witness :
  step_fails_only dial_config m2 ws2 all_open (InSession (SessReady 1 proved_a))
    (erp_step dial_config all_open m2 (InSession (SessReady 1 proved_a))).
Proof. exact (manager_failures dial_config m2 ws2 all_open (InSession (SessReady 1 proved_a)) m2_reachable eq_refl). Defined.

Lemma ended_session_stops_manager_witness :
  erp_run dial_config m2 [(first_ended, InNetCommand (NetSendFrame peer_a [x02])); (all_open, InAcceptFailed)] =
  Ret (m2, Err (Erp.network_send Erp.Disconnected)).
Proof.
  apply (ended_session_stops_manager dial_config m2 ws2 first_ended peer_a 0); [apply m2_reachable|done|done].
Defined.

Lemma frames_reach_their_sessions_witness :
  ∃ m', erp_step dial_config all_open m2 (InNetCommand (NetBroadcastFrame [x01])) = Ret (m', Ok tt) ∧
    session_commands m' !! 0%nat = Some [SessSendFrame [x01]] ∧ session_commands m' !! 1%nat = Some [].
Proof.
  destruct (frames_reach_their_sessions dial_config m2 ws2 all_open [x01] m2_reachable) as [_ (m' & Hr & Hc)];
    [done|].
  exists m'. split_and!; [exact Hr|rewrite Hc; reflexivity|rewrite Hc; reflexivity].
Defined.
End ErpNetworkWitness.
