(* ===== verification/Duplex.v ===== *)
(** * Connections

    What the session code of the embedded runtime sees of a connection or a substream
    (an [AsyncRead + AsyncWrite]): the bytes that will arrive, the bytes written so
    far, and the outcome of each write, which the environment decides.  The reading
    functions are those of [Framing]. *)

From S2P Require Import Prelude.
From S2P Require Import Crypto.
From S2P Require Import Messages.
From S2P Require Import Errors.
From S2P Require Import Framing.

(** A write that fails may have written some of its bytes. *)
Record WriteFault : Type := mkWriteFault {
  fault_error : io_error;
  fault_written : nat;
}.

Record Duplex : Type := mkDuplex {
  inbound : Stream;
  outbound : bytes;
  write_faults : list (option WriteFault);
}.

(** The operations of a session on a connection. *)
Abbreviation IO := (M Duplex Erp.RuntimeError).

(** [stream.write_all(b).await.map_err(RuntimeError::NetworkError)] *)
Definition write_all (b : bytes) : IO unit := λ d,
  match write_faults d with
  | [] => (mkDuplex (inbound d) (outbound d ++ b) [], Ok tt)
  | None :: fs => (mkDuplex (inbound d) (outbound d ++ b) fs, Ok tt)
  | Some f :: fs =>
      (mkDuplex (inbound d) (outbound d ++ take (fault_written f) b) fs, Err (Erp.NetworkError (fault_error f)))
  end.

(** [stream.flush().await.map_err(RuntimeError::NetworkError)] *)
Definition flush : IO unit := write_all [].

(** A reading function of [Framing] on the incoming half.  After a failed read the
    incoming half is not used any more. *)
Definition reading {A} (f : Stream → result (A * Stream) Erp.RuntimeError) : IO A := λ d,
  match f (inbound d) with
  | Ok (a, s) => (mkDuplex s (outbound d) (write_faults d), Ok a)
  | Err e => (d, Err e)
  end.

Definition io_read_exact (n : nat) : IO bytes :=
  reading (λ s, map_err Erp.NetworkError (read_exact n s)).

(** A computation that may fail without touching the connection. *)
Definition lift {A} (r : result A Erp.RuntimeError) : IO A := λ d, (d, r).

(** Operations that decode what they read with a loop. *)
Abbreviation OIO := (OM Duplex Erp.RuntimeError).

Section frames.
Context `{UnsignedVarint}.

Definition io_read_frame (max_len : Z) : IO bytes := reading (λ s, erp_read_length_prefixed_frame s max_len).
Definition io_read_postcard `{Postcard A} (max_len : Z) : IO A := reading (λ s, erp_read_postcard_frame s max_len).
Definition io_write_postcard `{Postcard A} (a : A) (max_len : Z) : IO unit :=
  let* frame := lift (erp_write_postcard_frame a max_len) in
  let* _ := write_all frame in
  flush.
End frames.

(** A connection on which writes succeed. *)
Definition writable (d : Duplex) : Prop := Forall (λ f, f = None) (write_faults d).

Lemma write_all_writable b d :
  writable d → ∃ fs, write_all b d = (mkDuplex (inbound d) (outbound d ++ b) fs, Ok tt) ∧
                 Forall (λ f, f = None) fs.
Proof.
  unfold writable, write_all. destruct (write_faults d) as [|[f|] fs]; [by exists []| |].
  - by intros [? _]%Forall_cons.
  - intros [_ Hf]%Forall_cons. by exists fs.
Qed.

Lemma write_all_run b d :
  writable d → ∃ d', write_all b d = (d', Ok tt) ∧ inbound d' = inbound d ∧ outbound d' = outbound d ++ b ∧ writable d'.
Proof. intros Hw. destruct (write_all_writable b d Hw) as (fs & -> & Hf). by eexists. Qed.

Lemma returns_of {A} (m : IO A) d : runs_at anywhere (OM_of m) d.
Proof. by apply runs_of. Qed.

Lemma write_all_Ok b d d' :
  write_all b d = (d', Ok tt) → inbound d' = inbound d ∧ outbound d' = outbound d ++ b.
Proof. unfold write_all. destruct (write_faults d) as [|[f|] fs]; by intros [= <-]. Qed.

Lemma write_all_inbound b d d' r : write_all b d = (d', r) → inbound d' = inbound d.
Proof. unfold write_all. destruct (write_faults d) as [|[f|] fs]; by intros [= <- _]. Qed.

Lemma reading_Ok {A} (f : Stream → result (A * Stream) Erp.RuntimeError) d d' a :
  reading f d = (d', Ok a) → f (inbound d) = Ok (a, inbound d') ∧ outbound d' = outbound d.
Proof. unfold reading. destruct (f (inbound d)) as [[a' s]|e]; by intros [= <- <-]. Qed.

Lemma lift_Ok {A} (r : result A Erp.RuntimeError) d d' a : lift r d = (d', Ok a) → r = Ok a ∧ d' = d.
Proof. by intros [= <- ->]. Qed.

(** Decomposes a hypothesis about a computation on a connection that succeeded. *)
Ltac io_inv :=
  repeat match goal with
  | H : M_bind _ _ _ = (_, Ok _) |- _ => apply M_bind_Ok in H as (? & ? & ? & H)
  | H : write_all _ _ = (_, Ok _) |- _ => apply write_all_Ok in H as [? ?]
  | H : flush _ = (_, Ok _) |- _ => apply write_all_Ok in H as [? ?]
  | H : reading _ _ = (_, Ok _) |- _ => apply reading_Ok in H as [? ?]
  | H : lift _ _ = (_, Ok _) |- _ => apply lift_Ok in H as [? ->]
  | H : M_ret _ _ = (_, Ok _) |- _ => injection H as <- <-
  | H : M_fail _ _ = (_, Ok _) |- _ => discriminate H
  | x : unit |- _ => destruct x
  end.

Ltac oio_inv :=
  repeat match goal with
  | H : OM_bind _ _ _ = Ret (_, Ok _) |- _ => apply OM_bind_Ok in H as (? & ? & ? & H)
  | H : OM_of _ _ = Ret (_, Ok _) |- _ => apply (inj Ret) in H
  | H : OM_lift _ _ = Ret (_, Ok _) |- _ => apply OM_lift_Ok in H as [? ->]
  | H : OM_ret _ _ = Ret (_, Ok _) |- _ => injection H as <- <-
  | H : OM_fail _ _ = Ret (_, Ok _) |- _ => discriminate H
  end.
