(* ===== verification/Text.v ===== *)
(** * Text

    What the sources use of Rust strings: a string is its bytes, which are valid UTF-8.
    Formatting of numbers and addresses, splitting, trimming and searching. *)

From S2P Require Import Prelude.

(** ** Strings *)

Definition str (s : string) : bytes := String.list_byte_of_string s.
Definition newline : byte := x0a.

(** The check of [String::from_utf8] (the table of well-formed sequences of the
    standard). *)
Definition between (lo hi : Z) (b : byte) : bool :=
  bool_decide (lo ≤ byte_to_Z b) && bool_decide (byte_to_Z b ≤ hi).
Definition cont : byte → bool := between 128 191.

Fixpoint utf8_valid (l : bytes) : bool :=
  match l with
  | [] => true
  | b :: l1 =>
      if between 0 127 b then utf8_valid l1
      else match l1 with
      | [] => false
      | c :: l2 =>
          if between 194 223 b then cont c && utf8_valid l2
          else match l2 with
          | [] => false
          | d :: l3 =>
              if (bool_decide (byte_to_Z b = 224) && between 160 191 c) || (between 225 236 b && cont c) ||
                 (bool_decide (byte_to_Z b = 237) && between 128 159 c) || (between 238 239 b && cont c)
              then cont d && utf8_valid l3
              else match l3 with
              | [] => false
              | e :: l4 =>
                  ((bool_decide (byte_to_Z b = 240) && between 144 191 c) || (between 241 243 b && cont c) ||
                   (bool_decide (byte_to_Z b = 244) && between 128 143 c)) &&
                  cont d && cont e && utf8_valid l4
              end
          end
      end
  end.

Lemma byte_of_to_Z b : byte_of_Z (byte_to_Z b) = b.
Proof. by destruct b. Qed.

(** ** Splitting and joining *)

(** [s.split(c)]: the pieces between the occurrences of [c], at least one. *)
Fixpoint split_on (c : byte) (l : bytes) : list bytes :=
  match l with
  | [] => [[]]
  | b :: l =>
      if bool_decide (b = c) then [] :: split_on c l
      else match split_on c l with
           | piece :: pieces => (b :: piece) :: pieces
           | [] => [[b]]
           end
  end.

(** [s.split_once(c)] *)
Fixpoint split_once (c : byte) (l : bytes) : option (bytes * bytes) :=
  match l with
  | [] => None
  | b :: l =>
      if bool_decide (b = c) then Some ([], l)
      else match split_once c l with Some (x, y) => Some (b :: x, y) | None => None end
  end.

Fixpoint join_with (sep : bytes) (ls : list bytes) : bytes :=
  match ls with
  | [] => []
  | [l] => l
  | l :: ls => l ++ sep ++ join_with sep ls
  end.

Lemma split_on_ne c l : split_on c l ≠ [].
Proof. destruct l as [|b l]; simpl; [done|]. case_bool_decide; [done|]. by destruct (split_on c l). Qed.

Lemma split_on_piece c l rest : c ∉ l → split_on c (l ++ c :: rest) = l :: split_on c rest.
Proof.
  induction l as [|b l IH]; intros Hc; simpl; [by rewrite bool_decide_true|].
  apply not_elem_of_cons in Hc as [Hb Hl]. rewrite bool_decide_false by done. by rewrite IH.
Qed.

Lemma split_on_last c l : c ∉ l → split_on c l = [l].
Proof.
  induction l as [|b l IH]; intros Hc; simpl; [done|].
  apply not_elem_of_cons in Hc as [Hb Hl]. rewrite bool_decide_false by done. by rewrite IH.
Qed.

(** Pieces without the separator come back when they are joined and split. *)
Lemma split_on_join c ls :
  ls ≠ [] → Forall (λ l, c ∉ l) ls → split_on c (join_with [c] ls) = ls.
Proof.
  intros Hne Hl. induction Hl as [|l ls Hc Hls IH]; [done|]. destruct ls as [|l' ls].
  - by apply split_on_last.
  - change (join_with [c] (l :: l' :: ls)) with (l ++ c :: join_with [c] (l' :: ls)).
    rewrite split_on_piece by done. by rewrite IH.
Qed.

Lemma split_once_found c l rest : c ∉ l → split_once c (l ++ c :: rest) = Some (l, rest).
Proof.
  induction l as [|b l IH]; intros Hc; simpl; [by rewrite bool_decide_true|].
  apply not_elem_of_cons in Hc as [Hb Hl]. rewrite bool_decide_false by done. by rewrite IH.
Qed.

Lemma split_once_absent c l : c ∉ l → split_once c l = None.
Proof.
  induction l as [|b l IH]; intros Hc; simpl; [done|].
  apply not_elem_of_cons in Hc as [Hb Hl]. rewrite bool_decide_false by done. by rewrite IH.
Qed.

(** A text without a character. *)
Definition lacks (c : byte) (l : bytes) : bool := forallb (λ b, negb (bool_decide (b = c))) l.

Lemma lacks_spec c l : lacks c l = true → c ∉ l.
Proof.
  unfold lacks. rewrite forallb_forall. intros Hl Hc%list_elem_of_In. specialize (Hl c Hc). simpl in Hl.
  by rewrite bool_decide_true in Hl.
Qed.

(** ** Trimming

    [str::trim] removes the characters with the property White_Space at both ends; in
    UTF-8 they take one, two or three bytes. *)
Definition white (b : byte) : bool := between 9 13 b || bool_decide (b = x20).
Definition white2 (b c : byte) : bool := bool_decide (b = xc2) && (bool_decide (c = x85) || bool_decide (c = xa0)).
Definition white3 (b c d : byte) : bool :=
  bool_decide ([b; c; d] ∈ [[xe1; x9a; x80]; [xe2; x80; xa8]; [xe2; x80; xa9]; [xe2; x80; xaf];
                            [xe2; x81; x9f]; [xe3; x80; x80]]) ||
  (bool_decide (b = xe2) && bool_decide (c = x80) && between 128 138 d).

Fixpoint trim_start (l : bytes) : bytes :=
  match l with
  | [] => []
  | b :: l1 =>
      if white b then trim_start l1
      else match l1 with
      | [] => l
      | c :: l2 =>
          if white2 b c then trim_start l2
          else match l2 with
          | [] => l
          | d :: l3 => if white3 b c d then trim_start l3 else l
          end
      end
  end.

(** The same from the end: on the reversed bytes. *)
Fixpoint trim_reversed (l : bytes) : bytes :=
  match l with
  | [] => []
  | b :: l1 =>
      if white b then trim_reversed l1
      else match l1 with
      | [] => l
      | c :: l2 =>
          if white2 c b then trim_reversed l2
          else match l2 with
          | [] => l
          | d :: l3 => if white3 d c b then trim_reversed l3 else l
          end
      end
  end.
Definition trim_end (l : bytes) : bytes := reverse (trim_reversed (reverse l)).
Definition trim (l : bytes) : bytes := trim_end (trim_start l).

(** A visible ASCII character, which trimming stops at. *)
Definition visible (b : byte) : bool := between 33 126 b.

Lemma visible_not_white b c d :
  visible b = true → white b = false ∧ white2 b c = false ∧ white3 b c d = false ∧
                     white2 c b = false ∧ white3 d c b = false.
Proof.
  intros Hb. unfold white3. repeat split; [by destruct b|by destruct b| | |].
  - destruct b; try done; by rewrite bool_decide_false by (repeat (apply not_elem_of_cons; split); try done; apply not_elem_of_nil).
  - unfold white2. destruct b; try done; simpl; by rewrite andb_false_r.
  - rewrite (bool_decide_false (_ ∈ _)).
    + destruct b; try done; simpl; by rewrite andb_false_r.
    + repeat (apply not_elem_of_cons; split); try (intros [= -> -> ->]; done). apply not_elem_of_nil.
Qed.

Lemma trim_start_pad p l : Forall (λ b, white b = true) p → trim_start (p ++ l) = trim_start l.
Proof. induction 1 as [|b p Hb _ IH]; simpl; [done|]. by rewrite Hb. Qed.
Lemma trim_reversed_pad p l : Forall (λ b, white b = true) p → trim_reversed (p ++ l) = trim_reversed l.
Proof. induction 1 as [|b p Hb _ IH]; simpl; [done|]. by rewrite Hb. Qed.

Lemma trim_start_visible b l : visible b = true → trim_start (b :: l) = b :: l.
Proof.
  intros Hb. destruct l as [|c [|d l]]; simpl.
  - by rewrite (proj1 (visible_not_white b x00 x00 Hb)).
  - destruct (visible_not_white b c x00 Hb) as (-> & -> & _). done.
  - destruct (visible_not_white b c d Hb) as (-> & -> & -> & _). done.
Qed.
Lemma trim_reversed_visible b l : visible b = true → trim_reversed (b :: l) = b :: l.
Proof.
  intros Hb. destruct l as [|c [|d l]]; simpl.
  - by rewrite (proj1 (visible_not_white b x00 x00 Hb)).
  - destruct (visible_not_white b c x00 Hb) as (-> & _ & _ & -> & _). done.
  - destruct (visible_not_white b c d Hb) as (-> & _ & _ & -> & ->). done.
Qed.

(** Visible characters at the ends. *)
Definition trimmed (l : bytes) : Prop :=
  (∃ b, head l = Some b ∧ visible b = true) ∧ (∃ b, last l = Some b ∧ visible b = true).

(** Spaces around a text do not matter. *)
Lemma trim_pad p l q :
  Forall (λ b, white b = true) p → Forall (λ b, white b = true) q → trimmed l → trim (p ++ l ++ q) = l.
Proof.
  intros Hp Hq [(b & Hh & Hb) (c & Hl & Hc)]. unfold trim, trim_end. rewrite trim_start_pad by done.
  destruct l as [|b' l]; [done|]. injection Hh as ->. rewrite <-app_comm_cons, trim_start_visible by done.
  rewrite app_comm_cons, reverse_app, trim_reversed_pad by (by apply Forall_reverse).
  apply last_Some in Hl as [l' ->]. by rewrite reverse_snoc, trim_reversed_visible, <-reverse_snoc, reverse_involutive.
Qed.

(** ** Numbers *)

Definition digit (n : Z) : byte := byte_of_Z (48 + n).

Fixpoint digits (fuel : nat) (n : Z) (acc : bytes) : bytes :=
  match fuel with
  | O => acc
  | S fuel =>
      let acc := digit (n mod 10) :: acc in
      if bool_decide (n < 10) then acc else digits fuel (n / 10) acc
  end.

(** The decimal representation of a number (up to a [u64], twenty digits). *)
Definition decimal (n : Z) : bytes := digits 20 n [].

Definition hex_digit (n : Z) : byte := byte_of_Z (if bool_decide (n < 10) then 48 + n else 87 + n).

(** The hexadecimal representation of a [u16], without leading zeros. *)
Fixpoint hex_digits (fuel : nat) (n : Z) (acc : bytes) : bytes :=
  match fuel with
  | O => acc
  | S fuel =>
      let acc := hex_digit (n mod 16) :: acc in
      if bool_decide (n < 16) then acc else hex_digits fuel (n / 16) acc
  end.
Definition hex16 (n : Z) : bytes := hex_digits 4 n [].

(** ** Addresses *)

(** [Display] of [Ipv4Addr] *)
Definition ipv4_text (ip : bytes) : bytes := join_with (str ".") (map (λ b, decimal (byte_to_Z b)) ip).

Fixpoint segments (ip : bytes) : list Z :=
  match ip with
  | a :: b :: ip => (byte_to_Z a * 256 + byte_to_Z b) :: segments ip
  | _ => []
  end.

(** The longest run of zeros, the first of them: its start and its length. *)
Fixpoint zero_run (i : nat) (l : list Z) (best current : nat * nat) : nat * nat :=
  match l with
  | [] => best
  | n :: l =>
      if bool_decide (n = 0) then
        let current := if bool_decide (current.2 = 0)%nat then (i, 1)%nat else (current.1, S current.2) in
        zero_run (S i) l (if bool_decide (best.2 < current.2)%nat then current else best) current
      else zero_run (S i) l best (0, 0)%nat
  end.

Definition segments_text (l : list Z) : bytes := join_with (str ":") (map hex16 l).

(** [Display] of [Ipv6Addr] *)
Definition ipv6_text (ip : bytes) : bytes :=
  if bool_decide (take 12 ip = replicate 10 x00 ++ [xff; xff])
  then str "::ffff:" ++ ipv4_text (drop 12 ip)
  else
    let l := segments ip in
    let '(start, len) := zero_run 0 l (0, 0)%nat (0, 0)%nat in
    if bool_decide (1 < len)%nat
    then segments_text (take start l) ++ str "::" ++ segments_text (drop (start + len) l)
    else segments_text l.

(** ** Reading numbers back *)

Definition digit_value (b : byte) : Z := byte_to_Z b - 48.
Definition is_digit (b : byte) : bool := between 48 57 b.
Definition read_decimal (l : bytes) : Z := foldl (λ n b, n * 10 + digit_value b) 0 l.

Lemma digit_value_digit n : 0 ≤ n < 10 → digit_value (digit n) = n.
Proof. intros. unfold digit_value, digit. rewrite byte_to_of_Z, Z.mod_small by lia. lia. Qed.

Lemma is_digit_digit n : 0 ≤ n < 10 → is_digit (digit n) = true.
Proof.
  intros. unfold is_digit, between, digit. rewrite byte_to_of_Z, Z.mod_small by lia.
  rewrite !bool_decide_true by lia. done.
Qed.

Lemma digits_read fuel n acc k :
  0 ≤ n < 10 ^ Z.of_nat fuel → (0 < fuel)%nat →
  foldl (λ n b, n * 10 + digit_value b) 0 (digits fuel n acc) = k ↔
  foldl (λ n b, n * 10 + digit_value b) n acc = k.
Proof.
  revert n acc. induction fuel as [|fuel IH]; intros n acc Hn Hf; [lia|]. cbn [digits].
  pose proof (Z.mod_pos_bound n 10 ltac:(lia)). rewrite Nat2Z.inj_succ, Z.pow_succ_r in Hn by lia.
  case_bool_decide.
  - cbn [foldl]. rewrite digit_value_digit, Z.mod_small by lia. done.
  - destruct fuel as [|fuel]; [change (10 ^ Z.of_nat 0) with 1 in Hn; lia|]. rewrite IH.
    + cbn [foldl]. rewrite digit_value_digit by lia. by rewrite <-(Z.mul_comm 10), <-Z_div_mod_eq_full.
    + split; [apply Z.div_pos; lia|apply Z.div_lt_upper_bound; lia].
    + lia.
Qed.

Lemma digits_all fuel n acc :
  0 ≤ n → Forall (λ b, is_digit b = true) acc → Forall (λ b, is_digit b = true) (digits fuel n acc).
Proof.
  revert n acc. induction fuel as [|fuel IH]; intros n acc Hn Ha; [done|]. cbn [digits].
  pose proof (Z.mod_pos_bound n 10 ltac:(lia)).
  assert (Forall (λ b, is_digit b = true) (digit (n mod 10) :: acc)) by (constructor; [by apply is_digit_digit|done]).
  case_bool_decide; [done|]. apply IH; [apply Z.div_pos; lia|done].
Qed.

Lemma digits_ne fuel n acc : acc ≠ [] ∨ (0 < fuel)%nat → digits fuel n acc ≠ [].
Proof.
  revert n acc. induction fuel as [|fuel IH]; intros n acc Hn; [naive_solver lia|]. cbn [digits].
  case_bool_decide; [done|]. apply IH. by left.
Qed.

Lemma read_decimal_decimal n : 0 ≤ n < 10 ^ 20 → read_decimal (decimal n) = n.
Proof. intros Hn. apply (digits_read 20 n []); [done|lia|done]. Qed.

Lemma decimal_digits n : 0 ≤ n → Forall (λ b, is_digit b = true) (decimal n).
Proof. intros Hn. by apply digits_all. Qed.

Lemma decimal_ne n : decimal n ≠ [].
Proof. apply digits_ne. right. lia. Qed.

Lemma digits_without c n : is_digit c = false → 0 ≤ n → c ∉ decimal n.
Proof.
  intros Hc Hn Hin. pose proof (decimal_digits n Hn) as Hd. rewrite Forall_forall in Hd.
  specialize (Hd c Hin). simpl in Hd. congruence.
Qed.
