(* ===== verification/Ipv6.v ===== *)
(** * IPv6 addresses as text

    [Display] of [Ipv6Addr] (Text.v) leaves out the longest run of zero segments and writes
    mapped IPv4 addresses with dots.  Here is the reader that inverts it: two addresses
    never have the same text.  [MultiaddrLib] relies on such a reader, and the concrete
    instance of it in Identify.v uses this one. *)

From S2P Require Import Prelude.
From S2P Require Import Text.

Definition colon : byte := x3a.
Definition dot : byte := x2e.

(** ** Hexadecimal segments *)

Definition hex_value (b : byte) : Z :=
  if bool_decide (byte_to_Z b < 58) then byte_to_Z b - 48 else byte_to_Z b - 87.
Definition read_hex (l : bytes) : Z := foldl (λ n b, n * 16 + hex_value b) 0 l.
(** The characters of a segment. *)
Definition is_hex (b : byte) : bool := between 48 57 b || between 97 102 b.

Lemma hex_digit_spec n : 0 ≤ n < 16 → hex_value (hex_digit n) = n ∧ is_hex (hex_digit n) = true.
Proof.
  intros Hn. unfold hex_value, is_hex, between, hex_digit.
  destruct (decide (n < 10)); [rewrite (bool_decide_true (n < 10)) by done
    |rewrite (bool_decide_false (n < 10)) by done]; rewrite byte_to_of_Z, Z.mod_small by lia;
    repeat case_bool_decide; simpl; split; try done; lia.
Qed.

Lemma hex_digits_read fuel n acc :
  0 ≤ n < 16 ^ Z.of_nat fuel → (0 < fuel)%nat →
  foldl (λ n b, n * 16 + hex_value b) 0 (hex_digits fuel n acc) =
  foldl (λ n b, n * 16 + hex_value b) n acc.
Proof.
  revert n acc. induction fuel as [|fuel IH]; intros n acc Hn Hf; [lia|]. cbn [hex_digits].
  assert (0 ≤ n mod 16 < 16) as Hm by (apply Z.mod_pos_bound; lia).
  rewrite Nat2Z.inj_succ, Z.pow_succ_r in Hn by lia. case_bool_decide.
  - cbn [foldl]. by rewrite (proj1 (hex_digit_spec _ Hm)), Z.mod_small by lia.
  - destruct fuel as [|fuel]; [change (16 ^ Z.of_nat 0) with 1 in Hn; lia|]. rewrite IH.
    + cbn [foldl]. rewrite (proj1 (hex_digit_spec _ Hm)). by rewrite <-(Z.mul_comm 16), <-Z_div_mod_eq_full.
    + split; [apply Z.div_pos; lia|apply Z.div_lt_upper_bound; lia].
    + lia.
Qed.

Lemma hex_digits_all fuel n acc :
  0 ≤ n → Forall (λ b, is_hex b = true) acc → Forall (λ b, is_hex b = true) (hex_digits fuel n acc).
Proof.
  revert n acc. induction fuel as [|fuel IH]; intros n acc Hn Ha; [done|]. cbn [hex_digits].
  assert (0 ≤ n mod 16 < 16) as Hm by (apply Z.mod_pos_bound; lia).
  assert (Forall (λ b, is_hex b = true) (hex_digit (n mod 16) :: acc))
    by (constructor; [by apply hex_digit_spec|done]).
  case_bool_decide; [done|]. apply IH; [apply Z.div_pos; lia|done].
Qed.

Lemma hex_digits_ne fuel n acc : acc ≠ [] ∨ (0 < fuel)%nat → hex_digits fuel n acc ≠ [].
Proof.
  revert n acc. induction fuel as [|fuel IH]; intros n acc Hn; [naive_solver lia|]. cbn [hex_digits].
  case_bool_decide; [done|]. apply IH. by left.
Qed.

Definition is_segment (n : Z) : Prop := 0 ≤ n < 16 ^ 4.

Lemma read_hex16 n : is_segment n → read_hex (hex16 n) = n.
Proof. intros Hn. unfold read_hex, hex16. rewrite hex_digits_read; [done|done|lia]. Qed.

Lemma hex16_ne n : hex16 n ≠ [].
Proof. apply hex_digits_ne. right. lia. Qed.

Lemma hex16_without c n : is_hex c = false → 0 ≤ n → c ∉ hex16 n.
Proof.
  intros Hc Hn Hin. pose proof (hex_digits_all 4 n [] Hn ltac:(constructor)) as Ha. rewrite Forall_forall in Ha.
  specialize (Ha c Hin). congruence.
Qed.

(** ** Segments *)

Fixpoint unsegments (l : list Z) : bytes :=
  match l with
  | [] => []
  | n :: l => byte_of_Z (n / 256) :: byte_of_Z (n mod 256) :: unsegments l
  end.

Lemma segments_spec n ip :
  length ip = (2 * n)%nat →
  unsegments (segments ip) = ip ∧ length (segments ip) = n ∧ Forall is_segment (segments ip).
Proof.
  revert ip. induction n as [|n IH]; intros ip Hl; [by destruct ip|].
  destruct ip as [|a [|b ip]]; simpl in Hl; [lia..|]. destruct (IH ip) as (Hu & Hn & Hs); [lia|].
  pose proof (byte_to_Z_bound a). pose proof (byte_to_Z_bound b). cbn [segments unsegments].
  split_and!; [|simpl; lia|constructor; [unfold is_segment; lia|done]].
  rewrite Z.div_add_l, (Z.div_small (byte_to_Z b)), Z.add_0_r by lia.
  rewrite Z.add_comm, Z_mod_plus_full, Z.mod_small by lia. by rewrite !byte_of_to_Z, Hu.
Qed.

(** The run of zeros that is left out. *)
Definition zeros_at (l : list Z) (p : nat * nat) : Prop :=
  (p.1 + p.2 ≤ length l)%nat ∧ take p.2 (drop p.1 l) = replicate p.2 0.

Lemma zero_run_spec pre l best current :
  zeros_at pre best → (current.2 = 0%nat ∨ (current.1 + current.2 = length pre)%nat ∧ zeros_at pre current) →
  zeros_at (pre ++ l) (zero_run (length pre) l best current).
Proof.
  assert (∀ pre n p, zeros_at pre p → zeros_at (pre ++ [n]) p) as Hsnoc.
  { intros q n p [Hle Hz]. split; [rewrite length_app; simpl; lia|].
    rewrite drop_app_le by lia. rewrite take_app_le by (rewrite length_drop; lia). done. }
  revert pre best current. induction l as [|n l IH]; intros pre best current Hb Hc; cbn [zero_run].
  { by rewrite app_nil_r. }
  replace (S (length pre)) with (length (pre ++ [n])) by (rewrite length_app; simpl; lia).
  replace (pre ++ n :: l) with ((pre ++ [n]) ++ l) by by rewrite <-app_assoc.
  case_bool_decide as Hn; [subst n|apply IH; [by apply Hsnoc|by left]].
  set (next := if bool_decide (current.2 = 0%nat) then (length pre, 1%nat) else (current.1, S current.2)).
  assert ((next.1 + next.2)%nat = length (pre ++ [0]) ∧ zeros_at (pre ++ [0]) next) as [Hl Hz].
  { unfold next. rewrite length_app. case_bool_decide; simpl.
    - split; [lia|]. split; simpl; [rewrite length_app; simpl; lia|]. by rewrite drop_app_length.
    - destruct Hc as [?|[Hl [Hle Hz]]]; [done|]. split; [lia|]. split; simpl; [rewrite length_app; simpl; lia|].
      rewrite drop_app_le by lia. rewrite replicate_cons_app, <-Hz. rewrite take_ge by (rewrite length_app, length_drop; simpl; lia).
      by rewrite take_ge by (rewrite length_drop; lia). }
  apply IH; [|by right]. by case_bool_decide; [|apply Hsnoc].
Qed.

Lemma longest_zeros l start len :
  zero_run 0 l (0, 0)%nat (0, 0)%nat = (start, len) →
  l = take start l ++ replicate len 0 ++ drop (start + len) l ∧ (start + len ≤ length l)%nat.
Proof.
  intros E. destruct (zero_run_spec [] l (0, 0)%nat (0, 0)%nat) as [Hle Hz]; [by split|by left|].
  change (length (@nil Z)) with 0%nat in *. rewrite app_nil_l in *. rewrite E in Hle, Hz. simpl in *.
  split; [|done]. rewrite <-Hz, <-drop_drop, take_drop, take_drop. done.
Qed.

(** ** The reader *)

Definition blank (l : bytes) : bool := match l with [] => true | _ => false end.

(** The parts before the first empty one, and the others that are not empty. *)
Fixpoint before_gap (ls : list bytes) : list bytes * list bytes :=
  match ls with
  | [] => ([], [])
  | l :: ls =>
      if blank l then ([], filter (λ l, blank l = false) ls)
      else let '(b, a) := before_gap ls in (l :: b, a)
  end.

Definition read_segments (t : bytes) : list Z :=
  let '(b, a) := before_gap (split_on colon t) in
  let b := map read_hex b in
  let a := map read_hex a in
  b ++ replicate (8 - length b - length a) 0 ++ a.

Definition read_ipv4 (t : bytes) : bytes := map (λ d, byte_of_Z (read_decimal d)) (split_on dot t).

Definition read_ipv6 (t : bytes) : bytes :=
  if lacks dot t then unsegments (read_segments t)
  else replicate 10 x00 ++ [xff; xff] ++ read_ipv4 (drop 7 t).

(** ** Reading back *)

Definition pieces (l : list Z) : list bytes := map hex16 l.
(** What [split] makes of the text of segments: one empty piece when there are none. *)
Definition split_pieces (l : list Z) : list bytes := match l with [] => [[]] | _ => pieces l end.

Lemma pieces_free c l : is_hex c = false → Forall is_segment l → Forall (λ p, c ∉ p) (pieces l).
Proof. intros Hc Hl. apply Forall_map. eapply Forall_impl; [exact Hl|]. intros n [??]. by apply hex16_without. Qed.

Lemma split_segments l : Forall is_segment l → split_on colon (segments_text l) = split_pieces l.
Proof.
  intros Hl. destruct l as [|n l]; [done|]. apply (split_on_join colon (pieces (n :: l))); [done|].
  by apply pieces_free.
Qed.

Lemma split_segments_more l rest :
  Forall is_segment l → split_on colon (segments_text l ++ colon :: rest) = split_pieces l ++ split_on colon rest.
Proof.
  destruct l as [|n l]; [by intros _|]. intros Hl. unfold segments_text. fold (pieces (n :: l)).
  change (split_pieces (n :: l)) with (pieces (n :: l)).
  assert (pieces (n :: l) ≠ []) as Hne by done. revert Hne. pose proof (pieces_free colon _ eq_refl Hl) as Hf. revert Hf.
  generalize (pieces (n :: l)). clear Hl l n. intros ls Hf. induction Hf as [|p ls Hp Hf IH]; [done|]. intros _.
  destruct ls as [|p' ls]; [by apply split_on_piece|].
  change (join_with (str ":") (p :: p' :: ls)) with (p ++ colon :: join_with (str ":") (p' :: ls)).
  rewrite <-app_assoc, <-app_comm_cons, split_on_piece by done. by rewrite IH.
Qed.

Lemma pieces_full l : Forall (λ p, blank p = false) (pieces l).
Proof. apply Forall_map, Forall_true. intros n. pose proof (hex16_ne n). by destruct (hex16 n). Qed.

Lemma before_gap_full ls : Forall (λ p, blank p = false) ls → before_gap ls = (ls, []).
Proof. induction 1 as [|p ls Hp _ IH]; [done|]. cbn [before_gap]. by rewrite Hp, IH. Qed.

Lemma before_gap_more ls rest :
  Forall (λ p, blank p = false) ls → before_gap (ls ++ [] :: rest) = (ls, filter (λ l, blank l = false) rest).
Proof. induction 1 as [|p ls Hp _ IH]; [done|]. cbn [before_gap app]. by rewrite Hp, IH. Qed.

Lemma filter_pieces l : filter (λ l, blank l = false) (split_pieces l) = pieces l.
Proof.
  destruct l as [|n l]; [done|]. change (split_pieces (n :: l)) with (pieces (n :: l)).
  generalize (pieces_full (n :: l)). generalize (pieces (n :: l)).
  induction 1 as [|p ls Hp _ IH]; [done|]. rewrite filter_cons, decide_True by done. by rewrite IH.
Qed.

Lemma read_pieces l : Forall is_segment l → map read_hex (pieces l) = l.
Proof.
  induction 1 as [|n l Hn _ IH]; [done|]. simpl. by rewrite read_hex16, IH.
Qed.

(** Segments before and after the run of zeros. *)
Lemma read_gap b a :
  Forall is_segment b → Forall is_segment a →
  read_segments (segments_text b ++ str "::" ++ segments_text a) =
  b ++ replicate (8 - length b - length a) 0 ++ a.
Proof.
  intros Hb Ha. unfold read_segments.
  change (str "::" ++ segments_text a) with (colon :: [] ++ colon :: segments_text a).
  rewrite split_segments_more by done. rewrite split_on_piece by apply not_elem_of_nil.
  rewrite split_segments by done.
  assert (before_gap (split_pieces b ++ [] :: split_pieces a) = (pieces b, pieces a)) as ->.
  { destruct b as [|n b]; [cbn [split_pieces app before_gap blank]; by rewrite filter_cons, decide_False, filter_pieces by done|].
    change (split_pieces (n :: b)) with (pieces (n :: b)). by rewrite before_gap_more, filter_pieces by apply pieces_full. }
  by rewrite !read_pieces.
Qed.

Lemma read_plain l : length l = 8%nat → Forall is_segment l → read_segments (segments_text l) = l.
Proof.
  intros Hn Hl. unfold read_segments. rewrite split_segments by done.
  destruct l as [|n l]; [done|]. change (split_pieces (n :: l)) with (pieces (n :: l)).
  rewrite before_gap_full by apply pieces_full. rewrite read_pieces by done. cbn [map]. rewrite Hn. apply app_nil_r.
Qed.

Lemma join_with_without c sep ls :
  c ∉ sep → Forall (λ l, c ∉ l) ls → c ∉ join_with sep ls.
Proof.
  intros Hs Hl. induction Hl as [|l [|l' ls] Hc _ IH]; [set_solver|done|].
  change (join_with sep (l :: l' :: ls)) with (l ++ sep ++ join_with sep (l' :: ls)). set_solver.
Qed.

Lemma octet_without c b : is_digit c = false → c ∉ decimal (byte_to_Z b).
Proof. intros Hc. apply digits_without; [done|]. pose proof (byte_to_Z_bound b). lia. Qed.

Lemma read_ipv4_text ip : ip ≠ [] → read_ipv4 (ipv4_text ip) = ip.
Proof.
  intros Hne. unfold read_ipv4.
  change (ipv4_text ip) with (join_with [dot] (map (λ b, decimal (byte_to_Z b)) ip)). rewrite split_on_join.
  - rewrite map_map. transitivity (map id ip); [|apply map_id]. apply map_ext. intros b.
    pose proof (byte_to_Z_bound b). rewrite read_decimal_decimal by lia. apply byte_of_to_Z.
  - by destruct ip.
  - apply Forall_map, Forall_true. intros b. by apply octet_without.
Qed.

Lemma lacks_true c l : c ∉ l → lacks c l = true.
Proof.
  intros Hc. unfold lacks. apply forallb_forall. intros b Hb%list_elem_of_In.
  rewrite bool_decide_false; [done|]. by intros ->.
Qed.

Lemma segments_text_without c l :
  c ∉ str ":" → is_hex c = false → Forall is_segment l → c ∉ segments_text l.
Proof. intros Hc Hx Hl. apply join_with_without; [done|]. by apply (pieces_free c l). Qed.

Lemma ipv4_text_without c ip : c ∉ str "." → is_digit c = false → c ∉ ipv4_text ip.
Proof.
  intros Hc Hd. apply join_with_without; [done|]. apply Forall_map, Forall_true. intros b. by apply octet_without.
Qed.

(** The text of an IPv6 address, apart from mapped IPv4 addresses. *)
Definition gap_text (l : list Z) : bytes :=
  let '(start, len) := zero_run 0 l (0, 0)%nat (0, 0)%nat in
  if bool_decide (1 < len)%nat
  then segments_text (take start l) ++ str "::" ++ segments_text (drop (start + len) l)
  else segments_text l.

Lemma gap_text_spec l c :
  length l = 8%nat → Forall is_segment l →
  read_segments (gap_text l) = l ∧ (c ∉ str ":" → is_hex c = false → c ∉ gap_text l).
Proof.
  intros Hn Hl. unfold gap_text. destruct (zero_run _ _ _ _) as [start len] eqn:E.
  apply longest_zeros in E as [E Hle]. case_bool_decide; [|split; [by apply read_plain|]].
  - pose proof (Forall_take _ start l Hl) as Ht. pose proof (Forall_drop _ (start + len) l Hl) as Hd. split.
    + rewrite read_gap by done. rewrite length_take, length_drop.
      replace (8 - start `min` length l - (length l - (start + len)))%nat with len by lia. by rewrite <-E.
    + intros Hc Hx. pose proof (segments_text_without c _ Hc Hx Ht). pose proof (segments_text_without c _ Hc Hx Hd).
      change (str "::") with (str ":" ++ str ":"). by rewrite !not_elem_of_app.
  - intros Hc Hx. by apply segments_text_without.
Qed.

(** The reader inverts [Display]. *)
Lemma read_ipv6_text ip : length ip = 16%nat → read_ipv6 (ipv6_text ip) = ip.
Proof.
  intros Hip. unfold ipv6_text, read_ipv6. case_bool_decide as Hm.
  - assert (lacks dot (str "::ffff:" ++ ipv4_text (drop 12 ip)) = false) as ->.
    { assert (length (drop 12 ip) = 4%nat) as Hl by (rewrite length_drop; lia).
      destruct (drop 12 ip) as [|a [|b r]]; [done..|].
      change (ipv4_text (a :: b :: r)) with (decimal (byte_to_Z a) ++ dot :: ipv4_text (b :: r)).
      destruct (lacks dot _) eqn:El; [|done]. apply lacks_spec in El. destruct El. rewrite !elem_of_app. right. right. left. }
    change (drop 7 (str "::ffff:" ++ ipv4_text (drop 12 ip))) with (ipv4_text (drop 12 ip)).
    rewrite read_ipv4_text; [by rewrite app_assoc, <-Hm, take_drop|].
    intros E. apply (f_equal length) in E. rewrite length_drop in E. simpl in E. lia.
  - fold (gap_text (segments ip)). destruct (segments_spec 8 ip Hip) as (Hu & Hn & Hs).
    destruct (gap_text_spec (segments ip) dot Hn Hs) as [Hr Hd].
    rewrite lacks_true by (apply Hd; [by apply lacks_spec|done]). by rewrite Hr.
Qed.

Lemma ipv6_text_without c ip :
  length ip = 16%nat → c ∉ str ":." → is_hex c = false → is_digit c = false → c ∉ ipv6_text ip.
Proof.
  intros Hip Hc Hx Hd. change (str ":.") with (str ":" ++ str ".") in Hc. apply not_elem_of_app in Hc as [Hc Hc'].
  unfold ipv6_text. case_bool_decide.
  - pose proof (ipv4_text_without c (drop 12 ip) Hc' Hd).
    rewrite not_elem_of_app. split; [|done]. change (str "::ffff:") with (str ":" ++ str ":" ++ replicate 4 x66 ++ str ":").
    rewrite !not_elem_of_app. split_and!; try done. intros Hin%elem_of_replicate. destruct Hin as [-> _]. by vm_compute in Hx.
  - fold (gap_text (segments ip)). destruct (segments_spec 8 ip Hip) as (_ & Hn & Hs).
    by apply gap_text_spec.
Qed.
