(* ===== verification/Multistream.v ===== *)
(** * Protocol negotiation

    Models erp-runtime/src/network/transport/multistream.rs: both ends of a connection
    or substream agree on a protocol by exchanging lines, each in a frame of its own
    and ended by a newline.  A Rust string is its bytes, which are valid UTF-8. *)

From S2P Require Import Prelude.
From S2P Require Import Text.
From S2P Require Import Crypto.
From S2P Require Import Messages.
From S2P Require Import Errors.
From S2P Require Import Framing.
From S2P Require Import Duplex.

Definition ends_with_newline (line : bytes) : bool := bool_decide (last line = Some newline).

Section multistream.
Context `{UnsignedVarint}.

Definition MULTISTREAM_V1 : bytes := str "/multistream/1.0.0".
Definition MULTISTREAM_NOT_AVAILABLE : bytes := str "na".
Definition MAX_PROTOCOL_FRAME_LEN : Z := 16 * 1024.

Definition write_protocol (protocol : bytes) : IO unit :=
  let line := if negb (ends_with_newline protocol) then protocol ++ [newline] else protocol in
  if bool_decide (MAX_PROTOCOL_FRAME_LEN < Z.of_nat (length line))
  then M_fail (Erp.NetworkError
         (mk_io_error InvalidData "multistream protocol line exceeds maximum frame length"))
  else
    let* frame := lift (erp_encode_length_prefixed line MAX_PROTOCOL_FRAME_LEN) in
    let* _ := write_all frame in
    flush.

Definition read_protocol (max_len : Z) : IO bytes :=
  let frame_limit := Z.min max_len MAX_PROTOCOL_FRAME_LEN in
  let* frame := io_read_frame frame_limit in
  let* r := lift (erp_decode_length_prefix frame frame_limit) in
  let line := r.2 in
  if negb (ends_with_newline line)
  then M_fail (Erp.NetworkError
         (mk_io_error InvalidData "multistream protocol line is not newline terminated"))
  else
    let line := removelast line in
    if utf8_valid line then M_ret line
    else M_fail (Erp.NetworkError
           (mk_io_error InvalidData "multistream protocol line is not valid UTF-8")).

Definition dialer_select (protocol : bytes) : IO unit :=
  let* _ := write_protocol MULTISTREAM_V1 in
  let* remote_header := read_protocol MAX_PROTOCOL_FRAME_LEN in
  if bool_decide (remote_header ≠ MULTISTREAM_V1)
  then M_fail (Erp.Config "remote did not acknowledge multistream v1")
  else
    let* _ := write_protocol protocol in
    let* selected := read_protocol MAX_PROTOCOL_FRAME_LEN in
    if bool_decide (selected = protocol) then M_ret tt
    else if bool_decide (selected = MULTISTREAM_NOT_AVAILABLE)
    then M_fail (Erp.Config "remote rejected requested protocol")
    else M_fail (Erp.Config "remote acknowledged an unexpected protocol").

Definition listener_select_optional (supported : list bytes) : IO (option bytes) :=
  let* remote_header := read_protocol MAX_PROTOCOL_FRAME_LEN in
  if bool_decide (remote_header ≠ MULTISTREAM_V1)
  then M_fail (Erp.Config "remote did not initiate multistream v1 negotiation")
  else
    let* _ := write_protocol MULTISTREAM_V1 in
    let* requested := read_protocol MAX_PROTOCOL_FRAME_LEN in
    if bool_decide (requested ∈ supported)
    then
      let* _ := write_protocol requested in
      M_ret (Some requested)
    else
      let* _ := write_protocol MULTISTREAM_NOT_AVAILABLE in
      M_ret None.

Definition listener_select (supported : list bytes) : IO bytes :=
  let* r := listener_select_optional supported in
  match r with
  | Some protocol => M_ret protocol
  | None => M_fail (Erp.Config "requested protocol is not supported by the listener")
  end.

(** ** Lines *)

(** A protocol name that can be sent: valid UTF-8, no newline at the end, and room for
    one within the frame limit. *)
Definition sendable (p : bytes) : Prop :=
  utf8_valid p = true ∧ last p ≠ Some newline ∧ Z.of_nat (length p) < MAX_PROTOCOL_FRAME_LEN.

(** The frame of a line. *)
Definition line_frame (p : bytes) : bytes :=
  varint_encode (Z.of_nat (S (length p))) ++ p ++ [newline].

Context `{!VarintLaws}.

Lemma limit_u32 : MAX_PROTOCOL_FRAME_LEN < 2 ^ 32.
Proof. done. Qed.

Lemma line_frame_encode p :
  sendable p → encode_length_prefixed (p ++ [newline]) MAX_PROTOCOL_FRAME_LEN = Ok (line_frame p).
Proof.
  intros (_ & _ & Hl). apply encode_length_prefixed_Ok; [apply limit_u32|].
  unfold line_frame. rewrite length_app, Nat.add_1_r. simpl. split; [lia|done].
Qed.

(** Nothing is written but the frame of the line, and the stream is not read. *)
Lemma write_protocol_sendable p d :
  sendable p → writable d →
  ∃ d', write_protocol p d = (d', Ok tt) ∧ inbound d' = inbound d ∧
        outbound d' = outbound d ++ line_frame p ∧ writable d'.
Proof.
  intros Hs Hw. pose proof Hs as (_ & Hn & Hl). unfold write_protocol, ends_with_newline.
  rewrite (bool_decide_false _ Hn). cbn [negb].
  rewrite bool_decide_false by (rewrite length_app; simpl; lia).
  unfold M_bind, lift, erp_encode_length_prefixed. rewrite line_frame_encode by done. cbn [map_err].
  destruct (write_all_writable (line_frame p) d Hw) as (fs & -> & Hf).
  destruct (write_all_writable [] (mkDuplex (inbound d) (outbound d ++ line_frame p) fs) Hf) as (fs' & Hw' & Hf').
  unfold flush. rewrite Hw'. eexists. split_and!; [done..| |done]. simpl. by rewrite app_nil_r.
Qed.

Lemma write_protocol_inbound p d d' r : write_protocol p d = (d', r) → inbound d' = inbound d.
Proof.
  unfold write_protocol. case_bool_decide; [by intros [= <- _]|].
  intros [(e & He & _)|(d1 & f & Hf & Hr)]%M_bind_cases; [by injection He as <- _|]. injection Hf as <- _.
  apply M_bind_cases in Hr as [(e & He%write_all_inbound & _)|(d2 & [] & Hw%write_all_inbound & Hr%write_all_inbound)];
    [done|]. by rewrite Hr.
Qed.

Lemma read_protocol_line p rest e o fs :
  sendable p →
  read_protocol MAX_PROTOCOL_FRAME_LEN (mkDuplex (mkStream (line_frame p ++ rest) e) o fs) =
  (mkDuplex (mkStream rest e) o fs, Ok p).
Proof.
  intros Hs. pose proof Hs as (Hu & Hn & Hl). unfold read_protocol. rewrite Z.min_id.
  destruct (read_encoded_frame _ _ _ rest e limit_u32 (line_frame_encode p Hs)) as [Hr Hd].
  unfold M_bind, io_read_frame, reading, erp_read_length_prefixed_frame. simpl inbound. rewrite Hr. cbn [map_err].
  unfold lift, erp_decode_length_prefix. rewrite Hd. cbn [map_err snd].
  unfold ends_with_newline. rewrite last_snoc, bool_decide_true by done. cbn [negb].
  by rewrite removelast_last, Hu.
Qed.

(** What a line that was read looked like: a frame with the line and a newline. *)
Lemma read_protocol_Ok d d' p :
  read_protocol MAX_PROTOCOL_FRAME_LEN d = (d', Ok p) →
  utf8_valid p = true ∧ outbound d' = outbound d ∧
  ∃ header, is_varint header ∧ available (inbound d) = header ++ p ++ newline :: available (inbound d').
Proof.
  unfold read_protocol, io_read_frame. rewrite Z.min_id. intros Hr. io_inv.
  match goal with Hf : erp_read_length_prefixed_frame _ _ = Ok _ |- _ => rename Hf into Hframe end.
  match goal with Hd : erp_decode_length_prefix _ _ = Ok _ |- _ => rename Hd into Hdec end.
  unfold erp_read_length_prefixed_frame in Hframe. destruct (read_length_prefixed_frame _ _) as [[fr s]|] eqn:E;
    [|done]. injection Hframe as <- Hs.
  apply read_frame_facts in E as (Ha & _ & header & payload & -> & Hh & _ & Hd).
  unfold erp_decode_length_prefix in Hdec. rewrite Hd in Hdec. injection Hdec as <-. simpl in Hr.
  unfold ends_with_newline in Hr. case_bool_decide as Hlast; [|done]. simpl in Hr.
  destruct (utf8_valid (removelast payload)) eqn:Hu; [|done]. injection Hr as <- <-.
  split_and!; [done|done|]. exists header. split; [done|]. rewrite Ha, Hs, <-app_assoc. f_equal.
  apply last_Some in Hlast as [l ->]. rewrite removelast_last, <-app_assoc. done.
Qed.

(** ** Negotiation *)

Lemma sendable_header : sendable MULTISTREAM_V1.
Proof. by vm_compute. Qed.

Lemma sendable_na : sendable MULTISTREAM_NOT_AVAILABLE.
Proof. by vm_compute. Qed.

(** What each end writes. *)
Definition dialer_lines (p : bytes) : bytes := line_frame MULTISTREAM_V1 ++ line_frame p.
Definition listener_lines (p : bytes) (supported : list bytes) : bytes :=
  line_frame MULTISTREAM_V1 ++
  line_frame (if bool_decide (p ∈ supported) then p else MULTISTREAM_NOT_AVAILABLE).

Lemma read_protocol_next p rest d :
  sendable p → available (inbound d) = line_frame p ++ rest →
  read_protocol MAX_PROTOCOL_FRAME_LEN d =
  (mkDuplex (mkStream rest (at_end (inbound d))) (outbound d) (write_faults d), Ok p).
Proof.
  destruct d as [[a e] o fs]. simpl. intros Hs ->. by apply read_protocol_line.
Qed.

Lemma dialer_select_run p supported rest d :
  sendable p → p ≠ MULTISTREAM_NOT_AVAILABLE → writable d →
  available (inbound d) = listener_lines p supported ++ rest →
  ∃ d', dialer_select p d =
      (d', if bool_decide (p ∈ supported) then Ok tt else Err (Erp.Config "remote rejected requested protocol")) ∧
    available (inbound d') = rest ∧ outbound d' = outbound d ++ dialer_lines p ∧ writable d'.
Proof.
  intros Hp Hna Hw Ha. unfold listener_lines in Ha. rewrite <-app_assoc in Ha. unfold dialer_select, M_bind.
  destruct (write_protocol_sendable _ d sendable_header Hw) as (d1 & -> & Hi1 & Ho1 & Hw1).
  rewrite (read_protocol_next MULTISTREAM_V1 _ d1 sendable_header) by (by rewrite Hi1, Ha).
  rewrite bool_decide_false by tauto.
  match goal with |- context [write_protocol p ?x] => set (d2 := x) end.
  destruct (write_protocol_sendable p d2 Hp Hw1) as (d3 & -> & Hi3 & Ho3 & Hw3).
  set (answer := if bool_decide (p ∈ supported) then p else MULTISTREAM_NOT_AVAILABLE).
  assert (sendable answer) as Hans by (unfold answer; case_bool_decide; auto using sendable_na).
  rewrite (read_protocol_next answer rest d3 Hans) by (by rewrite Hi3).
  unfold answer, dialer_lines. case_bool_decide.
  - rewrite bool_decide_true by done. eexists. split_and!; [done..| |done]. simpl. rewrite Ho3. simpl. by rewrite Ho1, <-app_assoc.
  - rewrite (bool_decide_false (_ = p)), bool_decide_true by done.
    eexists. split_and!; [done..| |done]. simpl. rewrite Ho3. simpl. by rewrite Ho1, <-app_assoc.
Qed.

Lemma listener_select_run p supported rest d :
  sendable p → writable d → available (inbound d) = dialer_lines p ++ rest →
  ∃ d', listener_select_optional supported d =
      (d', Ok (if bool_decide (p ∈ supported) then Some p else None)) ∧
    available (inbound d') = rest ∧ outbound d' = outbound d ++ listener_lines p supported ∧ writable d'.
Proof.
  intros Hp Hw Ha. unfold dialer_lines in Ha. rewrite <-app_assoc in Ha. unfold listener_select_optional, M_bind.
  rewrite (read_protocol_next MULTISTREAM_V1 _ d sendable_header Ha), bool_decide_false by tauto.
  match goal with |- context [write_protocol MULTISTREAM_V1 ?x] => set (d1 := x) end.
  destruct (write_protocol_sendable _ d1 sendable_header Hw) as (d2 & -> & Hi2 & Ho2 & Hw2).
  rewrite (read_protocol_next p rest d2 Hp) by (by rewrite Hi2).
  unfold listener_lines. case_bool_decide.
  - match goal with |- context [write_protocol p ?x] => set (d3 := x) end.
    destruct (write_protocol_sendable p d3 Hp Hw2) as (d4 & -> & Hi4 & Ho4 & Hw4).
    exists d4. split_and!; [done|by rewrite Hi4| |done]. rewrite Ho4. simpl. by rewrite Ho2, <-app_assoc.
  - match goal with |- context [write_protocol MULTISTREAM_NOT_AVAILABLE ?x] => set (d3 := x) end.
    destruct (write_protocol_sendable _ d3 sendable_na Hw2) as (d4 & -> & Hi4 & Ho4 & Hw4).
    exists d4. split_and!; [done|by rewrite Hi4| |done]. rewrite Ho4. simpl. by rewrite Ho2, <-app_assoc.
Qed.

(** the two ends of a connection agree.  When a dialer asks for a protocol and a
    listener answers, each reads exactly the lines the other wrote, whatever bytes
    follow; the dialer goes on with the protocol exactly when the listener supports
    it and goes on with the same one, and otherwise learns that it was refused. *)
Theorem negotiation_agrees p supported dialer listener data1 data2 :
  sendable p → p ≠ MULTISTREAM_NOT_AVAILABLE → writable dialer → writable listener →
  available (inbound dialer) = listener_lines p supported ++ data1 →
  available (inbound listener) = dialer_lines p ++ data2 →
  ∃ dialer' listener',
    dialer_select p dialer =
      (dialer', if bool_decide (p ∈ supported) then Ok tt
                else Err (Erp.Config "remote rejected requested protocol")) ∧
    listener_select_optional supported listener =
      (listener', Ok (if bool_decide (p ∈ supported) then Some p else None)) ∧
    outbound dialer' = outbound dialer ++ dialer_lines p ∧
    outbound listener' = outbound listener ++ listener_lines p supported ∧
    available (inbound dialer') = data1 ∧ available (inbound listener') = data2.
Proof.
  intros Hp Hna Hwd Hwl Hd Hl.
  destruct (dialer_select_run p supported data1 dialer Hp Hna Hwd Hd) as (d' & Hrd & Had & Hod & _).
  destruct (listener_select_run p supported data2 listener Hp Hwl Hl) as (l' & Hrl & Hal & Hol & _).
  by exists d', l'.
Qed.

(** Whatever a peer sends, a listener only goes on with a protocol it supports, and a
    dialer only with the one it asked for and the peer repeated. *)
Lemma listener_select_supported supported d d' q :
  listener_select_optional supported d = (d', Ok (Some q)) → q ∈ supported.
Proof.
  unfold listener_select_optional. intros (d1 & h & _ & Hr)%M_bind_Ok. case_bool_decide; [done|].
  apply M_bind_Ok in Hr as (d2 & [] & _ & Hr). apply M_bind_Ok in Hr as (d3 & q' & _ & Hr).
  case_bool_decide; apply M_bind_Ok in Hr as (d4 & [] & _ & Hr); [|done]. by injection Hr as _ <-.
Qed.

Lemma listener_select_Ok supported d d' q : listener_select supported d = (d', Ok q) → q ∈ supported.
Proof.
  unfold listener_select. intros (d1 & r & Hr & Hq)%M_bind_Ok. destruct r as [q'|]; [|done].
  injection Hq as _ <-. by eapply listener_select_supported.
Qed.

Lemma dialer_select_acknowledged p d d' :
  dialer_select p d = (d', Ok tt) →
  ∃ h1 h2, is_varint h1 ∧ is_varint h2 ∧
    available (inbound d) =
      h1 ++ MULTISTREAM_V1 ++ newline :: h2 ++ p ++ newline :: available (inbound d').
Proof.
  unfold dialer_select. intros Hr.
  apply M_bind_Ok in Hr as (d1 & [] & Hw1 & Hr). apply M_bind_Ok in Hr as (d2 & h & Hr1 & Hr).
  case_bool_decide as Hh; [done|]. apply M_bind_Ok in Hr as (d3 & [] & Hw2 & Hr).
  apply M_bind_Ok in Hr as (d4 & sel & Hr2 & Hr). case_bool_decide; [|case_bool_decide; done]. subst sel.
  injection Hr as <-. apply write_protocol_inbound in Hw1, Hw2.
  apply read_protocol_Ok in Hr1 as (_ & _ & h1 & Hv1 & Ha1), Hr2 as (_ & _ & h2 & Hv2 & Ha2).
  exists h1, h2. split_and!; [done..|]. rewrite <-Hw1, Ha1. f_equal.
  assert (h = MULTISTREAM_V1) as -> by (destruct (decide (h = MULTISTREAM_V1)); tauto).
  by rewrite <-Hw2, Ha2.
Qed.
End multistream.

(** ** A concrete negotiation *)

Module MultistreamWitness.
Import Leb128.

Definition ask : bytes := str "/rust-proof/sync/1".
Definition offered : list bytes := [str "/ipfs/ping/1.0.0"; ask].

Lemma negotiation_agrees_witness :
  ∃ dialer' listener',
    dialer_select ask (mkDuplex (mkStream (listener_lines ask offered ++ [x01]) eof) [] []) = (dialer', Ok tt) ∧
    listener_select_optional offered (mkDuplex (mkStream (dialer_lines ask) eof) [] []) =
      (listener', Ok (Some ask)) ∧
    available (inbound dialer') = [x01].
Proof.
  destruct (negotiation_agrees ask offered (mkDuplex (mkStream (listener_lines ask offered ++ [x01]) eof) [] [])
    (mkDuplex (mkStream (dialer_lines ask) eof) [] []) [x01] []) as (d' & l' & Hd & Hl & _ & _ & Ha & _);
    [by vm_compute|done|constructor|constructor|done|by rewrite app_nil_r|].
  exists d', l'. by split_and!.
Defined.
End MultistreamWitness.
