(* ===== verification/TransportIdentity.v ===== *)
(** * Transport identities

    Models erp-runtime/src/network/transport_identity.rs and [HostTransportIdentity] of
    rp-runtime/src/network/manager.rs: the key a node authenticates its connections
    with.  The embedded runtime uses the key in the efuses when there is one, else a
    generated key it keeps in flash; the host keeps a generated key in a file.  The keys
    and their encodings are the crate [libp2p_identity], the class [Libp2p]. *)

From S2P Require Import Prelude.
From S2P Require Import Crypto.
From S2P Require Import Models.
From S2P Require Import Chain.
From S2P Require Import Messages.
From S2P Require Import Errors.
From S2P Require Import Framing.
From S2P Require Import Identity.

Inductive KeyType : Type := KtEd25519 | KtRsa | KtSecp256k1 | KtEcdsa.

Class Libp2p `{Crypto} : Type := {
  Keypair : Type;
  PublicKey : Type;
  keypair_public : Keypair → PublicKey;
  keypair_key_type : Keypair → KeyType;
  keypair_sign : Keypair → bytes → option bytes;
  keypair_to_protobuf : Keypair → option bytes;
  keypair_from_protobuf : bytes → option Keypair;
  public_encode_protobuf : PublicKey → bytes;
  public_decode_protobuf : bytes → option PublicKey;
  (** [to_peer_id().to_bytes()] *)
  public_peer_id : PublicKey → bytes;
  public_verify : PublicKey → bytes → bytes → bool;
  (** [ecdsa::PublicKey::try_from_bytes] followed by [PublicKey::from] *)
  ecdsa_from_bytes : bytes → option PublicKey;
  (** [p256::ecdsa::Signature::to_der] *)
  signature_to_der : Signature → bytes;
}.

Class Libp2pLaws `{Libp2p} : Prop := {
  keypair_from_to kp b : keypair_to_protobuf kp = Some b → keypair_from_protobuf b = Some kp;
  public_decode_encode pk : public_decode_protobuf (public_encode_protobuf pk) = Some pk;
  public_verify_sign kp m s : keypair_sign kp m = Some s → public_verify (keypair_public kp) m s = true;
  ecdsa_verify_der raw pk vk m s :
    ecdsa_from_bytes raw = Some pk → from_sec1_bytes raw = Some vk → verify vk m s = true →
    public_verify pk m (signature_to_der s) = true;
}.

Inductive TransportIdentityAlgorithm : Type := AlgEd25519 | AlgEcdsaP256.

#[global] Instance TransportIdentityAlgorithm_eq_dec : EqDecision TransportIdentityAlgorithm.
Proof. solve_decision. Defined.

Record TransportIdentityRecord : Type := mkTransportIdentityRecord {
  record_algorithm : TransportIdentityAlgorithm;
  private_key_protobuf : bytes;
}.

(** The cell of the flash storage that keeps the record; each operation may fail with
    an [EspError]. *)
Record NvsCell : Type := mkNvsCell {
  cell : option bytes;
  cell_faults : list (option Z);
}.

Section transport.
Context `{Libp2p, Psa, !Postcard TransportIdentityRecord}.

Inductive TransportIdentityBackend : Type :=
| SoftwareKey (keypair : Keypair)
| HardwareKey (identity : IdentityManager).

Record TransportIdentityManager : Type := mkTransportIdentityManager {
  ti_algorithm : TransportIdentityAlgorithm;
  peer_id_bytes : bytes;
  public_key_protobuf_bytes : bytes;
  backend : TransportIdentityBackend;
}.

Definition transport_sign (id : TransportIdentityManager) (message : bytes) : result bytes Erp.RuntimeError :=
  match backend id with
  | SoftwareKey keypair =>
      match keypair_sign keypair message with
      | Some s => Ok s
      | None => Err (Erp.ErrCrypto "failed to sign message with transport identity")
      end
  | HardwareKey identity =>
      let! raw_signature := map_err (λ _, Erp.ErrCrypto "failed to sign message with hardware transport identity")
                              (identity_sign identity message) in
      match signature_from_slice raw_signature with
      | Some signature => Ok (signature_to_der signature)
      | None => Err (Erp.ErrCrypto "hardware transport signature was not a valid P-256 signature")
      end
  end.

Definition algorithm_from_key_type (t : KeyType) : result TransportIdentityAlgorithm Erp.RuntimeError :=
  match t with
  | KtEcdsa => Ok AlgEcdsaP256
  | KtEd25519 => Ok AlgEd25519
  | _ => Err (Erp.Config "unsupported libp2p transport identity algorithm")
  end.

Definition from_keypair (keypair : Keypair) : result TransportIdentityManager Erp.RuntimeError :=
  let! algorithm := algorithm_from_key_type (keypair_key_type keypair) in
  let public_key := keypair_public keypair in
  Ok (mkTransportIdentityManager algorithm (public_peer_id public_key)
        (public_encode_protobuf public_key) (SoftwareKey keypair)).

Definition from_record (record : TransportIdentityRecord) : result TransportIdentityManager Erp.RuntimeError :=
  match keypair_from_protobuf (private_key_protobuf record) with
  | None => Err (Erp.ErrCrypto "failed to decode persisted transport identity keypair")
  | Some keypair =>
      let! algorithm := algorithm_from_key_type (keypair_key_type keypair) in
      if bool_decide (algorithm ≠ record_algorithm record)
      then Err (Erp.ErrCrypto "transport identity algorithm does not match persisted keypair")
      else from_keypair keypair
  end.

Definition from_hardware_identity (identity : IdentityManager) : result TransportIdentityManager Erp.RuntimeError :=
  match ecdsa_from_bytes (public_key identity) with
  | None => Err (Erp.ErrCrypto "failed to convert hardware public key into libp2p ECDSA identity")
  | Some public_key =>
      Ok (mkTransportIdentityManager AlgEcdsaP256 (public_peer_id public_key)
            (public_encode_protobuf public_key) (HardwareKey identity))
  end.

(** ** The flash storage *)

Abbreviation NM := (M NvsCell Erp.RuntimeError).

Definition nvs_try : NM unit := λ c,
  match cell_faults c with
  | [] => (c, Ok tt)
  | f :: fs => (mkNvsCell (cell c) fs, match f with Some code => Err (Erp.Esp code) | None => Ok tt end)
  end.
Definition nvs_get : NM (option bytes) := let* _ := nvs_try in λ c, (c, Ok (cell c)).
Definition nvs_set (b : bytes) : NM unit := let* _ := nvs_try in λ c, (mkNvsCell (Some b) (cell_faults c), Ok tt).

Definition load_record : NM (option TransportIdentityRecord) :=
  let* len := nvs_get in
  match len with
  | None => M_ret None
  | Some _ =>
      let* b := nvs_get in
      match b with
      | None => M_ret None
      | Some b =>
          match postcard_from_bytes b with
          | Some record => M_ret (Some record)
          | None => M_fail (Erp.ErrCrypto "invalid persisted transport identity record")
          end
      end
  end.

Definition store_record (record : TransportIdentityRecord) : NM unit :=
  match to_allocvec record with
  | None => M_fail (Erp.ErrCrypto "failed to serialize transport identity record")
  | Some b => nvs_set b
  end.

(** [generated] is the key that [Keypair::generate_ecdsa] would return. *)
Definition transport_load_or_create (generated : Keypair) : NM TransportIdentityManager :=
  match try_efuse with
  | Err e => M_fail e
  | Ok (Some identity) => λ c, (c, from_hardware_identity identity)
  | Ok None =>
      let* _ := nvs_try in
      let* record := load_record in
      match record with
      | Some record => λ c, (c, from_record record)
      | None =>
          match keypair_to_protobuf generated with
          | None => M_fail (Erp.ErrCrypto "failed to encode transport identity keypair")
          | Some encoded =>
              let record := mkTransportIdentityRecord AlgEcdsaP256 encoded in
              let* _ := store_record record in
              λ c, (c, from_record record)
          end
      end
  end.

(** ** The host *)

Record HostTransportIdentity : Type := mkHostTransportIdentity { host_peer_id_bytes : bytes }.

(** The file that keeps the key, and whether reading and writing it work. *)
Record KeyFile : Type := mkKeyFile {
  file_contents : option bytes;
  file_fault : option string;
}.

Definition host_transport_load_or_create (generated : Keypair) :
    M KeyFile Host.RuntimeError (HostTransportIdentity * Keypair) := λ f,
  let finish (f : KeyFile) (keypair : Keypair) :=
    (f, Ok (mkHostTransportIdentity (public_peer_id (keypair_public keypair)), keypair)) in
  match file_contents f with
  | Some b =>
      match file_fault f with
      | Some message => (f, Err (Host.io_other message))
      | None =>
          match keypair_from_protobuf b with
          | Some keypair => finish f keypair
          | None => (f, Err (Host.ErrCrypto "invalid persisted transport identity bytes"))
          end
      end
  | None =>
      match keypair_to_protobuf generated with
      | None => (f, Err (Host.ErrCrypto "failed to encode transport identity keypair"))
      | Some encoded =>
          match file_fault f with
          | Some message => (f, Err (Host.io_other message))
          | None => finish (mkKeyFile (Some encoded) None) generated
          end
      end
  end.

(** ** What a transport identity promises *)

(** It announces the key [pk], is named after it, and what it signs verifies under it. *)
Record transport_genuine (id : TransportIdentityManager) (pk : PublicKey) : Prop := {
  transport_key : public_key_protobuf_bytes id = public_encode_protobuf pk;
  transport_name : peer_id_bytes id = public_peer_id pk;
  transport_signs m s : transport_sign id m = Ok s → public_verify pk m s = true;
}.

Context `{!CryptoLaws, !Libp2pLaws, !PsaLaws, !PostcardRoundtrip TransportIdentityRecord}.

Lemma from_keypair_genuine kp id : from_keypair kp = Ok id → transport_genuine id (keypair_public kp).
Proof.
  unfold from_keypair. intros (alg & _ & [= <-])%try_Ok. split; [done..|]. intros m s. unfold transport_sign. simpl.
  destruct (keypair_sign kp m) as [s'|] eqn:E; [|done]. intros [= <-]. by apply public_verify_sign.
Qed.

Lemma from_record_genuine r id : from_record r = Ok id → ∃ pk, transport_genuine id pk.
Proof.
  unfold from_record. destruct (keypair_from_protobuf _) as [kp|]; [|done].
  intros (alg & _ & Hr)%try_Ok. case_bool_decide; [done|]. eexists. by apply from_keypair_genuine.
Qed.

Lemma from_hardware_genuine hw vk id :
  genuine hw vk → from_hardware_identity hw = Ok id → ∃ pk, transport_genuine id pk.
Proof.
  intros [Hk _ Hs]. unfold from_hardware_identity. destruct (ecdsa_from_bytes _) as [pk|] eqn:E; [|done].
  intros [= <-]. exists pk. split; [done..|]. intros m s. unfold transport_sign. simpl.
  intros (raw & Hraw & Hsig)%try_Ok. destruct (manager_sign hw m) as [raw'|] eqn:Hm; [|done].
  injection Hraw as <-. destruct (Hs m raw') as (s' & -> & Hv); [done|].
  rewrite signature_from_to_bytes in Hsig. injection Hsig as <-.
  eapply ecdsa_verify_der; [exact E| |exact Hv]. rewrite Hk. apply from_sec1_to_encoded_point.
Qed.

Lemma try_efuse_genuine hw : try_efuse = Ok (Some hw) → genuine hw (im_verifying_key hw).
Proof.
  unfold try_efuse. destruct find_ecdsa_key_block as [block|error].
  - destruct unsupported_esp32p4_ecdsa_revision as [p|]; [done|].
    intros (id' & He & [= <-])%try_Ok. by eapply efuse_genuine.
  - case_bool_decide; [done|]. done.
Qed.

(** Reading the cell does not change it. *)
Definition reads {A} (m : NM A) : Prop := ∀ c c' r, m c = (c', r) → cell c' = cell c.

Lemma nvs_try_reads : reads nvs_try.
Proof. intros c c' r. unfold nvs_try. destruct (cell_faults c); by intros [= <- _]. Qed.

Lemma nvs_get_Ok c c' o : nvs_get c = (c', Ok o) → o = cell c ∧ cell c' = cell c.
Proof. intros (c1 & [] & Hc%nvs_try_reads & [= <- <-])%M_bind_Ok. by rewrite Hc. Qed.

Lemma load_record_Ok c c' o :
  load_record c = (c', Ok o) → cell c' = cell c ∧
  match o with Some r => ∃ b, cell c = Some b ∧ postcard_from_bytes b = Some r | None => cell c = None end.
Proof.
  intros (c1 & l & [Hl Hc1]%nvs_get_Ok & Hr)%M_bind_Ok. destruct l as [l|]; [|by injection Hr as <- <-].
  apply M_bind_Ok in Hr as (c2 & b & [Hb Hc2]%nvs_get_Ok & Hr). subst. rewrite Hc1, <-Hl in Hr.
  destruct (postcard_from_bytes l) as [r|] eqn:E; [|done]. injection Hr as <- <-.
  rewrite Hc2, Hc1. split; [done|]. by exists l.
Qed.

(** Without faults, a record in the cell is found. *)
Lemma load_record_stored b r :
  postcard_from_bytes b = Some r →
  (let* _ := nvs_try in load_record) (mkNvsCell (Some b) []) = (mkNvsCell (Some b) [], Ok (Some r)).
Proof. intros Hb. unfold load_record, M_bind. simpl. by rewrite Hb. Qed.

Lemma transport_kept generated c c' id :
  transport_load_or_create generated c = (c', Ok id) →
  (∃ pk, transport_genuine id pk ∧ public_decode_protobuf (public_key_protobuf_bytes id) = Some pk) ∧
  ∀ other, transport_load_or_create other (mkNvsCell (cell c') []) = (mkNvsCell (cell c') [], Ok id).
Proof.
  unfold transport_load_or_create. destruct try_efuse as [[hw|]|e] eqn:He; [| |done].
  - intros Hid. split; [|by injection Hid as _ ->].
    injection Hid as _ Hid. destruct (from_hardware_genuine hw _ id (try_efuse_genuine hw He) Hid) as [pk Hpk].
    exists pk. split; [done|]. rewrite (transport_key _ _ Hpk). apply public_decode_encode.
  - intros (c1 & [] & Hc1%nvs_try_reads & Hr)%M_bind_Ok.
    apply M_bind_Ok in Hr as (c2 & o & [Hc2 Ho]%load_record_Ok & Hr).
    assert (∃ b r, cell c' = Some b ∧ postcard_from_bytes b = Some r ∧ from_record r = Ok id) as (b & r & Hc' & Hb & Hf).
    { destruct o as [r|].
      - injection Hr as <- Hr. destruct Ho as (b & Hb & Hp). exists b, r. by rewrite Hc2.
      - destruct (keypair_to_protobuf generated) as [enc|]; [|done].
        apply M_bind_Ok in Hr as (c3 & [] & Hs & Hr). injection Hr as <- Hr. unfold store_record in Hs.
        destruct (to_allocvec _) as [b|] eqn:Ea; [|done]. apply M_bind_Ok in Hs as (c4 & [] & _ & [= <-]).
        exists b, (mkTransportIdentityRecord AlgEcdsaP256 enc). split_and!; [done| |done].
        by apply (postcard_from_to _ _ Ea). }
    split.
    + destruct (from_record_genuine r id Hf) as [pk Hpk]. exists pk. split; [done|].
      rewrite (transport_key _ _ Hpk). apply public_decode_encode.
    + intros other. rewrite Hc'. pose proof (load_record_stored b r Hb) as Hl. unfold M_bind in Hl |- *.
      simpl in Hl |- *. rewrite Hl. by rewrite Hf.
Qed.

(** the embedded node keeps its transport identity.  Whatever the flash holds and
    whichever of its operations fail, an identity that comes out of start-up announces
    the key it is named after and signs only what verifies under that key; and every
    later start-up, with any other key freshly generated, comes out with the same
    identity and leaves the flash as it is. *)
Theorem transport_identity_kept generated c c' id :
  transport_load_or_create generated c = (c', Ok id) →
  (∃ pk, transport_genuine id pk ∧ public_decode_protobuf (public_key_protobuf_bytes id) = Some pk) ∧
  ∀ other, transport_load_or_create other (mkNvsCell (cell c') []) = (mkNvsCell (cell c') [], Ok id).
Proof. apply transport_kept. Qed.

(** The host keeps its transport identity in the same way. *)
Lemma host_transport_kept generated f f' id kp :
  host_transport_load_or_create generated f = (f', Ok (id, kp)) →
  host_peer_id_bytes id = public_peer_id (keypair_public kp) ∧
  ∀ other, host_transport_load_or_create other f' = (f', Ok (id, kp)).
Proof.
  unfold host_transport_load_or_create. destruct (file_contents f) as [b|] eqn:Ef.
  - destruct (file_fault f) eqn:Ee; [done|]. destruct (keypair_from_protobuf b) as [k|] eqn:Ek; [|done].
    intros [= <- <- <-]. split; [done|]. intros other. by rewrite Ef, Ee, Ek.
  - destruct (keypair_to_protobuf generated) as [b|] eqn:Eb; [|done]. destruct (file_fault f); [done|].
    intros [= <- <- <-]. split; [done|]. intros other. simpl. by rewrite (keypair_from_to _ _ Eb).
Qed.
End transport.

(** ** A concrete start-up *)

Module TransportWitness.
Import ToyCrypto.

(** A stand-in for [libp2p_identity]: the keys of the toy scheme. *)
#[export] Instance toy_libp2p : Libp2p := {|
  Keypair := byte;
  PublicKey := byte;
  keypair_public k := k;
  keypair_key_type _ := KtEcdsa;
  keypair_sign k m := Some (encode_sig (toy_sign k m));
  keypair_to_protobuf k := Some [k];
  keypair_from_protobuf b := match b with [k] => Some k | _ => None end;
  public_encode_protobuf := encode_key;
  public_decode_protobuf := decode_key;
  public_peer_id k := [x12; x20; k];
  public_verify k m s :=
    match decode_sig s with Some s => bool_decide (s = toy_sign k m) | None => false end;
  ecdsa_from_bytes := decode_point;
  signature_to_der := encode_sig;
|}.

#[export] Instance toy_libp2p_laws : Libp2pLaws.
Proof.
  split.
  - by intros kp b [= <-].
  - apply decode_encode_key.
  - intros kp m s [= <-].
    change (match decode_sig (encode_sig (toy_sign kp m)) with
            | Some s => bool_decide (s = toy_sign kp m) | None => false end = true).
    rewrite decode_encode_sig. by apply bool_decide_true.
  - intros raw pk vk m s Hp Hv Hs.
    change (match decode_sig (encode_sig s) with
            | Some s => bool_decide (s = toy_sign pk m) | None => false end = true).
    rewrite decode_encode_sig. change (decode_point raw = Some pk) in Hp. change (decode_point raw = Some vk) in Hv.
    rewrite Hp in Hv. injection Hv as ->. exact Hs.
Qed.

(** A chip without a key in its efuses. *)
#[export] Instance bare_chip : Psa := {
  efuse_find_ecdsa_key := None;
  chip_revision := 301;
  psa_crypto_init := 0;
  psa_import_key _ _ := Err 1;
  psa_export_public_key _ := Err 1;
  psa_sign_hash _ _ _ := Err 1;
}.
#[export] Instance bare_chip_laws : PsaLaws.
Proof. done. Qed.

#[export] Instance toy_record : Postcard TransportIdentityRecord := {
  to_allocvec r := Some ((match record_algorithm r with AlgEd25519 => x00 | AlgEcdsaP256 => x01 end)
                           :: private_key_protobuf r);
  postcard_from_bytes b :=
    match b with
    | x00 :: k => Some (mkTransportIdentityRecord AlgEd25519 k)
    | x01 :: k => Some (mkTransportIdentityRecord AlgEcdsaP256 k)
    | _ => None
    end;
}.
#[export] Instance toy_record_roundtrip : PostcardRoundtrip TransportIdentityRecord.
Proof. intros [[] k] b [= <-]; done. Qed.

Definition fresh_key : Keypair := x2a.
Definition other_key : Keypair := x2b.

Lemma transport_identity_kept_witness :
  ∃ c' id, transport_load_or_create fresh_key (mkNvsCell None []) = (c', Ok id) ∧
    transport_load_or_create other_key (mkNvsCell (cell c') []) = (mkNvsCell (cell c') [], Ok id).
Proof.
  destruct (transport_load_or_create fresh_key (mkNvsCell None [])) as [c' [id|e]] eqn:E; [|discriminate E].
  exists c', id. split; [reflexivity|].
  exact (proj2 (transport_identity_kept fresh_key (mkNvsCell None []) c' id E) other_key).
Defined.
End TransportWitness.
