(* ===== verification/Protobuf.v ===== *)
(** * Protobuf messages

    The identify message and the payload of the noise handshake are protobuf messages
    that the repository reads and writes field by field with the crate
    [quick_protobuf]: the class [QuickProtobuf].  This file holds the loop over fields
    that the readers share, its termination, and the lemmas with which their round
    trips are proved. *)

From S2P Require Import Prelude.
From S2P Require Import Errors.
From S2P Require Import Framing.
From S2P Require Import Text.

(** A reader is the bytes that are left; the readers return what they read and the
    rest, or [None] for an error. *)
Class QuickProtobuf : Type := {
  next_tag : bytes → option (Z * bytes);
  read_bytes : bytes → option (bytes * bytes);
  read_string : bytes → option (bytes * bytes);
  read_unknown : Z → bytes → option bytes;
  (** what [write_with_tag] writes before the value, and the length prefix of a value *)
  write_tag : Z → bytes;
  write_len : nat → bytes;
  sizeof_len : nat → nat;
}.

(** The documented wire format: tags and lengths are varints, a value is its length and
    its bytes, and readers never grow what is left. *)
Class ProtobufLaws `{QuickProtobuf} : Prop := {
  next_tag_write t rest : 0 ≤ t < 2 ^ 32 → next_tag (write_tag t ++ rest) = Some (t, rest);
  read_bytes_write v rest :
    Z.of_nat (length v) < 2 ^ 32 → read_bytes (write_len (length v) ++ v ++ rest) = Some (v, rest);
  read_string_write v rest :
    Z.of_nat (length v) < 2 ^ 32 → utf8_valid v = true →
    read_string (write_len (length v) ++ v ++ rest) = Some (v, rest);
  next_tag_shorter bs t rest : next_tag bs = Some (t, rest) → (length rest < length bs)%nat;
  read_bytes_shorter bs v rest : read_bytes bs = Some (v, rest) → (length rest ≤ length bs)%nat;
  read_string_shorter bs v rest : read_string bs = Some (v, rest) → (length rest ≤ length bs)%nat;
  read_unknown_shorter t bs rest : read_unknown t bs = Some rest → (length rest ≤ length bs)%nat;
  write_tag_short t : 0 ≤ t < 128 → length (write_tag t) = 1%nat;
  sizeof_len_write n : sizeof_len n = (length (write_len n) + n)%nat;
}.

Section protobuf.
Context `{QuickProtobuf}.

(** [writer.write_with_tag(tag, |w| w.write_bytes(v))], and the same for strings *)
Definition write_field (tag : Z) (v : bytes) : bytes := write_tag tag ++ write_len (length v) ++ v.

(** [if let Some(v) = field { .. }] and [for v in field { .. }] *)
Definition write_optional (tag : Z) (v : option bytes) : bytes :=
  match v with Some v => write_field tag v | None => [] end.
Definition write_repeated (tag : Z) (vs : list bytes) : bytes := concat (map (write_field tag) vs).

(** [reader.read_message]: a message in a field of its own *)
Definition read_message {A} (parse : bytes → outcome (option A)) (bs : bytes) : outcome (option (A * bytes)) :=
  match read_bytes bs with
  | None => Ret None
  | Some (v, rest) => o ← parse v; Ret (match o with Some a => Some (a, rest) | None => None end)
  end.

(** [while !reader.is_eof() { match reader.next_tag(bytes) { .. } }].  Reading a tag
    takes at least one byte, so the number of bytes is enough fuel: [read_fields_total]. *)
Fixpoint read_fields {A} (fuel : nat) (field : Z → A → bytes → outcome (option (A * bytes))) (message : A)
    (bs : bytes) : outcome (option A) :=
  match bs with
  | [] => Ret (Some message)
  | _ =>
      match fuel with
      | O => OutOfFuel
      | S fuel =>
          match next_tag bs with
          | None => Ret None
          | Some (tag, rest) =>
              r ← field tag message rest;
              match r with
              | None => Ret None
              | Some (message, rest) => read_fields fuel field message rest
              end
          end
      end
  end.

(** The branches of a field reader: a value, or an unknown field that is skipped. *)
Definition field_bytes {A} (set : bytes → A) (bs : bytes) : outcome (option (A * bytes)) :=
  Ret (match read_bytes bs with Some (v, rest) => Some (set v, rest) | None => None end).
Definition field_string {A} (set : bytes → A) (bs : bytes) : outcome (option (A * bytes)) :=
  Ret (match read_string bs with Some (v, rest) => Some (set v, rest) | None => None end).
Definition field_unknown {A} (message : A) (tag : Z) (bs : bytes) : outcome (option (A * bytes)) :=
  Ret (match read_unknown tag bs with Some rest => Some (message, rest) | None => None end).

(** ** Termination *)

(** A field reader that returns, and does not grow what is left. *)
Definition shrinks {A} (o : outcome (option (A * bytes))) (bs : bytes) : Prop :=
  ∃ r, o = Ret r ∧ ∀ a rest, r = Some (a, rest) → (length rest ≤ length bs)%nat.

Context `{!ProtobufLaws}.

Lemma field_bytes_shrinks {A} (set : bytes → A) bs : shrinks (field_bytes set bs) bs.
Proof.
  eexists. split; [done|]. intros a rest. destruct (read_bytes bs) as [[v r]|] eqn:E; [|done].
  intros [= _ <-]. by eapply read_bytes_shorter.
Qed.
Lemma field_string_shrinks {A} (set : bytes → A) bs : shrinks (field_string set bs) bs.
Proof.
  eexists. split; [done|]. intros a rest. destruct (read_string bs) as [[v r]|] eqn:E; [|done].
  intros [= _ <-]. by eapply read_string_shorter.
Qed.
Lemma field_unknown_shrinks {A} (m : A) tag bs : shrinks (field_unknown m tag bs) bs.
Proof.
  eexists. split; [done|]. intros a rest. destruct (read_unknown tag bs) as [r|] eqn:E; [|done].
  intros [= _ <-]. by eapply read_unknown_shorter.
Qed.
Lemma read_message_shrinks {A B} (parse : bytes → outcome (option A)) (f : A → B) bs :
  (∀ v, ∃ o, parse v = Ret o) →
  shrinks (o ← read_message parse bs; Ret (match o with Some (a, rest) => Some (f a, rest) | None => None end)) bs.
Proof.
  intros Hp. unfold read_message. destruct (read_bytes bs) as [[v r]|] eqn:E; [|by eexists].
  destruct (Hp v) as [o ->]. eexists. split; [done|]. intros a rest. destruct o; [|done].
  intros [= _ <-]. by eapply read_bytes_shorter.
Qed.

(** The loop over fields returns, whatever the bytes. *)
Lemma read_fields_total {A} fuel (field : Z → A → bytes → outcome (option (A * bytes))) m bs :
  (∀ tag m bs, shrinks (field tag m bs) bs) → (length bs ≤ fuel)%nat →
  ∃ o, read_fields fuel field m bs = Ret o.
Proof.
  intros Hf. revert m bs. induction fuel as [|fuel IH]; intros m [|b bs] Hl; simpl in *; [eauto|lia|eauto|].
  destruct (next_tag (b :: bs)) as [[tag rest]|] eqn:E; [|eauto]. apply next_tag_shorter in E. simpl in E.
  destruct (Hf tag m rest) as (r & -> & Hr). simpl. destruct r as [[m' rest']|]; [|eauto].
  apply IH. specialize (Hr _ _ eq_refl). lia.
Qed.

(** ** Round trips *)

(** Reading [w] takes the message from [m] to [m'], whatever follows. *)
Definition reads_to {A} (field : Z → A → bytes → outcome (option (A * bytes))) (w : bytes) (m m' : A) : Prop :=
  ∀ fuel rest, (length (w ++ rest) ≤ fuel)%nat →
    ∃ fuel', (length rest ≤ fuel')%nat ∧ read_fields fuel field m (w ++ rest) = read_fields fuel' field m' rest.

Lemma reads_to_nil {A} (field : Z → A → bytes → outcome (option (A * bytes))) m : reads_to field [] m m.
Proof. intros fuel rest Hl. by exists fuel. Qed.

Lemma reads_to_app {A} (field : Z → A → bytes → outcome (option (A * bytes))) w1 w2 m1 m2 m3 :
  reads_to field w1 m1 m2 → reads_to field w2 m2 m3 → reads_to field (w1 ++ w2) m1 m3.
Proof.
  intros H1' H2' fuel rest Hl. rewrite <-app_assoc in *.
  destruct (H1' fuel (w2 ++ rest) Hl) as (f1 & Hf1 & ->). exact (H2' f1 rest Hf1).
Qed.

Lemma reads_to_field {A} (field : Z → A → bytes → outcome (option (A * bytes))) tag v m m' :
  0 ≤ tag < 2 ^ 32 → (∀ rest, field tag m (write_len (length v) ++ v ++ rest) = Ret (Some (m', rest))) →
  reads_to field (write_field tag v) m m'.
Proof.
  intros Ht Hf fuel rest Hl. unfold write_field in *. rewrite <-!app_assoc in *.
  pose proof (next_tag_write tag (write_len (length v) ++ v ++ rest) Ht) as Hn.
  assert (length (write_len (length v) ++ v ++ rest) <
          length (write_tag tag ++ write_len (length v) ++ v ++ rest))%nat as Hs by by eapply next_tag_shorter.
  destruct (write_tag tag ++ write_len (length v) ++ v ++ rest) as [|b bs] eqn:E; [simpl in Hs; lia|].
  destruct fuel as [|fuel]; [simpl in Hl; lia|]. exists fuel. split.
  - rewrite !length_app in Hs. simpl in *. lia.
  - simpl. rewrite Hn, Hf. done.
Qed.

Lemma reads_to_optional {A} (field : Z → A → bytes → outcome (option (A * bytes))) tag v m m' :
  0 ≤ tag < 2 ^ 32 →
  match v with
  | Some v => ∀ rest, field tag m (write_len (length v) ++ v ++ rest) = Ret (Some (m', rest))
  | None => m' = m
  end → reads_to field (write_optional tag v) m m'.
Proof. intros Ht. destruct v; simpl; [by apply reads_to_field|]. intros ->. apply reads_to_nil. Qed.

Lemma reads_to_repeated {A} (field : Z → A → bytes → outcome (option (A * bytes))) tag vs (add : A → list bytes → A) m :
  0 ≤ tag < 2 ^ 32 → (∀ m, add m [] = m) → (∀ m v vs, add (add m [v]) vs = add m (v :: vs)) →
  (∀ m v, v ∈ vs → ∀ rest, field tag m (write_len (length v) ++ v ++ rest) = Ret (Some (add m [v], rest))) →
  reads_to field (write_repeated tag vs) m (add m vs).
Proof.
  intros Ht Hn Hc. revert m. induction vs as [|v vs IH]; intros m Hf; simpl.
  - rewrite Hn. apply reads_to_nil.
  - unfold write_repeated. simpl. apply (reads_to_app _ _ _ m (add m [v])).
    + apply reads_to_field; [done|]. apply Hf. set_solver.
    + rewrite <-(Hc m v vs). apply IH. intros m' v' Hv. apply Hf. set_solver.
Qed.

(** A message that was written is read. *)
Lemma read_fields_roundtrip {A} (field : Z → A → bytes → outcome (option (A * bytes))) w m m' :
  reads_to field w m m' → read_fields (length w) field m w = Ret (Some m').
Proof.
  intros Hr. destruct (Hr (length w) []) as (f & _ & E); [by rewrite app_nil_r|].
  rewrite app_nil_r in E. rewrite E. by destruct f.
Qed.
End protobuf.

(** ** An instance of the wire format *)

Module ToyProtobuf.
Import Leb128.

Definition take_value (bs : bytes) : option (bytes * bytes) :=
  match decode 5 bs with
  | Ok (n, rest) =>
      if bool_decide (n ≤ Z.of_nat (length rest)) then Some (take (Z.to_nat n) rest, drop (Z.to_nat n) rest)
      else None
  | Err _ => None
  end.

#[export] Instance toy_protobuf : QuickProtobuf := {
  next_tag bs := match decode 5 bs with Ok (t, rest) => Some (t, rest) | Err _ => None end;
  read_bytes := take_value;
  read_string bs := match take_value bs with
                    | Some (v, rest) => if utf8_valid v then Some (v, rest) else None
                    | None => None
                    end;
  read_unknown tag bs := match take_value bs with Some (_, rest) => Some rest | None => None end;
  write_tag t := encode 5 t;
  write_len n := encode 5 (Z.of_nat n);
  sizeof_len n := (length (encode 5 (Z.of_nat n)) + n)%nat;
}.
Lemma decode_encode n rest : 0 ≤ n < 2 ^ 32 → decode 5 (encode 5 n ++ rest) = Ok (n, rest).
Proof.
  intros Hn. destruct (encode_shape 5 n) as [_ Hd]; [lia|lia|]. by rewrite (decode_more _ _ _ _ rest Hd).
Qed.

Lemma decode_shorter bs n rest : decode 5 bs = Ok (n, rest) → (length rest < length bs)%nat.
Proof. intros (_ & init & b & -> & _)%decode_Ok. rewrite !length_app. simpl. lia. Qed.

Lemma take_value_write v rest :
  Z.of_nat (length v) < 2 ^ 32 → take_value (encode 5 (Z.of_nat (length v)) ++ v ++ rest) = Some (v, rest).
Proof.
  intros Hl. unfold take_value. rewrite decode_encode by lia. rewrite bool_decide_true by (rewrite length_app; lia).
  by rewrite Nat2Z.id, take_app_length, drop_app_length.
Qed.

Lemma take_value_shorter bs v rest : take_value bs = Some (v, rest) → (length rest ≤ length bs)%nat.
Proof.
  unfold take_value. destruct (decode 5 bs) as [[n r]|] eqn:E; [|done]. apply decode_shorter in E.
  case_bool_decide; [|done]. intros [= _ <-]. rewrite length_drop. lia.
Qed.

#[export] Instance toy_protobuf_laws : ProtobufLaws.
Proof.
  split; cbn [next_tag read_bytes read_string read_unknown write_tag write_len sizeof_len toy_protobuf].
  - intros t rest Ht. by rewrite decode_encode.
  - intros v rest Hv. by apply take_value_write.
  - intros v rest Hv Hu. by rewrite take_value_write, Hu.
  - intros bs t rest. destruct (decode 5 bs) as [[n r]|] eqn:E; [|done]. intros [= <- <-]. by eapply decode_shorter.
  - apply take_value_shorter.
  - intros bs v rest. destruct (take_value bs) as [[v' r]|] eqn:E; [|done]. destruct (utf8_valid v'); [|done].
    intros [= <- <-]. by eapply take_value_shorter.
  - intros t bs rest. destruct (take_value bs) as [[v' r]|] eqn:E; [|done]. intros [= <-]. by eapply take_value_shorter.
  - intros t Ht. cbn [encode]. by rewrite bool_decide_true by lia.
  - done.
Qed.
End ToyProtobuf.
