(* ===== verification/Identify.v ===== *)
(** * The identify protocol

    Models erp-runtime/src/network/protocol/identify.rs and mod.rs, and
    [build_local_identify] of session.rs: the message with which a node tells a peer its
    transport key, its addresses and the protocols it serves.  Addresses are the crate
    [multiaddr]: the class [MultiaddrLib]. *)

From S2P Require Import Prelude.
From S2P Require Import Text.
From S2P Require Import Ipv6.
From S2P Require Import Crypto.
From S2P Require Import Messages.
From S2P Require Import Errors.
From S2P Require Import Framing.
From S2P Require Import Identity.
From S2P Require Import NodeHello.
From S2P Require Import TransportIdentity.
From S2P Require Import PeerRegistry.
From S2P Require Import ErpNetwork.
From S2P Require Import Protobuf.

(** ** Addresses *)

Inductive Protocol : Type :=
| ProtoIp4 (addr : bytes)
| ProtoIp6 (addr : bytes)
| ProtoDns4 (host : string)
| ProtoTcp (port : Z)
| ProtoOther.

Class MultiaddrLib : Type := {
  Multiaddr : Type;
  (** [str::parse::<Multiaddr>] *)
  multiaddr_parse : bytes → option Multiaddr;
  multiaddr_to_vec : Multiaddr → bytes;
  (** [Multiaddr::try_from] *)
  multiaddr_try_from : bytes → option Multiaddr;
  multiaddr_iter : Multiaddr → list Protocol;
}.

(** The textual forms the sources build. *)
Definition ip4_tcp_text (ip : bytes) (port : Z) : bytes :=
  str "/ip4/" ++ ipv4_text ip ++ str "/tcp/" ++ decimal port.
Definition ip6_tcp_text (ip : bytes) (port : Z) : bytes :=
  str "/ip6/" ++ ipv6_text ip ++ str "/tcp/" ++ decimal port.
Definition dns4_tcp_text (host : string) (port : Z) : bytes :=
  str "/dns4/" ++ str host ++ str "/tcp/" ++ decimal port.

Definition is_u16 (z : Z) : Prop := 0 ≤ z < 2 ^ 16.
Definition slash : byte := x2f.

(** A host name that can stand in a multiaddr. *)
Definition host_name (host : string) : Prop := str host ≠ [] ∧ slash ∉ str host.

(** The documented behaviour: the binary form decodes to the address it encodes, and the
    textual forms parse to the protocols they name. *)
Class MultiaddrLaws `{MultiaddrLib} : Prop := {
  multiaddr_from_to m : multiaddr_try_from (multiaddr_to_vec m) = Some m;
  multiaddr_parse_ip4 ip port :
    length ip = 4%nat → is_u16 port →
    ∃ m, multiaddr_parse (ip4_tcp_text ip port) = Some m ∧ multiaddr_iter m = [ProtoIp4 ip; ProtoTcp port];
  multiaddr_parse_ip6 ip port :
    length ip = 16%nat → is_u16 port →
    ∃ m, multiaddr_parse (ip6_tcp_text ip port) = Some m ∧ multiaddr_iter m = [ProtoIp6 ip; ProtoTcp port];
  multiaddr_parse_dns4 host port :
    host_name host → is_u16 port →
    ∃ m, multiaddr_parse (dns4_tcp_text host port) = Some m ∧ multiaddr_iter m = [ProtoDns4 host; ProtoTcp port];
}.

(** ** protocol/mod.rs *)

Definition IDENTIFY_PROTOCOL : bytes := str "/ipfs/id/1.0.0".
Definition IDENTIFY_PUSH_PROTOCOL : bytes := str "/ipfs/id/push/1.0.0".
Definition PING_PROTOCOL : bytes := str "/ipfs/ping/1.0.0".
Definition ANNOUNCE_PROTOCOL : bytes := str "/rust-proof/announce/1".
Definition SYNC_PROTOCOL : bytes := str "/rust-proof/sync/1".
Definition MAX_IDENTIFY_MESSAGE_SIZE : Z := 4096.

Definition SESSION_SETUP_PROTOCOLS : list bytes := [IDENTIFY_PROTOCOL; str NODE_HELLO_PROTOCOL].
Definition INBOUND_SESSION_PROTOCOLS : list bytes :=
  [IDENTIFY_PROTOCOL; IDENTIFY_PUSH_PROTOCOL; str NODE_HELLO_PROTOCOL; PING_PROTOCOL; ANNOUNCE_PROTOCOL;
   SYNC_PROTOCOL].
Definition advertised_protocols : list bytes := INBOUND_SESSION_PROTOCOLS.

(** ** identify.rs *)

Record IdentifyInfo : Type := mkIdentifyInfo {
  protocol_version : bytes;
  agent_version : bytes;
  listen_addrs : list MultiaddrLite;
  supported_protocols : list bytes;
  observed_addr : option SocketAddr;
  transport_public_key : bytes;
  info_transport_peer_id : bytes;
}.

Record IdentifyMessage : Type := mkIdentifyMessage {
  msg_protocol_version : option bytes;
  msg_agent_version : option bytes;
  msg_public_key : option bytes;
  msg_listen_addrs : list bytes;
  msg_observed_addr : option bytes;
  msg_protocols : list bytes;
  msg_signed_peer_record : option bytes;
}.

Definition IdentifyMessage_default : IdentifyMessage := mkIdentifyMessage None None None [] None [] None.

Section identify.
Context `{UnsignedVarint, QuickProtobuf, MultiaddrLib, Libp2p}.

Definition encode_multiaddr (addr : MultiaddrLite) : result bytes Erp.RuntimeError :=
  match multiaddr_parse (match addr with
                         | Ip4Tcp addr port => ip4_tcp_text addr port
                         | Dns4Tcp host port => dns4_tcp_text host port
                         end) with
  | Some m => Ok (multiaddr_to_vec m)
  | None => Err (Erp.Config "failed to encode identify listen multiaddr")
  end.

Definition decode_multiaddr (b : bytes) : result MultiaddrLite Erp.RuntimeError :=
  match multiaddr_try_from b with
  | None => Err (Erp.Config "failed to decode identify multiaddr bytes")
  | Some m =>
      match multiaddr_iter m with
      | [ProtoIp4 addr; ProtoTcp port] => Ok (Ip4Tcp addr port)
      | [ProtoDns4 host; ProtoTcp port] => Ok (Dns4Tcp host port)
      | _ => Err (Erp.Config "unsupported identify multiaddr")
      end
  end.

Definition encode_socket_addr (addr : SocketAddr) : outcome bytes :=
  match multiaddr_parse (match addr with
                         | SocketV4 ip port => ip4_tcp_text ip port
                         | SocketV6 ip port => ip6_tcp_text ip port
                         end) with
  | Some m => Ret (multiaddr_to_vec m)
  | None => Panic
  end.

Definition decode_socket_addr (b : bytes) : result SocketAddr Erp.RuntimeError :=
  match multiaddr_try_from b with
  | None => Err (Erp.Config "failed to decode observed multiaddr bytes")
  | Some m =>
      match multiaddr_iter m with
      | [ProtoIp4 addr; ProtoTcp port] => Ok (SocketV4 addr port)
      | [ProtoIp6 addr; ProtoTcp port] => Ok (SocketV6 addr port)
      | _ => Err (Erp.Config "observed address is not a direct ip/tcp multiaddr")
      end
  end.

(** [iter().map(f).collect::<Result<Vec<_>, _>>()] *)
Fixpoint collect {A B E} (f : A → result B E) (l : list A) : result (list B) E :=
  match l with
  | [] => Ok []
  | a :: l => let! b := f a in let! bs := collect f l in Ok (b :: bs)
  end.

(** One field of [IdentifyMessage::from_reader]. *)
Definition identify_field (tag : Z) (m : IdentifyMessage) (bs : bytes) :
    outcome (option (IdentifyMessage * bytes)) :=
  let 'mkIdentifyMessage pv av pk la oa pr sr := m in
  if bool_decide (tag = 42) then field_string (λ v, mkIdentifyMessage (Some v) av pk la oa pr sr) bs
  else if bool_decide (tag = 50) then field_string (λ v, mkIdentifyMessage pv (Some v) pk la oa pr sr) bs
  else if bool_decide (tag = 10) then field_bytes (λ v, mkIdentifyMessage pv av (Some v) la oa pr sr) bs
  else if bool_decide (tag = 18) then field_bytes (λ v, mkIdentifyMessage pv av pk (la ++ [v]) oa pr sr) bs
  else if bool_decide (tag = 34) then field_bytes (λ v, mkIdentifyMessage pv av pk la (Some v) pr sr) bs
  else if bool_decide (tag = 26) then field_string (λ v, mkIdentifyMessage pv av pk la oa (pr ++ [v]) sr) bs
  else if bool_decide (tag = 66) then field_bytes (λ v, mkIdentifyMessage pv av pk la oa pr (Some v)) bs
  else field_unknown m tag bs.

Definition identify_from_reader (bs : bytes) : outcome (option IdentifyMessage) :=
  read_fields (length bs) identify_field IdentifyMessage_default bs.

Definition field_size (v : bytes) : nat := (1 + sizeof_len (length v))%nat.
Definition optional_size (v : option bytes) : nat := match v with Some v => field_size v | None => 0 end.

Definition identify_get_size (m : IdentifyMessage) : nat :=
  (optional_size (msg_protocol_version m) + optional_size (msg_agent_version m) +
   optional_size (msg_public_key m) + sum_list (map field_size (msg_listen_addrs m)) +
   optional_size (msg_observed_addr m) + sum_list (map field_size (msg_protocols m)) +
   optional_size (msg_signed_peer_record m))%nat.

Definition identify_write_message (m : IdentifyMessage) : bytes :=
  write_optional 42 (msg_protocol_version m) ++ write_optional 50 (msg_agent_version m) ++
  write_optional 10 (msg_public_key m) ++ write_repeated 18 (msg_listen_addrs m) ++
  write_optional 34 (msg_observed_addr m) ++ write_repeated 26 (msg_protocols m) ++
  write_optional 66 (msg_signed_peer_record m).

(** Writing to a [Vec] does not fail. *)
Definition encode_identify (info : IdentifyInfo) : outcome (result bytes Erp.RuntimeError) :=
  match collect encode_multiaddr (listen_addrs info) with
  | Err e => Ret (Err e)
  | Ok addrs =>
      observed ← match observed_addr info with
                 | Some addr => Some <$> encode_socket_addr addr
                 | None => Ret None
                 end;
      let message := mkIdentifyMessage (Some (protocol_version info)) (Some (agent_version info))
        (Some (transport_public_key info)) addrs observed (supported_protocols info) None in
      Ret (erp_encode_length_prefixed (identify_write_message message) MAX_IDENTIFY_MESSAGE_SIZE)
  end.

Definition decode_identify (b : bytes) : outcome (result IdentifyInfo Erp.RuntimeError) :=
  match erp_decode_length_prefix b MAX_IDENTIFY_MESSAGE_SIZE with
  | Err e => Ret (Err e)
  | Ok (_, payload) =>
      o ← identify_from_reader payload;
      Ret match o with
      | None => Err (Erp.ErrCrypto "failed to decode identify protobuf payload")
      | Some message =>
          match msg_public_key message with
          | None => Err (Erp.Config "identify payload is missing a transport public key")
          | Some public_key =>
              match public_decode_protobuf public_key with
              | None => Err (Erp.ErrCrypto "identify payload contains an invalid transport public key")
              | Some decoded =>
                  Ok (mkIdentifyInfo (default [] (msg_protocol_version message))
                    (default [] (msg_agent_version message))
                    (omap (λ b, ok (decode_multiaddr b)) (msg_listen_addrs message))
                    (msg_protocols message)
                    (match msg_observed_addr message with
                     | Some b => ok (decode_socket_addr b)
                     | None => None
                     end)
                    public_key (public_peer_id decoded))
              end
          end
      end
  end.

(** ** session.rs: the local identify message *)

Definition IDENTIFY_PROTOCOL_VERSION : bytes := str "rust-proof/1".
Definition IDENTIFY_AGENT_VERSION : bytes := str "erp-runtime/0.1.0".

Definition build_local_identify (config : NetworkConfig) (transport_identity : TransportIdentityManager) :
    IdentifyInfo :=
  mkIdentifyInfo IDENTIFY_PROTOCOL_VERSION IDENTIFY_AGENT_VERSION
    [Ip4Tcp [x00; x00; x00; x00] (listen_port config)] advertised_protocols None
    (public_key_protobuf_bytes transport_identity) (peer_id_bytes transport_identity).

(** ** The message *)

Context `{!ProtobufLaws, !MultiaddrLaws, !VarintLaws}.

Lemma length_write_field tag v : 0 ≤ tag < 128 → length (write_field tag v) = field_size v.
Proof.
  intros Ht. unfold write_field, field_size. rewrite !length_app, write_tag_short, sizeof_len_write by done. done.
Qed.

Lemma length_write_optional tag v : 0 ≤ tag < 128 → length (write_optional tag v) = optional_size v.
Proof. intros Ht. destruct v; simpl; [by apply length_write_field|done]. Qed.

Lemma length_write_repeated tag vs :
  0 ≤ tag < 128 → length (write_repeated tag vs) = sum_list (map field_size vs).
Proof.
  intros Ht. unfold write_repeated. induction vs as [|v vs IH]; simpl; [done|].
  by rewrite length_app, length_write_field, IH.
Qed.

(** The size computed in advance is the size of what is written. *)
Lemma identify_get_size_spec m : length (identify_write_message m) = identify_get_size m.
Proof.
  unfold identify_write_message, identify_get_size.
  rewrite !length_app, !length_write_optional, !length_write_repeated by lia. lia.
Qed.

Lemma field_size_bound v : (length v ≤ field_size v)%nat.
Proof. unfold field_size. rewrite sizeof_len_write. lia. Qed.

Lemma repeated_size_bound v vs : v ∈ vs → (field_size v ≤ sum_list (map field_size vs))%nat.
Proof.
  intros Hv. induction vs as [|w vs IH]; [by apply elem_of_nil in Hv|]. simpl.
  apply elem_of_cons in Hv as [->|Hv]; [|specialize (IH Hv)]; unfold field_size in *; lia.
Qed.

Lemma identify_field_shrinks tag m bs : shrinks (identify_field tag m bs) bs.
Proof.
  unfold identify_field. destruct m.
  repeat case_bool_decide; auto using field_bytes_shrinks, field_string_shrinks, field_unknown_shrinks.
Qed.

(** Strings of a message. *)
Definition identify_strings (m : IdentifyMessage) : list bytes :=
  option_list (msg_protocol_version m) ++ option_list (msg_agent_version m) ++ msg_protocols m.

Definition small (v : bytes) : Prop := Z.of_nat (length v) < 2 ^ 32.

Lemma identify_reads m :
  Z.of_nat (identify_get_size m) < 2 ^ 32 → Forall (λ s, utf8_valid s = true) (identify_strings m) →
  msg_signed_peer_record m = None →
  reads_to identify_field (identify_write_message m) IdentifyMessage_default m.
Proof.
  destruct m as [pv av pk la oa pr sr]. unfold identify_get_size, identify_strings. simpl. intros Hs Hu ->.
  apply Forall_app in Hu as [Hpv Hu]. apply Forall_app in Hu as [Hav Hpr].
  assert (∀ v, Z.of_nat (optional_size (Some v)) < 2 ^ 32 → small v) as Hsm.
  { intros v. simpl. pose proof (field_size_bound v). unfold small. lia. }
  assert (∀ v vs, v ∈ vs → Z.of_nat (sum_list (map field_size vs)) < 2 ^ 32 → small v) as Hsr.
  { intros v vs Hv%repeated_size_bound. pose proof (field_size_bound v). unfold small. lia. }
  unfold identify_write_message. simpl. unfold IdentifyMessage_default.
  eapply (reads_to_app _ _ _ _ (mkIdentifyMessage pv None None [] None [] None)).
  { apply reads_to_optional; [lia|]. destruct pv as [v|]; [|done]. intros rest. simpl in Hpv.
    apply Forall_cons in Hpv as [Hpv _]. unfold identify_field, field_string. simpl.
    rewrite read_string_write; [done| |done]. apply Hsm. lia. }
  eapply (reads_to_app _ _ _ _ (mkIdentifyMessage pv av None [] None [] None)).
  { apply reads_to_optional; [lia|]. destruct av as [v|]; [|done]. intros rest. simpl in Hav.
    apply Forall_cons in Hav as [Hav _]. unfold identify_field, field_string. simpl.
    rewrite read_string_write; [done| |done]. apply Hsm. lia. }
  eapply (reads_to_app _ _ _ _ (mkIdentifyMessage pv av pk [] None [] None)).
  { apply reads_to_optional; [lia|]. destruct pk as [v|]; [|done]. intros rest.
    unfold identify_field, field_bytes. simpl. rewrite read_bytes_write; [done|]. apply Hsm. lia. }
  eapply (reads_to_app _ _ _ _ (mkIdentifyMessage pv av pk la None [] None)).
  { apply (reads_to_repeated _ 18 la (λ m vs, mkIdentifyMessage (msg_protocol_version m) (msg_agent_version m)
      (msg_public_key m) (msg_listen_addrs m ++ vs) (msg_observed_addr m) (msg_protocols m)
      (msg_signed_peer_record m)) (mkIdentifyMessage pv av pk [] None [] None)); [lia|..].
    - intros []. simpl. by rewrite app_nil_r.
    - intros [] v vs. simpl. by rewrite <-app_assoc.
    - intros [] v Hv rest. unfold identify_field, field_bytes. simpl. rewrite read_bytes_write; [done|].
      apply (Hsr v la Hv). lia. }
  eapply (reads_to_app _ _ _ _ (mkIdentifyMessage pv av pk la oa [] None)).
  { apply reads_to_optional; [lia|]. destruct oa as [v|]; [|done]. intros rest.
    unfold identify_field, field_bytes. simpl. rewrite read_bytes_write; [done|]. apply Hsm. lia. }
  rewrite app_nil_r.
  apply (reads_to_repeated _ 26 pr (λ m vs, mkIdentifyMessage (msg_protocol_version m) (msg_agent_version m)
      (msg_public_key m) (msg_listen_addrs m) (msg_observed_addr m) (msg_protocols m ++ vs)
      (msg_signed_peer_record m)) (mkIdentifyMessage pv av pk la oa [] None)); [lia|..].
  - intros []. simpl. by rewrite app_nil_r.
  - intros [] v vs. simpl. by rewrite <-app_assoc.
  - intros [] v Hv rest. unfold identify_field, field_string. simpl. rewrite Forall_forall in Hpr.
    rewrite read_string_write; [done| |by apply Hpr]. apply (Hsr v pr Hv). lia.
Qed.

Lemma decode_identify_total b : ∃ r, decode_identify b = Ret r.
Proof.
  unfold decode_identify. destruct (erp_decode_length_prefix _ _) as [[h payload]|]; [|eauto].
  unfold identify_from_reader.
  destruct (read_fields_total (length payload) identify_field IdentifyMessage_default payload) as [o ->];
    [apply identify_field_shrinks|done|]. simpl. eauto.
Qed.

(** ** Addresses *)

Definition addr_ok (a : MultiaddrLite) : Prop :=
  match a with
  | Ip4Tcp addr port => length addr = 4%nat ∧ is_u16 port
  | Dns4Tcp host port => host_name host ∧ is_u16 port
  end.

Lemma multiaddr_roundtrip a : addr_ok a → ∃ b, encode_multiaddr a = Ok b ∧ decode_multiaddr b = Ok a.
Proof.
  unfold encode_multiaddr, decode_multiaddr. destruct a as [ip port|host port]; intros [Ha Hp].
  - destruct (multiaddr_parse_ip4 ip port Ha Hp) as (m & -> & Hi). eexists. split; [done|].
    by rewrite multiaddr_from_to, Hi.
  - destruct (multiaddr_parse_dns4 host port Ha Hp) as (m & -> & Hi). eexists. split; [done|].
    by rewrite multiaddr_from_to, Hi.
Qed.

Lemma collect_multiaddr l :
  Forall addr_ok l →
  ∃ bs, collect encode_multiaddr l = Ok bs ∧ omap (λ b, ok (decode_multiaddr b)) bs = l.
Proof.
  induction 1 as [|a l Ha _ (bs & Hc & Ho)]; [by exists []|].
  destruct (multiaddr_roundtrip a Ha) as (b & Hb & Hd). exists (b :: bs). cbn [collect]. rewrite Hb. cbn [try_]. rewrite Hc.
  split; [done|]. change (omap (λ b, ok (decode_multiaddr b)) (b :: bs)) with
    (match ok (decode_multiaddr b) with Some a => a :: omap (λ b, ok (decode_multiaddr b)) bs
     | None => omap (λ b, ok (decode_multiaddr b)) bs end).
  by rewrite Hd, Ho.
Qed.

(** An address has the length of its family, and a port is a [u16]. *)
Definition observed_ok (o : option SocketAddr) : Prop :=
  match o with
  | Some (SocketV4 ip port) => length ip = 4%nat ∧ is_u16 port
  | Some (SocketV6 ip port) => length ip = 16%nat ∧ is_u16 port
  | None => True
  end.

(** What a node can say of itself: text, addresses that can be written, and a transport
    named after its key. *)
Record info_ok (info : IdentifyInfo) : Prop := {
  info_strings : Forall (λ s, utf8_valid s = true)
    (protocol_version info :: agent_version info :: supported_protocols info);
  info_addrs : Forall addr_ok (listen_addrs info);
  info_observed : observed_ok (observed_addr info);
  info_key : ∃ pk, public_decode_protobuf (transport_public_key info) = Some pk ∧
                   info_transport_peer_id info = public_peer_id pk;
}.


(** The message the node sends of itself is such a message. *)
Lemma local_identify_ok `{Psa, !Libp2pLaws} config id pk :
  transport_genuine id pk → is_u16 (listen_port config) → info_ok (build_local_identify config id).
Proof.
  intros [Hk Hn _] Hp. split; simpl.
  - repeat constructor.
  - constructor; [by split|constructor].
  - done.
  - exists pk. by rewrite Hk, public_decode_encode.
Qed.
End identify.

(** ** An instance of the address library, and a concrete message *)

Module ToyMultiaddr.

(** Addresses are kept as text. *)
Definition read_text (t : bytes) : list Protocol :=
  match split_on slash t with
  | [[]; kind; value; _; port] =>
      [if bool_decide (kind = str "ip4") then
         ProtoIp4 (read_ipv4 value)
       else if bool_decide (kind = str "ip6") then ProtoIp6 (read_ipv6 value)
       else if bool_decide (kind = str "dns4") then ProtoDns4 (String.string_of_list_byte value)
       else ProtoOther;
       ProtoTcp (read_decimal port)]
  | _ => []
  end.

#[export] Instance toy_multiaddr : MultiaddrLib := {|
  Multiaddr := bytes;
  multiaddr_parse := Some;
  multiaddr_to_vec := id;
  multiaddr_try_from := Some;
  multiaddr_iter := read_text;
|}.

Lemma split_text kind value port :
  slash ∉ str kind → slash ∉ value → 0 ≤ port →
  split_on slash (slash :: str kind ++ slash :: value ++ slash :: str "tcp" ++ slash :: decimal port) =
  [[]; str kind; value; str "tcp"; decimal port].
Proof.
  intros Hk Hv Hp.
  change (slash :: str kind ++ slash :: value ++ slash :: str "tcp" ++ slash :: decimal port) with
    (join_with [slash] [[]; str kind; value; str "tcp"; decimal port]).
  apply split_on_join; [done|]. repeat constructor; try done.
  - apply not_elem_of_nil.
  - by apply lacks_spec.
  - by apply digits_without.
Qed.

#[export] Instance toy_multiaddr_laws : MultiaddrLaws.
Proof.
  split.
  - done.
  - intros ip port Hip [Hp1 Hp2]. eexists. split; [done|].
    change (read_text (slash :: str "ip4" ++ slash :: ipv4_text ip ++ slash :: str "tcp" ++ slash :: decimal port) =
      [ProtoIp4 ip; ProtoTcp port]).
    unfold read_text. rewrite split_text; [|by apply lacks_spec|by apply ipv4_text_without; [apply lacks_spec|]|done].
    rewrite bool_decide_true by done. rewrite read_ipv4_text by (by destruct ip).
    by rewrite read_decimal_decimal by lia.
  - intros ip port Hip [Hp1 Hp2]. eexists. split; [done|].
    change (read_text (slash :: str "ip6" ++ slash :: ipv6_text ip ++ slash :: str "tcp" ++ slash :: decimal port) =
      [ProtoIp6 ip; ProtoTcp port]).
    unfold read_text. rewrite split_text; [|by apply lacks_spec|by apply ipv6_text_without; [|apply lacks_spec|..]|done].
    rewrite bool_decide_false, bool_decide_true by done. rewrite read_ipv6_text by done.
    by rewrite read_decimal_decimal by lia.
  - intros host port [Hne Hh] [Hp1 Hp2]. eexists. split; [done|].
    change (read_text (slash :: str "dns4" ++ slash :: str host ++ slash :: str "tcp" ++ slash :: decimal port) =
      [ProtoDns4 host; ProtoTcp port]).
    unfold read_text. rewrite split_text; [|by apply lacks_spec|done|done].
    do 2 rewrite bool_decide_false by done. rewrite bool_decide_true by done. unfold str.
    by rewrite String.string_of_list_byte_of_string, read_decimal_decimal by lia.
Qed.
End ToyMultiaddr.

Module IdentifyWitness.
Import Leb128 ToyProtobuf ToyMultiaddr TransportWitness ToyCrypto.

Definition sample : IdentifyInfo :=
  mkIdentifyInfo IDENTIFY_PROTOCOL_VERSION IDENTIFY_AGENT_VERSION
    [Ip4Tcp [x0a; x00; x00; x07] 4001; Dns4Tcp "node.example" 80] advertised_protocols
    (Some (SocketV6 [x20; x01; x0d; xb8; x00; x00; x00; x00; x00; x00; x00; x00; x00; x00; x00; x02] 51000)) (encode_key x2a) [x12; x20; x2a].

End IdentifyWitness.
