(* ===== verification/Noise.v ===== *)
(** * The encrypted stream

    Models the stream of erp-runtime/src/network/transport/noise.rs: bytes are cut into
    frames, each encrypted and preceded by its length, over a connection that may take
    or deliver any number of bytes at a time, or none yet.  The cipher is the crate
    [snow]; its [TransportState] is a cipher state for each direction, as the Noise
    specification has it, and a cipher state is the class [Cipher]. *)

From S2P Require Import Prelude.
From S2P Require Import Text.
From S2P Require Import Errors.

Class Cipher : Type := {
  CipherState : Type;
  (** a ciphertext or a plaintext, or the text of a [snow::Error] *)
  encrypt : CipherState → bytes → result (CipherState * bytes) string;
  decrypt : CipherState → bytes → result (CipherState * bytes) string;
}.

Definition NOISE_TAG_LEN : nat := 16.
Definition MAX_NOISE_FRAME_LEN : nat := Z.to_nat 65535.
Definition MAX_NOISE_PLAINTEXT_LEN : nat := MAX_NOISE_FRAME_LEN - NOISE_TAG_LEN.

(** An authenticated cipher: what one side encrypts the other decrypts, in order, and a
    ciphertext is a tag longer than the plaintext. *)
Class CipherLaws `{Cipher} : Prop :=
  decrypt_encrypt k p k' c :
    encrypt k p = Ok (k', c) → length c = (length p + NOISE_TAG_LEN)%nat ∧ decrypt k c = Ok (k', p).

(** ** The connection below

    What each poll of the connection does is up to the environment: a schedule for
    reads, one for writes, and one for flushes.  A read returns no bytes only when the
    peer has closed the connection. *)

Inductive read_poll : Type := RdPending | RdReady (n : nat) | RdError (e : io_error).
Inductive write_poll : Type := WrPending | WrReady (n : nat) | WrError (e : io_error).
Inductive flush_poll : Type := FlPending | FlReady | FlError (e : io_error).

Record Inner : Type := mkInner {
  rx : bytes;
  rx_polls : list read_poll;
  wire : bytes;
  wr_polls : list write_poll;
  fl_polls : list flush_poll;
}.

Definition inner_poll_read (i : Inner) (len : nat) : Inner * poll (io_result bytes) :=
  match rx_polls i with
  | [] => (i, Pending)
  | p :: ps =>
      let next rx := mkInner rx ps (wire i) (wr_polls i) (fl_polls i) in
      match p with
      | RdPending => (next (rx i), Pending)
      | RdReady n =>
          let k := Nat.min (S n) len in
          (next (drop k (rx i)), Ready (Ok (take k (rx i))))
      | RdError e => (next (rx i), Ready (Err e))
      end
  end.

Definition inner_poll_write (i : Inner) (buf : bytes) : Inner * poll (io_result nat) :=
  match wr_polls i with
  | [] => (i, Pending)
  | p :: ps =>
      let next wire := mkInner (rx i) (rx_polls i) wire ps (fl_polls i) in
      match p with
      | WrPending => (next (wire i), Pending)
      | WrReady n => let k := Nat.min n (length buf) in (next (wire i ++ take k buf), Ready (Ok k))
      | WrError e => (next (wire i), Ready (Err e))
      end
  end.

(** [poll_flush] and [poll_close] *)
Definition inner_poll_flush (i : Inner) : Inner * poll (io_result unit) :=
  match fl_polls i with
  | [] => (i, Pending)
  | p :: ps =>
      let i := mkInner (rx i) (rx_polls i) (wire i) (wr_polls i) ps in
      (i, match p with FlPending => Pending | FlReady => Ready (Ok tt) | FlError e => Ready (Err e) end)
  end.

Section noise.
Context `{Cipher}.

Record TransportState : Type := mkTransportState {
  sending : CipherState;
  receiving : CipherState;
}.

Record NoiseStream : Type := mkNoiseStream {
  inner : Inner;
  session : TransportState;
  read_len_buf : bytes;
  read_len_pos : nat;
  read_frame_len : option nat;
  read_encrypted : bytes;
  read_encrypted_pos : nat;
  read_plaintext : bytes;
  read_plaintext_pos : nat;
  write_frame : bytes;
  write_frame_pos : nat;
  write_pending_consumed : nat;
}.

Definition NoiseStream_new (inner : Inner) (session : TransportState) : NoiseStream :=
  mkNoiseStream inner session [x00; x00] 0 None [] 0 [] 0 [] 0 0.

Definition noise_to_io_error (error : string) : io_error :=
  mk_io_error InvalidData ("noise transport error: " +:+ error).

(** The fields a reader changes, and those a writer changes. *)
Definition set_read (s : NoiseStream) i t lb lp fl en ep pt pp : NoiseStream :=
  mkNoiseStream i t lb lp fl en ep pt pp (write_frame s) (write_frame_pos s) (write_pending_consumed s).
Definition set_write (s : NoiseStream) i t wf wp wc : NoiseStream :=
  mkNoiseStream i t (read_len_buf s) (read_len_pos s) (read_frame_len s) (read_encrypted s)
    (read_encrypted_pos s) (read_plaintext s) (read_plaintext_pos s) wf wp wc.

(** [&mut buf[pos..]] filled with [b] *)
Definition fill (buf : bytes) (pos : nat) (b : bytes) : bytes := take pos buf ++ b ++ drop (pos + length b) buf.

(** ** Reading *)

(** The loop over the two bytes of the length.  A step reads at least one byte, so two
    steps are enough: [fill_len_total].  [Some] is what the caller returns. *)
Fixpoint fill_len (fuel : nat) (s : NoiseStream) : outcome (NoiseStream * option (poll (io_result bool))) :=
  if bool_decide (read_len_pos s < length (read_len_buf s))%nat then
    match fuel with
    | O => OutOfFuel
    | S fuel =>
        let '(i, r) := inner_poll_read (inner s) (length (read_len_buf s) - read_len_pos s) in
        let s1 := set_read s i (session s) (read_len_buf s) (read_len_pos s) (read_frame_len s)
                    (read_encrypted s) (read_encrypted_pos s) (read_plaintext s) (read_plaintext_pos s) in
        match r with
        | Pending => Ret (s1, Some Pending)
        | Ready (Err e) => Ret (s1, Some (Ready (Err e)))
        | Ready (Ok []) =>
            if bool_decide (read_len_pos s = 0)%nat then Ret (s1, Some (Ready (Ok false)))
            else Ret (s1, Some (Ready (Err
                   (mk_io_error UnexpectedEof "noise frame ended while reading length prefix"))))
        | Ready (Ok b) =>
            fill_len fuel (set_read s i (session s) (fill (read_len_buf s) (read_len_pos s) b)
              (read_len_pos s + length b) (read_frame_len s) (read_encrypted s) (read_encrypted_pos s)
              (read_plaintext s) (read_plaintext_pos s))
        end
    end
  else Ret (s, None).

(** The loop over the ciphertext. *)
Fixpoint fill_body (fuel : nat) (s : NoiseStream) (frame_len : nat) :
    outcome (NoiseStream * option (poll (io_result bool))) :=
  if bool_decide (read_encrypted_pos s < frame_len)%nat then
    match fuel with
    | O => OutOfFuel
    | S fuel =>
        let '(i, r) := inner_poll_read (inner s) (frame_len - read_encrypted_pos s) in
        let s1 := set_read s i (session s) (read_len_buf s) (read_len_pos s) (read_frame_len s)
                    (read_encrypted s) (read_encrypted_pos s) (read_plaintext s) (read_plaintext_pos s) in
        match r with
        | Pending => Ret (s1, Some Pending)
        | Ready (Err e) => Ret (s1, Some (Ready (Err e)))
        | Ready (Ok []) =>
            Ret (s1, Some (Ready (Err
              (mk_io_error UnexpectedEof "noise frame ended while reading ciphertext"))))
        | Ready (Ok b) =>
            fill_body fuel (set_read s i (session s) (read_len_buf s) (read_len_pos s) (read_frame_len s)
              (fill (read_encrypted s) (read_encrypted_pos s) b) (read_encrypted_pos s + length b)
              (read_plaintext s) (read_plaintext_pos s)) frame_len
        end
    end
  else Ret (s, None).

(** [u16::from_be_bytes] *)
Definition u16_from_be (b : bytes) : nat := Z.to_nat (be_decode b).

(** The length of the frame, read unless it is known. *)
Definition fill_header (s : NoiseStream) : outcome (NoiseStream * option (poll (io_result bool))) :=
  match read_frame_len s with
  | Some _ => Ret (s, None)
  | None =>
      '(s, stop) ← fill_len 2 s;
      match stop with
      | Some r => Ret (s, Some r)
      | None =>
          let frame_len := u16_from_be (read_len_buf s) in
          Ret (set_read s (inner s) (session s) (read_len_buf s) (read_len_pos s) (Some frame_len)
                 (replicate frame_len x00) 0 (read_plaintext s) (read_plaintext_pos s), None)
      end
  end.

(** The ciphertext, and its decryption. *)
Definition fill_frame (s : NoiseStream) (frame_len : nat) :
    outcome (NoiseStream * option (poll (io_result bool))) :=
  '(s, stop) ← fill_body frame_len s frame_len;
  match stop with
  | Some r => Ret (s, Some r)
  | None =>
      match decrypt (receiving (session s)) (read_encrypted s) with
      | Err e => Ret (s, Some (Ready (Err (noise_to_io_error e))))
      | Ok (k, plaintext) =>
          let s := set_read s (inner s) (mkTransportState (sending (session s)) k) (read_len_buf s) 0 None [] 0
                     plaintext 0 in
          if bool_decide (read_plaintext s ≠ []) then Ret (s, Some (Ready (Ok true))) else Ret (s, None)
      end
  end.

(** One round of the loop of [poll_fill_plaintext]. *)
Definition fill_round (s : NoiseStream) : outcome (NoiseStream * option (poll (io_result bool))) :=
  if bool_decide (read_plaintext_pos s < length (read_plaintext s))%nat then Ret (s, Some (Ready (Ok true)))
  else
    let s := set_read s (inner s) (session s) (read_len_buf s) (read_len_pos s) (read_frame_len s)
               (read_encrypted s) (read_encrypted_pos s) [] 0 in
    '(s, stop) ← fill_header s;
    match stop with
    | Some r => Ret (s, Some r)
    | None =>
        match read_frame_len s with
        | None => Panic
        | Some frame_len => fill_frame s frame_len
        end
    end.

(** The bytes of the frame that is being read, and the plaintext not handed out yet. *)
Definition held (s : NoiseStream) : bytes :=
  match read_frame_len s with
  | None => take (read_len_pos s) (read_len_buf s)
  | Some _ => read_len_buf s ++ take (read_encrypted_pos s) (read_encrypted s)
  end.
Definition pend (s : NoiseStream) : bytes := drop (read_plaintext_pos s) (read_plaintext s).

(** A round that goes on has taken a frame, which is two bytes at least, off those that are
    here: [fill_rounds_total]. *)
Fixpoint fill_rounds (fuel : nat) (s : NoiseStream) : outcome (NoiseStream * poll (io_result bool)) :=
  match fuel with
  | O => OutOfFuel
  | S fuel =>
      '(s, stop) ← fill_round s;
      match stop with
      | Some r => Ret (s, r)
      | None => fill_rounds fuel s
      end
  end.

Definition poll_fill_plaintext (s : NoiseStream) : outcome (NoiseStream * poll (io_result bool)) :=
  fill_rounds (S (length (held s ++ rx (inner s)))) s.

(** What [poll_read] with a buffer of [len] bytes copies into it. *)
Definition poll_read (s : NoiseStream) (len : nat) : outcome (NoiseStream * poll (io_result bytes)) :=
  if bool_decide (len = 0)%nat then Ret (s, Ready (Ok []))
  else
    '(s, r) ← poll_fill_plaintext s;
    match r with
    | Pending => Ret (s, Pending)
    | Ready (Err e) => Ret (s, Ready (Err e))
    | Ready (Ok false) => Ret (s, Ready (Ok []))
    | Ready (Ok true) =>
        let b := take len (drop (read_plaintext_pos s) (read_plaintext s)) in
        let pos := (read_plaintext_pos s + length b)%nat in
        let '(pt, pos) := if bool_decide (pos = length (read_plaintext s)) then ([], 0%nat)
                          else (read_plaintext s, pos) in
        Ret (set_read s (inner s) (session s) (read_len_buf s) (read_len_pos s) (read_frame_len s)
               (read_encrypted s) (read_encrypted_pos s) pt pos, Ready (Ok b))
    end.

(** ** Writing *)

(** [(n as u16).to_be_bytes()] *)
Definition u16_to_be (n : nat) : bytes := be_encode 2 (Z.of_nat n mod 65536).

Definition queue_encrypted_frame (s : NoiseStream) (plaintext : bytes) : NoiseStream * io_result nat :=
  let plaintext_len := Nat.min (length plaintext) MAX_NOISE_PLAINTEXT_LEN in
  match encrypt (sending (session s)) (take plaintext_len plaintext) with
  | Err e => (s, Err (noise_to_io_error e))
  | Ok (k, ciphertext) =>
      (set_write s (inner s) (mkTransportState k (receiving (session s)))
         (u16_to_be (length ciphertext) ++ ciphertext) 0 (write_pending_consumed s), Ok plaintext_len)
  end.

(** The loop of [poll_flush_pending_frame]: each step writes at least one byte. *)
Fixpoint flush_loop (fuel : nat) (s : NoiseStream) : outcome (NoiseStream * option (poll (io_result unit))) :=
  if bool_decide (write_frame_pos s < length (write_frame s))%nat then
    match fuel with
    | O => OutOfFuel
    | S fuel =>
        let '(i, r) := inner_poll_write (inner s) (drop (write_frame_pos s) (write_frame s)) in
        let s1 := set_write s i (session s) (write_frame s) (write_frame_pos s) (write_pending_consumed s) in
        match r with
        | Pending => Ret (s1, Some Pending)
        | Ready (Err e) => Ret (s1, Some (Ready (Err e)))
        | Ready (Ok O) =>
            Ret (s1, Some (Ready (Err (mk_io_error WriteZero "failed to flush buffered noise frame"))))
        | Ready (Ok n) =>
            flush_loop fuel (set_write s i (session s) (write_frame s) (write_frame_pos s + n)
              (write_pending_consumed s))
        end
    end
  else Ret (s, None).

Definition poll_flush_pending_frame (s : NoiseStream) : outcome (NoiseStream * poll (io_result unit)) :=
  '(s, stop) ← flush_loop (length (write_frame s) - write_frame_pos s) s;
  match stop with
  | Some r => Ret (s, r)
  | None =>
      let '(i, r) := inner_poll_flush (inner s) in
      match r with
      | Ready (Ok _) => Ret (set_write s i (session s) [] 0 (write_pending_consumed s), Ready (Ok tt))
      | _ => Ret (set_write s i (session s) (write_frame s) (write_frame_pos s) (write_pending_consumed s), r)
      end
  end.

Definition set_consumed (s : NoiseStream) n :=
  set_write s (inner s) (session s) (write_frame s) (write_frame_pos s) n.

Definition poll_write (s : NoiseStream) (buf : bytes) : outcome (NoiseStream * poll (io_result nat)) :=
  if bool_decide (0 < write_pending_consumed s)%nat then
    '(s, r) ← poll_flush_pending_frame s;
    match r with
    | Ready (Ok _) => Ret (set_consumed s 0, Ready (Ok (write_pending_consumed s)))
    | Ready (Err e) => Ret (set_consumed s 0, Ready (Err e))
    | Pending => Ret (s, Pending)
    end
  else
    '(s, r) ← if bool_decide (write_frame s ≠ []) then poll_flush_pending_frame s else Ret (s, Ready (Ok tt));
    match r with
    | Ready (Err e) => Ret (s, Ready (Err e))
    | Pending => Ret (s, Pending)
    | Ready (Ok _) =>
        if bool_decide (buf = []) then Ret (s, Ready (Ok 0%nat))
        else
          let '(s, queued) := queue_encrypted_frame s buf in
          match queued with
          | Err e => Ret (s, Ready (Err e))
          | Ok consumed =>
              '(s, r) ← poll_flush_pending_frame s;
              match r with
              | Ready (Ok _) => Ret (s, Ready (Ok consumed))
              | Ready (Err e) => Ret (s, Ready (Err e))
              | Pending => Ret (set_consumed s consumed, Pending)
              end
          end
    end.

(** [poll_flush] and [poll_close]: the frame that is left, then the connection. *)
Definition poll_flush (s : NoiseStream) : outcome (NoiseStream * poll (io_result unit)) :=
  '(s, r) ← poll_flush_pending_frame s;
  match r with
  | Ready (Ok _) =>
      let '(i, r) := inner_poll_flush (inner s) in
      Ret (set_write s i (session s) (write_frame s) (write_frame_pos s) (write_pending_consumed s), r)
  | _ => Ret (s, r)
  end.

Definition poll_close : NoiseStream → outcome (NoiseStream * poll (io_result unit)) := poll_flush.

(** ** What reading and writing leave alone *)

Definition read_view (s : NoiseStream) :=
  (rx (inner s), rx_polls (inner s), receiving (session s), read_len_buf s, read_len_pos s, read_frame_len s,
   read_encrypted s, read_encrypted_pos s, read_plaintext s, read_plaintext_pos s).
Definition write_view (s : NoiseStream) :=
  (wire (inner s), sending (session s), write_frame s, write_frame_pos s, write_pending_consumed s).

(** ** The reader *)

Record reader_ok (s : NoiseStream) : Prop := {
  len_buf_two : length (read_len_buf s) = 2%nat;
  len_pos_two : (read_len_pos s ≤ 2)%nat;
  body_ok n : read_frame_len s = Some n →
    n = u16_from_be (read_len_buf s) ∧ length (read_encrypted s) = n ∧ (read_encrypted_pos s ≤ n)%nat;
}.

(** A frame that has not arrived in full. *)
Definition incomplete (h : bytes) : Prop :=
  (0 < length h < 2)%nat ∨ ∃ lb part, h = lb ++ part ∧ length lb = 2%nat ∧ (length part < u16_from_be lb)%nat.

(** Why a reader stops before a frame is complete. *)
Definition stops (s s' : NoiseStream) (o : poll (io_result bool)) : Prop :=
  match o with
  | Pending => True
  | Ready (Ok false) => held s' = [] ∧ rx (inner s') = []
  | Ready (Ok true) => False
  | Ready (Err e) => RdError e ∈ rx_polls (inner s) ∨ (rx (inner s') = [] ∧ incomplete (held s'))
  end.

(** Bytes are neither lost nor invented. *)
Record conserves (s s' : NoiseStream) : Prop := {
  conserves_bytes : held s' ++ rx (inner s') = held s ++ rx (inner s);
  conserves_key : receiving (session s') = receiving (session s);
  conserves_writer : write_view s' = write_view s;
  conserves_polls : suffix (rx_polls (inner s')) (rx_polls (inner s));
}.

#[local] Instance conserves_preorder : PreOrder conserves.
Proof.
  split; [by intros s; split|]. intros s1 s2 s3 [E1 R1 W1 P1] [E2 R2 W2 P2].
  split; [by rewrite E2|by rewrite R2|by rewrite W2|by trans (rx_polls (inner s2))].
Qed.

Lemma inner_poll_read_spec i len i' r :
  (0 < len)%nat → inner_poll_read i len = (i', r) →
  wire i' = wire i ∧ suffix (rx_polls i') (rx_polls i) ∧
  match r with
  | Pending => rx i' = rx i
  | Ready (Err e) => rx i' = rx i ∧ RdError e ∈ rx_polls i
  | Ready (Ok b) => rx i = b ++ rx i' ∧ (length b ≤ len)%nat ∧ (b = [] → rx i' = [])
  end.
Proof.
  intros Hlen. unfold inner_poll_read. destruct (rx_polls i) as [|[|n|e] ps] eqn:E; intros [= <- <-];
    cbn [rx rx_polls wire].
  - by rewrite E.
  - split_and!; [done|by apply suffix_cons_r|done].
  - split_and!; [done|by apply suffix_cons_r|by rewrite take_drop|rewrite length_take; destruct len; lia|].
    intros Ht. destruct (rx i) as [|b l]; [by rewrite drop_nil|]. destruct len; [lia|]. by simpl in Ht.
  - split_and!; [done|by apply suffix_cons_r|done|set_solver].
Qed.

Lemma stops_suffix s1 s2 s' o :
  suffix (rx_polls (inner s2)) (rx_polls (inner s1)) → stops s2 s' o → stops s1 s' o.
Proof.
  intros [l E]. destruct o as [[[]|e]|]; try done. intros [Ho|Ho]; [left|by right].
  rewrite E. set_solver.
Qed.

Lemma fill_spec buf pos b :
  (pos + length b ≤ length buf)%nat →
  length (fill buf pos b) = length buf ∧ take (pos + length b) (fill buf pos b) = take pos buf ++ b.
Proof.
  intros Hl. unfold fill. rewrite !length_app, length_take, length_drop. split; [lia|].
  rewrite app_assoc, take_app_length'; [done|]. rewrite length_app, length_take. lia.
Qed.

Lemma fill_len_spec fuel s :
  reader_ok s → read_frame_len s = None → (2 - read_len_pos s ≤ fuel)%nat →
  ∃ s' o, fill_len fuel s = Ret (s', o) ∧ reader_ok s' ∧ conserves s s' ∧ read_frame_len s' = None ∧
    pend s' = pend s ∧
    match o with None => read_len_pos s' = 2%nat | Some o => stops s s' o end.
Proof.
  revert s. induction fuel as [|fuel IH]; intros s [Hb Hp Hbody] Hf Hfuel; cbn [fill_len]; rewrite Hb.
  { rewrite bool_decide_false by lia. exists s, None. split_and!; [done|by split|done|done|done|lia]. }
  case_bool_decide as Hlt.
  2:{ exists s, None. split_and!; [done|by split|done|done|done|lia]. }
  destruct (inner_poll_read (inner s) (2 - read_len_pos s)) as [i r] eqn:E.
  apply inner_poll_read_spec in E as (Hw & Hsuf & Hr); [|lia].
  set (s1 := set_read s i (session s) (read_len_buf s) (read_len_pos s) (read_frame_len s) (read_encrypted s)
    (read_encrypted_pos s) (read_plaintext s) (read_plaintext_pos s)).
  assert (reader_ok s1) as Hok1 by by split.
  destruct r as [[b|e]|].
  - destruct Hr as (Hrx & Hl & Hnil). destruct b as [|x b].
    + specialize (Hnil eq_refl). assert (conserves s s1) as Hcons.
      { split; [|done|unfold write_view; simpl; by rewrite Hw|done].
        unfold held. simpl. rewrite Hf. by rewrite Hrx, Hnil. }
      case_bool_decide as H0; do 2 eexists; (split_and!; [done|done|done|done|done|]).
      * split; [|done]. unfold held. simpl. by rewrite Hf, H0.
      * right. split; [done|]. left. unfold held. simpl. rewrite Hf, length_take. lia.
    + assert (0 < length (x :: b))%nat as Hb0 by (simpl; lia). set (b0 := x :: b) in *. clearbody b0.
      destruct (fill_spec (read_len_buf s) (read_len_pos s) b0) as [Hfl Hft]; [lia|].
      match goal with |- context [fill_len fuel ?x] => set (s2 := x) end.
      destruct (IH s2) as (s' & o & Hrun & Hok & Hc & Hn & Hpe & Ho).
      { split; simpl; [by rewrite Hfl|lia|]. by rewrite Hf. }
      { done. } { simpl. lia. }
      assert (conserves s s2) as Hc2.
      { split; [|done|unfold write_view; simpl; by rewrite Hw|done].
        unfold held. simpl. rewrite Hf, Hrx. rewrite app_assoc. f_equal.
        by rewrite Hft. }
      exists s', o. split_and!; [done|done|by trans s2|done|done|].
      destruct o as [o|]; [|done]. by apply (stops_suffix s s2).
  - destruct Hr as [Hrx He]. do 2 eexists. split_and!; [done|done| |done|done|by left].
    split; [|done|unfold write_view; simpl; by rewrite Hw|done]. unfold held. simpl. by rewrite Hrx.
  - do 2 eexists. split_and!; [done|done| |done|done|done].
    split; [|done|unfold write_view; simpl; by rewrite Hw|done]. unfold held. simpl. by rewrite Hr.
Qed.
Lemma fill_body_spec fuel s n :
  reader_ok s → read_frame_len s = Some n → (n - read_encrypted_pos s ≤ fuel)%nat →
  ∃ s' o, fill_body fuel s n = Ret (s', o) ∧ reader_ok s' ∧ conserves s s' ∧ read_frame_len s' = Some n ∧
    pend s' = pend s ∧ read_len_buf s' = read_len_buf s ∧
    match o with None => read_encrypted_pos s' = n | Some o => stops s s' o end.
Proof.
  revert s. induction fuel as [|fuel IH]; intros s [Hb Hp Hbody] Hf Hfuel; cbn [fill_body];
    destruct (Hbody n Hf) as (Hn & Hen & Hpos).
  { rewrite bool_decide_false by lia. exists s, None. split_and!; [done|by split|done|done|done|done|lia]. }
  case_bool_decide as Hlt.
  2:{ exists s, None. split_and!; [done|by split|done|done|done|done|lia]. }
  destruct (inner_poll_read (inner s) (n - read_encrypted_pos s)) as [i r] eqn:E.
  apply inner_poll_read_spec in E as (Hw & Hsuf & Hr); [|lia].
  set (s1 := set_read s i (session s) (read_len_buf s) (read_len_pos s) (read_frame_len s) (read_encrypted s)
    (read_encrypted_pos s) (read_plaintext s) (read_plaintext_pos s)).
  assert (reader_ok s1) as Hok1 by by split.
  destruct r as [[b|e]|].
  - destruct Hr as (Hrx & Hl & Hnil). destruct b as [|x b].
    + specialize (Hnil eq_refl). do 2 eexists. split_and!; [done|done| |done|done|done|].
      { split; [|done|unfold write_view; simpl; by rewrite Hw|done].
        unfold held. simpl. rewrite Hf. by rewrite Hrx, Hnil. }
      right. split; [done|]. right. unfold held. simpl. rewrite Hf. do 2 eexists.
      split_and!; [done|done|]. rewrite length_take. lia.
    + assert (0 < length (x :: b))%nat as Hb0 by (simpl; lia). set (b0 := x :: b) in *. clearbody b0.
      destruct (fill_spec (read_encrypted s) (read_encrypted_pos s) b0) as [Hfl Hft]; [lia|].
      match goal with |- context [fill_body fuel ?x] => set (s2 := x) end.
      destruct (IH s2) as (s' & o & Hrun & Hok & Hc & Hn' & Hpe & Hlb & Ho).
      { split; simpl; [done|done|]. rewrite Hf, Hfl. intros m [= <-]. split_and!; [done|done|]. lia. }
      { done. } { simpl. lia. }
      assert (conserves s s2) as Hc2.
      { split; [|done|unfold write_view; simpl; by rewrite Hw|done].
        unfold held. simpl. rewrite Hf, Hrx. rewrite <-!app_assoc. f_equal. rewrite app_assoc. f_equal.
        by rewrite Hft. }
      exists s', o. split_and!; [done|done|by trans s2|done|done|done|].
      destruct o as [o|]; [|done]. by apply (stops_suffix s s2).
  - destruct Hr as [Hrx He]. do 2 eexists. split_and!; [done|done| |done|done|done|by left].
    split; [|done|unfold write_view; simpl; by rewrite Hw|done]. unfold held. simpl. by rewrite Hrx.
  - do 2 eexists. split_and!; [done|done| |done|done|done|done].
    split; [|done|unfold write_view; simpl; by rewrite Hw|done]. unfold held. simpl. by rewrite Hr.
Qed.

(** What a round does: nothing while there is plaintext, stop with the bytes it has, or
    take a whole frame. *)
Inductive round (s s' : NoiseStream) : option (poll (io_result bool)) → Prop :=
  | round_ready : pend s ≠ [] → s' = s → round s s' (Some (Ready (Ok true)))
  | round_stop o : pend s = [] → pend s' = [] → conserves s s' → stops s s' o → round s s' (Some o)
  | round_bad lb ct e :
      pend s = [] → pend s' = [] → conserves s s' → held s' = lb ++ ct → length lb = 2%nat →
      length ct = u16_from_be lb → decrypt (receiving (session s)) ct = Err e →
      round s s' (Some (Ready (Err (noise_to_io_error e))))
  | round_frame lb ct :
      pend s = [] → held s ++ rx (inner s) = lb ++ ct ++ rx (inner s') → length lb = 2%nat →
      length ct = u16_from_be lb →
      decrypt (receiving (session s)) ct = Ok (receiving (session s'), pend s') →
      held s' = [] → write_view s' = write_view s →
      suffix (rx_polls (inner s')) (rx_polls (inner s)) →
      round s s' (if bool_decide (pend s' ≠ []) then Some (Ready (Ok true)) else None).

Lemma fill_header_spec s :
  reader_ok s → pend s = [] →
  ∃ s' o, fill_header s = Ret (s', o) ∧ reader_ok s' ∧ conserves s s' ∧ pend s' = [] ∧
    match o with None => is_Some (read_frame_len s') | Some o => stops s s' o end.
Proof.
  intros Hok Hpe. unfold fill_header. destruct (read_frame_len s) eqn:Hf.
  { exists s, None. split_and!; [done..|by rewrite Hf]. }
  destruct (fill_len_spec 2 s) as (s1 & o & -> & [Hb Hp _] & Hc & Hn & Hpe' & Ho); [done|done|lia|].
  cbn [mbind outcome_bind]. rewrite Hpe in Hpe'.
  destruct o as [o|].
  { do 2 eexists; split_and!; [done| |done|done|done]. split; [done|done|by rewrite Hn]. }
  do 2 eexists; split_and!; [done| | |done|by eexists].
  - split; [done..|]. simpl. intros n [= <-]. rewrite length_replicate. split_and!; [done|done|lia].
  - destruct Hc as [Hc1 Hc2 Hc3 Hc4]. split; [|done..]. rewrite <-Hc1. unfold held. rewrite Hn. simpl.
    by rewrite take_0, app_nil_r, (take_ge (read_len_buf s1)) by (rewrite Ho, Hb; lia).
Qed.

Lemma round_conserves s s1 s2 o :
  pend s = [] → pend s1 = [] → conserves s s1 → round s1 s2 o → round s s2 o.
Proof.
  intros Hs Hs1 Hc Hr. pose proof Hc as [Hc1 Hc2 Hc3 Hc4].
  destruct Hr as [Hp|o Hp Hp' Hc' Ho|lb ct e Hp Hp' Hc' Hh Hl Hct Hd|lb ct Hp Hb Hl Hct Hd Hh Hw Hsuf];
    [done| | |].
  - apply round_stop; [done|done|by trans s1|by apply (stops_suffix s s1)].
  - eapply round_bad; [done|done|by trans s1|done|done|done|by rewrite <-Hc2].
  - eapply round_frame; [done|by rewrite <-Hc1|done|done|by rewrite <-Hc2|done|by rewrite Hw|].
    by trans (rx_polls (inner s1)).
Qed.

Lemma fill_frame_spec s n :
  reader_ok s → pend s = [] → read_frame_len s = Some n →
  ∃ s' o, fill_frame s n = Ret (s', o) ∧ reader_ok s' ∧ round s s' o.
Proof.
  intros Hok Hpe Hf. unfold fill_frame.
  destruct (fill_body_spec n s n) as (s1 & o & -> & Hok1 & Hc & Hn & Hpe' & Hlb & Ho); [done|done|lia|].
  cbn [mbind outcome_bind]. rewrite Hpe in Hpe'. destruct o as [o|].
  { do 2 eexists. split_and!; [done|done|]. by constructor. }
  destruct (body_ok _ Hok1 _ Hn) as (Hlen & Hen & _). pose proof (len_buf_two _ Hok1) as Hb.
  assert (held s1 = read_len_buf s1 ++ read_encrypted s1) as Hh.
  { unfold held. rewrite Hn, take_ge by lia. done. }
  destruct Hc as [Hc1 Hc2 Hc3 Hc4].
  destruct (decrypt (receiving (session s1)) (read_encrypted s1)) as [[k p]|e] eqn:Ed; rewrite Hc2 in Ed.
  - cbn [read_plaintext set_read]. set (s2 := set_read s1 _ _ _ _ _ _ _ _ _).
    assert (reader_ok s2) as Hok2 by (split; [done|simpl; lia|done]).
    assert (round s s2 (if bool_decide (pend s2 ≠ []) then Some (Ready (Ok true)) else None)) as Hr.
    { apply (round_frame s s2 (read_len_buf s1) (read_encrypted s1)); try done; [|lia].
      by rewrite <-Hc1, Hh, <-app_assoc. }
    change (pend s2) with p in Hr. case_bool_decide; eauto.
  - do 2 eexists. split_and!; [done|done|]. by apply (round_bad s s1 (read_len_buf s1) (read_encrypted s1)); [..|lia|].
Qed.

Lemma fill_round_spec s :
  reader_ok s → ∃ s' o, fill_round s = Ret (s', o) ∧ reader_ok s' ∧ round s s' o.
Proof.
  intros Hok. unfold fill_round. case_bool_decide as Hlt.
  { exists s, (Some (Ready (Ok true))). split_and!; [done..|]. constructor; [|done].
    intros E. apply (f_equal length) in E. unfold pend in E. rewrite length_drop in E. simpl in E. lia. }
  assert (pend s = []) as Hpe by (apply drop_ge; lia).
  set (s0 := set_read s _ _ _ _ _ _ _ [] 0).
  assert (reader_ok s0) as Hok0 by (destruct Hok; by split).
  assert (pend s0 = []) as Hpe0 by done.
  assert (conserves s s0) as Hc0 by by split.
  destruct (fill_header_spec s0) as (s1 & o & -> & Hok1 & Hc & Hpe1 & Ho); [done..|].
  cbn [mbind outcome_bind]. assert (conserves s s1) as Hcs by by trans s0.
  destruct o as [o|].
  { do 2 eexists. split_and!; [done|done|]. by constructor. }
  destruct Ho as [n Hn]. rewrite Hn.
  destruct (fill_frame_spec s1 n) as (s2 & o & -> & Hok2 & Hr); [done..|].
  do 2 eexists. split_and!; [done|done|]. by apply (round_conserves s s1).
Qed.
(** Whatever arrives, a poll comes to an end. *)
Lemma fill_rounds_total fuel s :
  reader_ok s → (length (held s ++ rx (inner s)) < fuel)%nat →
  ∃ s' r, fill_rounds fuel s = Ret (s', r) ∧ reader_ok s' ∧ write_view s' = write_view s.
Proof.
  revert s. induction fuel as [|fuel IH]; intros s Hok Hfuel; [lia|]. cbn [fill_rounds].
  destruct (fill_round_spec s Hok) as (s1 & o & -> & Hok1 & Hr). cbn [mbind outcome_bind].
  assert (write_view s1 = write_view s) as Hw by (destruct Hr as [? ->|? ? ? []|? ? ? ? ? []|]; done).
  destruct o as [r|]; [by eauto|].
  inversion Hr as [| | |lb ct Hp Hb Hl Hct Hd Hh Hw1 Hsuf Ho]. subst.
  destruct (IH s1 Hok1) as (s2 & r & -> & Hok2 & Hw2).
  { rewrite Hb, !length_app, Hl in Hfuel. rewrite Hh. simpl. lia. }
  do 2 eexists. by rewrite Hw2.
Qed.

Lemma poll_read_total s n :
  reader_ok s → ∃ s' r, poll_read s n = Ret (s', r) ∧ reader_ok s' ∧ write_view s' = write_view s.
Proof.
  intros Hok. unfold poll_read. case_bool_decide as Hn; [by eauto|].
  destruct (fill_rounds_total (S (length (held s ++ rx (inner s)))) s Hok) as (s1 & o & Hrun & Hok1 & Hw1); [lia|].
  unfold poll_fill_plaintext. rewrite Hrun. cbn [mbind outcome_bind]. destruct o as [[[]|e]|]; [|by eauto..].
  case_bool_decide; do 2 eexists; (split_and!; [done| |done]); by destruct Hok1.
Qed.

(** ** What is on the wire *)

(** The frames of [chunks], and the cipher state after them. *)
Fixpoint frames_of (k : CipherState) (chunks : list bytes) : option (CipherState * bytes) :=
  match chunks with
  | [] => Some (k, [])
  | p :: chunks =>
      match encrypt k p with
      | Err _ => None
      | Ok (k, c) => '(k, rest) ← frames_of k chunks; Some (k, u16_to_be (length c) ++ c ++ rest)
      end
  end.

Definition fits (p : bytes) : Prop := (length p ≤ MAX_NOISE_PLAINTEXT_LEN)%nat.

Lemma frames_of_app k chunks chunks' k1 w :
  frames_of k chunks = Some (k1, w) →
  frames_of k (chunks ++ chunks') = '(k2, w') ← frames_of k1 chunks'; Some (k2, w ++ w').
Proof.
  revert k w. induction chunks as [|p chunks IH]; intros k w; simpl.
  { intros [= -> <-]. by destruct (frames_of k1 chunks') as [[]|]. }
  destruct (encrypt k p) as [[k' c]|]; [|done].
  destruct (frames_of k' chunks) as [[k2 w2]|] eqn:E; [|done]. simpl. intros [= -> <-].
  rewrite (IH _ _ E). destruct (frames_of k1 chunks') as [[k3 w3]|]; [|done]. simpl. by rewrite <-!app_assoc.
Qed.

Lemma u16_roundtrip n : (n ≤ MAX_NOISE_FRAME_LEN)%nat → u16_from_be (u16_to_be n) = n.
Proof.
  unfold u16_from_be, u16_to_be, MAX_NOISE_FRAME_LEN. intros Hn. rewrite be_decode_encode.
  change (2 ^ (8 * Z.of_nat 2)) with 65536. rewrite Zmod_mod, Z.mod_small; lia.
Qed.

Lemma length_u16_to_be n : length (u16_to_be n) = 2%nat.
Proof. apply length_be_encode. Qed.

(** ** The writer *)

(** What is left of the frame. *)
Definition unsent (s : NoiseStream) : bytes := drop (write_frame_pos s) (write_frame s).

(** The chunks [p] have been queued, and nothing else has changed for the peer. *)
Record writes (s s' : NoiseStream) (p : list bytes) : Prop := {
  writes_reader : read_view s' = read_view s;
  writes_grows : prefix (wire (inner s)) (wire (inner s'));
  writes_frames : ∃ w, frames_of (sending (session s)) p = Some (sending (session s'), w) ∧
    wire (inner s') ++ unsent s' = wire (inner s) ++ unsent s ++ w;
  writes_fits : Forall fits p;
}.

Lemma writes_refl s : writes s s [].
Proof. split; [done|done|exists []; by rewrite app_nil_r|done]. Qed.

Lemma writes_trans s1 s2 s3 p q : writes s1 s2 p → writes s2 s3 q → writes s1 s3 (p ++ q).
Proof.
  intros [R1 G1 (w1 & F1 & W1) B1] [R2 G2 (w2 & F2 & W2) B2].
  split; [by rewrite R2|by trans (wire (inner s2))| |by apply Forall_app].
  exists (w1 ++ w2). rewrite (frames_of_app _ _ _ _ _ F1), F2. split; [done|].
  by rewrite W2, app_assoc, W1, <-!app_assoc.
Qed.

(** The writer's counters are not those of the wire. *)
Lemma writes_consumed s s' p n : writes s s' p → writes s (set_consumed s' n) p.
Proof. by intros [? ? ? ?]. Qed.

Lemma inner_poll_write_spec i buf i' r :
  inner_poll_write i buf = (i', r) →
  rx i' = rx i ∧ rx_polls i' = rx_polls i ∧
  match r with
  | Ready (Ok n) => wire i' = wire i ++ take n buf ∧ (n ≤ length buf)%nat
  | _ => wire i' = wire i
  end.
Proof.
  unfold inner_poll_write. destruct (wr_polls i) as [|[|n|e] ps]; intros [= <- <-]; cbn; try done.
  split_and!; [done..|lia].
Qed.

Lemma inner_poll_flush_spec i i' r :
  inner_poll_flush i = (i', r) → rx i' = rx i ∧ rx_polls i' = rx_polls i ∧ wire i' = wire i.
Proof. unfold inner_poll_flush. by destruct (fl_polls i) as [|[] ps]; intros [= <- <-]. Qed.

Lemma flush_loop_spec fuel s :
  (length (write_frame s) - write_frame_pos s ≤ fuel)%nat →
  ∃ s' o, flush_loop fuel s = Ret (s', o) ∧ writes s s' [] ∧
    write_pending_consumed s' = write_pending_consumed s ∧
    match o with None => unsent s' = [] | Some (Ready (Ok _)) => False | Some _ => True end.
Proof.
  revert s. induction fuel as [|fuel IH]; intros s Hfuel; cbn [flush_loop].
  { rewrite bool_decide_false by lia. exists s, None. split_and!; [done|apply writes_refl|done|apply drop_ge; lia]. }
  case_bool_decide as Hlt.
  2:{ exists s, None. split_and!; [done|apply writes_refl|done|apply drop_ge; lia]. }
  destruct (inner_poll_write (inner s) (drop (write_frame_pos s) (write_frame s))) as [i r] eqn:E.
  apply inner_poll_write_spec in E as (Hrx & Hps & Hr).
  set (next pos := set_write s i (session s) (write_frame s) pos (write_pending_consumed s)).
  assert (∀ n, wire i = wire (inner s) ++ take n (unsent s) → (n ≤ length (unsent s))%nat →
    writes s (next (write_frame_pos s + n)%nat) []) as Hnext.
  { intros n Hw Hn. split; [unfold read_view; simpl; by rewrite Hrx, Hps| | |done].
    - simpl. rewrite Hw. by apply prefix_app_r.
    - exists []. split; [done|]. unfold unsent. simpl. rewrite Hw, app_nil_r, <-app_assoc. f_equal.
      rewrite <-drop_drop. apply take_drop. }
  assert (wire i = wire (inner s) → writes s (next (write_frame_pos s)) []) as Hstay.
  { intros Hw. rewrite <-(Nat.add_0_r (write_frame_pos s)). apply Hnext; [by rewrite take_0, app_nil_r|lia]. }
  destruct r as [[[|n]|e]|].
  - exists (next (write_frame_pos s)), (Some (Ready (Err (mk_io_error WriteZero "failed to flush buffered noise frame")))).
    destruct Hr as [Hr _]. split_and!; [done| |done|done]. apply Hstay. by rewrite Hr, take_0, app_nil_r.
  - destruct Hr as [Hw Hn].
    destruct (IH (next (write_frame_pos s + S n)%nat)) as (s' & o & Hrun & Hwr & Hc & Ho); [simpl; lia|].
    exists s', o. split_and!; [done| |done|done]. by apply (writes_trans _ _ _ [] [] (Hnext (S n) Hw Hn)).
  - do 2 eexists. split_and!; [done|by apply Hstay|done|done].
  - do 2 eexists. split_and!; [done|by apply Hstay|done|done].
Qed.

Lemma poll_flush_pending_frame_spec s :
  ∃ s' r, poll_flush_pending_frame s = Ret (s', r) ∧ writes s s' [] ∧
    write_pending_consumed s' = write_pending_consumed s ∧ (r = Ready (Ok tt) → write_frame s' = []).
Proof.
  unfold poll_flush_pending_frame.
  destruct (flush_loop_spec (length (write_frame s) - write_frame_pos s) s) as (s1 & o & -> & Hw & Hc & Ho); [lia|].
  cbn [mbind outcome_bind]. destruct o as [r|].
  { exists s1, r. split_and!; [done..|by intros ->]. }
  destruct (inner_poll_flush (inner s1)) as [i r] eqn:E. apply inner_poll_flush_spec in E as (Hrx & Hps & Hwi).
  assert (∀ wf pos, drop pos wf = [] → writes s1 (set_write s1 i (session s1) wf pos (write_pending_consumed s1)) [])
    as Hnext.
  { intros wf pos Hd. split; [unfold read_view; simpl; by rewrite Hrx, Hps|simpl; by rewrite Hwi| |done].
    exists []. split; [done|]. rewrite Ho. unfold unsent. simpl. by rewrite Hwi, Hd. }
  destruct r as [[[]|e]|].
  - exists (set_write s1 i (session s1) [] 0 (write_pending_consumed s1)), (Ready (Ok tt)).
    split_and!; [done|by apply (writes_trans _ _ _ [] [] Hw), Hnext|done|done].
  - do 2 eexists. split_and!; [done|by apply (writes_trans _ _ _ [] [] Hw), Hnext|done|done].
  - do 2 eexists. split_and!; [done|by apply (writes_trans _ _ _ [] [] Hw), Hnext|done|done].
Qed.

Lemma queue_spec s buf s' n :
  write_frame s = [] → queue_encrypted_frame s buf = (s', Ok n) →
  writes s s' [take n buf] ∧ write_pending_consumed s' = write_pending_consumed s ∧
  n = Nat.min (length buf) MAX_NOISE_PLAINTEXT_LEN.
Proof.
  intros Hwf. unfold queue_encrypted_frame. set (m := Nat.min (length buf) MAX_NOISE_PLAINTEXT_LEN).
  destruct (encrypt (sending (session s)) (take m buf)) as [[k c]|] eqn:E; intros Hq;
    apply pair_equal_spec in Hq as [<- Hn]; [|done]. injection Hn as <-.
  split_and!; [|done|done]. split; [done|done| |].
  - exists (u16_to_be (length c) ++ c). cbn [frames_of]. rewrite E. cbn [mbind option_bind].
    rewrite app_nil_r. split; [done|]. unfold unsent. by rewrite Hwf, drop_nil.
  - apply Forall_singleton. unfold fits. rewrite length_take. lia.
Qed.

(** A write queues a prefix of the buffer, once; what a poll returns adds up. *)
Lemma poll_write_spec s buf :
  ∃ s' r p, poll_write s buf = Ret (s', r) ∧ writes s s' p ∧ prefix (concat p) buf ∧
    ((0 < write_pending_consumed s)%nat → p = []) ∧
    match r with
    | Ready (Ok n) =>
        write_pending_consumed s' = 0%nat ∧ n = (write_pending_consumed s + length (concat p))%nat
    | Pending => write_pending_consumed s' = (write_pending_consumed s + length (concat p))%nat
    | Ready (Err _) => True
    end.
Proof.
  unfold poll_write. destruct (poll_flush_pending_frame_spec s) as (s1 & r & E1 & W1 & C1 & F1).
  case_bool_decide as Hpend.
  { rewrite E1. cbn [mbind outcome_bind]. destruct r as [[[]|e]|]; do 2 eexists; exists [];
      (split_and!; [done|first [done|by apply writes_consumed]|apply prefix_nil|done|simpl; lia..]). }
  assert (∃ s2 r2, (if bool_decide (write_frame s ≠ []) then poll_flush_pending_frame s else Ret (s, Ready (Ok tt)))
            = Ret (s2, r2) ∧ writes s s2 [] ∧ write_pending_consumed s2 = 0%nat ∧
            (r2 = Ready (Ok tt) → write_frame s2 = [])) as (s2 & r2 & -> & W2 & C2 & F2).
  { case_bool_decide as Hwf; [exists s1, r; split_and!; [done..|lia|done]|].
    exists s, (Ready (Ok tt)). split_and!; [done|apply writes_refl|lia|done]. }
  cbn [mbind outcome_bind]. destruct r2 as [[[]|e]|];
    [specialize (F2 eq_refl)
    |do 2 eexists; exists []; (split_and!; [done|done|apply prefix_nil|done|done])
    |do 2 eexists; exists []; (split_and!; [done|done|apply prefix_nil|done|simpl; lia])].
  case_bool_decide as Hbuf.
  { do 2 eexists; exists []. split_and!; [done|done|apply prefix_nil|done|simpl; lia]. }
  destruct (queue_encrypted_frame s2 buf) as [s3 [n|e]] eqn:Eq.
  2:{ exists s2, (Ready (Err e)), []. unfold queue_encrypted_frame in Eq.
      destruct (encrypt _ _) as [[]|]; [done|]. injection Eq as -> <-.
      split_and!; [done|done|apply prefix_nil|done|done]. }
  apply queue_spec in Eq as (W3 & C3 & ->); [|done]. set (n := Nat.min _ _) in *.
  destruct (poll_flush_pending_frame_spec s3) as (s4 & r4 & -> & W4 & C4 & F4). cbn [mbind outcome_bind].
  pose proof (writes_trans _ _ _ _ _ W2 (writes_trans _ _ _ _ _ W3 W4)) as W. simpl in W.
  assert (length (concat [take n buf]) = n) as Hlen by (simpl; rewrite app_nil_r, length_take; lia).
  assert (prefix (concat [take n buf]) buf) as Hpre by (simpl; rewrite app_nil_r; apply prefix_take).
  destruct r4 as [[[]|e]|]; do 2 eexists; exists [take n buf]; rewrite ?Hlen;
    (split_and!; [done|first [done|by apply writes_consumed]|done|lia|cbn; lia..]).
Qed.

Lemma poll_flush_spec s :
  ∃ s' r, poll_flush s = Ret (s', r) ∧ writes s s' [] ∧ write_pending_consumed s' = write_pending_consumed s.
Proof.
  unfold poll_flush. destruct (poll_flush_pending_frame_spec s) as (s1 & r & -> & W1 & C1 & F1).
  cbn [mbind outcome_bind]. destruct r as [[[]|e]|]; [|by eauto..].
  destruct (inner_poll_flush (inner s1)) as [i r] eqn:E. apply inner_poll_flush_spec in E as (Hrx & Hps & Hwi).
  do 2 eexists. split_and!; [done| |done]. apply (writes_trans _ _ _ [] [] W1).
  split; [unfold read_view; simpl; by rewrite Hrx, Hps|simpl; by rewrite Hwi| |done].
  exists []. split; [done|]. unfold unsent. simpl. by rewrite Hwi, app_nil_r.
Qed.

Context `{!CipherLaws}.

Lemma frames_of_length k p k' c : fits p → encrypt k p = Ok (k', c) → (length c ≤ MAX_NOISE_FRAME_LEN)%nat.
Proof.
  intros Hp Hc. apply decrypt_encrypt in Hc as [-> _].
  unfold fits, MAX_NOISE_PLAINTEXT_LEN, MAX_NOISE_FRAME_LEN, NOISE_TAG_LEN in *. lia.
Qed.

(** A frame at the head of the wire is the first chunk's. *)
Lemma frames_of_frame k chunks ke lb ct tl :
  Forall fits chunks → frames_of k chunks = Some (ke, lb ++ ct ++ tl) →
  length lb = 2%nat → length ct = u16_from_be lb →
  ∃ p rest k', chunks = p :: rest ∧ encrypt k p = Ok (k', ct) ∧ frames_of k' rest = Some (ke, tl).
Proof.
  destruct chunks as [|p chunks]; cbn [frames_of].
  { intros _ [= <- E]. destruct lb; simpl in *; [lia|done]. }
  intros [Hp _]%Forall_cons Hf Hlb Hct. destruct (encrypt k p) as [[k' c]|] eqn:He; [|done].
  destruct (frames_of k' chunks) as [[k2 w]|] eqn:E; [|done].
  cbn [mbind option_bind] in Hf. apply (inj Some), pair_equal_spec in Hf as [-> Hb].
  apply app_inj_1 in Hb as [<- Hb]; [|by rewrite length_u16_to_be].
  rewrite u16_roundtrip in Hct by by eapply frames_of_length.
  apply app_inj_1 in Hb as [<- <-]; [|done]. by eauto 10.
Qed.

(** Frames that have all arrived leave nothing incomplete behind. *)
Lemma frames_of_incomplete k chunks ke h missing :
  Forall fits chunks → frames_of k chunks = Some (ke, h ++ missing) → incomplete h → missing ≠ [].
Proof.
  destruct chunks as [|p chunks]; cbn [frames_of].
  { intros _ [= <- E]. destruct h; [|done]. intros [Hi|(lb & part & E' & Hl & _)]; [simpl in Hi; lia|].
    symmetry in E'. apply app_nil in E' as [-> ->]. done. }
  intros [Hp _]%Forall_cons Hf Hi ->. destruct (encrypt k p) as [[k' c]|] eqn:He; [|done].
  destruct (frames_of k' chunks) as [[k2 w]|] eqn:E; [|done].
  cbn [mbind option_bind] in Hf. apply (inj Some), pair_equal_spec in Hf as [-> Hb].
  rewrite app_nil_r in Hb. destruct Hi as [Hi|(lb & part & -> & Hl & Hpart)].
  - rewrite <-Hb, !length_app, length_u16_to_be in Hi. lia.
  - apply app_inj_1 in Hb as [<- Hb]; [|by rewrite length_u16_to_be].
    rewrite u16_roundtrip in Hpart by by eapply frames_of_length. rewrite <-Hb, length_app in Hpart. lia.
Qed.

(** The reader is due the chunks [rest]: those are the bytes it has, those that are here,
    and the ones that are still [missing]. *)
Record due (ke : CipherState) (s : NoiseStream) (rest : list bytes) (missing : bytes) : Prop := {
  due_ok : reader_ok s;
  due_fits : Forall fits rest;
  due_wire : frames_of (receiving (session s)) rest = Some (ke, held s ++ rx (inner s) ++ missing);
}.

(** What a reader reports of the chunks that are left. *)
Definition reports (ke : CipherState) (s s' : NoiseStream) (rest : list bytes) (missing : bytes)
    (o : poll (io_result bool)) : Prop :=
  match o with
  | Pending => pend s' = []
  | Ready (Ok true) => pend s' ≠ []
  | Ready (Ok false) => pend s' = [] ∧ (missing = [] → rest = [])
  | Ready (Err e) => pend s' = [] ∧ (RdError e ∈ rx_polls (inner s) ∨ missing ≠ [])
  end.

Lemma due_conserves ke s s' rest missing :
  conserves s s' → reader_ok s' → due ke s rest missing → due ke s' rest missing.
Proof. intros [Hb Hk _ _] Hok [_ Hf Hw]. split; [done|done|]. by rewrite Hk, app_assoc, Hb, <-app_assoc. Qed.

Lemma round_content ke s s' o rest missing :
  due ke s rest missing → reader_ok s' → round s s' o →
  ∃ rest', due ke s' rest' missing ∧ pend s' ++ concat rest' = pend s ++ concat rest ∧
    match o with None => pend s' = [] | Some o => reports ke s s' rest' missing o end.
Proof.
  intros Hd Hok Hr. pose proof Hd as [_ Hf Hw].
  destruct Hr as [Hp ->|o Hp Hp' Hc Ho|lb ct e Hp Hp' Hc Hh Hl Hct He|lb ct Hp Hb Hl Hct He Hh Hwv Hsuf].
  - by eauto.
  - exists rest. pose proof (due_conserves _ _ _ _ _ Hc Hok Hd) as Hd'. split_and!; [done|by rewrite Hp, Hp'|].
    destruct Hd' as [_ _ Hw']. destruct o as [[[]|e]|]; [done| | |done]; split; try done.
    + intros ->. destruct Ho as [Hh Hx]. rewrite Hh, Hx in Hw'. destruct rest as [|p rest]; [done|].
      cbn [frames_of] in Hw'. destruct (encrypt _ p) as [[k' c]|]; [|done].
      destruct (frames_of k' rest) as [[]|]; [|done]. cbn [mbind option_bind] in Hw'.
      apply (inj Some), pair_equal_spec in Hw' as [_ Hb]. apply (f_equal length) in Hb.
      rewrite !length_app, length_u16_to_be in Hb. simpl in Hb. lia.
    + destruct Ho as [Ho|[Hx Hi]]; [by left|right]. rewrite Hx in Hw'. by eapply frames_of_incomplete.
  - exfalso. destruct (due_conserves _ _ _ _ _ Hc Hok Hd) as [_ _ Hw']. rewrite Hh, <-app_assoc in Hw'.
    apply frames_of_frame in Hw' as (p & rest' & k' & -> & Henc & _); [|done..].
    rewrite (conserves_key _ _ Hc) in Henc. apply decrypt_encrypt in Henc as [_ Hdec]. by rewrite Hdec in He.
  - rewrite app_assoc, Hb, <-!app_assoc in Hw.
    apply frames_of_frame in Hw as (p & rest' & k' & -> & Henc & Hfr); [|done..].
    apply decrypt_encrypt in Henc as [_ Hdec]. rewrite Hdec in He. injection He as -> ->.
    apply Forall_cons in Hf as [_ Hf]. exists rest'. split_and!; [split; [done|done|by rewrite Hh]|by rewrite Hp|].
    by case_bool_decide.
Qed.

Lemma reports_suffix ke s s1 s' rest missing o :
  suffix (rx_polls (inner s1)) (rx_polls (inner s)) → reports ke s1 s' rest missing o →
  reports ke s s' rest missing o.
Proof.
  intros [l E]. destruct o as [[[]|e]|]; try done. intros [Hp [Ho|Ho]]; (split; [done|]); [left|by right].
  rewrite E. set_solver.
Qed.

Lemma fill_rounds_content fuel ke s rest missing :
  due ke s rest missing → (length (held s ++ rx (inner s)) < fuel)%nat →
  ∃ s' o rest', fill_rounds fuel s = Ret (s', o) ∧ due ke s' rest' missing ∧
    write_view s' = write_view s ∧ suffix (rx_polls (inner s')) (rx_polls (inner s)) ∧
    pend s' ++ concat rest' = pend s ++ concat rest ∧ reports ke s s' rest' missing o.
Proof.
  revert s rest. induction fuel as [|fuel IH]; intros s rest Hd Hfuel; [lia|]. cbn [fill_rounds].
  destruct (fill_round_spec s (due_ok _ _ _ _ Hd)) as (s1 & o & -> & Hok1 & Hr). cbn [mbind outcome_bind].
  destruct (round_content _ _ _ _ _ _ Hd Hok1 Hr) as (rest1 & Hd1 & Hcat & Ho).
  assert (write_view s1 = write_view s) as Hw by (destruct Hr as [? ->|? ? ? []|? ? ? ? ? []|]; done).
  assert (suffix (rx_polls (inner s1)) (rx_polls (inner s))) as Hsuf
    by (destruct Hr as [? ->|? ? ? []|? ? ? ? ? []|]; done).
  destruct o as [r|]; [by exists s1, r, rest1|].
  inversion Hr as [| | |lb ct Hp Hb Hl Hct Hdec Hh Hw1 Hsuf1 Ho1].
  destruct (IH s1 rest1 Hd1) as (s2 & r & rest2 & -> & Hd2 & Hw2 & Hs2 & Hcat2 & Hr2).
  { rewrite Hb, !length_app, Hl in Hfuel. rewrite Hh. simpl. lia. }
  exists s2, r, rest2. split_and!; [done|done|by rewrite Hw2|by trans (rx_polls (inner s1))|by rewrite Hcat2|].
  by apply (reports_suffix ke s s1).
Qed.

Lemma due_plaintext ke s rest missing pt pos :
  due ke s rest missing →
  due ke (set_read s (inner s) (session s) (read_len_buf s) (read_len_pos s) (read_frame_len s)
            (read_encrypted s) (read_encrypted_pos s) pt pos) rest missing.
Proof. by intros [[] ? ?]. Qed.

(** A read hands out the bytes that are due, in order. *)
Lemma poll_read_content ke s n rest missing :
  due ke s rest missing →
  ∃ s' r rest', poll_read s n = Ret (s', r) ∧ due ke s' rest' missing ∧ write_view s' = write_view s ∧
    match r with
    | Pending => pend s' ++ concat rest' = pend s ++ concat rest
    | Ready (Ok b) =>
        b ++ pend s' ++ concat rest' = pend s ++ concat rest ∧ (length b ≤ n)%nat ∧
        ((0 < n)%nat → b = [] → missing = [] → pend s' ++ concat rest' = [])
    | Ready (Err e) =>
        pend s' ++ concat rest' = pend s ++ concat rest ∧ (RdError e ∈ rx_polls (inner s) ∨ missing ≠ [])
    end.
Proof.
  intros Hd. unfold poll_read. case_bool_decide as Hn.
  { exists s, (Ready (Ok [])), rest. simpl. split_and!; [done..|lia|lia]. }
  destruct (fill_rounds_content (S (length (held s ++ rx (inner s)))) ke s rest missing)
    as (s1 & o & rest1 & Hrun & Hd1 & Hw1 & _ & Hcat & Hr); [done|lia|].
  unfold poll_fill_plaintext. rewrite Hrun. cbn [mbind outcome_bind].
  destruct o as [[[]|e]|]; simpl in Hr.
  - set (b := take n (drop (read_plaintext_pos s1) (read_plaintext s1))).
    assert (pend s1 = b ++ drop n (pend s1)) as Hb by (unfold b; by rewrite take_drop).
    assert (b ≠ []) as Hne by (unfold b; fold (pend s1); destruct (pend s1), n; done).
    assert (length b ≤ n)%nat as Hlen by (unfold b; rewrite length_take; lia).
    set (next pt pos := set_read s1 (inner s1) (session s1) (read_len_buf s1) (read_len_pos s1)
      (read_frame_len s1) (read_encrypted s1) (read_encrypted_pos s1) pt pos).
    assert (length b = Nat.min n (length (pend s1))) as Hlb by (unfold b; by rewrite length_take).
    assert (length (pend s1) = (length (read_plaintext s1) - read_plaintext_pos s1)%nat) as Hlp
      by (unfold pend; by rewrite length_drop).
    case_bool_decide as Hall; cbv beta iota zeta.
    + exists (next [] 0%nat), (Ready (Ok b)), rest1. split_and!; [done|by apply due_plaintext|done| |done|done].
      rewrite <-Hcat, Hb, (drop_ge (pend s1)) by lia. by rewrite app_nil_r.
    + exists (next (read_plaintext s1) (read_plaintext_pos s1 + length b)%nat), (Ready (Ok b)), rest1.
      split_and!; [done|by apply due_plaintext|done| |done|done].
      rewrite <-Hcat, Hb at 1. rewrite <-app_assoc. do 2 f_equal. unfold pend. simpl. rewrite drop_drop.
      destruct (decide (n ≤ length (pend s1))%nat); [f_equal; lia|].
      rewrite !drop_ge by lia. done.
  - destruct Hr as [Hp Hr]. exists s1, (Ready (Ok [])), rest1. split_and!; [done..|simpl; lia|].
    intros _ _ Hm. by rewrite Hp, (Hr Hm).
  - destruct Hr as [Hp Hr]. exists s1, (Ready (Err e)), rest1. by split_and!.
  - by exists s1, Pending, rest1.
Qed.

(** Reading depends on nothing a writer changes. *)
Lemma read_view_ok s s' : read_view s' = read_view s → reader_ok s → reader_ok s'.
Proof. intros [= Erx Eps Ek Elb Elp Efl Een Eep Ept Epp] [Hb Hp Hbody]. split; by rewrite ?Elb, ?Elp, ?Efl, ?Een, ?Eep. Qed.

Lemma read_view_due ke s s' rest missing :
  read_view s' = read_view s → due ke s rest missing → due ke s' rest missing ∧ pend s' = pend s.
Proof.
  intros E [Hok Hf Hw]. split.
  - split; [by eapply read_view_ok|done|]. injection E as Erx Eps Ek Elb Elp Efl Een Eep Ept Epp.
    unfold held. by rewrite Efl, Elb, Elp, Een, Eep, Erx, Ek.
  - injection E as Erx Eps Ek Elb Elp Efl Een Eep Ept Epp. unfold pend. by rewrite Ept, Epp.
Qed.

(** What is written joins what is missing. *)
Lemma writes_due ke s s' p d rest t :
  writes s s' p → (t ≤ length (wire (inner s)))%nat → ke = sending (session s) →
  due ke d rest (drop t (wire (inner s)) ++ unsent s) →
  due (sending (session s')) d (rest ++ p) (drop t (wire (inner s')) ++ unsent s').
Proof.
  intros [_ [x Hx] (w & Hfr & Hw) Hp] Ht -> [Hok Hf Hd]. split; [done|by apply Forall_app|].
  rewrite (frames_of_app _ _ _ _ _ Hd), Hfr. cbn [mbind option_bind]. do 2 f_equal.
  assert (drop t (wire (inner s')) ++ unsent s' = drop t (wire (inner s)) ++ unsent s ++ w) as ->.
  { rewrite <-!drop_app_le; [by rewrite Hw|done|]. rewrite Hx, length_app. lia. }
  by rewrite <-!app_assoc.
Qed.

(** C37: every poll of an encrypted stream returns and leaves a stream whose polls return,
    whatever bytes the peer has sent and whatever the connection does. *)
Theorem stream_polls_return s :
  reader_ok s →
  (∀ n, ∃ s' r, poll_read s n = Ret (s', r) ∧ reader_ok s') ∧
  (∀ buf, ∃ s' r, poll_write s buf = Ret (s', r) ∧ reader_ok s') ∧
  (∃ s' r, poll_flush s = Ret (s', r) ∧ reader_ok s').
Proof.
  intros Hok. split_and!.
  - intros n. destruct (poll_read_total s n Hok) as (s' & r & E & Hok' & _). by eauto.
  - intros buf. destruct (poll_write_spec s buf) as (s' & r & p & E & Hw & _). do 2 eexists. split; [done|].
    eapply read_view_ok; [apply (writes_reader _ _ _ Hw)|done].
  - destruct (poll_flush_spec s) as (s' & r & E & Hw & _). do 2 eexists. split; [done|].
    eapply read_view_ok; [apply (writes_reader _ _ _ Hw)|done].
Qed.
End noise.
