(* ===== verification/NoiseLink.v ===== *)
(** * An encrypted connection, end to end

    Two streams of [Noise] over a connection: one end writes, the other reads, and the
    environment decides how many bytes move at a time, which polls are pending and
    whether the connection is cut.  The stream is a pipe: bytes come out in the order
    they went in, none twice and none lost. *)

From S2P Require Import Prelude.
From S2P Require Import Text.
From S2P Require Import Errors.
From S2P Require Import Noise.

Section link.
Context `{Cipher, !CipherLaws}.

(** [taken] bytes of the writer's wire have reached the reader; [acknowledged] bytes of the
    data have been reported as written, and [received] have been read. *)
Record Link : Type := mkLink {
  src : NoiseStream;
  dst : NoiseStream;
  taken : nat;
  acknowledged : nat;
  write_failed : bool;
  received : bytes;
}.

Definition with_rx (s : NoiseStream) (b : bytes) : NoiseStream :=
  let i := inner s in
  set_read s (mkInner b (rx_polls i) (wire i) (wr_polls i) (fl_polls i)) (session s) (read_len_buf s)
    (read_len_pos s) (read_frame_len s) (read_encrypted s) (read_encrypted_pos s) (read_plaintext s)
    (read_plaintext_pos s).
Definition with_polls (s : NoiseStream) (r : list read_poll) (w : list write_poll) (f : list flush_poll) :=
  let i := inner s in
  set_read s (mkInner (rx i) r (wire i) w f) (session s) (read_len_buf s)
    (read_len_pos s) (read_frame_len s) (read_encrypted s) (read_encrypted_pos s) (read_plaintext s)
    (read_plaintext_pos s).

(** The writer polls with any piece of what has not been acknowledged yet, until a write
    fails; both ends may use the other direction as they like. *)
Inductive link_step (data : bytes) (l : Link) : Link → Prop :=
  | step_write n a r :
      write_failed l = false → poll_write (src l) (take n (drop (acknowledged l) data)) = Ret (a, r) →
      link_step data l
        (mkLink a (dst l) (taken l)
           (acknowledged l + match r with Ready (Ok k) => k | _ => 0%nat end)
           (match r with Ready (Err _) => true | _ => false end) (received l))
  | step_flush a r :
      poll_flush (src l) = Ret (a, r) →
      link_step data l (mkLink a (dst l) (taken l) (acknowledged l) (write_failed l) (received l))
  | step_deliver n :
      (taken l + n ≤ length (wire (inner (src l))))%nat →
      link_step data l
        (mkLink (src l) (with_rx (dst l) (rx (inner (dst l)) ++ take n (drop (taken l) (wire (inner (src l))))))
           (taken l + n) (acknowledged l) (write_failed l) (received l))
  | step_read n b r :
      poll_read (dst l) n = Ret (b, r) →
      link_step data l
        (mkLink (src l) b (taken l) (acknowledged l) (write_failed l)
           (received l ++ match r with Ready (Ok x) => x | _ => [] end))
  | step_polls r w f r' w' f' :
      link_step data l
        (mkLink (with_polls (src l) r w f) (with_polls (dst l) r' w' f') (taken l) (acknowledged l) (write_failed l)
           (received l))
  | step_back_read x n a r :
      poll_read (with_rx (src l) x) n = Ret (a, r) →
      link_step data l (mkLink a (dst l) (taken l) (acknowledged l) (write_failed l) (received l))
  | step_back_write buf b r :
      poll_write (dst l) buf = Ret (b, r) →
      link_step data l (mkLink (src l) b (taken l) (acknowledged l) (write_failed l) (received l)).

(** A connection fresh from a handshake: what one end sends with, the other receives with. *)
Definition fresh_link (i j : Inner) (k kr : CipherState) : Link :=
  mkLink (NoiseStream_new (mkInner (rx i) (rx_polls i) [] (wr_polls i) (fl_polls i)) (mkTransportState k kr))
    (NoiseStream_new (mkInner [] (rx_polls j) (wire j) (wr_polls j) (fl_polls j)) (mkTransportState kr k))
    0 0 false [].

(** What the reader has not been given yet of the writer's wire. *)
Definition missing (l : Link) : bytes := drop (taken l) (wire (inner (src l))) ++ unsent (src l).

(** The pipe: what has been read, what is on its way, and what the writer has let go of. *)
Record piped (data : bytes) (l : Link) (rest : list bytes) : Prop := {
  piped_due : due (sending (session (src l))) (dst l) rest (missing l);
  piped_src : reader_ok (src l);
  piped_taken : (taken l ≤ length (wire (inner (src l))))%nat;
  piped_queued : ∃ m, received l ++ pend (dst l) ++ concat rest = take m data ∧ (acknowledged l ≤ m)%nat ∧
    (write_failed l = false → m = (acknowledged l + write_pending_consumed (src l))%nat);
}.

Lemma fresh_piped data i j k kr : piped data (fresh_link i j k kr) [].
Proof.
  split.
  - split; [|done|done]. by split; [done|simpl; lia|].
  - by split; [done|simpl; lia|].
  - simpl. lia.
  - by exists 0%nat.
Qed.

Lemma take_more (data c : bytes) m n :
  prefix c (take n (drop m data)) → take m data ++ c = take (m + length c) data.
Proof.
  intros [x Hx]. rewrite <-take_take_drop. f_equal.
  assert (c = take (length c) (take n (drop m data))) as E by by rewrite Hx, take_app_length.
  rewrite take_take in E. rewrite E at 1. f_equal. apply (f_equal length) in E. rewrite length_take in E. lia.
Qed.

(** What a writer's poll leaves of the pipe. *)
Lemma piped_writes data l a p rest acc failed :
  piped data l rest → writes (src l) a p →
  (∀ m, received l ++ pend (dst l) ++ concat rest = take m data → (acknowledged l ≤ m)%nat →
     (write_failed l = false → m = (acknowledged l + write_pending_consumed (src l))%nat) →
     ∃ m', take m data ++ concat p = take m' data ∧ (acc ≤ m')%nat ∧
       (failed = false → m' = (acc + write_pending_consumed a)%nat)) →
  piped data (mkLink a (dst l) (taken l) acc failed (received l)) (rest ++ p).
Proof.
  intros [Hd Hs Ht (m & Hm & Hacc & Hnf)] Hw Hq. split; simpl.
  - by eapply writes_due.
  - eapply read_view_ok; [apply (writes_reader _ _ _ Hw)|done].
  - destruct (writes_grows _ _ _ Hw) as [x ->]. rewrite length_app. lia.
  - destruct (Hq m Hm Hacc Hnf) as (m' & Hm' & Hacc' & Hf'). exists m'. split_and!; [|done|done].
    by rewrite concat_app, <-Hm', <-Hm, <-!app_assoc.
Qed.

Lemma link_step_piped data l l' rest :
  piped data l rest → link_step data l l' → ∃ rest', piped data l' rest'.
Proof.
  intros Hl Hstep. pose proof Hl as [Hd Hs Ht (m & Hm & Hacc & Hnf)].
  destruct Hstep as [n a r Hok Hp|a r Hp|n Hn|n b r Hp|r w f r' w' f'|x n a r Hp|buf b r Hp].
  - destruct (poll_write_spec (src l) (take n (drop (acknowledged l) data))) as (a' & r' & p & E & Hw & Hpre & Hz & Hr).
    rewrite Hp in E. injection E as <- <-. exists (rest ++ p). apply piped_writes; [done|done|].
    intros m0 _ Hacc0 Hnf0. specialize (Hnf0 Hok) as ->. exists (acknowledged l + write_pending_consumed (src l) + length (concat p))%nat.
    split.
    { destruct (decide (write_pending_consumed (src l) = 0%nat)) as [Hz0|Hz0].
      - rewrite Hz0, Nat.add_0_r. by eapply take_more.
      - rewrite Hz by lia. simpl. by rewrite app_nil_r, Nat.add_0_r. }
    destruct r as [[k|e]|]; (split; [lia|]); [|done|]; intros _; lia.
  - destruct (poll_flush_spec (src l)) as (a' & r' & E & Hw & Hc). rewrite Hp in E. injection E as <- <-.
    exists (rest ++ []). apply piped_writes; [done|done|].
    intros m0 _ Hacc0 Hnf0. exists m0. rewrite app_nil_r, Hc. done.
  - exists rest. split; simpl; [|done|done|by exists m].
    destruct Hd as [Hok Hf Hd]. split; [by destruct Hok|done|].
    etrans; [exact Hd|]. unfold missing, held. simpl. do 3 f_equal. rewrite <-!app_assoc. f_equal.
    rewrite app_assoc. f_equal. by rewrite <-drop_drop, take_drop.
  - destruct (poll_read_content _ (dst l) n rest (missing l) Hd) as (b' & r' & rest' & E & Hd' & Hw & Hr).
    rewrite Hp in E. injection E as <- <-. exists rest'. split; simpl; [done|done|done|].
    exists m. split_and!; [|done|done]. rewrite <-Hm.
    destruct r as [[x|e]|]; rewrite <-?app_assoc; simpl.
    + destruct Hr as [Hr _]. by rewrite Hr.
    + destruct Hr as [Hr _]. by rewrite Hr.
    + by rewrite Hr.
  - exists rest. split; simpl; [by destruct Hd as [[] ? ?]|by destruct Hs|done|by exists m].
  - destruct (poll_read_total (with_rx (src l) x) n) as (a' & r' & E & Hok' & Hw); [by destruct Hs|].
    rewrite Hp in E. injection E as <- <-. exists rest. injection Hw as Ewi Ese Ewf Ewp Ewc.
    split; simpl; [|done|by rewrite Ewi|exists m; by rewrite Ewc].
    unfold missing, unsent. simpl. rewrite Ese, Ewi, Ewf, Ewp. done.
  - destruct (poll_write_spec (dst l) buf) as (b' & r' & p & E & Hw & _). rewrite Hp in E. injection E as <- <-.
    destruct (read_view_due _ _ _ _ _ (writes_reader _ _ _ Hw) Hd) as [Hd' Hpe].
    exists rest. split; simpl; [done|done|done|]. rewrite Hpe. by exists m.
Qed.

Lemma reachable_piped data i j k kr l :
  rtc (link_step data) (fresh_link i j k kr) l → ∃ rest, piped data l rest.
Proof.
  intros Hr. assert (∃ rest, piped data (fresh_link i j k kr) rest) as Hp by by exists []; apply fresh_piped.
  revert Hp. induction Hr as [|l1 l2 l3 Hstep _ IH]; [done|]. intros [rest Hp]. apply IH.
  by eapply link_step_piped.
Qed.

Lemma received_prefix data l rest : piped data l rest → prefix (received l) data.
Proof. intros [_ _ _ (m & Hm & _)]. trans (take m data); [rewrite <-Hm; by apply prefix_app_r|apply prefix_take]. Qed.

(** C21: however the connection cuts, delays or interleaves the polls of its two ends, the
    bytes that have been read are the first bytes of the data that is written; a read
    returns, and then either waits, or goes on with the next bytes of the data, or reports
    the end, or an error, which is one of the connection or a frame that was cut.  The end
    comes after all that was written only if the connection has delivered every byte that
    was written to it and no write of the sender has failed: a connection that is cut between
    two frames gives a clean end, with acknowledged data missing. *)
Theorem noise_link_is_a_pipe data i j k kr l n :
  rtc (link_step data) (fresh_link i j k kr) l → (0 < n)%nat →
  prefix (received l) data ∧
  ∃ b r, poll_read (dst l) n = Ret (b, r) ∧
    match r with
    | Pending => True
    | Ready (Ok []) =>
        missing l = [] → write_failed l = false →
        received l = take (acknowledged l + write_pending_consumed (src l)) data
    | Ready (Ok x) => prefix (received l ++ x) data ∧ (length x ≤ n)%nat
    | Ready (Err e) => RdError e ∈ rx_polls (inner (dst l)) ∨ missing l ≠ []
    end.
Proof.
  intros Hr Hn. destruct (reachable_piped _ _ _ _ _ _ Hr) as [rest Hp].
  split; [by eapply received_prefix|]. destruct Hp as [Hd _ _ (m & Hm & _ & Hnf)].
  destruct (poll_read_content _ (dst l) n rest (missing l) Hd) as (b & r & rest' & E & _ & _ & Hc).
  exists b, r. split; [done|]. destruct r as [[x|e]|]; [|by destruct Hc|done].
  destruct Hc as (Hc & Hlen & Hend). destruct x as [|y x].
  - intros Hmiss Hf. rewrite <-(Hnf Hf), <-Hm, <-Hc. simpl. by rewrite Hend, app_nil_r.
  - split; [|done]. trans (take m data); [|apply prefix_take]. rewrite <-Hm, <-Hc, !app_assoc.
    by do 2 apply prefix_app_r.
Qed.

End link.

Module NoiseWitness.

(** A cipher that appends a tag counting the messages. *)
Definition tag (k : nat) : bytes := replicate 16 (byte_of_Z (Z.of_nat k)).

#[export] Instance toy_cipher : Cipher := {|
  CipherState := nat;
  encrypt k p := Ok (S k, p ++ tag k);
  decrypt k c :=
    let n := (length c - 16)%nat in
    if bool_decide (drop n c = tag k) then Ok (S k, take n c) else Err "decrypt error"%string;
|}.

#[export] Instance toy_cipher_laws : CipherLaws.
Proof.
  intros k p k' c [= <- <-]. split; [by rewrite length_app|].
  change (decrypt k (p ++ tag k)) with
    (let n := (length (p ++ tag k) - 16)%nat in
     if bool_decide (drop n (p ++ tag k) = tag k) then Ok (S k, take n (p ++ tag k))
     else @Err (nat * bytes) string "decrypt error"%string).
  cbv zeta. rewrite length_app. change (length (tag k)) with 16%nat. rewrite Nat.add_sub, drop_app_length.
  by rewrite bool_decide_true, take_app_length.
Qed.

Definition far : Inner := mkInner [] [RdReady 0; RdReady 8; RdReady 40] [] [] [].
Definition near : Inner := mkInner [] [] [] [WrReady 3; WrPending; WrReady 40] [FlReady].
Definition hello : bytes := [x68; x65; x6c; x6c; x6f].

Definition l0 : Link := fresh_link near far 0%nat 9%nat.
Definition written (l : Link) (n : nat) : Link :=
  match poll_write (src l) (take n (drop (acknowledged l) hello)) with
  | Ret (a, r) =>
      mkLink a (dst l) (taken l) (acknowledged l + match r with Ready (Ok k) => k | _ => 0%nat end)
        (match r with Ready (Err _) => true | _ => false end) (received l)
  | _ => l
  end.
Definition l1 : Link := Eval vm_compute in written l0 4.
Definition l2 : Link := Eval vm_compute in written l1 4.
Definition l3 : Link := Eval vm_compute in
  mkLink (src l2) (with_rx (dst l2) (wire (inner (src l2)))) 22 (acknowledged l2) false [].

(** The write of the first four bytes is cut after three bytes of the frame, and the rest goes
    out on the next poll. *)
Lemma noise_link_is_a_pipe_witness :
  rtc (link_step hello) l0 l3 ∧ acknowledged l3 = 4%nat ∧ prefix (received l3) hello ∧
  match poll_read (dst l3) 3 with Ret (_, Ready (Ok b)) => b = [x68; x65; x6c] | _ => False end.
Proof.
  assert (rtc (link_step hello) l0 l3) as Hr.
  { apply (rtc_l _ l0 l1); [apply (step_write hello l0 4 (src l1) Pending); [reflexivity|]|].
    { vm_cast_no_check (eq_refl (Ret (src l1, @Pending (io_result nat)))). }
    apply (rtc_l _ l1 l2); [apply (step_write hello l1 4 (src l2) (Ready (Ok 4%nat))); [reflexivity|]|].
    { vm_cast_no_check (eq_refl (Ret (src l2, Ready (@Ok nat io_error 4%nat)))). }
    apply (rtc_l _ l2 l3); [apply (step_deliver hello l2 22); vm_compute; lia|]. apply rtc_refl. }
  split; [exact Hr|]. split; [reflexivity|]. split; [|vm_compute; reflexivity].
  exact (proj1 (noise_link_is_a_pipe _ _ _ _ _ _ 3 Hr ltac:(lia))).
Defined.

Lemma stream_polls_return_witness :
  ∃ s' r, poll_write (src l0) hello = Ret (s', r).
Proof.
  destruct (stream_polls_return (src l0)) as (_ & Hw & _).
  - by split; [done|simpl; lia|].
  - destruct (Hw hello) as (s' & r & E & _). by exists s', r.
Defined.
End NoiseWitness.
