(* ===== verification/NoiseHandshake.v ===== *)
(** * The noise handshake

    Models the second half of erp-runtime/src/network/transport/noise.rs: the three
    messages that make a connection an encrypted one, and the payload in which each side
    signs the static key it uses with its transport identity.  The handshake itself is
    the crate [snow]: the class [Snow]. *)

From S2P Require Import Prelude.
From S2P Require Import Text.
From S2P Require Import Crypto.
From S2P Require Import Messages.
From S2P Require Import Errors.
From S2P Require Import Framing.
From S2P Require Import Identity.
From S2P Require Import TransportIdentity.
From S2P Require Import Duplex.
From S2P Require Import Protobuf.
From S2P Require Import Noise.
From S2P Require Import NoiseLink.

(** Errors of [snow] are texts.  The random choices of [generate_keypair] and of a
    handshake are in the arguments [seed]. *)
Class Snow `{Cipher} : Type := {
  HandshakeState : Type;
  NoiseParams : Type;
  params_parse : bytes → option NoiseParams;
  (** the private key and the public key *)
  generate_keypair : NoiseParams → bytes → result (bytes * bytes) string;
  (** [Builder::new(params).local_private_key(key).build_initiator()] or [build_responder()] *)
  build_handshake : NoiseParams → bool → bytes → bytes → result HandshakeState string;
  (** a message into a buffer of [MAX_NOISE_FRAME_LEN] bytes *)
  handshake_write : HandshakeState → bytes → result (HandshakeState * bytes) string;
  handshake_read : HandshakeState → bytes → result (HandshakeState * bytes) string;
  get_remote_static : HandshakeState → option bytes;
  into_transport_mode : HandshakeState → result TransportState string;
}.

Definition NOISE_PROTOCOL : bytes := str "/noise".
Definition NOISE_PROTOCOL_NAME : bytes := str "Noise_XX_25519_ChaChaPoly_SHA256".
Definition STATIC_KEY_DOMAIN : bytes := str "noise-libp2p-static-key:".

Record LocalStaticKeypair : Type := mkLocalStaticKeypair {
  static_private : bytes;
  static_public : bytes;
}.

Record NoiseExtensions : Type := mkNoiseExtensions {
  webtransport_certhashes : list bytes;
  stream_muxers : list bytes;
}.

Record NoiseHandshakePayload : Type := mkNoiseHandshakePayload {
  identity_key : bytes;
  identity_sig : bytes;
  extensions : option NoiseExtensions;
}.

Definition NoiseExtensions_default : NoiseExtensions := mkNoiseExtensions [] [].
Definition NoiseHandshakePayload_default : NoiseHandshakePayload := mkNoiseHandshakePayload [] [] None.

Definition payload_is_empty (p : NoiseHandshakePayload) : bool :=
  bool_decide (identity_key p = []) && bool_decide (identity_sig p = []) &&
  match extensions p with None => true | Some _ => false end.

Section payload.
Context `{QuickProtobuf}.

Definition extensions_field (tag : Z) (m : NoiseExtensions) (bs : bytes) :
    outcome (option (NoiseExtensions * bytes)) :=
  let 'mkNoiseExtensions wc sm := m in
  if bool_decide (tag = 10) then field_bytes (λ v, mkNoiseExtensions (wc ++ [v]) sm) bs
  else if bool_decide (tag = 18) then field_string (λ v, mkNoiseExtensions wc (sm ++ [v])) bs
  else field_unknown m tag bs.

Definition extensions_from_reader (bs : bytes) : outcome (option NoiseExtensions) :=
  read_fields (length bs) extensions_field NoiseExtensions_default bs.

Definition extensions_get_size (m : NoiseExtensions) : nat :=
  (sum_list (map (λ v, 1 + sizeof_len (length v)) (webtransport_certhashes m)) +
   sum_list (map (λ v, 1 + sizeof_len (length v)) (stream_muxers m)))%nat.

Definition extensions_write_message (m : NoiseExtensions) : bytes :=
  write_repeated 10 (webtransport_certhashes m) ++ write_repeated 18 (stream_muxers m).

Definition payload_field (tag : Z) (m : NoiseHandshakePayload) (bs : bytes) :
    outcome (option (NoiseHandshakePayload * bytes)) :=
  let 'mkNoiseHandshakePayload key sig ext := m in
  if bool_decide (tag = 10) then field_bytes (λ v, mkNoiseHandshakePayload v sig ext) bs
  else if bool_decide (tag = 18) then field_bytes (λ v, mkNoiseHandshakePayload key v ext) bs
  else if bool_decide (tag = 34) then
    o ← read_message extensions_from_reader bs;
    Ret (match o with Some (e, rest) => Some (mkNoiseHandshakePayload key sig (Some e), rest) | None => None end)
  else field_unknown m tag bs.

Definition payload_from_reader (bs : bytes) : outcome (option NoiseHandshakePayload) :=
  read_fields (length bs) payload_field NoiseHandshakePayload_default bs.

(** [write_message] of a nested message writes the size it computes, then the message. *)
Definition write_nested (tag : Z) (size : nat) (message : bytes) : bytes :=
  write_tag tag ++ write_len size ++ message.

Definition payload_get_size (m : NoiseHandshakePayload) : nat :=
  ((if bool_decide (identity_key m = []) then 0 else 1 + sizeof_len (length (identity_key m))) +
   (if bool_decide (identity_sig m = []) then 0 else 1 + sizeof_len (length (identity_sig m))) +
   match extensions m with Some e => 1 + sizeof_len (extensions_get_size e) | None => 0 end)%nat.

Definition payload_write_message (m : NoiseHandshakePayload) : bytes :=
  (if bool_decide (identity_key m = []) then [] else write_field 10 (identity_key m)) ++
  (if bool_decide (identity_sig m = []) then [] else write_field 18 (identity_sig m)) ++
  match extensions m with
  | Some e => write_nested 34 (extensions_get_size e) (extensions_write_message e)
  | None => []
  end.

(** Writing to a [Vec] does not fail. *)
Definition encode_payload (payload : NoiseHandshakePayload) : result bytes Erp.RuntimeError :=
  Ok (payload_write_message payload).

Definition decode_payload (b : bytes) : outcome (result NoiseHandshakePayload Erp.RuntimeError) :=
  o ← payload_from_reader b;
  Ret (match o with
       | Some p => Ok p
       | None => Err (Erp.ErrCrypto "failed to decode noise handshake payload")
       end).
End payload.

(** ** The payload *)

Section payload_lemmas.
Context `{QuickProtobuf, !ProtobufLaws}.

Lemma extensions_field_shrinks tag m bs : shrinks (extensions_field tag m bs) bs.
Proof.
  unfold extensions_field. destruct m.
  repeat case_bool_decide; auto using field_bytes_shrinks, field_string_shrinks, field_unknown_shrinks.
Qed.

Lemma extensions_total bs : ∃ o, extensions_from_reader bs = Ret o.
Proof. apply read_fields_total; [apply extensions_field_shrinks|done]. Qed.

Lemma payload_field_shrinks tag m bs : shrinks (payload_field tag m bs) bs.
Proof.
  unfold payload_field. destruct m as [key sig ext].
  repeat case_bool_decide; auto using field_bytes_shrinks, field_unknown_shrinks.
  apply (read_message_shrinks extensions_from_reader (λ e, mkNoiseHandshakePayload key sig (Some e))).
  apply extensions_total.
Qed.

Lemma decode_payload_total bs : ∃ r, decode_payload bs = Ret r.
Proof.
  unfold decode_payload, payload_from_reader.
  destruct (read_fields_total (length bs) payload_field NoiseHandshakePayload_default bs payload_field_shrinks)
    as [o ->]; [done|]. by eexists.
Qed.

Lemma field_size_sum tag vs :
  0 ≤ tag < 128 →
  sum_list (map (λ v, 1 + sizeof_len (length v))%nat vs) = length (write_repeated tag vs).
Proof.
  intros Ht. unfold write_repeated. induction vs as [|v vs IH]; [done|]. cbn [map sum_list concat].
  rewrite length_app, <-IH. unfold write_field. rewrite !length_app, write_tag_short, sizeof_len_write by done. done.
Qed.

Lemma extensions_get_size_spec e : extensions_get_size e = length (extensions_write_message e).
Proof.
  unfold extensions_get_size, extensions_write_message.
  rewrite (field_size_sum 10), (field_size_sum 18), length_app by lia. done.
Qed.

(** The size a message announces is the size it has. *)
Lemma payload_get_size_spec m : payload_get_size m = length (payload_write_message m).
Proof.
  assert (∀ tag v, 0 ≤ tag < 128 → length (write_field tag v) = (1 + sizeof_len (length v))%nat) as Hf.
  { intros tag v Ht. unfold write_field. rewrite !length_app, write_tag_short, sizeof_len_write by done. done. }
  unfold payload_get_size, payload_write_message. rewrite !length_app, Nat.add_assoc.
  f_equal; [f_equal; (case_bool_decide; [done|by rewrite Hf by lia])|].
  destruct (extensions m) as [e|]; [|done]. unfold write_nested.
  rewrite !length_app, write_tag_short by lia. by rewrite sizeof_len_write, <-extensions_get_size_spec.
Qed.

Lemma length_write_field_bound tag v : (length v ≤ length (write_field tag v))%nat.
Proof. unfold write_field. rewrite !length_app. lia. Qed.

Lemma repeated_bound tag v vs : v ∈ vs → (length v ≤ length (write_repeated tag vs))%nat.
Proof.
  unfold write_repeated. induction vs as [|w vs IH]; [by intros ?%elem_of_nil|]. cbn [map concat].
  rewrite length_app. pose proof (length_write_field_bound tag w).
  intros [->|Hv%IH]%elem_of_cons; lia.
Qed.

Lemma extensions_roundtrip e :
  Z.of_nat (length (extensions_write_message e)) < 2 ^ 32 →
  Forall (λ v, utf8_valid v = true) (stream_muxers e) →
  extensions_from_reader (extensions_write_message e) = Ret (Some e).
Proof.
  destruct e as [wc sm]. unfold extensions_write_message. simpl. rewrite length_app. intros Hs Hu.
  unfold extensions_from_reader. apply read_fields_roundtrip.
  apply (reads_to_app _ _ _ _ (mkNoiseExtensions wc [])).
  - apply (reads_to_repeated _ 10 wc (λ m vs, mkNoiseExtensions (webtransport_certhashes m ++ vs) (stream_muxers m))
      NoiseExtensions_default); [lia|..].
    + intros []. simpl. by rewrite app_nil_r.
    + intros [] v vs. simpl. by rewrite <-app_assoc.
    + intros [] v Hv rest. unfold extensions_field, field_bytes. simpl. rewrite read_bytes_write; [done|].
      apply (repeated_bound 10) in Hv. lia.
  - apply (reads_to_repeated _ 18 sm (λ m vs, mkNoiseExtensions (webtransport_certhashes m) (stream_muxers m ++ vs))
      (mkNoiseExtensions wc [])); [lia|..].
    + intros []. simpl. by rewrite app_nil_r.
    + intros [] v vs. simpl. by rewrite <-app_assoc.
    + intros [] v Hv rest. unfold extensions_field, field_string. simpl.
      rewrite read_string_write; [done| |by apply (list.Forall_forall (λ v, utf8_valid v = true) sm)].
      apply (repeated_bound 18) in Hv. lia.
Qed.

(** What can be in a payload: strings are valid, and lengths fit their prefix. *)
Record payload_ok (p : NoiseHandshakePayload) : Prop := {
  payload_small : Z.of_nat (length (payload_write_message p)) < 2 ^ 32;
  payload_strings e : extensions p = Some e → Forall (λ v, utf8_valid v = true) (stream_muxers e);
}.

Lemma payload_roundtrip_lemma p :
  payload_ok p → decode_payload (payload_write_message p) = Ret (Ok p).
Proof.
  destruct p as [key sig ext]. intros [Hs Hu]. unfold payload_write_message in *. simpl in *.
  rewrite !length_app in Hs.
  unfold decode_payload, payload_from_reader. erewrite read_fields_roundtrip; [done|].
  apply (reads_to_app _ _ _ _ (mkNoiseHandshakePayload key [] None)).
  { destruct (bool_decide_reflect (key = [])) as [->|Hk]; [apply reads_to_nil|]. apply reads_to_field; [lia|].
    intros rest. unfold payload_field, field_bytes. simpl. rewrite read_bytes_write; [done|].
    pose proof (length_write_field_bound 10 key). lia. }
  apply (reads_to_app _ _ _ _ (mkNoiseHandshakePayload key sig None)).
  { destruct (bool_decide_reflect (sig = [])) as [->|Hk]; [apply reads_to_nil|]. apply reads_to_field; [lia|].
    intros rest. unfold payload_field, field_bytes. simpl. rewrite read_bytes_write; [done|].
    pose proof (length_write_field_bound 18 sig). lia. }
  destruct ext as [e|]; [|apply reads_to_nil].
  unfold write_nested. rewrite extensions_get_size_spec.
  fold (write_field 34 (extensions_write_message e)). apply reads_to_field; [lia|]. intros rest.
  unfold payload_field. simpl. unfold read_message.
  assert (Z.of_nat (length (extensions_write_message e)) < 2 ^ 32) as He.
  { unfold write_nested in Hs. rewrite !length_app in Hs. lia. }
  rewrite read_bytes_write by done. by rewrite (extensions_roundtrip e He (Hu e eq_refl)).
Qed.
End payload_lemmas.

Definition noise_to_runtime_error (error : string) : Erp.RuntimeError :=
  Erp.NetworkError (noise_to_io_error error).

Section handshake.
Context `{Snow, QuickProtobuf, Libp2p, Psa}.

(** The stream of [NoiseUpgradeOutput] is a [NoiseStream] over the connection the
    handshake leaves, with this session. *)
Record NoiseUpgradeOutput : Type := mkNoiseUpgradeOutput {
  upgraded_session : TransportState;
  remote_transport_peer_id : bytes;
  remote_transport_public_key : bytes;
}.

Definition generate_local_static_keypair (seed : bytes) : result LocalStaticKeypair Erp.RuntimeError :=
  match params_parse NOISE_PROTOCOL_NAME with
  | None => Err (Erp.Config "invalid noise protocol parameters")
  | Some params =>
      let! keypair := map_err noise_to_runtime_error (generate_keypair params seed) in
      Ok (mkLocalStaticKeypair keypair.1 keypair.2)
  end.

Definition build_handshake_state (initiator : bool) (local_private_key seed : bytes) :
    result HandshakeState Erp.RuntimeError :=
  match params_parse NOISE_PROTOCOL_NAME with
  | None => Err (Erp.Config "invalid noise protocol parameters")
  | Some params => map_err noise_to_runtime_error (build_handshake params initiator local_private_key seed)
  end.

Definition build_local_identity_payload (local_static_public_key : bytes) (identity : TransportIdentityManager) :
    result NoiseHandshakePayload Erp.RuntimeError :=
  let! signature := transport_sign identity (STATIC_KEY_DOMAIN ++ local_static_public_key) in
  Ok (mkNoiseHandshakePayload (public_key_protobuf_bytes identity) signature None).

Definition verify_remote_identity (handshake : HandshakeState) (payload : NoiseHandshakePayload) :
    result PublicKey Erp.RuntimeError :=
  match get_remote_static handshake with
  | None => Err (Erp.Config "noise handshake did not expose a remote static key")
  | Some remote_static_public_key =>
      if bool_decide (identity_key payload = [])
      then Err (Erp.Config "noise handshake payload is missing a transport public key")
      else if bool_decide (identity_sig payload = [])
      then Err (Erp.Config "noise handshake payload is missing a transport signature")
      else
        match public_decode_protobuf (identity_key payload) with
        | None => Err (Erp.ErrCrypto "noise handshake payload contains an invalid transport public key")
        | Some public_key =>
            if negb (public_verify public_key (STATIC_KEY_DOMAIN ++ remote_static_public_key)
                       (identity_sig payload))
            then Err (Erp.Config "noise handshake transport signature verification failed")
            else Ok public_key
        end
  end.

(** [handshake] is passed by reference: the new state is returned. *)
Definition send_handshake_payload (handshake : HandshakeState) (payload : NoiseHandshakePayload) :
    IO HandshakeState :=
  let* payload_bytes := lift (encode_payload payload) in
  let* r := lift (map_err noise_to_runtime_error (handshake_write handshake payload_bytes)) in
  let* _ := write_all (u16_to_be (length r.2)) in
  let* _ := write_all r.2 in
  let* _ := flush in
  M_ret r.1.

Definition recv_handshake_payload (handshake : HandshakeState) : OIO (HandshakeState * NoiseHandshakePayload) :=
  let^ len_bytes := OM_of (io_read_exact 2) in
  let^ ciphertext := OM_of (io_read_exact (u16_from_be len_bytes)) in
  let^ r := OM_of (lift (map_err noise_to_runtime_error (handshake_read handshake ciphertext))) in
  let^ payload := OM_lift (decode_payload r.2) in
  OM_ret (r.1, payload).

Definition noise_upgrade_outbound (identity : TransportIdentityManager) (seed : bytes) : OIO NoiseUpgradeOutput :=
  let^ local_static := OM_of (lift (generate_local_static_keypair seed)) in
  let^ local_payload := OM_of (lift (build_local_identity_payload (static_public local_static) identity)) in
  let^ handshake := OM_of (lift (build_handshake_state true (static_private local_static) seed)) in
  let^ handshake := OM_of (send_handshake_payload handshake NoiseHandshakePayload_default) in
  let^ r := recv_handshake_payload handshake in
  let^ remote_identity := OM_of (lift (verify_remote_identity r.1 r.2)) in
  let^ handshake := OM_of (send_handshake_payload r.1 local_payload) in
  let^ transport := OM_of (lift (map_err noise_to_runtime_error (into_transport_mode handshake))) in
  OM_ret (mkNoiseUpgradeOutput transport (public_peer_id remote_identity) (identity_key r.2)).

Definition noise_upgrade_inbound (identity : TransportIdentityManager) (seed : bytes) : OIO NoiseUpgradeOutput :=
  let^ local_static := OM_of (lift (generate_local_static_keypair seed)) in
  let^ local_payload := OM_of (lift (build_local_identity_payload (static_public local_static) identity)) in
  let^ handshake := OM_of (lift (build_handshake_state false (static_private local_static) seed)) in
  let^ first := recv_handshake_payload handshake in
  if negb (payload_is_empty first.2)
  then OM_fail (Erp.Config "noise initiator sent a non-empty first payload")
  else
    let^ handshake := OM_of (send_handshake_payload first.1 local_payload) in
    let^ r := recv_handshake_payload handshake in
    let^ remote_identity := OM_of (lift (verify_remote_identity r.1 r.2)) in
    let^ transport := OM_of (lift (map_err noise_to_runtime_error (into_transport_mode r.1))) in
    OM_ret (mkNoiseUpgradeOutput transport (public_peer_id remote_identity) (identity_key r.2)).

(** ** The peer of a connection *)

(** Noise_XX: sending a message does not change the peer's key; and when each side gets the
    messages of the other, each decrypts the payloads, learns the other's static key, and
    ends with the keys of the other, the directions swapped.  A message is at most
    [XX_OVERHEAD] bytes longer than its payload. *)
Definition XX_OVERHEAD : nat := 96.
Definition carried (p : bytes) : Prop := (length p + XX_OVERHEAD ≤ MAX_NOISE_FRAME_LEN)%nat.

Record xx_run (a0 b0 : HandshakeState) (qa qb p1 p2 p3 m1 m2 m3 : bytes) (ta tb : TransportState) : Prop := {
  xx_states : ∃ a1 a2 a3 b1 b2 b3,
    handshake_write a0 p1 = Ok (a1, m1) ∧ handshake_read b0 m1 = Ok (b1, p1) ∧
    handshake_write b1 p2 = Ok (b2, m2) ∧ handshake_read a1 m2 = Ok (a2, p2) ∧
    handshake_write a2 p3 = Ok (a3, m3) ∧ handshake_read b2 m3 = Ok (b3, p3) ∧
    get_remote_static a2 = Some qb ∧ get_remote_static b3 = Some qa ∧
    into_transport_mode a3 = Ok ta ∧ into_transport_mode b3 = Ok tb;
  xx_short m : m ∈ [m1; m2; m3] → (length m ≤ MAX_NOISE_FRAME_LEN)%nat;
  xx_there : sending ta = receiving tb;
  xx_back : sending tb = receiving ta;
}.

Class SnowLaws : Prop := {
  params_known : is_Some (params_parse NOISE_PROTOCOL_NAME);
  write_keeps_static hs p hs' m :
    handshake_write hs p = Ok (hs', m) → get_remote_static hs' = get_remote_static hs;
  xx_agrees params sa sb pa qa pb qb p1 p2 p3 :
    generate_keypair params sa = Ok (pa, qa) → generate_keypair params sb = Ok (pb, qb) →
    carried p1 → carried p2 → carried p3 →
    ∃ a0 b0 m1 m2 m3 ta tb,
      build_handshake params true pa sa = Ok a0 ∧ build_handshake params false pb sb = Ok b0 ∧
      xx_run a0 b0 qa qb p1 p2 p3 m1 m2 m3 ta tb;
}.

(** The key [pk] has signed the static key of the peer that the session was made with. *)
Record authenticated (out : NoiseUpgradeOutput) (pk : PublicKey) : Prop := {
  auth_key : public_decode_protobuf (remote_transport_public_key out) = Some pk;
  auth_name : remote_transport_peer_id out = public_peer_id pk;
  auth_session : ∃ hs static sig,
    into_transport_mode hs = Ok (upgraded_session out) ∧ get_remote_static hs = Some static ∧
    public_verify pk (STATIC_KEY_DOMAIN ++ static) sig = true;
}.

Lemma verify_remote_identity_Ok hs payload pk :
  verify_remote_identity hs payload = Ok pk ↔
  identity_key payload ≠ [] ∧ identity_sig payload ≠ [] ∧
  public_decode_protobuf (identity_key payload) = Some pk ∧
  ∃ static, get_remote_static hs = Some static ∧
    public_verify pk (STATIC_KEY_DOMAIN ++ static) (identity_sig payload) = true.
Proof.
  unfold verify_remote_identity. split.
  - destruct (get_remote_static hs) as [static|]; [|done]. do 2 (case_bool_decide; [done|]).
    destruct (public_decode_protobuf _) as [pk'|]; [|done].
    destruct (public_verify pk' _ _) eqn:Hv; [|done]. intros [= <-]. eauto 10.
  - intros (Hk & Hs & -> & static & -> & Hv). rewrite !bool_decide_false by done. by rewrite Hv.
Qed.

Context `{!SnowLaws}.

Lemma send_handshake_payload_Ok hs payload d d' hs' :
  send_handshake_payload hs payload d = (d', Ok hs') →
  ∃ m, handshake_write hs (payload_write_message payload) = Ok (hs', m).
Proof.
  unfold send_handshake_payload. intros Hr. io_inv.
  match goal with Hw : map_err _ (handshake_write _ _) = Ok ?x |- _ =>
    destruct (handshake_write _ _) as [[hs1 m]|] eqn:E; [|done]; injection Hw as <- end.
  match goal with He : encode_payload _ = Ok _ |- _ => injection He as <- end. by exists m.
Qed.

(** The last steps of both upgrades. *)
Lemma authenticated_intro hs hf payload pk transport :
  verify_remote_identity hs payload = Ok pk → get_remote_static hf = get_remote_static hs →
  map_err noise_to_runtime_error (into_transport_mode hf) = Ok transport →
  authenticated (mkNoiseUpgradeOutput transport (public_peer_id pk) (identity_key payload)) pk.
Proof.
  intros (_ & _ & Hk & static & Hs & Hv)%verify_remote_identity_Ok Hf Ht.
  destruct (into_transport_mode hf) as [t|] eqn:E; [|done]. injection Ht as <-.
  split; [done|done|]. exists hf, static, (identity_sig payload). by rewrite Hf.
Qed.

(** Whoever is at the other end of an upgraded connection has a transport key, is named
    after it, and has signed with it the static key of this very session. *)
Lemma upgraded_authenticated (role : bool) identity seed d d' out :
  (if role then noise_upgrade_outbound identity seed d else noise_upgrade_inbound identity seed d) =
    Ret (d', Ok out) →
  ∃ pk, authenticated out pk.
Proof.
  destruct role; [unfold noise_upgrade_outbound|unfold noise_upgrade_inbound]; intros Hr; oio_inv.
  - match goal with Hv : lift (verify_remote_identity _ _) _ = _ |- _ => apply lift_Ok in Hv as [Hv ->] end.
    match goal with Ht : lift (map_err _ (into_transport_mode _)) _ = _ |- _ => apply lift_Ok in Ht as [Ht ->] end.
    match goal with Hs : send_handshake_payload (fst _) _ _ = _ |- _ =>
      apply send_handshake_payload_Ok in Hs as (m & Hs%write_keeps_static) end.
    eexists. by eapply authenticated_intro.
  - case_match; [done|]. oio_inv.
    match goal with Hv : lift (verify_remote_identity _ _) _ = _ |- _ => apply lift_Ok in Hv as [Hv ->] end.
    match goal with Ht : lift (map_err _ (into_transport_mode _)) _ = _ |- _ => apply lift_Ok in Ht as [Ht ->] end.
    eexists. by eapply authenticated_intro.
Qed.

(** ** Two ends *)

Context `{!ProtobufLaws, !CryptoLaws, !Libp2pLaws}.

Lemma recv_returns hs : returns (recv_handshake_payload hs).
Proof.
  intros d. unfold recv_handshake_payload. do 3 (apply runs_bind; [apply _|apply returns_of|]; intros ? ? _ _).
  apply runs_bind; [apply _|apply runs_lift; [apply _|apply decode_payload_total]|]. intros. apply runs_ret, _.
Qed.

(** Both upgrades come to an end, whatever the peer sends. *)
Lemma noise_upgrade_returns (dialer : bool) id seed :
  returns (if dialer then noise_upgrade_outbound id seed else noise_upgrade_inbound id seed).
Proof.
  destruct dialer; intros d; [unfold noise_upgrade_outbound|unfold noise_upgrade_inbound];
    repeat first
      [ apply returns_of | apply recv_returns | apply runs_ret, _ | apply runs_fail, _
      | apply runs_bind; [apply _| |intros ? ? _ _] | case_match ].
Qed.

(** The bytes of a message on the connection. *)
Definition handshake_frame (m : bytes) : bytes := u16_to_be (length m) ++ m.

Lemma send_run hs payload hs' m d :
  handshake_write hs (payload_write_message payload) = Ok (hs', m) → writable d →
  ∃ d', send_handshake_payload hs payload d = (d', Ok hs') ∧ inbound d' = inbound d ∧
    outbound d' = outbound d ++ handshake_frame m ∧ writable d'.
Proof.
  intros Hm Hw. unfold send_handshake_payload, encode_payload, M_bind, lift. rewrite Hm. cbn [map_err fst snd].
  destruct (write_all_run (u16_to_be (length m)) d Hw) as (d1 & -> & Hi1 & Ho1 & Hw1).
  destruct (write_all_run m d1 Hw1) as (d2 & -> & Hi2 & Ho2 & Hw2).
  destruct (write_all_run [] d2 Hw2) as (d3 & Hf & Hi3 & Ho3 & Hw3). unfold flush. rewrite Hf.
  exists d3. split_and!; [done|by rewrite Hi3, Hi2, Hi1| |done].
  by rewrite Ho3, Ho2, Ho1, app_nil_r, <-app_assoc.
Qed.

Lemma read_exact_run n b rest d :
  available (inbound d) = b ++ rest → length b = n →
  io_read_exact n d = (mkDuplex (mkStream rest (at_end (inbound d))) (outbound d) (write_faults d), Ok b).
Proof.
  destruct d as [[av e] o fs]. simpl. intros -> Hl. unfold io_read_exact, reading. simpl.
  by rewrite read_exact_app.
Qed.

Lemma recv_run hs payload hs' m rest d :
  available (inbound d) = handshake_frame m ++ rest → (length m ≤ MAX_NOISE_FRAME_LEN)%nat →
  handshake_read hs m = Ok (hs', payload_write_message payload) → payload_ok payload →
  ∃ d', recv_handshake_payload hs d = Ret (d', Ok (hs', payload)) ∧ available (inbound d') = rest ∧
    outbound d' = outbound d ∧ write_faults d' = write_faults d.
Proof.
  intros Ha Hl Hr Hp. unfold handshake_frame in Ha. rewrite <-app_assoc in Ha.
  unfold recv_handshake_payload, OM_bind, OM_of.
  rewrite (read_exact_run 2 _ _ d Ha) by apply length_u16_to_be. rewrite u16_roundtrip by done.
  match goal with |- context [io_read_exact _ ?x] => set (d1 := x) end.
  rewrite (read_exact_run _ m rest d1) by done. unfold lift. rewrite Hr. cbn [map_err fst snd].
  unfold OM_lift. rewrite payload_roundtrip_lemma by done. by eexists.
Qed.

Lemma payload_small_ok key sig : carried (payload_write_message (mkNoiseHandshakePayload key sig None)) →
  payload_ok (mkNoiseHandshakePayload key sig None).
Proof.
  intros Hc. split; [|done]. unfold carried, MAX_NOISE_FRAME_LEN in Hc.
  assert (Z.of_nat (length (payload_write_message (mkNoiseHandshakePayload key sig None))) ≤ 65535) by lia. lia.
Qed.

(** An identity whose payload is not empty and fits a message. *)
Record can_shake (id : TransportIdentityManager) (pk : PublicKey) (q : bytes) (payload : NoiseHandshakePayload) : Prop := {
  shake_genuine : transport_genuine id pk;
  shake_payload : build_local_identity_payload q id = Ok payload;
  shake_key : identity_key payload ≠ [];
  shake_sig : identity_sig payload ≠ [];
  shake_carried : carried (payload_write_message payload);
}.

Lemma can_shake_verified id pk q payload hs :
  can_shake id pk q payload → get_remote_static hs = Some q →
  payload_ok payload ∧ verify_remote_identity hs payload = Ok pk ∧ identity_key payload = public_encode_protobuf pk.
Proof.
  intros [Hg Hb Hk Hs Hc] Hq. unfold build_local_identity_payload in Hb. apply try_Ok in Hb as (sig & Hsig & Hb).
  injection Hb as <-. simpl in *. split_and!; [by apply payload_small_ok| |by rewrite (transport_key _ _ Hg)].
  apply verify_remote_identity_Ok. simpl. split_and!; [done..| |].
  - rewrite (transport_key _ _ Hg). apply public_decode_encode.
  - exists q. split; [done|]. by apply (transport_signs _ _ Hg).
Qed.

Lemma generated_with params seed ka :
  params_parse NOISE_PROTOCOL_NAME = Some params → generate_local_static_keypair seed = Ok ka →
  generate_keypair params seed = Ok (static_private ka, static_public ka).
Proof.
  unfold generate_local_static_keypair. intros ->. destruct (generate_keypair params seed) as [[p q]|]; [|done].
  by intros [= <-].
Qed.

Lemma outbound_run id payload pkb pb seed ka a0 a1 a2 a3 m1 m2 m3 ta d rest :
  generate_local_static_keypair seed = Ok ka → build_local_identity_payload (static_public ka) id = Ok payload →
  build_handshake_state true (static_private ka) seed = Ok a0 →
  handshake_write a0 [] = Ok (a1, m1) → handshake_read a1 m2 = Ok (a2, payload_write_message pb) →
  verify_remote_identity a2 pb = Ok pkb → payload_ok pb → (length m2 ≤ MAX_NOISE_FRAME_LEN)%nat →
  handshake_write a2 (payload_write_message payload) = Ok (a3, m3) → into_transport_mode a3 = Ok ta →
  writable d → available (inbound d) = handshake_frame m2 ++ rest →
  ∃ d', noise_upgrade_outbound id seed d =
      Ret (d', Ok (mkNoiseUpgradeOutput ta (public_peer_id pkb) (identity_key pb))) ∧
    outbound d' = outbound d ++ handshake_frame m1 ++ handshake_frame m3 ∧ available (inbound d') = rest.
Proof.
  intros Hg Hb Hs0 Hw1 Hr2 Hv Hok Hl Hw3 Ht Hd Ha. unfold noise_upgrade_outbound, OM_bind, OM_of, lift.
  rewrite Hg, Hb, Hs0.
  destruct (send_run a0 NoiseHandshakePayload_default a1 m1 d Hw1 Hd) as (d1 & -> & Hi1 & Ho1 & Hd1).
  destruct (recv_run a1 pb a2 m2 rest d1) as (d2 & -> & Ha2 & Ho2 & Hf2); [by rewrite Hi1|done..|].
  cbn [fst snd]. rewrite Hv.
  assert (writable d2) as Hd2 by (unfold writable; by rewrite Hf2).
  destruct (send_run a2 payload a3 m3 d2 Hw3 Hd2) as (d3 & -> & Hi3 & Ho3 & _).
  rewrite Ht. exists d3. split_and!; [done| |by rewrite Hi3]. by rewrite Ho3, Ho2, Ho1, <-app_assoc.
Qed.

Lemma inbound_run id payload pka pa seed kb b0 b1 b2 b3 m1 m2 m3 tb d rest :
  generate_local_static_keypair seed = Ok kb → build_local_identity_payload (static_public kb) id = Ok payload →
  build_handshake_state false (static_private kb) seed = Ok b0 →
  handshake_read b0 m1 = Ok (b1, []) → handshake_write b1 (payload_write_message payload) = Ok (b2, m2) →
  handshake_read b2 m3 = Ok (b3, payload_write_message pa) →
  verify_remote_identity b3 pa = Ok pka → payload_ok pa →
  (length m1 ≤ MAX_NOISE_FRAME_LEN)%nat → (length m3 ≤ MAX_NOISE_FRAME_LEN)%nat →
  into_transport_mode b3 = Ok tb → writable d →
  available (inbound d) = handshake_frame m1 ++ handshake_frame m3 ++ rest →
  ∃ d', noise_upgrade_inbound id seed d =
      Ret (d', Ok (mkNoiseUpgradeOutput tb (public_peer_id pka) (identity_key pa))) ∧
    outbound d' = outbound d ++ handshake_frame m2 ∧ available (inbound d') = rest.
Proof.
  intros Hg Hb Hs0 Hr1 Hw2 Hr3 Hv Hok Hl1 Hl3 Ht Hd Ha. unfold noise_upgrade_inbound, OM_bind, OM_of, lift.
  rewrite Hg, Hb, Hs0.
  destruct (recv_run b0 NoiseHandshakePayload_default b1 m1 (handshake_frame m3 ++ rest) d) as (d1 & -> & Ha1 & Ho1 & Hf1);
    [done|done|done|by split|].
  cbn [fst snd]. change (payload_is_empty NoiseHandshakePayload_default) with true. cbn [negb].
  assert (writable d1) as Hd1 by (unfold writable; by rewrite Hf1).
  destruct (send_run b1 payload b2 m2 d1 Hw2 Hd1) as (d2 & -> & Hi2 & Ho2 & _).
  destruct (recv_run b2 pa b3 m3 rest d2) as (d3 & -> & Ha3 & Ho3 & _); [by rewrite Hi2|done..|].
  cbn [fst snd]. rewrite Hv, Ht. exists d3. split_and!; [done| |done]. by rewrite Ho3, Ho2, Ho1.
Qed.

(** C22: two ends that follow the protocol complete the handshake.  There are three messages
    such that a dialer that gets the second writes the first and the third, and a listener
    that gets those writes the second; each then knows the other by its transport key, has
    read no byte of what follows, and the keys one sends with are those the other receives
    with. *)
Theorem noise_handshake_agrees ida idb pka pkb sa sb ka kb pa pb :
  generate_local_static_keypair sa = Ok ka → generate_local_static_keypair sb = Ok kb →
  can_shake ida pka (static_public ka) pa → can_shake idb pkb (static_public kb) pb →
  ∃ m1 m2 m3 ta tb,
    sending ta = receiving tb ∧ sending tb = receiving ta ∧
    ∀ dialer listener rest1 rest2,
      writable dialer → writable listener →
      available (inbound dialer) = handshake_frame m2 ++ rest1 →
      available (inbound listener) = handshake_frame m1 ++ handshake_frame m3 ++ rest2 →
      ∃ dialer' listener',
        noise_upgrade_outbound ida sa dialer =
          Ret (dialer', Ok (mkNoiseUpgradeOutput ta (public_peer_id pkb) (public_encode_protobuf pkb))) ∧
        noise_upgrade_inbound idb sb listener =
          Ret (listener', Ok (mkNoiseUpgradeOutput tb (public_peer_id pka) (public_encode_protobuf pka))) ∧
        outbound dialer' = outbound dialer ++ handshake_frame m1 ++ handshake_frame m3 ∧
        outbound listener' = outbound listener ++ handshake_frame m2 ∧
        available (inbound dialer') = rest1 ∧ available (inbound listener') = rest2.
Proof.
  intros Hka Hkb Ha Hb. destruct params_known as [params Hp].
  destruct (xx_agrees params sa sb _ _ _ _ [] (payload_write_message pb) (payload_write_message pa)
    (generated_with _ _ _ Hp Hka) (generated_with _ _ _ Hp Hkb)) as (a0 & b0 & m1 & m2 & m3 & ta & tb & Ha0 & Hb0 & Hx);
    [unfold carried, XX_OVERHEAD, MAX_NOISE_FRAME_LEN; simpl; lia|apply Hb|apply Ha|].
  destruct Hx as [(a1 & a2 & a3 & b1 & b2 & b3 & Hw1 & Hr1 & Hw2 & Hr2 & Hw3 & Hr3 & Hsa & Hsb & Hta & Htb) Hl Ht Hr].
  exists m1, m2, m3, ta, tb. split_and!; [done..|]. intros dialer listener rest1 rest2 Hdw Hlw Hda Hla.
  destruct (can_shake_verified _ _ _ _ a2 Hb Hsa) as (Hob & Hvb & Hkb').
  destruct (can_shake_verified _ _ _ _ b3 Ha Hsb) as (Hoa & Hva & Hka').
  assert (build_handshake_state true (static_private ka) sa = Ok a0) as Hba
    by (unfold build_handshake_state; by rewrite Hp, Ha0).
  assert (build_handshake_state false (static_private kb) sb = Ok b0) as Hbb
    by (unfold build_handshake_state; by rewrite Hp, Hb0).
  destruct (outbound_run ida pa pkb pb sa ka a0 a1 a2 a3 m1 m2 m3 ta dialer rest1) as (d' & Hd & Hdo & Hdi);
    try done; try apply Ha; try (apply Hl; set_solver).
  destruct (inbound_run idb pb pka pa sb kb b0 b1 b2 b3 m1 m2 m3 tb listener rest2) as (l' & Hli & Hlo & Hlin);
    try done; try apply Hb; try (apply Hl; set_solver).
  exists d', l'. rewrite Hd, Hli, Hkb', Hka'. done.
Qed.
End handshake.

(** ** A concrete handshake *)

Module HandshakeWitness.
Import NoiseWitness TransportWitness ToyCrypto ToyProtobuf.

(** A stand-in for [snow] that exchanges the keys in the clear. *)
Record Shake : Type := mkShake { initiates : bool; own : bytes; other : option bytes; turn : nat }.

Definition public_of (seed : bytes) : bytes := take 32 (seed ++ replicate 32 x00).

#[export] Instance toy_snow : Snow := {|
  HandshakeState := Shake;
  NoiseParams := unit;
  params_parse _ := Some tt;
  generate_keypair _ seed := Ok (seed, public_of seed);
  build_handshake _ initiator key _ := Ok (mkShake initiator (public_of key) None 0);
  handshake_write hs p :=
    match initiates hs, turn hs with
    | true, 0%nat => Ok (mkShake true (own hs) (other hs) 1, p)
    | false, 1%nat => Ok (mkShake false (own hs) (other hs) 2, own hs ++ p)
    | true, 2%nat => Ok (mkShake true (own hs) (other hs) 3, own hs ++ p)
    | _, _ => Err "not the turn to write"%string
    end;
  handshake_read hs m :=
    match initiates hs, turn hs with
    | false, 0%nat => Ok (mkShake false (own hs) None 1, m)
    | true, 1%nat => Ok (mkShake true (own hs) (Some (take 32 m)) 2, drop 32 m)
    | false, 2%nat => Ok (mkShake false (own hs) (Some (take 32 m)) 3, drop 32 m)
    | _, _ => Err "not the turn to read"%string
    end;
  get_remote_static := other;
  into_transport_mode hs :=
    if bool_decide (turn hs = 3%nat)
    then Ok (if initiates hs then mkTransportState (1%nat : @CipherState toy_cipher) 1001%nat
             else mkTransportState (1001%nat : @CipherState toy_cipher) 1%nat)
    else Err "handshake not finished"%string;
|}.

Lemma length_public_of seed : length (public_of seed) = 32%nat.
Proof. unfold public_of. rewrite length_take, length_app, length_replicate. lia. Qed.

#[export] Instance toy_snow_laws : SnowLaws.
Proof.
  split.
  - by eexists.
  - intros [i o ot t] p hs' m. simpl. destruct i, t as [|[|[|t]]]; by intros [= <- _].
  - intros [] sa sb pa qa pb qb p1 p2 p3 [= <- <-] [= <- <-] H1 H2 H3.
    exists (mkShake true (public_of sa) None 0), (mkShake false (public_of sb) None 0), p1,
      (public_of sb ++ p2), (public_of sa ++ p3),
      (mkTransportState (1%nat : @CipherState toy_cipher) 1001%nat),
      (mkTransportState (1001%nat : @CipherState toy_cipher) 1%nat).
    split_and!; [done..|]. split; [|..|done|done].
    + exists (mkShake true (public_of sa) None 1), (mkShake true (public_of sa) (Some (public_of sb)) 2),
        (mkShake true (public_of sa) (Some (public_of sb)) 3), (mkShake false (public_of sb) None 1),
        (mkShake false (public_of sb) None 2), (mkShake false (public_of sb) (Some (public_of sa)) 3).
      split_and!; try done; cbn [handshake_read toy_snow initiates turn own];
        rewrite take_app_length', drop_app_length' by (by rewrite length_public_of); done.
    + intros m Hm. unfold carried, XX_OVERHEAD in *.
      repeat (apply elem_of_cons in Hm as [->|Hm]; [rewrite ?length_app, ?length_public_of; lia|]).
      by apply elem_of_nil in Hm.
Qed.

(** Two nodes with generated keys. *)
Definition seed_a : bytes := [x01].
Definition seed_b : bytes := [x02].
Definition id_of (k : Keypair) : TransportIdentityManager :=
  mkTransportIdentityManager AlgEcdsaP256 (public_peer_id (keypair_public k))
    (public_encode_protobuf (keypair_public k)) (SoftwareKey k).
Definition payload_of (k : Keypair) (q : bytes) : NoiseHandshakePayload :=
  mkNoiseHandshakePayload (public_encode_protobuf (keypair_public k))
    (default [] (keypair_sign k (STATIC_KEY_DOMAIN ++ q))) None.

Lemma static_of seed : generate_local_static_keypair seed = Ok (mkLocalStaticKeypair seed (public_of seed)).
Proof. done. Qed.

Lemma can_shake_id k seed :
  k ∈ [fresh_key; other_key] → seed ∈ [seed_a; seed_b] →
  can_shake (id_of k) (keypair_public k) (public_of seed) (payload_of k (public_of seed)).
Proof.
  intros Hk Hs. split.
  - by apply from_keypair_genuine.
  - done.
  - repeat (apply elem_of_cons in Hk as [->|Hk]; [done|]). by apply elem_of_nil in Hk.
  - repeat (apply elem_of_cons in Hk as [->|Hk];
      [repeat (apply elem_of_cons in Hs as [->|Hs]; [done|]); by apply elem_of_nil in Hs|]).
    by apply elem_of_nil in Hk.
  - unfold carried. apply Nat.leb_le.
    repeat (apply elem_of_cons in Hk as [->|Hk];
      [repeat (apply elem_of_cons in Hs as [->|Hs]; [vm_compute; reflexivity|]); by apply elem_of_nil in Hs|]).
    by apply elem_of_nil in Hk.
Qed.

Lemma noise_handshake_agrees_witness :
  ∃ m1 m2 m3 ta tb, sending ta = receiving tb ∧ sending tb = receiving ta ∧
    ∃ dialer' listener',
      noise_upgrade_outbound (id_of fresh_key) seed_a (mkDuplex (mkStream (handshake_frame m2) eof) [] []) =
        Ret (dialer', Ok (mkNoiseUpgradeOutput ta [x12; x20; x2b] (encode_key x2b))) ∧
      noise_upgrade_inbound (id_of other_key) seed_b
        (mkDuplex (mkStream (handshake_frame m1 ++ handshake_frame m3) eof) [] []) =
        Ret (listener', Ok (mkNoiseUpgradeOutput tb [x12; x20; x2a] (encode_key x2a))).
Proof.
  destruct (noise_handshake_agrees (id_of fresh_key) (id_of other_key) (keypair_public fresh_key)
    (keypair_public other_key) seed_a seed_b (mkLocalStaticKeypair seed_a (public_of seed_a))
    (mkLocalStaticKeypair seed_b (public_of seed_b)) (payload_of fresh_key (public_of seed_a))
    (payload_of other_key (public_of seed_b)) (static_of seed_a) (static_of seed_b)
    (can_shake_id fresh_key seed_a ltac:(set_solver) ltac:(set_solver))
    (can_shake_id other_key seed_b ltac:(set_solver) ltac:(set_solver)))
    as (m1 & m2 & m3 & ta & tb & Hs & Hr & Hrun).
  exists m1, m2, m3, ta, tb. split; [exact Hs|]. split; [exact Hr|].
  destruct (Hrun (mkDuplex (mkStream (handshake_frame m2) eof) [] [])
    (mkDuplex (mkStream (handshake_frame m1 ++ handshake_frame m3) eof) [] []) [] [])
    as (d' & l' & Hd & Hl & _); [by constructor..|simpl; by rewrite app_nil_r|simpl; by rewrite app_nil_r|].
  exists d', l'. split; [exact Hd|exact Hl].
Defined.
End HandshakeWitness.
