(* ===== verification/NetConfig.v ===== *)
(** * Network configuration

    Models the parsing half of erp-runtime/src/network/config.rs (the bootstrap peers
    that are compiled into the image) and rp-runtime/src/network/config.rs (the
    environment variables of the host).  Addresses are the class [MultiaddrLib] of
    [Identify]; the textual form of peer ids is the class [PeerIdText]. *)

From S2P Require Import Prelude.
From S2P Require Import Text.
From S2P Require Import Ipv6.
From S2P Require Import Crypto.
From S2P Require Import Messages.
From S2P Require Import Errors.
From S2P Require Import HostNetwork.
From S2P Require Import ErpNetwork.
From S2P Require Import Identify.

(** [str::parse::<PeerId>] followed by [to_bytes] *)
Class PeerIdText : Type := peer_id_parse : bytes → option bytes.

Definition comma : byte := x2c.
Definition at_sign : byte := x40.

(** ** The embedded runtime *)

Section erp_config.
Context `{MultiaddrLib, PeerIdText}.

Definition parse_transport_peer_id (value : bytes) : result bytes Erp.RuntimeError :=
  match peer_id_parse value with
  | Some id => Ok id
  | None => Err (Erp.Config "BOOTSTRAP_PEERS contains an invalid libp2p peer id")
  end.

Definition parse_bootstrap_address (value : bytes) : result MultiaddrLite Erp.RuntimeError :=
  match multiaddr_parse value with
  | None => Err (Erp.Config "BOOTSTRAP_PEERS contains an invalid multiaddr")
  | Some m =>
      match multiaddr_iter m with
      | [ProtoIp4 addr; ProtoTcp port] => Ok (Ip4Tcp addr port)
      | [ProtoDns4 host; ProtoTcp port] => Ok (Dns4Tcp host port)
      | _ => Err (Erp.Config "BOOTSTRAP_PEERS only supports /ip4/.../tcp/... and /dns4/.../tcp/... entries")
      end
  end.

Definition parse_bootstrap_peer (entry : bytes) : result BootstrapPeer Erp.RuntimeError :=
  let! r := match split_once at_sign entry with
            | Some (address, peer_id) =>
                let! id := parse_transport_peer_id (trim peer_id) in
                Ok (address, Some id)
            | None => Ok (entry, None)
            end in
  let '(address, expected) := r in
  let! address := parse_bootstrap_address (trim address) in
  Ok (mkBootstrapPeer address expected).

Definition parse_bootstrap_peers (input : option bytes) : result (list BootstrapPeer) Erp.RuntimeError :=
  match (match input with
         | Some input => if bool_decide (trim input = []) then None else Some (trim input)
         | None => None
         end) with
  | None => Ok []
  | Some input =>
      collect parse_bootstrap_peer (filter (λ e, e ≠ []) (map trim (split_on comma input)))
  end.

(** [env] is the variable [BOOTSTRAP_PEERS] of the build. *)
Definition from_build_env (env : option bytes) : result NetworkConfig Erp.RuntimeError :=
  let! peers := parse_bootstrap_peers env in
  let d := NetworkConfig_default in
  Ok (mkNetworkConfig (listen_port d) (config_max_peers d) (max_outbound_dials d) (config_max_frame_len d)
        (config_max_blocks_per_chunk d) (idle_timeout_ms d) peers).
End erp_config.

(** ** The host runtime *)

Section host_config.
Context `{MultiaddrLib}.

Record HostNetworkConfig : Type := mkHostNetworkConfig {
  host_listen_addr : Multiaddr;
  bootstrap_addrs : list Multiaddr;
  request_timeout_secs : Z;
  idle_timeout_secs : Z;
  host_max_frame_len : Z;
  host_max_blocks_per_chunk : Z;
}.

Definition DEFAULT_LISTEN_ADDR : bytes := str "/ip4/0.0.0.0/tcp/4001".
Definition DEFAULT_REQUEST_TIMEOUT_SECS : Z := 10.
Definition DEFAULT_IDLE_TIMEOUT_SECS : Z := 300.

Definition HostNetworkConfig_default : outcome HostNetworkConfig :=
  match multiaddr_parse DEFAULT_LISTEN_ADDR with
  | None => Panic
  | Some addr =>
      Ret (mkHostNetworkConfig addr [] DEFAULT_REQUEST_TIMEOUT_SECS DEFAULT_IDLE_TIMEOUT_SECS
             HostNetwork.DEFAULT_MAX_FRAME_LEN HostNetwork.DEFAULT_MAX_BLOCKS_PER_CHUNK)
  end.

(** [str::parse::<u64>]: digits, after an optional plus sign, that fit *)
Definition parse_u64 (value : bytes) : option Z :=
  let digits := if bool_decide (head value = Some x2b) then tail value else value in
  if bool_decide (digits = []) || negb (forallb is_digit digits) then None
  else if bool_decide (read_decimal digits ≤ u64_max) then Some (read_decimal digits) else None.

(** The variables of the environment; a variable that is not valid Unicode is [None] too. *)
Definition Env : Type := string → option bytes.

Definition parse_bootstrap_addrs (value : bytes) : result (list Multiaddr) Host.RuntimeError :=
  collect (λ entry, match multiaddr_parse entry with
                    | Some m => Ok m
                    | None => Err (Host.Config "invalid RP_RUNTIME_BOOTSTRAP_PEERS")
                    end)
    (filter (λ e, e ≠ []) (map trim (split_on comma value))).

Definition from_env (env : Env) : outcome (result HostNetworkConfig Host.RuntimeError) :=
  config ← HostNetworkConfig_default;
  Ret (
    let! config :=
      match env "RP_RUNTIME_LISTEN_ADDR" with
      | None => Ok config
      | Some value =>
          match multiaddr_parse value with
          | None => Err (Host.Config "invalid RP_RUNTIME_LISTEN_ADDR")
          | Some addr =>
              Ok (mkHostNetworkConfig addr (bootstrap_addrs config) (request_timeout_secs config)
                    (idle_timeout_secs config) (host_max_frame_len config) (host_max_blocks_per_chunk config))
          end
      end in
    let! config :=
      match env "RP_RUNTIME_BOOTSTRAP_PEERS" with
      | None => Ok config
      | Some value =>
          let! addrs := parse_bootstrap_addrs value in
          Ok (mkHostNetworkConfig (host_listen_addr config) addrs (request_timeout_secs config)
                (idle_timeout_secs config) (host_max_frame_len config) (host_max_blocks_per_chunk config))
      end in
    Ok (match (value ← env "RP_RUNTIME_REQUEST_TIMEOUT_SECS"; parse_u64 value) with
        | None => config
        | Some secs =>
            mkHostNetworkConfig (host_listen_addr config) (bootstrap_addrs config) secs
              (idle_timeout_secs config) (host_max_frame_len config) (host_max_blocks_per_chunk config)
        end)).
End host_config.

(** ** What a list of bootstrap peers can look like *)

Definition blank (l : bytes) : Prop := Forall (λ b, white b = true) l.

Definition addr_text (a : MultiaddrLite) : bytes :=
  match a with
  | Ip4Tcp addr port => ip4_tcp_text addr port
  | Dns4Tcp host port => dns4_tcp_text host port
  end.

(** A host name that is not cut at a comma or an at sign. *)
Definition addr_plain (a : MultiaddrLite) : Prop :=
  match a with Ip4Tcp _ _ => True | Dns4Tcp host _ => (comma ∉ str host) ∧ (at_sign ∉ str host) end.

(** An entry: nothing, or an address with spaces around it, and a peer id after an at sign. *)
Inductive Entry : Type :=
| Blank (pad : bytes)
| Plain (p : bytes) (a : MultiaddrLite) (q : bytes)
| Expecting (p : bytes) (a : MultiaddrLite) (q r text u : bytes).

Definition entry_text (e : Entry) : bytes :=
  match e with
  | Blank pad => pad
  | Plain p a q => p ++ addr_text a ++ q
  | Expecting p a q r text u => p ++ (addr_text a ++ q ++ at_sign :: r ++ text) ++ u
  end.

Section entries.
Context `{MultiaddrLib, PeerIdText, !MultiaddrLaws}.

Definition entry_peer (e : Entry) : option BootstrapPeer :=
  match e with
  | Blank _ => None
  | Plain _ a _ => Some (mkBootstrapPeer a None)
  | Expecting _ a _ _ text _ => Some (mkBootstrapPeer a (peer_id_parse text))
  end.

Definition entry_ok (e : Entry) : Prop :=
  match e with
  | Blank pad => blank pad
  | Plain p a q => blank p ∧ blank q ∧ addr_ok a ∧ addr_plain a
  | Expecting p a q r text u =>
      blank p ∧ blank q ∧ blank r ∧ blank u ∧ addr_ok a ∧ addr_plain a ∧
      trimmed text ∧ (comma ∉ text) ∧ is_Some (peer_id_parse text)
  end.

Lemma blank_without c l : white c = false → blank l → c ∉ l.
Proof. intros Hc Hl Hin. unfold blank in Hl. rewrite Forall_forall in Hl. specialize (Hl c Hin). simpl in Hl. congruence. Qed.

Lemma digit_visible b : is_digit b = true → visible b = true.
Proof. by destruct b. Qed.

Lemma decimal_trimmed_end l n : 0 ≤ n → ∃ b, last (l ++ decimal n) = Some b ∧ visible b = true.
Proof.
  intros Hn. pose proof (decimal_ne n) as Hne. pose proof (decimal_digits n Hn) as Hd.
  destruct (decimal n) as [|d ds] using rev_ind; [done|]. exists d. rewrite app_assoc, last_snoc. split; [done|].
  apply Forall_app in Hd as [_ Hd]. apply Forall_cons in Hd as [Hd _]. by apply digit_visible.
Qed.

Lemma addr_trimmed a : addr_ok a → trimmed (addr_text a).
Proof.
  destruct a as [addr port|host port]; intros [_ [Hp _]]; (split; [by exists x2f|]); cbn [addr_text].
  - unfold ip4_tcp_text. rewrite !app_assoc. by apply decimal_trimmed_end.
  - unfold dns4_tcp_text. rewrite !app_assoc. by apply decimal_trimmed_end.
Qed.

Lemma addr_without c a :
  is_digit c = false → lacks c (str "/ip4/" ++ str "/dns4/" ++ str "/tcp/" ++ str ".") = true →
  addr_ok a → match a with Ip4Tcp _ _ => True | Dns4Tcp host _ => c ∉ str host end → c ∉ addr_text a.
Proof.
  intros Hd Hl%lacks_spec Ha Hh. rewrite !not_elem_of_app in Hl. destruct Hl as (H4 & H6 & Ht & Hdot).
  destruct a as [addr port|host port]; destruct Ha as [_ [Hp _]]; cbn [addr_text];
    [unfold ip4_tcp_text|unfold dns4_tcp_text]; rewrite !not_elem_of_app; split_and!;
    try done; try (by apply digits_without).
  by apply ipv4_text_without.
Qed.

Lemma parse_address_text a : addr_ok a → parse_bootstrap_address (addr_text a) = Ok a.
Proof.
  unfold parse_bootstrap_address. destruct a as [addr port|host port]; intros [Ha Hp]; cbn [addr_text].
  - destruct (multiaddr_parse_ip4 addr port Ha Hp) as (m & -> & ->). done.
  - destruct (multiaddr_parse_dns4 host port Ha Hp) as (m & -> & ->). done.
Qed.

(** Trimming an entry leaves what the parser of entries reads as the peer. *)
Lemma entry_parses e :
  entry_ok e →
  match entry_peer e with
  | None => trim (entry_text e) = []
  | Some peer => trim (entry_text e) ≠ [] ∧ parse_bootstrap_peer (trim (entry_text e)) = Ok peer
  end.
Proof.
  destruct e as [pad|p a q|p a q r text u]; cbn [entry_ok entry_peer entry_text].
  - intros Hp. unfold trim. rewrite <-(app_nil_r pad), trim_start_pad by done. done.
  - intros (Hp & Hq & Ha & Hpl). rewrite trim_pad by auto using addr_trimmed.
    assert (at_sign ∉ addr_text a) as Hat by (apply addr_without; [done..|by destruct a; [|destruct Hpl]]).
    split; [by destruct a|]. unfold parse_bootstrap_peer. rewrite split_once_absent by done. cbn [try_].
    pose proof (trim_pad [] (addr_text a) [] ltac:(constructor) ltac:(constructor) (addr_trimmed a Ha)) as Ht.
    rewrite app_nil_r in Ht. simpl in Ht. rewrite Ht, parse_address_text by done. done.
  - intros (Hp & Hq & Hr & Hu & Ha & Hpl & Htext & _ & [id Hid]).
    assert (at_sign ∉ addr_text a) as Hat by (apply addr_without; [done..|by destruct a; [|destruct Hpl]]).
    assert (at_sign ∉ q) as Hatq by by apply blank_without.
    rewrite trim_pad; [|done|done|].
    2:{ split; [destruct (addr_trimmed a Ha) as [(b & Hb & Hv) _]; exists b; by destruct (addr_text a)|].
        destruct Htext as [_ (b & Hb & Hv)]. exists b. split; [|done].
        destruct text as [|t0 text0] using rev_ind; [done|]. rewrite last_snoc in Hb. injection Hb as ->.
        rewrite app_comm_cons, !app_assoc. by rewrite last_snoc. }
    split; [by destruct a|]. unfold parse_bootstrap_peer. rewrite app_assoc, split_once_found by set_solver.
    cbn [try_]. unfold parse_transport_peer_id.
    pose proof (trim_pad r text [] Hr ltac:(constructor) Htext) as Ht. rewrite app_nil_r in Ht. rewrite Ht, Hid.
    cbn [try_]. pose proof (trim_pad [] (addr_text a) q ltac:(constructor) Hq (addr_trimmed a Ha)) as Ht'. simpl in Ht'.
    rewrite Ht', parse_address_text by done. done.
Qed.

Lemma entry_without_comma e : entry_ok e → comma ∉ entry_text e.
Proof.
  assert (∀ a, addr_ok a → addr_plain a → comma ∉ addr_text a) as Hac.
  { intros a Ha Hpl. apply addr_without; [done..|by destruct a; [|destruct Hpl]]. }
  destruct e as [pad|p a q|p a q r text u]; cbn [entry_ok entry_text].
  - by apply blank_without.
  - intros (Hp & Hq & Ha & Hpl). rewrite !not_elem_of_app. auto using blank_without.
  - intros (Hp & Hq & Hr & Hu & Ha & Hpl & _ & Ht & _). rewrite !not_elem_of_app, not_elem_of_cons, not_elem_of_app.
    split_and!; auto using blank_without.
Qed.

Lemma collect_entries es :
  Forall entry_ok es →
  collect parse_bootstrap_peer (filter (λ e, e ≠ []) (map trim (map entry_text es))) = Ok (omap entry_peer es).
Proof.
  induction 1 as [|e es He _ IH]; [done|]. cbn [map]. pose proof (entry_parses e He) as Hp.
  rewrite filter_cons. cbn [omap list_omap]. destruct (entry_peer e) as [peer|].
  - destruct Hp as [Hne Hp]. rewrite decide_True by done. cbn [collect]. by rewrite Hp, IH.
  - rewrite decide_False by (rewrite Hp; tauto). done.
Qed.

(** the bootstrap peers that are compiled in are the ones that were written down: a list
    of entries separated by commas, with spaces around addresses and peer ids and with empty
    entries, is read as the peers of its entries, in their order. *)
Theorem bootstrap_peers_read p es q :
  es ≠ [] → Forall entry_ok es → blank p → blank q → trimmed (join_with [comma] (map entry_text es)) →
  from_build_env (Some (p ++ join_with [comma] (map entry_text es) ++ q)) =
    Ok (mkNetworkConfig DEFAULT_LISTEN_PORT DEFAULT_MAX_PEERS DEFAULT_MAX_OUTBOUND_DIALS DEFAULT_MAX_FRAME_LEN
          DEFAULT_MAX_BLOCKS_PER_CHUNK DEFAULT_IDLE_TIMEOUT_MS (omap entry_peer es)).
Proof.
  intros Hne Hes Hp Hq Ht. unfold from_build_env, parse_bootstrap_peers. rewrite trim_pad by done.
  rewrite bool_decide_false.
  2:{ intros E. rewrite E in Ht. by destruct Ht as [(b & Hb & _) _]. }
  rewrite split_on_join, collect_entries; [done|done|by destruct es|].
  apply Forall_map. eapply Forall_impl; [exact Hes|]. intros e. apply entry_without_comma.
Qed.
End entries.

(** A timeout that was written down is read, unless it does not fit. *)
Lemma parse_u64_decimal n : is_u64 n → parse_u64 (decimal n) = Some n.
Proof.
  intros [Hn Hm]. pose proof (decimal_ne n) as Hne. pose proof (decimal_digits n Hn) as Hd.
  assert (read_decimal (decimal n) = n) as Hr by (apply read_decimal_decimal; unfold u64_modulus in Hm; lia).
  assert (head (decimal n) ≠ Some x2b) as Hplus.
  { destruct (decimal n) as [|b l]; [done|]. apply Forall_cons in Hd as [Hb _]. by intros [= ->]. }
  unfold parse_u64. rewrite (bool_decide_false _ Hplus), (bool_decide_false (decimal n = [])) by done.
  rewrite (proj2 (forallb_forall is_digit (decimal n))).
  - cbn [negb orb]. rewrite Hr, bool_decide_true; [done|]. unfold u64_max, u64_modulus in *. lia.
  - intros b Hb. rewrite Forall_forall in Hd. by apply Hd, list_elem_of_In.
Qed.

Module ConfigWitness.
Import ToyMultiaddr.

(** Peer ids as they are. *)
#[local] Instance plain_ids : PeerIdText := λ b, if bool_decide (b = []) then None else Some b.

Definition entries : list Entry :=
  [Plain [] (Ip4Tcp [x0a; x00; x00; x07] 4001) [x20]; Blank [x20; x09];
   Expecting [x20] (Dns4Tcp "node.example" 80) [x20] [x20] (str "12D3") []].

Lemma bootstrap_peers_read_witness :
  from_build_env (Some ([x20] ++ join_with [comma] (map entry_text entries) ++ [x0a])) =
    Ok (mkNetworkConfig 4001 16 4 65536 8 60000
          [mkBootstrapPeer (Ip4Tcp [x0a; x00; x00; x07] 4001) None;
           mkBootstrapPeer (Dns4Tcp "node.example" 80) (Some (str "12D3"))]).
Proof.
  rewrite (bootstrap_peers_read [x20] entries [x0a]).
  - reflexivity.
  - discriminate.
  - repeat constructor; unfold is_u16, host_name; simpl; try lia; try done; try (by apply lacks_spec).
    all: eexists; vm_compute; done.
  - repeat constructor.
  - repeat constructor.
  - split; eexists; split; vm_compute; reflexivity.
Defined.
End ConfigWitness.
