(* ===== verification/HostCodecs.v ===== *)
(** * Request and response codecs of the host runtime

    Models the three [Codec] implementations of rp-runtime/src/network/manager.rs, with
    which the host speaks the node hello, sync and announce protocols, and compares them
    with the codecs of the embedded runtime. *)

From S2P Require Import Prelude.
From S2P Require Import Crypto.
From S2P Require Import Messages.
From S2P Require Import Errors.
From S2P Require Import Framing.
From S2P Require Import NodeHello.
From S2P Require Import HostNetwork.

(** [libp2p::request_response::Codec]; what is written is the bytes of the frame. *)
Class Codec (Request Response : Type) : Type := {
  read_request : Stream → io_result (Request * Stream);
  read_response : Stream → io_result (Response * Stream);
  write_request : Request → io_result bytes;
  write_response : Response → io_result bytes;
}.

Section codecs.
Context `{UnsignedVarint, Crypto}.
Context `{!Postcard NodeHello, !Postcard NodeHelloResponse, !Postcard SyncRequest, !Postcard SyncResponse,
  !Postcard AnnounceRequest, !Postcard AnnounceResponse}.

#[export] Instance NodeHelloCodec : Codec NodeHello NodeHelloResponse := {
  read_request io := read_postcard_frame io DEFAULT_MAX_FRAME_LEN;
  read_response io := read_postcard_frame io DEFAULT_MAX_FRAME_LEN;
  write_request request := write_postcard_frame request DEFAULT_MAX_FRAME_LEN;
  write_response response := write_postcard_frame response DEFAULT_MAX_FRAME_LEN;
}.

#[export] Instance SyncCodec : Codec SyncRequest SyncResponse := {
  read_request io := read_postcard_frame io DEFAULT_MAX_FRAME_LEN;
  read_response io := read_postcard_frame io DEFAULT_MAX_FRAME_LEN;
  write_request request := write_postcard_frame request DEFAULT_MAX_FRAME_LEN;
  write_response response := write_postcard_frame response DEFAULT_MAX_FRAME_LEN;
}.

#[export] Instance AnnounceCodec : Codec AnnounceRequest AnnounceResponse := {
  read_request io := read_postcard_frame io DEFAULT_MAX_FRAME_LEN;
  read_response io := read_postcard_frame io DEFAULT_MAX_FRAME_LEN;
  write_request request := write_postcard_frame request DEFAULT_MAX_FRAME_LEN;
  write_response response := write_postcard_frame response DEFAULT_MAX_FRAME_LEN;
}.

Context `{!VarintLaws}.

(** The two runtimes write the same frames: the host with its codec, the embedded runtime
    with the functions [erp_write] and [erp_read] that it uses for the type.  A frame of
    either is read by both as the value that was written, whatever follows it. *)
Record interoperates {A} (host_write : A → io_result bytes) (host_read : Stream → io_result (A * Stream))
    (erp_write : A → result bytes Erp.RuntimeError) (erp_read : Stream → result (A * Stream) Erp.RuntimeError) : Prop := {
  same_frames a f : host_write a = Ok f ↔ erp_write a = Ok f;
  both_read a f rest e :
    host_write a = Ok f →
    host_read (mkStream (f ++ rest) e) = Ok (a, mkStream rest e) ∧
    erp_read (mkStream (f ++ rest) e) = Ok (a, mkStream rest e);
}.

Lemma limit_small : DEFAULT_MAX_FRAME_LEN < 2 ^ 32.
Proof. done. Qed.

Lemma host_frame `{Postcard A, !PostcardRoundtrip A} (a : A) f :
  write_postcard_frame a DEFAULT_MAX_FRAME_LEN = Ok f →
  ∃ payload, encode_length_prefixed payload DEFAULT_MAX_FRAME_LEN = Ok f ∧ postcard_from_bytes payload = Some a.
Proof.
  unfold write_postcard_frame, encode_postcard. destruct (to_allocvec a) as [payload|] eqn:E; [|done].
  intros Hf. exists payload. split; [exact Hf|]. by apply postcard_from_to.
Qed.

Lemma host_reads `{Postcard A, !PostcardRoundtrip A} (a : A) f rest e :
  write_postcard_frame a DEFAULT_MAX_FRAME_LEN = Ok f →
  read_postcard_frame (mkStream (f ++ rest) e) DEFAULT_MAX_FRAME_LEN = Ok (a, mkStream rest e).
Proof.
  intros (payload & Hp & Hd)%host_frame.
  destruct (read_encoded_frame payload _ f rest e limit_small Hp) as [Hr Hl].
  unfold read_postcard_frame. rewrite Hr. cbn [try_]. rewrite Hl. cbn [try_]. unfold decode_postcard. by rewrite Hd.
Qed.

(** What the embedded runtime does for sync and announce messages. *)
Definition erp_read_message `{Postcard A} (s : Stream) : result (A * Stream) Erp.RuntimeError :=
  let! r := erp_read_length_prefixed_frame s DEFAULT_MAX_FRAME_LEN in
  let! a := decode_protocol_message r.1 DEFAULT_MAX_FRAME_LEN in
  Ok (a, r.2).

Lemma message_interoperates `{Postcard A, !PostcardRoundtrip A} :
  interoperates (A:=A) (λ a, write_postcard_frame a DEFAULT_MAX_FRAME_LEN)
    (λ s, read_postcard_frame s DEFAULT_MAX_FRAME_LEN)
    (λ a, encode_protocol_message a DEFAULT_MAX_FRAME_LEN) erp_read_message.
Proof.
  split.
  - intros a f. unfold write_postcard_frame, encode_protocol_message, PostcardCodec_encode, erp_encode_length_prefixed.
    destruct (encode_postcard a) as [p|]; [|done]. cbn [map_err try_].
    destruct (encode_length_prefixed p _); [|done]. cbn [map_err]. split; by intros [= ->].
  - intros a f rest e Hf. split; [by apply host_reads|]. apply host_frame in Hf as (payload & Hp & Hd).
    destruct (read_encoded_frame payload _ f rest e limit_small Hp) as [Hr Hl].
    unfold erp_read_message, erp_read_length_prefixed_frame. rewrite Hr. cbn [map_err try_ fst snd].
    unfold decode_protocol_message, erp_decode_length_prefix. rewrite Hl. cbn [map_err try_].
    unfold PostcardCodec_decode, decode_postcard. by rewrite Hd.
Qed.

Lemma hello_interoperates `{Postcard A, !PostcardRoundtrip A} :
  interoperates (A:=A) (λ a, write_postcard_frame a DEFAULT_MAX_FRAME_LEN)
    (λ s, read_postcard_frame s DEFAULT_MAX_FRAME_LEN)
    (λ a, erp_write_postcard_frame a DEFAULT_MAX_FRAME_LEN)
    (λ s, erp_read_postcard_frame s DEFAULT_MAX_FRAME_LEN).
Proof.
  split.
  - exact (same_frames _ _ _ _ message_interoperates).
  - intros a f rest e Hf. split; [by apply host_reads|]. unfold erp_read_postcard_frame.
    by rewrite (host_reads a f).
Qed.

Context `{!PostcardRoundtrip NodeHello, !PostcardRoundtrip NodeHelloResponse, !PostcardRoundtrip SyncRequest,
  !PostcardRoundtrip SyncResponse, !PostcardRoundtrip AnnounceRequest, !PostcardRoundtrip AnnounceResponse}.

(** C33: the two runtimes understand each other: for every message of the node hello, sync and
    announce protocols the host's codec and the embedded runtime write the same frames, and
    each reads the frames of the other as the message that was meant. *)
Theorem codecs_interoperate :
  interoperates write_request read_request
    (λ a, erp_write_postcard_frame a DEFAULT_MAX_FRAME_LEN)
    (λ s, erp_read_postcard_frame (A:=NodeHello) s DEFAULT_MAX_FRAME_LEN) ∧
  interoperates write_response read_response
    (λ a, erp_write_postcard_frame a DEFAULT_MAX_FRAME_LEN)
    (λ s, erp_read_postcard_frame (A:=NodeHelloResponse) s DEFAULT_MAX_FRAME_LEN) ∧
  interoperates write_request read_request
    (λ a, encode_sync_request a DEFAULT_MAX_FRAME_LEN) (erp_read_message (A:=SyncRequest)) ∧
  interoperates write_response read_response
    (λ a, encode_sync_response a DEFAULT_MAX_FRAME_LEN) (erp_read_message (A:=SyncResponse)) ∧
  interoperates write_request read_request
    (λ a, encode_announce_request a DEFAULT_MAX_FRAME_LEN) (erp_read_message (A:=AnnounceRequest)) ∧
  interoperates write_response read_response
    (λ a, encode_announce_response a DEFAULT_MAX_FRAME_LEN) (erp_read_message (A:=AnnounceResponse)).
Proof. split_and!; first [apply message_interoperates|apply hello_interoperates]. Qed.
End codecs.

Module CodecWitness.
Import Leb128 ToyCrypto.

(** Codecs that know a few values. *)
#[local] Instance hellos : Postcard NodeHello := {| to_allocvec _ := None; postcard_from_bytes _ := None |}.
#[local] Instance responses : Postcard NodeHelloResponse := {| to_allocvec _ := None; postcard_from_bytes _ := None |}.
#[local] Instance announces : Postcard AnnounceRequest := {| to_allocvec _ := None; postcard_from_bytes _ := None |}.
#[local] Instance sync_responses : Postcard SyncResponse :=
  {| to_allocvec _ := None; postcard_from_bytes _ := None |}.
#[local] Instance announced : Postcard AnnounceResponse :=
  {| to_allocvec r := Some [if accepted r then x01 else x00];
     postcard_from_bytes b := match b with
                              | [x00] => Some (mkAnnounceResponse false)
                              | [x01] => Some (mkAnnounceResponse true)
                              | _ => None
                              end |}.
#[local] Instance sync_requests : Postcard SyncRequest :=
  {| to_allocvec r := match r with mkSyncRequest 0 10 => Some [x0a] | _ => None end;
     postcard_from_bytes b := match b with [x0a] => Some (mkSyncRequest 0 10) | _ => None end |}.

#[local] Instance announced_roundtrip : PostcardRoundtrip AnnounceResponse.
Proof. intros [[]] f [= <-]; done. Qed.
#[local] Instance sync_requests_roundtrip : PostcardRoundtrip SyncRequest.
Proof.
  intros r f Hf. cbn [to_allocvec sync_requests] in Hf.
  repeat match type of Hf with match ?x with _ => _ end = _ => destruct x; try discriminate Hf end.
  by injection Hf as <-.
Qed.

#[local] Instance hellos_roundtrip : PostcardRoundtrip NodeHello.
Proof. by intros a f Hf. Qed.
#[local] Instance responses_roundtrip : PostcardRoundtrip NodeHelloResponse.
Proof. by intros a f Hf. Qed.
#[local] Instance announces_roundtrip : PostcardRoundtrip AnnounceRequest.
Proof. by intros a f Hf. Qed.
#[local] Instance sync_responses_roundtrip : PostcardRoundtrip SyncResponse.
Proof. by intros a f Hf. Qed.

Lemma codecs_interoperate_witness :
  ∃ f, write_request (mkSyncRequest 0 10) = Ok f ∧ encode_sync_request (mkSyncRequest 0 10) DEFAULT_MAX_FRAME_LEN = Ok f ∧
    erp_read_message (mkStream (f ++ [x07]) eof) = Ok (mkSyncRequest 0 10, mkStream [x07] eof).
Proof.
  destruct codecs_interoperate as (_ & _ & Hs & _).
  destruct (write_request (mkSyncRequest 0 10)) as [f|e] eqn:E; [|vm_compute in E; discriminate E].
  exists f. split; [reflexivity|]. split; [exact (proj1 (same_frames _ _ _ _ Hs _ f) E)|].
  exact (proj2 (both_read _ _ _ _ Hs _ f [x07] eof E)).
Defined.
End CodecWitness.
