(* ===== verification/Yamux.v ===== *)
(** * Substreams

    Models erp-runtime/src/network/transport/yamux.rs: the wrapper around the crate
    [yamux] through which a session opens and accepts substreams, and reads and writes
    one of them.  A substream does not move the connection by itself, so every read and
    write also polls the connection, and keeps the substreams that arrive meanwhile. *)

From S2P Require Import Prelude.
From S2P Require Import Text.
From S2P Require Import Errors.
From S2P Require Import Framing.
From S2P Require Import Duplex.
From S2P Require Import Multistream.

(** ** The crate

    What each poll of the connection and of the substream in use returns is up to the
    environment: one list of answers for each function, [Pending] when it is empty.
    Substreams are named by numbers, and errors are the texts of [ConnectionError]. *)

Definition Stream_id : Type := nat.
Inductive Mode : Type := Client | Server.

Record Connection : Type := mkConnection {
  mode : Mode;
  (** [poll_next_inbound]: [None] when the connection is closed *)
  arrivals : list (poll (option (result Stream_id string)));
  new_outbounds : list (poll (result Stream_id string));
  conn_closes : list (poll (result unit string));
}.

(** The answer of a poll, and the answers that are left. *)
Definition next_poll {A} (l : list (poll A)) : list (poll A) * poll A :=
  match l with [] => ([], Pending) | p :: l => (l, p) end.

Definition poll_next_inbound (c : Connection) : Connection * poll (option (result Stream_id string)) :=
  let '(l, p) := next_poll (arrivals c) in (mkConnection (mode c) l (new_outbounds c) (conn_closes c), p).
Definition poll_new_outbound (c : Connection) : Connection * poll (result Stream_id string) :=
  let '(l, p) := next_poll (new_outbounds c) in (mkConnection (mode c) (arrivals c) l (conn_closes c), p).
Definition conn_poll_close (c : Connection) : Connection * poll (result unit string) :=
  let '(l, p) := next_poll (conn_closes c) in (mkConnection (mode c) (arrivals c) (new_outbounds c) l, p).

(** ** The muxer *)

Definition YAMUX_PROTOCOL : bytes := str "/yamux/1.0.0".
Definition DEFAULT_MAX_SUBSTREAMS : nat := 32.

Record YamuxMuxer : Type := mkYamuxMuxer {
  connection : Connection;
  pending_inbound : list Stream_id;
}.

Definition connection_error_to_io (error : string) : io_error :=
  mk_io_error Other ("yamux connection error: " +:+ error).
Definition map_connection_error (error : string) : Erp.RuntimeError :=
  Erp.NetworkError (connection_error_to_io error).

(** One poll of [open_substream]. *)
Definition poll_open_substream (m : YamuxMuxer) : YamuxMuxer * poll (result Stream_id Erp.RuntimeError) :=
  let '(c, p) := poll_new_outbound (connection m) in
  (mkYamuxMuxer c (pending_inbound m), poll_map (map_err map_connection_error) p).

(** One poll of [accept_substream]. *)
Definition poll_accept_substream (m : YamuxMuxer) :
    YamuxMuxer * poll (result (option Stream_id) Erp.RuntimeError) :=
  match pending_inbound m with
  | stream :: pending => (mkYamuxMuxer (connection m) pending, Ready (Ok (Some stream)))
  | [] =>
      let '(c, p) := poll_next_inbound (connection m) in
      (mkYamuxMuxer c [],
       match p with
       | Ready (Some (Ok stream)) => Ready (Ok (Some stream))
       | Ready (Some (Err error)) => Ready (Err (map_connection_error error))
       | Ready None => Ready (Ok None)
       | Pending => Pending
       end)
  end.

(** The loop of [poll_drive_connection]: every turn uses up an answer of the connection. *)
Fixpoint drive_loop (fuel : nat) (m : YamuxMuxer) (queued_stream : bool) :
    outcome (YamuxMuxer * poll (io_result unit)) :=
  match fuel with
  | O => OutOfFuel
  | S fuel =>
      let '(c, p) := poll_next_inbound (connection m) in
      match p with
      | Ready (Some (Ok stream)) => drive_loop fuel (mkYamuxMuxer c (pending_inbound m ++ [stream])) true
      | Ready (Some (Err error)) =>
          Ret (mkYamuxMuxer c (pending_inbound m), Ready (Err (connection_error_to_io error)))
      | Ready None =>
          Ret (mkYamuxMuxer c (pending_inbound m),
               Ready (Err (mk_io_error UnexpectedEof "yamux connection closed")))
      | Pending => Ret (mkYamuxMuxer c (pending_inbound m), if queued_stream then Ready (Ok tt) else Pending)
      end
  end.

Definition poll_drive_connection (m : YamuxMuxer) : outcome (YamuxMuxer * poll (io_result unit)) :=
  drive_loop (S (length (arrivals (connection m)))) m false.

(** One poll of [close]. *)
Definition poll_muxer_close (m : YamuxMuxer) : YamuxMuxer * poll (result unit Erp.RuntimeError) :=
  let '(c, p) := conn_poll_close (connection m) in
  (mkYamuxMuxer c (pending_inbound m), poll_map (map_err map_connection_error) p).

Section upgrade.
Context `{UnsignedVarint}.

Definition yamux_upgrade_outbound (c : Connection) : IO YamuxMuxer :=
  let* _ := dialer_select YAMUX_PROTOCOL in
  M_ret (mkYamuxMuxer (mkConnection Client (arrivals c) (new_outbounds c) (conn_closes c)) []).

Definition yamux_upgrade_inbound (c : Connection) : IO YamuxMuxer :=
  let* _ := listener_select [YAMUX_PROTOCOL] in
  M_ret (mkYamuxMuxer (mkConnection Server (arrivals c) (new_outbounds c) (conn_closes c)) []).
End upgrade.

(** ** A substream in use *)

(** [YamuxStreamIo]: the muxer, and the answers of the substream to each poll. *)
Record YamuxStreamIo : Type := mkYamuxStreamIo {
  muxer : YamuxMuxer;
  stream_reads : list (poll (io_result bytes));
  stream_writes : list (poll (io_result nat));
  stream_flushes : list (poll (io_result unit));
}.

Definition set_muxer (io : YamuxStreamIo) (m : YamuxMuxer) : YamuxStreamIo :=
  mkYamuxStreamIo m (stream_reads io) (stream_writes io) (stream_flushes io).

(** [poll_read] goes on as long as driving the connection brings substreams in. *)
Fixpoint stream_read_loop (fuel : nat) (io : YamuxStreamIo) : outcome (YamuxStreamIo * poll (io_result bytes)) :=
  match fuel with
  | O => OutOfFuel
  | S fuel =>
      let '(l, p) := next_poll (stream_reads io) in
      let io := mkYamuxStreamIo (muxer io) l (stream_writes io) (stream_flushes io) in
      match p with
      | Ready r => Ret (io, Ready r)
      | Pending =>
          '(m, d) ← poll_drive_connection (muxer io);
          match d with
          | Ready (Ok _) => stream_read_loop fuel (set_muxer io m)
          | Ready (Err error) => Ret (set_muxer io m, Ready (Err error))
          | Pending => Ret (set_muxer io m, Pending)
          end
      end
  end.

Definition stream_poll_read (io : YamuxStreamIo) : outcome (YamuxStreamIo * poll (io_result bytes)) :=
  stream_read_loop (S (length (arrivals (connection (muxer io))))) io.

(** [poll_write], [poll_flush] and [poll_close] poll the substream, then the connection. *)
Definition drive_pending {A} (io : YamuxStreamIo) (p : poll (io_result A)) :
    outcome (YamuxStreamIo * poll (io_result A)) :=
  match p with
  | Ready r => Ret (io, Ready r)
  | Pending =>
      '(m, d) ← poll_drive_connection (muxer io);
      Ret (set_muxer io m, match d with Ready (Err error) => Ready (Err error) | _ => Pending end)
  end.

Definition stream_poll_write (io : YamuxStreamIo) : outcome (YamuxStreamIo * poll (io_result nat)) :=
  let '(l, p) := next_poll (stream_writes io) in
  drive_pending (mkYamuxStreamIo (muxer io) (stream_reads io) l (stream_flushes io)) p.

Definition stream_poll_flush (io : YamuxStreamIo) : outcome (YamuxStreamIo * poll (io_result unit)) :=
  let '(l, p) := next_poll (stream_flushes io) in
  drive_pending (mkYamuxStreamIo (muxer io) (stream_reads io) (stream_writes io) l) p.

Definition stream_poll_close : YamuxStreamIo → outcome (YamuxStreamIo * poll (io_result unit)) :=
  stream_poll_flush.

(** ** Inbound substreams are neither lost nor reordered *)

(** The substreams that are still to come on the connection. *)
Definition coming (c : Connection) : list Stream_id :=
  omap (λ p, match p with Ready (Some (Ok s)) => Some s | _ => None end) (arrivals c).

(** All the substreams that have not been accepted. *)
Definition unaccepted (m : YamuxMuxer) : list Stream_id := pending_inbound m ++ coming (connection m).

Lemma drive_loop_spec fuel m q :
  (length (arrivals (connection m)) < fuel)%nat →
  ∃ m' r, drive_loop fuel m q = Ret (m', r) ∧ unaccepted m' = unaccepted m ∧
    (length (arrivals (connection m')) ≤ length (arrivals (connection m)))%nat ∧
    (r = Ready (Ok tt) → q = true ∨ (length (arrivals (connection m')) < length (arrivals (connection m)))%nat).
Proof.
  revert m q. induction fuel as [|fuel IH]; intros m q Hf; [lia|]. cbn [drive_loop].
  destruct m as [[md ar no cc] pend]. simpl in Hf. unfold poll_next_inbound. simpl.
  destruct ar as [|p ar]; simpl in *.
  { do 2 eexists. split_and!; [done|done|simpl; lia|]. destruct q; [by left|done]. }
  destruct p as [[[s|e]|]|].
  - destruct (IH (mkYamuxMuxer (mkConnection md ar no cc) (pend ++ [s])) true) as (m' & r & -> & Hu & Hl & _);
      [simpl; lia|]. exists m', r. simpl in Hl. split_and!; [done| |lia|right; lia].
    rewrite Hu. unfold unaccepted, coming. simpl. by rewrite <-app_assoc.
  - do 2 eexists. split_and!; [done|done|simpl; lia|done].
  - do 2 eexists. split_and!; [done|done|simpl; lia|done].
  - do 2 eexists. split_and!; [done|done|simpl; lia|]. intros _. right. simpl. lia.
Qed.

Lemma poll_drive_spec m :
  ∃ m' r, poll_drive_connection m = Ret (m', r) ∧ unaccepted m' = unaccepted m ∧
    (r = Ready (Ok tt) → (length (arrivals (connection m')) < length (arrivals (connection m)))%nat).
Proof.
  destruct (drive_loop_spec (S (length (arrivals (connection m)))) m false) as (m' & r & E & Hu & _ & Hr); [lia|].
  exists m', r. split_and!; [done|done|]. intros ->. by destruct Hr.
Qed.

Lemma stream_read_loop_spec fuel io :
  (length (arrivals (connection (muxer io))) < fuel)%nat →
  ∃ io' r, stream_read_loop fuel io = Ret (io', r) ∧ unaccepted (muxer io') = unaccepted (muxer io).
Proof.
  revert io. induction fuel as [|fuel IH]; intros io Hf; [lia|]. cbn [stream_read_loop].
  destruct (next_poll (stream_reads io)) as [l p]. destruct p as [r|]; [by eauto|]. cbn [muxer].
  destruct (poll_drive_spec (muxer io)) as (m' & d & -> & Hu & Hd). cbn [mbind outcome_bind].
  destruct d as [[[]|e]|]; [|by eauto..]. specialize (Hd eq_refl).
  destruct (IH (set_muxer (mkYamuxStreamIo (muxer io) l (stream_writes io) (stream_flushes io)) m'))
    as (io' & r & -> & Hu'); [simpl; lia|]. exists io', r. by rewrite Hu'.
Qed.

Lemma drive_pending_spec {A} io (p : poll (io_result A)) :
  ∃ io' r, drive_pending io p = Ret (io', r) ∧ unaccepted (muxer io') = unaccepted (muxer io).
Proof.
  unfold drive_pending. destruct p as [r|]; [by eauto|].
  destruct (poll_drive_spec (muxer io)) as (m' & d & -> & Hu & _). by do 2 eexists.
Qed.

(** What a session does with its muxer: it accepts or opens a substream, or polls the one
    it uses, for which the environment has answers of its own. *)
Inductive MuxOp : Type :=
| OpAccept
| OpOpen
| OpRead (answers : list (poll (io_result bytes)))
| OpWrite (answers : list (poll (io_result nat)))
| OpFlush (answers : list (poll (io_result unit)))
| OpShut (answers : list (poll (io_result unit))).

(** The muxer after an operation, and the substream it accepted. *)
Definition mux_op (m : YamuxMuxer) (op : MuxOp) : outcome (YamuxMuxer * option Stream_id) :=
  match op with
  | OpAccept =>
      let '(m, r) := poll_accept_substream m in
      Ret (m, match r with Ready (Ok s) => s | _ => None end)
  | OpOpen => Ret ((poll_open_substream m).1, None)
  | OpRead l => '(io, _) ← stream_poll_read (mkYamuxStreamIo m l [] []); Ret (muxer io, None)
  | OpWrite l => '(io, _) ← stream_poll_write (mkYamuxStreamIo m [] l []); Ret (muxer io, None)
  | OpFlush l => '(io, _) ← stream_poll_flush (mkYamuxStreamIo m [] [] l); Ret (muxer io, None)
  | OpShut l => '(io, _) ← stream_poll_close (mkYamuxStreamIo m [] [] l); Ret (muxer io, None)
  end.

Fixpoint mux_run (m : YamuxMuxer) (ops : list MuxOp) : outcome (YamuxMuxer * list Stream_id) :=
  match ops with
  | [] => Ret (m, [])
  | op :: ops =>
      '(m, s) ← mux_op m op;
      '(m, l) ← mux_run m ops;
      Ret (m, option_list s ++ l)
  end.

Lemma mux_op_spec m op :
  ∃ m' s, mux_op m op = Ret (m', s) ∧ unaccepted m = option_list s ++ unaccepted m'.
Proof.
  destruct op as [| |l|l|l|l]; unfold mux_op.
  - unfold poll_accept_substream. destruct m as [[md ar no cc] [|s pend]]; [|by do 2 eexists].
    unfold poll_next_inbound. simpl. destruct ar as [|[[[s|e]|]|] ar]; by do 2 eexists.
  - unfold poll_open_substream, poll_new_outbound. destruct (next_poll _). by do 2 eexists.
  - unfold stream_poll_read.
    destruct (stream_read_loop_spec (S (length (arrivals (connection m)))) (mkYamuxStreamIo m l [] []))
      as (io' & r & E & Hu); [simpl; lia|]. cbn [muxer]. rewrite E. do 2 eexists. split; [done|]. by rewrite Hu.
  - unfold stream_poll_write. cbn [stream_writes]. destruct (next_poll l) as [l' p].
    destruct (drive_pending_spec (mkYamuxStreamIo m [] l' []) p) as (io' & r & E & Hu). cbn [muxer stream_reads stream_flushes].
    rewrite E. do 2 eexists. split; [done|]. by rewrite Hu.
  - unfold stream_poll_flush. cbn [stream_flushes]. destruct (next_poll l) as [l' p].
    destruct (drive_pending_spec (mkYamuxStreamIo m [] [] l') p) as (io' & r & E & Hu). cbn [muxer stream_reads stream_writes].
    rewrite E. do 2 eexists. split; [done|]. by rewrite Hu.
  - unfold stream_poll_close, stream_poll_flush. cbn [stream_flushes]. destruct (next_poll l) as [l' p].
    destruct (drive_pending_spec (mkYamuxStreamIo m [] [] l') p) as (io' & r & E & Hu). cbn [muxer stream_reads stream_writes].
    rewrite E. do 2 eexists. split; [done|]. by rewrite Hu.
Qed.

(** C26: whatever a session does with its muxer, and however substreams arrive while it
    reads and writes another one, every poll returns, and the substreams it accepts are
    those that arrived, in that order, with none lost and none twice. *)
Theorem substreams_accepted_in_order m ops :
  ∃ m' accepted, mux_run m ops = Ret (m', accepted) ∧ unaccepted m = accepted ++ unaccepted m'.
Proof.
  revert m. induction ops as [|op ops IH]; intros m; [by do 2 eexists|]. cbn [mux_run].
  destruct (mux_op_spec m op) as (m1 & s & -> & H1). cbn [mbind outcome_bind].
  destruct (IH m1) as (m2 & l & -> & H2). cbn [mbind outcome_bind].
  do 2 eexists. split; [done|]. by rewrite H1, H2, app_assoc.
Qed.
