(* ===== verification/Socket.v ===== *)
(** * Sockets of the embedded runtime

    Models erp-runtime/src/network/socket/esp_idf.rs: non-blocking TCP sockets, read and
    written in polls that come back after a timer, and connected with a deadline.  The
    sockets are the crate [socket2]; what each call answers is up to the environment. *)

From S2P Require Import Prelude.
From S2P Require Import Errors.
From S2P Require Import PeerRegistry.

Definition SOCKET_RETRY_DELAY_MS : Z := 10.
Definition CONNECT_TIMEOUT_SECS : Z := 5.
Definition CONNECT_POLL_MS : Z := 50.

(** An [io::Error] with its operating system code. *)
Record SockError : Type := mkSockError {
  sock_io : io_error;
  raw_os_error : option Z;
}.

Section socket.
(** [libc::EINPROGRESS] *)
Context (EINPROGRESS : Z).

Definition is_would_block (e : SockError) : bool :=
  bool_decide (io_kind (sock_io e) = WouldBlock) || bool_decide (raw_os_error e = Some EINPROGRESS).

(** ** Streams *)

(** What each call answers, in order: reads, writes, flushes, polls of a timer ([true] when
    it has fired) and the shutdown.  When a list is empty the socket would block, and a
    timer has not fired. *)
Record Socket : Type := mkSocket {
  sock_reads : list (result bytes SockError);
  sock_writes : list (result nat SockError);
  sock_flushes : list (result unit SockError);
  timer_polls : list bool;
  shutdown_answer : result unit SockError;
}.

(** The three timers: whether each is set. *)
Record EspTcpStream : Type := mkEspTcpStream {
  socket : Socket;
  read_retry : bool;
  write_retry : bool;
  flush_retry : bool;
}.

Definition would_block : SockError := mkSockError (mk_io_error WouldBlock "operation would block") None.

Definition next_answer {A} (l : list (result A SockError)) : list (result A SockError) * result A SockError :=
  match l with [] => ([], Err would_block) | r :: l => (l, r) end.

(** [poll_retry]: whether the timer is still set, and the answer. *)
Definition poll_retry (timers : list bool) : list bool * bool * poll unit :=
  match timers with
  | true :: timers => (timers, false, Ready tt)
  | false :: timers => (timers, true, Pending)
  | [] => ([], true, Pending)
  end.

(** The loop of [poll_read], [poll_write] and [poll_flush]: it goes on when the timer has
    fired, which uses up an answer of the timer.  Returns the answers that are left,
    whether the timer is set, and the result. *)
Fixpoint retry_loop {A} (fuel : nat) (answers : list (result A SockError)) (timers : list bool) :
    outcome (list (result A SockError) * list bool * bool * poll (io_result A)) :=
  match fuel with
  | O => OutOfFuel
  | S fuel =>
      let '(answers, r) := next_answer answers in
      match r with
      | Ok a => Ret (answers, timers, false, Ready (Ok a))
      | Err e =>
          if is_would_block e then
            let '(timers, set, p) := poll_retry timers in
            match p with
            | Ready _ => retry_loop fuel answers timers
            | Pending => Ret (answers, timers, set, Pending)
            end
          else Ret (answers, timers, false, Ready (Err (sock_io e)))
      end
  end.

Definition sock_poll_read (s : EspTcpStream) : outcome (EspTcpStream * poll (io_result bytes)) :=
  let k := socket s in
  '(answers, timers, set, p) ← retry_loop (S (length (timer_polls k))) (sock_reads k) (timer_polls k);
  Ret (mkEspTcpStream (mkSocket answers (sock_writes k) (sock_flushes k) timers (shutdown_answer k))
         set (write_retry s) (flush_retry s), p).

Definition sock_poll_write (s : EspTcpStream) : outcome (EspTcpStream * poll (io_result nat)) :=
  let k := socket s in
  '(answers, timers, set, p) ← retry_loop (S (length (timer_polls k))) (sock_writes k) (timer_polls k);
  Ret (mkEspTcpStream (mkSocket (sock_reads k) answers (sock_flushes k) timers (shutdown_answer k))
         (read_retry s) set (flush_retry s), p).

Definition sock_poll_flush (s : EspTcpStream) : outcome (EspTcpStream * poll (io_result unit)) :=
  let k := socket s in
  '(answers, timers, set, p) ← retry_loop (S (length (timer_polls k))) (sock_flushes k) (timer_polls k);
  Ret (mkEspTcpStream (mkSocket (sock_reads k) (sock_writes k) answers timers (shutdown_answer k))
         (read_retry s) (write_retry s) set, p).

Definition sock_poll_close (s : EspTcpStream) : poll (io_result unit) :=
  Ready (map_err sock_io (shutdown_answer (socket s))).

(** ** Listening *)

Definition bind_address (addr : SocketAddr) (port : Z) : SocketAddr :=
  match addr with
  | SocketV4 ip _ => SocketV4 ip port
  | SocketV6 ip _ => SocketV6 ip port
  end.

(** A system call that answers an error or not; the calls of a function in order. *)
Definition call (answer : option SockError) : result unit Erp.RuntimeError :=
  match answer with Some e => Err (Erp.NetworkError (sock_io e)) | None => Ok tt end.

Record BindCalls : Type := mkBindCalls {
  bind_new : option SockError;
  bind_reuse : option SockError;
  bind_bind : option SockError;
  bind_listen : option SockError;
  bind_nonblocking : option SockError;
}.

(** The address the listener is bound to. *)
Definition socket_bind (addr : SocketAddr) (port : Z) (c : BindCalls) : result SocketAddr Erp.RuntimeError :=
  let! _ := call (bind_new c) in
  let! _ := call (bind_reuse c) in
  let! _ := call (bind_bind c) in
  let! _ := call (bind_listen c) in
  let! _ := call (bind_nonblocking c) in
  Ok (bind_address addr port).

(** What an [accept] answers, and the two calls on the new socket. *)
Record Accepted : Type := mkAccepted {
  accepted_addr : SocketAddr;
  accepted_socket : Socket;
  accepted_nonblocking : option SockError;
  accepted_nodelay : option SockError;
}.

Definition new_stream (k : Socket) : EspTcpStream := mkEspTcpStream k false false false.

(** [None] while no answer but [WouldBlock] has come. *)
Fixpoint socket_accept (answers : list (result Accepted SockError)) :
    option (result (EspTcpStream * SocketAddr) Erp.RuntimeError) :=
  match answers with
  | [] => None
  | Ok a :: _ =>
      Some (let! _ := call (accepted_nonblocking a) in
            let! _ := call (accepted_nodelay a) in
            Ok (new_stream (accepted_socket a), accepted_addr a))
  | Err e :: answers =>
      if bool_decide (io_kind (sock_io e) = WouldBlock) then socket_accept answers
      else Some (Err (Erp.NetworkError (sock_io e)))
  end.

(** ** Connecting *)

(** A turn of the wait: what [take_error] answers, whether the socket has a peer, and the
    time at which the deadline is checked. *)
Record Probe : Type := mkProbe {
  probe_error : result (option SockError) SockError;
  probe_connected : bool;
  probe_ms : Z;
}.

Fixpoint connect_wait (deadline_ms : Z) (probes : list Probe) : option (result unit Erp.RuntimeError) :=
  match probes with
  | [] => None
  | p :: probes =>
      let check_deadline :=
        if bool_decide (deadline_ms < probe_ms p)
        then Some (Err (Erp.NetworkError (mk_io_error TimedOut "connection timed out")))
        else connect_wait deadline_ms probes in
      match probe_error p with
      | Ok (Some e) => Some (Err (Erp.NetworkError (sock_io e)))
      | Ok None => if probe_connected p then Some (Ok tt) else check_deadline
      | Err e => Some (Err (Erp.NetworkError (sock_io e)))
      end
  end.

Record ConnectCalls : Type := mkConnectCalls {
  connect_new : option SockError;
  connect_nonblocking : option SockError;
  connect_call : option SockError;
  connect_start_ms : Z;
  connect_probes : list Probe;
  connect_last_error : result (option SockError) SockError;
  connect_nodelay : option SockError;
}.

(** [None] while the connection is not made and the deadline has not passed. *)
Definition socket_connect (k : Socket) (c : ConnectCalls) : option (result EspTcpStream Erp.RuntimeError) :=
  match call (connect_new c), call (connect_nonblocking c) with
  | Err e, _ => Some (Err e)
  | Ok _, Err e => Some (Err e)
  | Ok _, Ok _ =>
      r ← match connect_call c with
          | None => Some (Ok tt)
          | Some e =>
              if is_would_block e
              then connect_wait (connect_start_ms c + CONNECT_TIMEOUT_SECS * 1000) (connect_probes c)
              else Some (Err (Erp.NetworkError (sock_io e)))
          end;
      Some (let! _ := r in
            match connect_last_error c with
            | Ok (Some e) => Err (Erp.NetworkError (sock_io e))
            | _ =>
                let! _ := call (connect_nodelay c) in
                Ok (new_stream k)
            end)
  end.

(** ** Polls and waits end *)

Lemma retry_loop_total {A} fuel (answers : list (result A SockError)) timers :
  (length timers < fuel)%nat →
  ∃ answers' timers' set p, retry_loop fuel answers timers = Ret (answers', timers', set, p) ∧
    (set = true ↔ p = Pending) ∧ suffix answers' answers ∧
    match p with
    | Ready (Ok a) => Ok a ∈ answers
    | Ready (Err e) => ∃ se, Err se ∈ answers ∧ e = sock_io se ∧ is_would_block se = false
    | Pending => True
    end.
Proof.
  revert answers timers. induction fuel as [|fuel IH]; intros answers timers Hf; [lia|]. cbn [retry_loop].
  destruct answers as [|[a|e] answers]; cbn [next_answer].
  - change (is_would_block would_block) with true. cbn [poll_retry].
    destruct timers as [|[|] timers]; cbn [poll_retry]; [by do 4 eexists| |by do 4 eexists].
    destruct (IH [] timers) as (a' & t' & set & p & -> & Hs & Hsuf & Hp); [simpl in Hf; lia|].
    by do 4 eexists.
  - do 4 eexists. split_and!; [done|done|by apply suffix_cons_r|left].
  - destruct (is_would_block e) eqn:Ew.
    + destruct timers as [|[|] timers]; cbn [poll_retry];
        [do 4 eexists; split_and!; [done|done|by apply suffix_cons_r|done]| |
         do 4 eexists; split_and!; [done|done|by apply suffix_cons_r|done]].
      destruct (IH answers timers) as (a' & t' & set & p & -> & Hs & Hsuf & Hp); [simpl in Hf; lia|].
      do 4 eexists. split_and!; [done|done|by apply suffix_cons_r|]. destruct p as [[a|e']|]; [set_solver| |done].
      destruct Hp as (se & Hin & Hse). exists se. split; [set_solver|done].
    + do 4 eexists. split_and!; [done|done|by apply suffix_cons_r|]. exists e. split_and!; [set_solver|done|done].
Qed.

(** a poll of a socket returns, and when it is pending the timer that will wake the task
    is set, so that no wake-up is lost; otherwise the timer is cleared, and the result is an
    answer of the socket, an error only when it is not one that asks to try again. *)
Theorem socket_polls_return s :
  (∃ s' p, sock_poll_read s = Ret (s', p) ∧ (read_retry s' = true ↔ p = Pending) ∧
     match p with
     | Ready (Ok b) => Ok b ∈ sock_reads (socket s)
     | Ready (Err e) => ∃ se, Err se ∈ sock_reads (socket s) ∧ e = sock_io se ∧ is_would_block se = false
     | Pending => True
     end) ∧
  (∃ s' p, sock_poll_write s = Ret (s', p) ∧ (write_retry s' = true ↔ p = Pending) ∧
     match p with
     | Ready (Ok n) => Ok n ∈ sock_writes (socket s)
     | Ready (Err e) => ∃ se, Err se ∈ sock_writes (socket s) ∧ e = sock_io se ∧ is_would_block se = false
     | Pending => True
     end) ∧
  (∃ s' p, sock_poll_flush s = Ret (s', p) ∧ (flush_retry s' = true ↔ p = Pending)).
Proof.
  unfold sock_poll_read, sock_poll_write, sock_poll_flush. split_and!.
  - destruct (retry_loop_total (S (length (timer_polls (socket s)))) (sock_reads (socket s)) (timer_polls (socket s)))
      as (a' & t' & set & p & -> & Hs & _ & Hp); [lia|]. by do 2 eexists.
  - destruct (retry_loop_total (S (length (timer_polls (socket s)))) (sock_writes (socket s)) (timer_polls (socket s)))
      as (a' & t' & set & p & -> & Hs & _ & Hp); [lia|]. by do 2 eexists.
  - destruct (retry_loop_total (S (length (timer_polls (socket s)))) (sock_flushes (socket s)) (timer_polls (socket s)))
      as (a' & t' & set & p & -> & Hs & _ & Hp); [lia|]. by do 2 eexists.
Qed.

(** Every turn sleeps for [CONNECT_POLL_MS]. *)
Definition clock_ok (start_ms : Z) (probes : list Probe) : Prop :=
  ∀ i p, probes !! i = Some p → start_ms + CONNECT_POLL_MS * (Z.of_nat i + 1) ≤ probe_ms p.

(** The number of turns after which the deadline has passed. *)
Definition CONNECT_TURNS : nat := 101.

Lemma connect_wait_ends deadline probes :
  (∃ i p, probes !! i = Some p ∧ deadline < probe_ms p) →
  ∃ r, connect_wait deadline probes = Some r ∧ (is_ok r = true → ∃ p, p ∈ probes ∧ probe_connected p = true).
Proof.
  intros (i & p & Hi & Hp). revert i Hi. induction probes as [|q probes IH]; intros i Hi; [done|]. cbn [connect_wait].
  destruct (probe_error q) as [[e|]|e]; [by eexists| |by eexists].
  destruct (probe_connected q) eqn:Hc.
  { eexists. split; [done|]. intros _. exists q. split; [left|done]. }
  case_bool_decide as Hd; [by eexists|]. destruct i as [|i]; [by injection Hi as ->|].
  destruct (IH i Hi) as (r & Hr & Hok). exists r. split; [done|]. intros (p' & Hin & Hp')%Hok.
  exists p'. split; [by right|done].
Qed.

(** connecting ends: a connection attempt is decided after at most a hundred and one
    turns of the wait, whatever the socket answers, and it succeeds only when the socket
    said that it is connected. *)
Theorem connect_ends k c :
  clock_ok (connect_start_ms c) (connect_probes c) → (CONNECT_TURNS ≤ length (connect_probes c))%nat →
  ∃ r, socket_connect k c = Some r ∧
    (is_ok r = true → connect_call c = None ∨ ∃ p, p ∈ connect_probes c ∧ probe_connected p = true).
Proof.
  intros Hclock Hlen. unfold socket_connect.
  destruct (call (connect_new c)), (call (connect_nonblocking c)); try by eexists.
  assert (∃ r, match connect_call c with
          | None => Some (Ok tt)
          | Some e =>
              if is_would_block e
              then connect_wait (connect_start_ms c + CONNECT_TIMEOUT_SECS * 1000) (connect_probes c)
              else Some (Err (Erp.NetworkError (sock_io e)))
          end = Some r ∧
      (is_ok r = true → connect_call c = None ∨ ∃ p, p ∈ connect_probes c ∧ probe_connected p = true))
    as (r & -> & Hr).
  { destruct (connect_call c) as [e|]; [|by eexists; split; [|left]]. destruct (is_would_block e); [|by eexists].
    destruct (lookup_lt_is_Some_2 (connect_probes c) 100) as [p Hp]; [unfold CONNECT_TURNS in Hlen; lia|].
    pose proof (Hclock _ _ Hp) as Ht. unfold CONNECT_POLL_MS in Ht.
    destruct (connect_wait_ends (connect_start_ms c + CONNECT_TIMEOUT_SECS * 1000) (connect_probes c)) as (r & Hw & Hr).
    - exists 100%nat, p. split; [done|]. unfold CONNECT_TIMEOUT_SECS. lia.
    - exists r. split; [done|]. intros Hok. right. by apply Hr. }
  cbn [mbind option_bind]. eexists. split; [done|]. destruct r as [[]|e]; [intros _; by apply Hr|done].
Qed.
End socket.

Module SocketWitness.

(** A peer that never answers. *)
Definition silent : ConnectCalls :=
  mkConnectCalls None None (Some (mkSockError (mk_io_error Other "in progress") (Some 119))) 1000
    (map (λ i, mkProbe (Ok None) false (1000 + 51 * (Z.of_nat i + 1))) (seq 0 101)) (Ok None) None.
Definition idle : Socket := mkSocket [] [] [] [] (Ok tt).

Lemma connect_ends_witness :
  ∃ r, socket_connect 119 idle silent = Some r ∧ is_ok r = false.
Proof.
  destruct (connect_ends 119 idle silent) as (r & Hr & Hok).
  - intros i p Hp. cbn [connect_probes silent] in Hp. rewrite list_lookup_fmap in Hp.
    destruct (seq 0 101 !! i) as [j|] eqn:Hj; [|done]. apply lookup_seq in Hj as [-> _]. injection Hp as <-.
    cbn [probe_ms connect_start_ms silent]. unfold CONNECT_POLL_MS. lia.
  - vm_compute. lia.
  - exists r. split; [exact Hr|]. destruct r as [k|e]; [|reflexivity]. exfalso.
    destruct (Hok eq_refl) as [Hc|(p & Hp & Hc)]; [discriminate Hc|].
    cbn [connect_probes silent] in Hp. apply list_elem_of_fmap in Hp as (i & -> & _). discriminate Hc.
Defined.
End SocketWitness.
