(* ===== verification/Session.v ===== *)
(** * Sessions of the embedded runtime

    Models erp-runtime/src/network/session.rs: a worker takes a connection through the
    noise and yamux upgrades and the identify and node hello exchanges, announces the
    verified peer to the network manager, and then serves the commands of the manager
    and the substreams of the peer until one of them ends the session. *)

From S2P Require Import Prelude.
From S2P Require Import Text.
From S2P Require Import Crypto.
From S2P Require Import Models.
From S2P Require Import Messages.
From S2P Require Import Errors.
From S2P Require Import Framing.
From S2P Require Import Identity.
From S2P Require Import NodeHello.
From S2P Require Import Runtime.
From S2P Require Import PeerRegistry.
From S2P Require Import ErpNetwork.
From S2P Require Import TransportIdentity.
From S2P Require Import Duplex.
From S2P Require Import Multistream.
From S2P Require Import Protobuf.
From S2P Require Import Identify.
From S2P Require Import Noise.
From S2P Require Import NoiseHandshake.
From S2P Require Import Yamux.

(** ** What a session works with

    The lists are what will arrive: the substreams the peer opens ([accept_substream]
    returns [None] after them), the outcome of each [open_substream], and the commands of
    the manager, after which its channel is closed.  [turns] says which of the two sides
    of [select!] is taken ([true] for a command), and [event_faults] which sends to the
    node manager fail.  [current] is the substream in use, [finished] those before it. *)
Section session.
Context `{Crypto}.

Record Session : Type := mkSession {
  accepts : list (result Duplex Erp.RuntimeError);
  opens : list (result Duplex Erp.RuntimeError);
  command_rx : list SessionCommand;
  deferred_commands : list SessionCommand;
  turns : list bool;
  event_faults : list bool;
  events_sent : list RuntimeEvent;
  current : Duplex;
  finished : list Duplex;
}.

Abbreviation SM := (OM Session Erp.RuntimeError).

Definition set_current (s : Session) ac op d : Session :=
  mkSession ac op (command_rx s) (deferred_commands s) (turns s) (event_faults s) (events_sent s) d
    (finished s ++ [current s]).
Definition set_answers (s : Session) ac op : Session :=
  mkSession ac op (command_rx s) (deferred_commands s) (turns s) (event_faults s) (events_sent s) (current s)
    (finished s).
Definition set_queues (s : Session) rx df tn : Session :=
  mkSession (accepts s) (opens s) rx df tn (event_faults s) (events_sent s) (current s) (finished s).
Definition set_events (s : Session) fs ev : Session :=
  mkSession (accepts s) (opens s) (command_rx s) (deferred_commands s) (turns s) fs ev (current s) (finished s).
Definition set_io (s : Session) d : Session :=
  mkSession (accepts s) (opens s) (command_rx s) (deferred_commands s) (turns s) (event_faults s)
    (events_sent s) d (finished s).

(** [muxer.accept_substream().await?]: whether there is a substream, now the current one *)
Definition accept_substream : SM bool := λ s,
  match accepts s with
  | [] => Ret (s, Ok false)
  | Ok d :: ac => Ret (set_current s ac (opens s) d, Ok true)
  | Err e :: ac => Ret (set_answers s ac (opens s), Err e)
  end.

(** [muxer.open_substream().await?] *)
Definition open_substream : SM unit := λ s,
  match opens s with
  | [] => Ret (s, Err (map_connection_error "connection is closed"))
  | Ok d :: op => Ret (set_current s (accepts s) op d, Ok tt)
  | Err e :: op => Ret (set_answers s (accepts s) op, Err e)
  end.

(** an operation on the current substream *)
Definition io {A} (m : OIO A) : SM A := λ s,
  '(d, r) ← m (current s); Ret (set_io s d, r).

(** [event_tx.send(event).await.map_err(RuntimeError::event_send)?] *)
Definition send_event (ev : RuntimeEvent) : SM unit := λ s,
  match event_faults s with
  | true :: fs => Ret (set_events s fs (events_sent s), Err (Erp.event_send Erp.Disconnected))
  | f => Ret (set_events s (tail f) (events_sent s ++ [ev]), Ok tt)
  end.

(** [deferred_commands.pop_front()], else [command_rx.next().await] *)
Definition next_command : SM (option SessionCommand) := λ s,
  match deferred_commands s with
  | c :: df => Ret (set_queues s (command_rx s) df (turns s), Ok (Some c))
  | [] =>
      match command_rx s with
      | c :: rx => Ret (set_queues s rx [] (turns s), Ok (Some c))
      | [] => Ret (s, Ok None)
      end
  end.

Inductive HandshakeOutcome : Type :=
| Established (verified_peer : VerifiedPeer)
| Rejected.

(** [NetworkMessage::from_bytes(&frame).map_err(|_| ..)?] *)
Definition parse_frame `{!Postcard NetworkMessage} (error : string) (frame : bytes) : SM NetworkMessage :=
  OM_of (λ s, (s, map_err (λ _, Erp.Config error) (network_message_from_bytes frame))).

(** ** The handshake *)

Context `{UnsignedVarint, QuickProtobuf, MultiaddrLib, !Libp2p, Psa}.
Context `{!Postcard NodeHello, !Postcard NodeHelloResponse, !Postcard NodeHelloTranscript}.
Context (node_identity : IdentityManager) (transport_identity : TransportIdentityManager) (config : NetworkConfig).

Definition local_node_hello : result NodeHello Erp.RuntimeError :=
  build_node_hello node_identity (peer_id_bytes transport_identity) (config_max_frame_len config)
    (config_max_blocks_per_chunk config).

Definition PING_SIZE : nat := 32.

Definition answer_ping : OIO unit :=
  let^ payload := OM_of (io_read_exact PING_SIZE) in
  let^ _ := OM_of (write_all payload) in
  OM_of flush.

Definition send_identify : OIO unit :=
  let identify := build_local_identify config transport_identity in
  let^ frame := OM_lift (encode_identify identify) in
  let^ _ := OM_of (write_all frame) in
  OM_of flush.

(** The loop over substreams: every turn takes one. *)
Fixpoint serve_identify_loop (fuel : nat) : SM unit :=
  match fuel with
  | O => λ _, OutOfFuel
  | S fuel =>
      let^ more := accept_substream in
      if negb more then OM_fail (Erp.Config "remote closed the connection before requesting identify")
      else
        let^ protocol := io (OM_of (listener_select [IDENTIFY_PROTOCOL; PING_PROTOCOL])) in
        if bool_decide (protocol = IDENTIFY_PROTOCOL) then io send_identify
        else if bool_decide (protocol = PING_PROTOCOL) then
          let^ _ := io answer_ping in
          serve_identify_loop fuel
        else λ _, Panic
  end.
Definition serve_identify_request : SM unit := λ s, serve_identify_loop (S (length (accepts s))) s.

Definition request_identify (authenticated_transport_peer : bytes) : SM IdentifyInfo :=
  let^ _ := open_substream in
  let^ _ := io (OM_of (dialer_select IDENTIFY_PROTOCOL)) in
  let^ frame := io (OM_of (io_read_frame (config_max_frame_len config))) in
  let^ identify := OM_lift (decode_identify frame) in
  if bool_decide (info_transport_peer_id identify ≠ authenticated_transport_peer)
  then OM_fail (Erp.Config "identify transport peer id did not match the authenticated transport session")
  else OM_ret identify.

Definition request_node_hello (authenticated_transport_peer : bytes) : SM HandshakeOutcome :=
  let^ _ := open_substream in
  let^ _ := io (OM_of (dialer_select (str NODE_HELLO_PROTOCOL))) in
  let^ local_hello := OM_lift (Ret local_node_hello) in
  let^ _ := io (OM_of (io_write_postcard local_hello (config_max_frame_len config))) in
  let^ response := io (OM_of (io_read_postcard (config_max_frame_len config))) in
  if negb (hello_accepted response) then OM_ret Rejected
  else
    match verifier_verify (hello_remote response) authenticated_transport_peer with
    | Ok verified_peer => OM_ret (Established verified_peer)
    | Err _ => OM_ret Rejected
    end.

Definition answer_node_hello (authenticated_transport_peer : bytes) : OIO HandshakeOutcome :=
  let^ remote_hello := OM_of (io_read_postcard (config_max_frame_len config)) in
  match verifier_verify remote_hello authenticated_transport_peer with
  | Err error =>
      let reject_reason := node_hello_reject_reason error in
      let^ local_hello := OM_of (lift local_node_hello) in
      let response := mkNodeHelloResponse false local_hello (Some reject_reason) in
      let^ _ := OM_catch (OM_of (io_write_postcard response (config_max_frame_len config))) in
      OM_ret Rejected
  | Ok verified_peer =>
      let^ local_hello := OM_of (lift local_node_hello) in
      let response := mkNodeHelloResponse true local_hello None in
      let^ _ := OM_of (io_write_postcard response (config_max_frame_len config)) in
      OM_ret (Established verified_peer)
  end.

Definition complete_outbound_handshake (authenticated_transport_peer : bytes) : SM HandshakeOutcome :=
  let^ _ := serve_identify_request in
  let^ _ := request_identify authenticated_transport_peer in
  request_node_hello authenticated_transport_peer.

Fixpoint inbound_handshake_loop (fuel : nat) (authenticated_transport_peer : bytes) (identify_served : bool)
    (verified_peer : option VerifiedPeer) : SM HandshakeOutcome :=
  match identify_served, verified_peer with
  | true, Some peer => OM_ret (Established peer)
  | _, _ =>
      match fuel with
      | O => λ _, OutOfFuel
      | S fuel =>
          let^ more := accept_substream in
          if negb more
          then OM_fail (Erp.Config "remote closed the connection before session setup completed")
          else
            let^ protocol :=
              io (OM_of (listener_select [IDENTIFY_PROTOCOL; str NODE_HELLO_PROTOCOL; PING_PROTOCOL])) in
            if bool_decide (protocol = IDENTIFY_PROTOCOL) then
              let^ _ := io send_identify in
              inbound_handshake_loop fuel authenticated_transport_peer true verified_peer
            else if bool_decide (protocol = PING_PROTOCOL) then
              let^ _ := io answer_ping in
              inbound_handshake_loop fuel authenticated_transport_peer identify_served verified_peer
            else if bool_decide (protocol = str NODE_HELLO_PROTOCOL) then
              let^ outcome := io (answer_node_hello authenticated_transport_peer) in
              match outcome with
              | Established peer =>
                  inbound_handshake_loop fuel authenticated_transport_peer identify_served (Some peer)
              | Rejected => OM_ret Rejected
              end
            else OM_fail (Erp.Config "unexpected session setup protocol")
      end
  end.
Definition complete_inbound_handshake (authenticated_transport_peer : bytes) : SM HandshakeOutcome := λ s,
  inbound_handshake_loop (S (length (accepts s))) authenticated_transport_peer false None s.

(** ** An established session *)

Context `{!Postcard NetworkMessage, !Postcard AnnounceRequest, !Postcard AnnounceResponse,
  !Postcard SyncRequest, !Postcard SyncResponse}.

(** [restore_deferred_commands]: from the back, each to the front *)
Fixpoint restore_loop (retained_rev deferred : list SessionCommand) : list SessionCommand :=
  match retained_rev with
  | [] => deferred
  | command :: retained => restore_loop retained (command :: deferred)
  end.
Definition restore_deferred_commands (deferred retained : list SessionCommand) : list SessionCommand :=
  restore_loop (rev retained) deferred.

(** Every turn takes a command. *)
Fixpoint wait_loop (fuel : nat) (retained_commands : list SessionCommand) : SM SyncResponse :=
  match fuel with
  | O => λ _, OutOfFuel
  | S fuel =>
      let^ command := next_command in
      match command with
      | Some (SessSendFrame frame) =>
          let^ message := parse_frame "invalid runtime frame while waiting for sync response" frame in
          match message with
          | MsgSyncResponse response =>
              let^ _ := (λ s, Ret (set_queues s (command_rx s)
                                (restore_deferred_commands (deferred_commands s) retained_commands)
                                (turns s), Ok tt)) in
              OM_ret response
          | other =>
              let^ b := (λ s, b ← message_to_bytes other; Ret (s, Ok b)) in
              wait_loop fuel (retained_commands ++ [SessSendFrame b])
          end
      | Some SessDisconnect => OM_fail (Erp.Config "session disconnected while waiting for sync response")
      | None => OM_fail (Erp.Config "session command channel closed while waiting for sync response")
      end
  end.
Definition wait_for_sync_response : SM SyncResponse := λ s,
  wait_loop (S (length (deferred_commands s) + length (command_rx s))) [] s.

(** [NetworkMessage::..(message).to_bytes()], and the event that carries it *)
Definition report (peer : bytes) (message : NetworkMessage) : SM unit :=
  let^ frame := (λ s, b ← message_to_bytes message; Ret (s, Ok b)) in
  send_event (EvFrameReceived peer frame).

(** [io.write_all(&payload).await?; io.flush().await?] *)
Definition write_payload (payload : result bytes Erp.RuntimeError) : SM unit :=
  let^ payload := OM_lift (Ret payload) in
  let^ _ := io (OM_of (write_all payload)) in
  io (OM_of flush).

Definition handle_outbound_frame (remote_node_peer frame : bytes) : SM unit :=
  let^ message := parse_frame "invalid outbound network frame" frame in
  match message with
  | MsgAnnounceRequest request =>
      let^ _ := open_substream in
      let^ _ := io (OM_of (dialer_select ANNOUNCE_PROTOCOL)) in
      let^ _ := write_payload (encode_announce_request request (config_max_frame_len config)) in
      let^ response_frame := io (OM_of (io_read_frame (config_max_frame_len config))) in
      let^ response := OM_lift (Ret (decode_announce_response response_frame (config_max_frame_len config))) in
      report remote_node_peer (MsgAnnounceResponse response)
  | MsgSyncRequest request =>
      let^ _ := open_substream in
      let^ _ := io (OM_of (dialer_select SYNC_PROTOCOL)) in
      let^ _ := write_payload (encode_sync_request request (config_max_frame_len config)) in
      let^ response_frame := io (OM_of (io_read_frame (config_max_frame_len config))) in
      let^ response := OM_lift (Ret (decode_sync_response response_frame (config_max_frame_len config))) in
      report remote_node_peer (MsgSyncResponse response)
  | MsgAnnounceResponse _ | MsgSyncResponse _ =>
      OM_fail (Erp.Config "outbound response routing is not implemented for session commands")
  end.

Definition handle_inbound_substream (verified_peer : VerifiedPeer) : SM unit :=
  let^ selected := io (OM_of (listener_select_optional INBOUND_SESSION_PROTOCOLS)) in
  match selected with
  | None => OM_ret tt
  | Some protocol =>
      if bool_decide (protocol = IDENTIFY_PROTOCOL) then io send_identify
      else if bool_decide (protocol = IDENTIFY_PUSH_PROTOCOL) then
        let^ frame := io (OM_of (io_read_frame (config_max_frame_len config))) in
        let^ _ := OM_lift (decode_identify frame) in
        OM_ret tt
      else if bool_decide (protocol = str NODE_HELLO_PROTOCOL) then
        let^ outcome := io (answer_node_hello (verified_transport_peer_id verified_peer)) in
        match outcome with
        | Established remote =>
            if bool_decide (verified_node_peer_id remote ≠ verified_node_peer_id verified_peer)
            then OM_fail (Erp.Config "node hello peer changed during an existing session")
            else OM_ret tt
        | Rejected => OM_ret tt
        end
      else if bool_decide (protocol = PING_PROTOCOL) then io answer_ping
      else if bool_decide (protocol = ANNOUNCE_PROTOCOL) then
        let^ frame := io (OM_of (io_read_frame (config_max_frame_len config))) in
        let^ request := OM_lift (Ret (decode_announce_request frame (config_max_frame_len config))) in
        let^ _ := report (verified_node_peer_id verified_peer) (MsgAnnounceRequest request) in
        write_payload (encode_announce_response (mkAnnounceResponse true) (config_max_frame_len config))
      else if bool_decide (protocol = SYNC_PROTOCOL) then
        let^ frame := io (OM_of (io_read_frame (config_max_frame_len config))) in
        let^ request := OM_lift (Ret (decode_sync_request frame (config_max_frame_len config))) in
        let^ _ := report (verified_node_peer_id verified_peer) (MsgSyncRequest request) in
        let^ response := wait_for_sync_response in
        write_payload (encode_sync_response response (config_max_frame_len config))
      else OM_fail (Erp.Config "unsupported inbound protocol")
  end.

(** The events of the loop: a command, or an accepted substream; [None] when the channel or
    the connection is closed. *)
Inductive LoopEvent : Type :=
| LoopCommand (command : option SessionCommand)
| LoopInbound (substream : bool).

Definition next_event : SM LoopEvent := λ s,
  match deferred_commands s with
  | _ :: _ => (let^ c := next_command in OM_ret (LoopCommand c)) s
  | [] =>
      let s' := set_queues s (command_rx s) [] (tail (turns s)) in
      if default true (head (turns s))
      then (let^ c := next_command in OM_ret (LoopCommand c)) s'
      else (let^ b := accept_substream in OM_ret (LoopInbound b)) s'
  end.

(** Every turn takes a command or a substream, or is the last. *)
Fixpoint session_loop (fuel : nat) (verified_peer : VerifiedPeer) : SM unit :=
  match fuel with
  | O => λ _, OutOfFuel
  | S fuel =>
      let^ event := next_event in
      match event with
      | LoopCommand (Some (SessSendFrame frame)) =>
          let^ _ := handle_outbound_frame (verified_node_peer_id verified_peer) frame in
          session_loop fuel verified_peer
      | LoopCommand (Some SessDisconnect) | LoopCommand None => OM_ret tt
      | LoopInbound true =>
          let^ _ := handle_inbound_substream verified_peer in
          session_loop fuel verified_peer
      | LoopInbound false => OM_ret tt
      end
  end.

Definition work_left (s : Session) : nat :=
  (length (accepts s) + length (deferred_commands s) + length (command_rx s))%nat.

Definition run_established_session (verified_peer : VerifiedPeer) : SM unit := λ s,
  session_loop (S (work_left s)) verified_peer s.

(** ** The worker *)

Context `{Snow}.

(** The connection, the encrypted stream over it as the yamux upgrade sees it, the muxer's
    connection, and the substreams. *)
Record World : Type := mkWorld {
  tcp : Duplex;
  secure : Duplex;
  muxer_conn : Connection;
  mux : Session;
}.

Abbreviation WM := (OM World Erp.RuntimeError).

Definition on_tcp {A} (m : OIO A) : WM A := λ w,
  '(d, r) ← m (tcp w); Ret (mkWorld d (secure w) (muxer_conn w) (mux w), r).
Definition on_secure {A} (m : OIO A) : WM A := λ w,
  '(d, r) ← m (secure w); Ret (mkWorld (tcp w) d (muxer_conn w) (mux w), r).
Definition on_mux {A} (m : SM A) : WM A := λ w,
  '(s, r) ← m (mux w); Ret (mkWorld (tcp w) (secure w) (muxer_conn w) s, r).

(** [seed] is the randomness of the noise handshake. *)
Definition upgrade_noise_transport (role : ConnectionRole) (seed : bytes) : OIO NoiseUpgradeOutput :=
  match role with
  | Outbound =>
      let^ _ := OM_of (dialer_select NOISE_PROTOCOL) in
      noise_upgrade_outbound transport_identity seed
  | Inbound =>
      let^ _ := OM_of (listener_select [NOISE_PROTOCOL]) in
      noise_upgrade_inbound transport_identity seed
  end.

Definition upgrade_yamux_transport (role : ConnectionRole) (c : Connection) : OIO YamuxMuxer :=
  match role with
  | Outbound => OM_of (yamux_upgrade_outbound c)
  | Inbound => OM_of (yamux_upgrade_inbound c)
  end.

Definition establish_session (role : ConnectionRole) (expected_transport_peer : option bytes) (seed : bytes) :
    WM (option VerifiedPeer) :=
  let^ noise_output := on_tcp (upgrade_noise_transport role seed) in
  if match expected_transport_peer with
     | Some expected => bool_decide (expected ≠ remote_transport_peer_id noise_output)
     | None => false
     end
  then OM_fail (Erp.Config "bootstrap peer transport identity did not match expectation")
  else
    let^ _ := λ w, on_secure (upgrade_yamux_transport role (muxer_conn w)) w in
    let^ handshake :=
      on_mux (match role with
              | Outbound => complete_outbound_handshake (remote_transport_peer_id noise_output)
              | Inbound => complete_inbound_handshake (remote_transport_peer_id noise_output)
              end) in
    match handshake with
    | Established verified_peer => OM_ret (Some verified_peer)
    | Rejected => OM_ret None
    end.

Record SessionWorker : Type := mkSessionWorker {
  worker_session_id : SessionId;
  worker_connection_role : ConnectionRole;
  worker_expected_peer : option bytes;
}.

(** What arrives at the network manager, if it still listens. *)
Definition send_session_event (listens : bool) (event : SessionEvent) :
    list SessionEvent * result unit Erp.RuntimeError :=
  if listens then ([event], Ok tt)
  else ([], Err (Erp.Config "failed to send session event to network manager")).

(** The events the network manager gets, and the result of [run]. *)
Definition run_async (worker : SessionWorker) (seed : bytes) (listens : bool) (w : World) :
    outcome (World * list SessionEvent * result unit Erp.RuntimeError) :=
  let session_id := worker_session_id worker in
  let closed node := (send_session_event listens (SessClosed session_id node)).1 in
  '(w, r) ← establish_session (worker_connection_role worker) (worker_expected_peer worker) seed w;
  match r with
  | Err e => Ret (w, closed None, Err e)
  | Ok None => Ret (w, closed None, Ok tt)
  | Ok (Some verified_peer) =>
      let '(ready, sent) := send_session_event listens (SessReady session_id verified_peer) in
      match sent with
      | Err e => Ret (w, ready ++ closed None, Err e)
      | Ok _ =>
          '(w, r) ← on_mux (run_established_session verified_peer) w;
          Ret (w, ready ++ closed (Some (verified_node_peer_id verified_peer)), r)
      end
  end.
(** ** What a session does to its state

    Work is taken and not made, and the node manager hears of frames of the peer only. *)
Record serves (peer : bytes) (s s' : Session) : Prop := {
  serves_accepts : (length (accepts s') ≤ length (accepts s))%nat;
  serves_queues : (length (deferred_commands s') + length (command_rx s') ≤
                   length (deferred_commands s) + length (command_rx s))%nat;
  serves_events : ∃ new, events_sent s' = events_sent s ++ new ∧
    Forall (λ ev, ∃ frame, ev = EvFrameReceived peer frame) new;
}.

#[local] Instance serves_preorder peer : PreOrder (serves peer).
Proof.
  split.
  - intros s. split; [done|done|]. exists []. by rewrite app_nil_r.
  - intros s1 s2 s3 [A1 Q1 (n1 & E1 & F1)] [A2 Q2 (n2 & E2 & F2)]. split; [lia|lia|].
    exists (n1 ++ n2). rewrite E2, E1, app_assoc. split; [done|]. by apply Forall_app.
Qed.

Context `{!ProtobufLaws, !PostcardLaws NetworkMessage}.

Section serving.
Context (peer : bytes).
Abbreviation ok_at m s := (runs_at (serves peer) m s).

(** A change that leaves the queues and the events alone. *)
Lemma serves_same s s' :
  accepts s' = accepts s → deferred_commands s' = deferred_commands s → command_rx s' = command_rx s →
  events_sent s' = events_sent s → serves peer s s'.
Proof. intros Ha Hd Hc He. split; rewrite ?Ha, ?Hd, ?Hc; [done|done|]. exists []. by rewrite He, app_nil_r. Qed.

Lemma accept_runs s : ok_at accept_substream s.
Proof.
  unfold runs_at, accept_substream. destruct (accepts s) as [|[d|e] ac] eqn:E; do 2 eexists; (split; [done|]);
    [done|..]; split; simpl; rewrite ?E; simpl; try lia; exists []; by rewrite app_nil_r.
Qed.

Lemma accept_takes s s' : accept_substream s = Ret (s', Ok true) → length (accepts s) = S (length (accepts s')).
Proof. unfold accept_substream. destruct (accepts s) as [|[d|e] ac]; [done| |done]. by intros [= <-]. Qed.

Lemma open_runs s : ok_at open_substream s.
Proof.
  unfold runs_at, open_substream. destruct (opens s) as [|[d|e] op] eqn:E; do 2 eexists; (split; [done|]);
    by apply serves_same.
Qed.

Lemma io_runs {A} (m : OIO A) s : returns m → ok_at (io m) s.
Proof.
  intros Hm. unfold runs_at, io. destruct (Hm (current s)) as (d & r & -> & _). do 2 eexists. split; [done|].
  by apply serves_same.
Qed.

Lemma io_accepts {A} (m : OIO A) s s' r : io m s = Ret (s', r) → accepts s' = accepts s.
Proof. unfold io. destruct (m (current s)) as [[d r']| |]; [|done|done]. by intros [= <- _]. Qed.

Lemma io_of_runs {A} (m : IO A) s : ok_at (io (OM_of m)) s.
Proof. apply io_runs. intros d. by apply runs_of. Qed.

Lemma send_event_runs frame s : ok_at (send_event (EvFrameReceived peer frame)) s.
Proof.
  unfold runs_at, send_event. destruct (event_faults s) as [|[|] fs]; do 2 eexists; (split; [done|]);
    (split; [done|done|]); simpl.
  - eexists. split; [done|]. by apply Forall_singleton; eexists.
  - exists []. by rewrite app_nil_r.
  - eexists. split; [done|]. by apply Forall_singleton; eexists.
Qed.

Definition queue (s : Session) : list SessionCommand := deferred_commands s ++ command_rx s.

(** A change of the queues only. *)
Record requeued (s s' : Session) : Prop := {
  requeued_accepts : accepts s' = accepts s;
  requeued_events : events_sent s' = events_sent s;
  requeued_current : current s' = current s;
  requeued_finished : finished s' = finished s;
}.

Lemma requeued_trans s1 s2 s3 : requeued s1 s2 → requeued s2 s3 → requeued s1 s3.
Proof. intros [A1 E1 C1 F1] [A2 E2 C2 F2]. split; by etrans. Qed.

Lemma requeued_serves s s' : requeued s s' → (length (queue s') ≤ length (queue s))%nat → serves peer s s'.
Proof.
  intros [Ha He _ _]. unfold queue. rewrite !length_app. intros Hq.
  split; [by rewrite Ha|done|]. exists []. by rewrite He, app_nil_r.
Qed.

Lemma next_command_spec s :
  ∃ s' o, next_command s = Ret (s', Ok o) ∧ requeued s s' ∧ queue s = option_list o ++ queue s' ∧
    (o = None → queue s' = []).
Proof.
  unfold next_command, queue. destruct (deferred_commands s) as [|c df] eqn:Ed;
    [destruct (command_rx s) as [|c rx] eqn:Ec|]; do 2 eexists; (split; [done|]); simpl; rewrite ?Ed, ?Ec; by repeat split.
Qed.

Lemma parse_frame_runs e f s : ok_at (parse_frame e f) s.
Proof. by apply runs_of. Qed.

Lemma parse_frame_state e f s s' r : parse_frame e f s = Ret (s', r) → s' = s.
Proof. by intros [= <- _]. Qed.

Lemma answer_ping_returns : returns answer_ping.
Proof.
  intros d. apply runs_bind; [apply _|apply returns_of|]. intros d1 b _ _.
  apply runs_bind; [apply _|apply returns_of|]. intros. apply returns_of.
Qed.

Lemma send_identify_returns : returns send_identify.
Proof.
  intros d. apply runs_bind; [apply _| |].
  - apply runs_lift; [apply _|]. unfold encode_identify. destruct (collect _ _); by eexists.
  - intros d1 f _ _. apply runs_bind; [apply _|apply returns_of|]. intros. apply returns_of.
Qed.

Lemma answer_node_hello_returns transport : returns (answer_node_hello transport).
Proof.
  intros d. apply runs_bind; [apply _|apply returns_of|]. intros d1 hello _ _.
  destruct (verifier_verify hello transport) as [v|e]; (apply runs_bind; [apply _|apply returns_of|]);
    intros d2 local _ _; (apply runs_bind; [apply _| |intros; apply runs_ret; apply _]).
  - apply returns_of.
  - apply runs_catch. apply returns_of.
Qed.

(** Steps through a computation on the session. *)
Ltac session_step :=
  first
    [ apply runs_ret; apply _ | apply runs_fail; apply _ | apply accept_runs | apply open_runs
    | apply io_of_runs | apply parse_frame_runs | apply send_event_runs
    | apply io_runs; first [apply answer_ping_returns|apply send_identify_returns|apply answer_node_hello_returns]
    | apply runs_lift; [apply _|first [by eexists|apply decode_identify_total]]
    | apply runs_bind; [apply _| |intros ? ? ? ?] ].

Lemma serve_identify_runs fuel s : (length (accepts s) < fuel)%nat → ok_at (serve_identify_loop fuel) s.
Proof.
  revert s. induction fuel as [|fuel IH]; intros s Hf; [lia|]. cbn [serve_identify_loop].
  apply runs_bind; [apply _|apply accept_runs|]. intros s1 [] Ha _; cbn [negb]; [|session_step].
  apply accept_takes in Ha. apply runs_bind; [apply _|session_step|]. intros s2 q Hq _.
  pose proof (io_accepts _ _ _ _ Hq) as Ha2.
  unfold io, OM_of in Hq. destruct (listener_select _ (current s1)) as [d r] eqn:El. injection Hq as <- ->.
  apply listener_select_Ok in El. case_bool_decide; [session_step|]. case_bool_decide as Hping.
  - apply runs_bind; [apply _|session_step|]. intros s3 ? Hp%io_accepts _. apply IH. rewrite Hp. simpl in *. lia.
  - exfalso. set_solver.
Qed.

Lemma inbound_handshake_runs fuel transport served v s :
  (length (accepts s) < fuel)%nat → ok_at (inbound_handshake_loop fuel transport served v) s.
Proof.
  revert served v s. induction fuel as [|fuel IH]; intros served v s Hf; [lia|]. cbn [inbound_handshake_loop].
  assert (∀ m : SM HandshakeOutcome, ok_at m s →
    ok_at (match served, v with true, Some peer => OM_ret (Established peer) | _, _ => m end) s) as Hm.
  { intros m Hm. destruct served, v; [session_step|done..]. }
  apply Hm. clear Hm.
  apply runs_bind; [apply _|apply accept_runs|]. intros s1 [] Ha _; cbn [negb]; [|session_step].
  apply accept_takes in Ha. apply runs_bind; [apply _|session_step|]. intros s2 q Hq%io_accepts _.
  repeat case_bool_decide; [..|session_step].
  - apply runs_bind; [apply _|session_step|]. intros s3 ? Hp%io_accepts _. apply IH. rewrite Hp, Hq. lia.
  - apply runs_bind; [apply _|session_step|]. intros s3 ? Hp%io_accepts _. apply IH. rewrite Hp, Hq. lia.
  - apply runs_bind; [apply _|session_step|]. intros s3 [p|] Hp%io_accepts _; [|session_step].
    apply IH. rewrite Hp, Hq. lia.
Qed.

(** ** Waiting for a sync response *)

Lemma message_to_bytes_total (m : NetworkMessage) : ∃ b, message_to_bytes m = Ret b.
Proof. unfold message_to_bytes. destruct (to_allocvec_Some m) as [b ->]. by exists b. Qed.

Lemma restore_spec deferred retained : restore_deferred_commands deferred retained = retained ++ deferred.
Proof.
  unfold restore_deferred_commands. rewrite <-(rev_involutive retained) at 2.
  generalize (rev retained) as l. intros l. revert deferred. induction l as [|c l IH]; intros deferred; [done|].
  cbn [restore_loop rev]. rewrite IH, <-app_assoc. done.
Qed.

(** A command that is put aside while a sync response is awaited: a frame with another
    message, written again. *)
Inductive set_aside : SessionCommand → SessionCommand → Prop :=
  | set_aside_frame f m b :
      network_message_from_bytes f = Ok m → (∀ resp, m ≠ MsgSyncResponse resp) → message_to_bytes m = Ret b →
      set_aside (SessSendFrame f) (SessSendFrame b).

(** What ends the wait: the first command that is not put aside. *)
Definition wait_verdict (o : option SessionCommand) (r : result SyncResponse Erp.RuntimeError) : Prop :=
  match o with
  | Some (SessSendFrame f) =>
      match network_message_from_bytes f with
      | Ok (MsgSyncResponse resp) => r = Ok resp
      | Ok _ => False
      | Err _ => r = Err (Erp.Config "invalid runtime frame while waiting for sync response")
      end
  | Some SessDisconnect => r = Err (Erp.Config "session disconnected while waiting for sync response")
  | None => r = Err (Erp.Config "session command channel closed while waiting for sync response")
  end.

(** The frames in the queue can be written again once they are parsed. *)
Definition rewritable (cs : list SessionCommand) : Prop :=
  ∀ f m, SessSendFrame f ∈ cs → network_message_from_bytes f = Ok m → ∃ b, message_to_bytes m = Ret b.

Lemma wait_loop_spec fuel retained s :
  rewritable (queue s) → (length (queue s) < fuel)%nat →
  ∃ s' r before before' o after, wait_loop fuel retained s = Ret (s', r) ∧
    queue s = before ++ option_list o ++ after ∧ Forall2 set_aside before before' ∧ wait_verdict o r ∧
    (o = None → after = []) ∧ requeued s s' ∧
    queue s' = (if is_ok r then retained ++ before' else []) ++ after.
Proof.
  revert retained s. induction fuel as [|fuel IH]; intros retained s Hrw Hf; [lia|]. cbn [wait_loop].
  destruct (next_command_spec s) as (s1 & o & Hn & Hq & Hqs & Ho). unfold OM_bind at 1. rewrite Hn.
  destruct o as [[f|]|].
  2,3: eexists s1, _, [], [], _, (queue s1); split_and!;
    [done|exact Hqs|constructor|done|done|done|done].
  unfold OM_bind at 1, parse_frame at 1, OM_of at 1.
  destruct (network_message_from_bytes f) as [m|e] eqn:Em; cbn [map_err].
  2:{ eexists s1, _, [], [], (Some (SessSendFrame f)), (queue s1).
      split_and!; [done|exact Hqs|constructor|simpl; by rewrite Em|done|done|done]. }
  assert ((∃ resp, m = MsgSyncResponse resp) ∨ ∀ resp, m ≠ MsgSyncResponse resp) as [[resp ->]|Hm]
    by (destruct m; by eauto).
  { eexists _, _, [], [], (Some (SessSendFrame f)), (queue s1).
    split_and!; [done|exact Hqs|constructor|simpl; by rewrite Em|done|..].
    - destruct Hq. by split.
    - unfold queue. simpl. by rewrite restore_spec, app_nil_r, app_assoc. }
  rewrite Hqs in Hrw. destruct (Hrw f m) as [b Hb]; [apply elem_of_cons; by left|done|].
  destruct (IH (retained ++ [SessSendFrame b]) s1) as (s2 & r & before & before' & o & after & Hrun & Hq1 & Ha & Hv & Hn' & Hq2 & Hq3).
  { intros g m' Hg. apply Hrw. apply elem_of_cons. by right. } { rewrite Hqs in Hf. simpl in Hf. lia. }
  exists s2, r, (SessSendFrame f :: before), (SessSendFrame b :: before'), o, after. split_and!.
  - destruct m; try (unfold OM_bind; rewrite Hb; exact Hrun). by edestruct Hm.
  - by rewrite Hqs, Hq1.
  - constructor; [|done]. apply (set_aside_frame f m b); done.
  - done.
  - done.
  - by apply (requeued_trans s s1).
  - rewrite Hq3. destruct (is_ok r); [|done]. by rewrite <-!app_assoc.
Qed.

Lemma wait_spec s :
  rewritable (queue s) →
  ∃ s' r before before' o after, wait_for_sync_response s = Ret (s', r) ∧
    queue s = before ++ option_list o ++ after ∧ Forall2 set_aside before before' ∧ wait_verdict o r ∧
    (o = None → after = []) ∧ requeued s s' ∧ queue s' = (if is_ok r then before' else []) ++ after.
Proof.
  intros Hrw. unfold wait_for_sync_response.
  destruct (wait_loop_spec (S (length (deferred_commands s) + length (command_rx s))) [] s Hrw)
    as (s' & r & before & before' & o & after & Hw).
  - unfold queue. rewrite length_app. lia.
  - exists s', r, before, before', o, after. exact Hw.
Qed.

Lemma wait_runs s : ok_at wait_for_sync_response s.
Proof.
  destruct (wait_spec s) as (s' & r & before & before' & o & after & Hw & Hq & Ha & _ & _ & Hr & Hq').
  { intros f m _ _. apply message_to_bytes_total. }
  exists s', r. split; [done|]. apply requeued_serves; [done|]. rewrite Hq, Hq'.
  apply Forall2_length in Ha. rewrite !length_app. destruct (is_ok r); simpl; lia.
Qed.

Lemma report_runs m s : ok_at (report peer m) s.
Proof.
  unfold report. apply runs_bind; [apply _| |intros; apply send_event_runs].
  destruct (message_to_bytes_total m) as [b Hb]. exists s, (Ok b). by rewrite Hb.
Qed.

Lemma write_payload_runs r s : ok_at (write_payload r) s.
Proof. unfold write_payload. repeat session_step. Qed.

Ltac serve := repeat first [apply report_runs | apply write_payload_runs | apply wait_runs | session_step].

Lemma handle_outbound_runs frame s : ok_at (handle_outbound_frame peer frame) s.
Proof.
  unfold handle_outbound_frame. session_step; [session_step|].
  match goal with |- context [match ?m with _ => _ end] => destruct m end; serve.
Qed.

Lemma handle_inbound_runs v s : verified_node_peer_id v = peer → ok_at (handle_inbound_substream v) s.
Proof.
  intros Hv. unfold handle_inbound_substream. rewrite Hv. session_step; [session_step|].
  match goal with |- context [match ?m with _ => _ end] => destruct m end; [|serve].
  repeat case_bool_decide; serve. match goal with |- context [match ?m with _ => _ end] => destruct m end; [|serve].
  case_bool_decide; serve.
Qed.

Lemma next_event_spec s :
  ∃ s' r, next_event s = Ret (s', r) ∧ serves peer s s' ∧
    match r with
    | Ok (LoopCommand (Some _)) | Ok (LoopInbound true) => (work_left s' < work_left s)%nat
    | _ => True
    end.
Proof.
  unfold next_event. destruct (deferred_commands s) as [|c df] eqn:Ed.
  - set (s0 := set_queues s (command_rx s) [] (tail (turns s))).
    assert (serves peer s s0) as HR0 by (by apply serves_same; rewrite ?Ed).
    destruct (default true (head (turns s))).
    + destruct (next_command_spec s0) as (s' & o & Hn & Hr & Hq & _). unfold OM_bind. rewrite Hn.
      do 2 eexists. split; [done|]. split.
      * trans s0; [done|]. apply requeued_serves; [done|]. rewrite Hq, length_app. lia.
      * destruct o; [|done]. apply (f_equal length) in Hq. unfold queue in Hq. rewrite !length_app in Hq. simpl in Hq.
        unfold work_left. rewrite (requeued_accepts _ _ Hr), Ed. simpl in *. lia.
    + unfold OM_bind. destruct (accept_runs s0) as (s' & r & Ha & HR). rewrite Ha. destruct r as [b|e].
      * do 2 eexists. split; [done|]. split; [by trans s0|]. destruct b; [|done]. apply accept_takes in Ha.
        destruct HR as [_ HQ _]. simpl in Ha. unfold work_left. rewrite Ed. simpl in *. lia.
      * do 2 eexists. split; [done|]. split; [by trans s0|done].
  - destruct (next_command_spec s) as (s' & o & Hn & Hr & Hq & _). unfold OM_bind. rewrite Hn.
    do 2 eexists. split; [done|]. split.
    + apply requeued_serves; [done|]. rewrite Hq, length_app. lia.
    + destruct o; [|done]. apply (f_equal length) in Hq. unfold queue in Hq. rewrite !length_app in Hq. simpl in Hq.
      unfold work_left. rewrite (requeued_accepts _ _ Hr). simpl in *. lia.
Qed.

Lemma serves_work s s' : serves peer s s' → (work_left s' ≤ work_left s)%nat.
Proof. intros [Ha Hq _]. unfold work_left. lia. Qed.

Lemma session_loop_runs fuel v s :
  verified_node_peer_id v = peer → (work_left s < fuel)%nat → ok_at (session_loop fuel v) s.
Proof.
  intros Hv. revert s. induction fuel as [|fuel IH]; intros s Hf; [lia|]. cbn [session_loop].
  destruct (next_event_spec s) as (s1 & r & Hn & HR & Hw).
  apply runs_bind; [apply _|by exists s1, r|]. intros s1' ev Hev _. rewrite Hn in Hev. injection Hev as <- ->.
  destruct ev as [[[f|]|]|[|]]; [| |serve..| |serve]; [|serve|]; (apply runs_bind; [apply _| |]).
  - rewrite Hv. apply handle_outbound_runs.
  - intros s2 [] _ HR2%serves_work. apply IH. lia.
  - by apply handle_inbound_runs.
  - intros s2 [] _ HR2%serves_work. apply IH. lia.
Qed.
Lemma runs_returns_at {A} p (m : SM A) s : runs_at (serves p) m s → ∃ s' r, m s = Ret (s', r).
Proof. intros (s' & r & Hm & _). by exists s', r. Qed.

Lemma handshake_runs role transport s :
  ok_at (match role with
         | Outbound => complete_outbound_handshake transport
         | Inbound => complete_inbound_handshake transport
         end) s.
Proof.
  destruct role.
  - apply inbound_handshake_runs. lia.
  - unfold complete_outbound_handshake. apply runs_bind; [apply _|apply serve_identify_runs; lia|]. intros s1 [] _ _.
    apply runs_bind; [apply _| |intros s2 i _ _].
    + unfold request_identify. repeat session_step. case_bool_decide; session_step.
    + unfold request_node_hello. repeat session_step. case_match; [session_step|].
      destruct (verifier_verify _ _); session_step.
Qed.
End serving.

(** A handshake tells the node manager nothing. *)
Lemma handshake_silent role transport s :
  ∃ s' r, (match role with
           | Outbound => complete_outbound_handshake transport
           | Inbound => complete_inbound_handshake transport
           end) s = Ret (s', r) ∧ events_sent s' = events_sent s.
Proof.
  destruct (handshake_runs [] role transport s) as (s' & r & E & [_ _ (new & Hn & Hf)]).
  destruct (handshake_runs [x00] role transport s) as (s'' & r' & E' & [_ _ (new' & Hn' & Hf')]).
  rewrite E in E'. injection E' as <- <-. exists s', r. split; [done|].
  rewrite Hn in Hn'. apply app_inv_head in Hn' as <-. rewrite Hn. destruct new as [|ev new]; [by rewrite app_nil_r|].
  apply Forall_inv in Hf as [f ->]. by apply Forall_inv in Hf' as [f' [=]].
Qed.

(** ** Who a session is with *)

Context `{!CryptoLaws, !SnowLaws}.

(** [v] is what a hello says that is authentic for the transport. *)
Record proves (transport : bytes) (v : VerifiedPeer) : Prop := {
  proves_hello : ∃ h, hello_authentic h transport ∧
    v = mkVerifiedPeer (hello_peer_id h) (hello_public_key h) transport (hello_max_frame_len h)
          (hello_max_blocks_per_chunk h) (hello_capabilities h);
}.

Lemma verify_proves h transport v : verifier_verify h transport = Ok v → proves transport v.
Proof.
  intros Hv. split. exists h. assert (hello_authentic h transport) as Ha by (apply verifier_verify_Ok; by exists v).
  split; [done|]. apply verifier_verify_fields in Hv as ->. by destruct Ha as [-> _].
Qed.

Lemma answer_hello_proves transport d d' v :
  answer_node_hello transport d = Ret (d', Ok (Established v)) →
  proves transport v.
Proof.
  unfold answer_node_hello. intros Hr. oio_inv. destruct (verifier_verify _ transport) as [v'|e] eqn:E; oio_inv; [|done].
  by eapply verify_proves.
Qed.

Lemma request_hello_proves transport s s' v :
  request_node_hello transport s = Ret (s', Ok (Established v)) →
  proves transport v.
Proof.
  unfold request_node_hello. intros Hr. oio_inv. case_match; [done|].
  destruct (verifier_verify _ transport) as [v'|e] eqn:E; [|done]. injection Hr as _ <-. by eapply verify_proves.
Qed.

Lemma inbound_loop_proves fuel transport served o s s' v :
  (∀ v, o = Some v → proves transport v) →
  inbound_handshake_loop fuel transport served o s =
    Ret (s', Ok (Established v)) →
  proves transport v.
Proof.
  revert served o s. induction fuel as [|fuel IH]; intros served o s Ho; cbn [inbound_handshake_loop].
  { destruct served, o; try done. intros [= _ <-]. by apply Ho. }
  assert (∀ m : SM HandshakeOutcome, (m s = Ret (s', Ok (Established v)) → proves transport v) →
    (match served, o with true, Some peer => OM_ret (Established peer) | _, _ => m end) s =
      Ret (s', Ok (Established v)) → proves transport v) as Hm.
  { intros m Hm. destruct served, o; [|done..]. intros [= _ <-]. by apply Ho. }
  apply Hm. clear Hm. intros Hr. oio_inv. case_match; [done|]. oio_inv.
  repeat case_bool_decide; oio_inv; [by eapply IH|by eapply IH|].
  match goal with Hi : io (answer_node_hello _) _ = _ |- _ => unfold io in Hi; rename Hi into Hio end.
  destruct (answer_node_hello transport _) as [[d r]| |] eqn:E; [|done|done]. injection Hio as <- ->.
  case_match; [|done]. eapply IH; [|done]. intros v' [= <-]. by eapply answer_hello_proves.
Qed.

(** What a worker over the connection [w] has told the network manager at some point: at most
    that it is closed, unless a peer has been verified over the session that this worker has
    encrypted. *)
Inductive worker_reports (worker : SessionWorker) (seed : bytes) (w : World) : list SessionEvent → Prop :=
  | reports_nothing : worker_reports worker seed w []
  | reports_closed : worker_reports worker seed w [SessClosed (worker_session_id worker) None]
  | reports_ready d out pk v rest :
      upgrade_noise_transport (worker_connection_role worker) seed (tcp w) = Ret (d, Ok out) →
      authenticated out pk →
      (∀ expected, worker_expected_peer worker = Some expected → expected = public_peer_id pk) →
      proves (public_peer_id pk) v →
      rest = [] ∨ rest = [SessClosed (worker_session_id worker) (Some (verified_node_peer_id v))] →
      worker_reports worker seed w (SessReady (worker_session_id worker) v :: rest).

(** What leaves the node manager alone. *)
Definition silent (w w' : World) : Prop := events_sent (mux w') = events_sent (mux w).

#[local] Instance silent_preorder : PreOrder silent.
Proof. split; [done|]. unfold silent. intros w1 w2 w3 E12 E23. by rewrite E23. Qed.

Lemma on_tcp_silent {A} (m : OIO A) w : returns m → runs_at silent (on_tcp m) w.
Proof. intros Hr. unfold runs_at, on_tcp. destruct (Hr (tcp w)) as (d & r & -> & _). by do 2 eexists. Qed.

Lemma on_secure_silent {A} (m : OIO A) w : returns m → runs_at silent (on_secure m) w.
Proof. intros Hr. unfold runs_at, on_secure. destruct (Hr (secure w)) as (d & r & -> & _). by do 2 eexists. Qed.

Lemma establish_runs role expected seed w : runs_at silent (establish_session role expected seed) w.
Proof.
  unfold establish_session. apply runs_bind; [apply _| |intros w1 out _ _].
  { apply on_tcp_silent. intros d. destruct role; (apply runs_bind; [apply _|apply returns_of|intros ? ? _ _]).
    - apply (noise_upgrade_returns false).
    - apply (noise_upgrade_returns true). }
  match goal with |- context [if ?b then _ else _] => destruct b end; [apply runs_fail, _|].
  apply runs_bind; [apply _| |intros w2 m _ _].
  { apply on_secure_silent. intros d. destruct role; apply returns_of. }
  apply runs_bind; [apply _| |intros w3 [v|] _ _]; [|apply runs_ret, _..].
  destruct (handshake_silent role (remote_transport_peer_id out) (mux w2)) as (s' & r & Hr & Hs).
  unfold runs_at, on_mux. rewrite Hr. by do 2 eexists.
Qed.

Lemma established_authenticated role expected seed w w' v :
  establish_session role expected seed w = Ret (w', Ok (Some v)) →
  ∃ d out pk, upgrade_noise_transport role seed (tcp w) = Ret (d, Ok out) ∧ authenticated out pk ∧
    (∀ e, expected = Some e → e = public_peer_id pk) ∧ proves (public_peer_id pk) v.
Proof.
  unfold establish_session. intros Hr. oio_inv.
  match goal with Ht : on_tcp _ _ = Ret (_, Ok ?o) |- _ => rename Ht into Hn; rename o into out end.
  unfold on_tcp in Hn. destruct (upgrade_noise_transport role seed (tcp w)) as [[d r]| |] eqn:E; [|done|done].
  injection Hn as <- ->.
  assert (∃ pk, authenticated out pk) as [pk Hpk].
  { unfold upgrade_noise_transport in E. destruct role; oio_inv.
    - by eapply (upgraded_authenticated false).
    - by eapply (upgraded_authenticated true). }
  exists d, out, pk. split; [done|]. split; [done|]. rewrite (auth_name _ _ Hpk) in Hr.
  match type of Hr with context [if ?b then _ else _] => destruct b eqn:Eexp end; [done|]. split.
  { intros e ->. by apply bool_decide_eq_false, dec_stable in Eexp. }
  oio_inv.
  match goal with Hm : on_mux _ _ = Ret (_, Ok ?h) |- _ => rename Hm into Hmux; destruct h as [v'|]; [|done] end.
  injection Hr as _ <-. unfold on_mux in Hmux.
  match type of Hmux with context [mbind _ ?t] => destruct t as [[s2 r2]| |] eqn:Eh; [|done|done] end.
  injection Hmux as _ ->. destruct role.
  - unfold complete_inbound_handshake in Eh. by eapply (inbound_loop_proves _ _ false None); [|exact Eh].
  - unfold complete_outbound_handshake in Eh. oio_inv. by eapply request_hello_proves.
Qed.

(** How a run of a worker went while the network manager listens. *)
Inductive worker_ran (worker : SessionWorker) (seed : bytes) (w w' : World) : list SessionEvent → Prop :=
| ran_closed :
    events_sent (mux w') = events_sent (mux w) →
    worker_ran worker seed w w' [SessClosed (worker_session_id worker) None]
| ran_ready w1 v new :
    establish_session (worker_connection_role worker) (worker_expected_peer worker) seed w = Ret (w1, Ok (Some v)) →
    events_sent (mux w') = events_sent (mux w) ++ new →
    Forall (λ ev, ∃ frame, ev = EvFrameReceived (verified_node_peer_id v) frame) new →
    worker_ran worker seed w w'
      [SessReady (worker_session_id worker) v;
       SessClosed (worker_session_id worker) (Some (verified_node_peer_id v))].

Lemma run_async_ran worker seed w :
  ∃ w' events r, run_async worker seed true w = Ret (w', events, r) ∧ worker_ran worker seed w w' events.
Proof.
  unfold run_async.
  destruct (establish_runs (worker_connection_role worker) (worker_expected_peer worker) seed w)
    as (w1 & r & He & Hs). rewrite He. cbn [mbind outcome_bind negb].
  destruct r as [[v|]|e]; [|by do 3 eexists; split; [|constructor]..].
  destruct (session_loop_runs (verified_node_peer_id v) (S (work_left (mux w1))) v (mux w1))
    as (s' & r & Hr & [_ _ (new & Hn & Hf)]); [done|lia|].
  unfold on_mux, run_established_session. rewrite Hr. do 3 eexists. split; [done|].
  eapply ran_ready; [done| |done]. simpl. by rewrite Hn, Hs.
Qed.

(** ** The theorems *)

Lemma prefix_one {A} (l : list A) x : l `prefix_of` [x] → l = [] ∨ l = [x].
Proof. intros [k Hk]. destruct l as [|y [|]]; simplify_eq/=; auto. Qed.

(** C20: what a worker tells the network manager.  At no point has it reported anything but
    its end, unless the peer has proved who it is: then it first announces the node of a
    hello that is signed by the key the node id is the hash of, for the transport key that
    has signed the static key of this very encrypted session (the one that the noise upgrade
    of this worker's connection gave) and that is the expected one, if one is expected; and
    at the end it names that node.  It announces a node exactly when the handshake has
    established the session.  The worker ends if every wait of it ends, with what was waited
    for, an end or a failure.  It has no timeouts: with a peer that goes silent it waits, and
    has told what it tells up to there when the connection breaks at that point. *)
Theorem session_worker_reports worker seed listens w :
  ∃ w' events r, run_async worker seed listens w = Ret (w', events, r) ∧
    (∀ told, told `prefix_of` events → worker_reports worker seed w told) ∧
    (∀ v, SessReady (worker_session_id worker) v ∈ events ↔ listens = true ∧
       ∃ w1, establish_session (worker_connection_role worker) (worker_expected_peer worker) seed w =
         Ret (w1, Ok (Some v))).
Proof.
  unfold run_async.
  destruct (establish_runs (worker_connection_role worker) (worker_expected_peer worker) seed w)
    as (w1 & r & He & _). rewrite He. cbn [mbind outcome_bind].
  set (closed := (send_session_event listens (SessClosed (worker_session_id worker) None)).1).
  assert (∀ told, told `prefix_of` closed → worker_reports worker seed w told) as Hc.
  { intros told. subst closed. destruct listens; simpl; [intros [->| ->]%prefix_one|intros ->%prefix_nil_inv]; constructor. }
  assert (∀ v, SessReady (worker_session_id worker) v ∉ closed) as Hn
    by (intros v; subst closed; destruct listens; simpl; set_solver).
  destruct r as [[v|]|e]; [|do 3 eexists; split; [reflexivity|]; split; [done|]; naive_solver..].
  destruct listens; simpl in closed; [|do 3 eexists; split; [reflexivity|]; split; [done|]; naive_solver].
  destruct (established_authenticated _ _ _ _ _ _ He) as (d & out & pk & Hu & Ha & Hex & Hp).
  destruct (runs_returns_at (verified_node_peer_id v) (run_established_session v) (mux w1)) as (s' & r & Hr).
  { by apply session_loop_runs; [|lia]. }
  unfold on_mux. simpl. rewrite Hr. do 3 eexists. split; [reflexivity|]. split.
  - intros [|ev told] Ht; [constructor|]. simpl in Ht. pose proof (prefix_cons_inv_1 _ _ _ _ Ht) as ->.
    apply prefix_cons_inv_2, prefix_one in Ht. by eapply reports_ready.
  - intros v'. simpl. split; [|intros [_ [w2 [=]]]; subst; set_solver].
    intros [[= ->]|Hin]%elem_of_cons; [eauto|set_solver].
Qed.

(** C25: an established session comes to an end when its commands and substreams do, whatever
    they are and whatever fails; it takes work off its queues and makes none, and everything
    it hands to the node manager are frames of the peer it was established with. *)
Theorem established_session_ends v s :
  ∃ s' r, run_established_session v s = Ret (s', r) ∧ serves (verified_node_peer_id v) s s'.
Proof. by apply session_loop_runs; [|unfold work_left; lia]. Qed.

(** A frame that the runtime wrote. *)
Definition canonical (c : SessionCommand) : Prop :=
  match c with SessSendFrame f => ∃ m : NetworkMessage, to_allocvec m = Some f | SessDisconnect => True end.

Lemma set_aside_canonical `{!PostcardRoundtrip NetworkMessage} c c' : canonical c → set_aside c c' → c' = c.
Proof.
  intros Hc Ha. destruct Ha as [f m b Hf _ Hb]. destruct Hc as [m' Hm']. unfold network_message_from_bytes, message_from_bytes in Hf.
  rewrite (postcard_from_to _ _ Hm') in Hf. injection Hf as <-. unfold message_to_bytes in Hb. rewrite Hm' in Hb.
  by injection Hb as <-.
Qed.

(** C23: while a session waits for a sync response, the commands that come before it, those
    that were deferred earlier first, are kept in their order and come before what follows;
    the wait ends with the first sync response, and fails only on a command to disconnect, a
    closed channel, or a frame that does not parse. *)
Theorem sync_wait_keeps_commands `{!PostcardRoundtrip NetworkMessage} s :
  Forall canonical (queue s) →
  ∃ s' r before o after, wait_for_sync_response s = Ret (s', r) ∧
    queue s = before ++ option_list o ++ after ∧
    Forall (λ c, ∃ f m, c = SessSendFrame f ∧ network_message_from_bytes f = Ok m ∧
                        ∀ resp, m ≠ MsgSyncResponse resp) before ∧
    wait_verdict o r ∧ (is_ok r = true → queue s' = before ++ after) ∧
    accepts s' = accepts s ∧ events_sent s' = events_sent s ∧ current s' = current s.
Proof.
  intros Hc. assert (rewritable (queue s)) as Hrw.
  { intros f m Hf Hm. rewrite Forall_forall in Hc. destruct (Hc _ Hf) as [m' Hm'].
    unfold network_message_from_bytes, message_from_bytes in Hm. rewrite (postcard_from_to _ _ Hm') in Hm.
    injection Hm as <-. unfold message_to_bytes. rewrite Hm'. by eexists. }
  destruct (wait_spec s Hrw) as (s' & r & before & before' & o & after & Hw & Hq & Ha & Hv & _ & [Hra Hre Hrc _] & Hq').
  exists s', r, before, o, after. split_and!; [done|done| |done| |done|done|done].
  - clear -Ha. induction Ha as [|c c' l l' [f m b Hf Hm Hb] _ IH]; constructor; [|done]. by exists f, m.
  - intros Hok. rewrite Hq', Hok. f_equal. rewrite Hq in Hc. apply Forall_app in Hc as [Hc _].
    clear -Hc Ha PostcardRoundtrip0. induction Ha as [|c c' l l' Hs _ IH]; [done|]. apply Forall_cons in Hc as [Hc Hl].
    rewrite (set_aside_canonical _ _ Hc Hs), IH by done. done.
Qed.

(** ** Serving a sync request *)

Context `{!VarintLaws}.

Lemma io_of_run {A} (m : IO A) s d (a : A) :
  m (current s) = (d, Ok a) → io (OM_of m) s = Ret (set_io s d, Ok a).
Proof. unfold io, OM_of. by intros ->. Qed.

Lemma write_payload_run b s :
  writable (current s) →
  ∃ d, write_payload (Ok b) s = Ret (set_io s d, Ok tt) ∧ inbound d = inbound (current s) ∧
    outbound d = outbound (current s) ++ b ∧ writable d.
Proof.
  intros Hw. unfold write_payload, OM_bind, OM_lift. cbn [mbind outcome_bind].
  destruct (write_all_run b (current s) Hw) as (d1 & Hd1 & Hi1 & Ho1 & Hw1). rewrite (io_of_run _ s d1 tt Hd1).
  destruct (write_all_run [] d1 Hw1) as (d2 & Hd2 & Hi2 & Ho2 & Hw2).
  rewrite (io_of_run flush (set_io s d1) d2 tt Hd2). exists d2.
  split_and!; [done|by rewrite Hi2| |done]. by rewrite Ho2, Ho1, app_nil_r.
Qed.

Lemma read_frame_run payload max_len f rest d :
  max_len < 2 ^ 32 → encode_length_prefixed payload max_len = Ok f → available (inbound d) = f ++ rest →
  io_read_frame max_len d = (mkDuplex (mkStream rest (at_end (inbound d))) (outbound d) (write_faults d), Ok f) ∧
  erp_decode_length_prefix f max_len = Ok (length (varint_encode (Z.of_nat (length payload))), payload).
Proof.
  intros Hm Hf. destruct d as [[av e] o fs]. simpl. intros ->.
  destruct (read_encoded_frame payload max_len f rest e Hm Hf) as [Hr Hd].
  unfold io_read_frame, reading, erp_read_length_prefixed_frame, erp_decode_length_prefix. simpl. by rewrite Hr, Hd.
Qed.

Lemma protocol_message_frame `{Postcard A, !PostcardRoundtrip A} (m : A) max_len f :
  encode_protocol_message m max_len = Ok f →
  ∃ payload, encode_length_prefixed payload max_len = Ok f ∧ postcard_from_bytes payload = Some m.
Proof.
  unfold encode_protocol_message, PostcardCodec_encode, encode_postcard.
  destruct (to_allocvec m) as [payload|] eqn:E; [|done]. simpl. unfold erp_encode_length_prefixed.
  destruct (encode_length_prefixed payload max_len) as [f'|] eqn:Ef; [|done]. intros [= <-].
  exists payload. split; [done|]. by apply postcard_from_to.
Qed.

(** The wait on a queue with a sync response in it. *)
Lemma wait_loop_run fuel retained s before before' f resp after :
  (length before < fuel)%nat → queue s = before ++ SessSendFrame f :: after →
  Forall2 set_aside before before' → network_message_from_bytes f = Ok (MsgSyncResponse resp) →
  ∃ s', wait_loop fuel retained s = Ret (s', Ok resp) ∧ requeued s s' ∧ queue s' = retained ++ before' ++ after.
Proof.
  intros Hfuel Hq Hb Hf. revert fuel retained s Hfuel Hq.
  induction Hb as [|c c' before before' [g m b Hg Hm Hbm] _ IH]; intros [|fuel] retained s Hfuel Hq;
    simpl in Hfuel; [lia| |lia|];
    destruct (next_command_spec s) as (s1 & o & Hn & Hr & Hqs & Hnone); rewrite Hq in Hqs;
    (destruct o as [c0|]; [|by rewrite (Hnone eq_refl) in Hqs]); injection Hqs as <- Hq1;
    cbn [wait_loop]; unfold OM_bind at 1; rewrite Hn; unfold OM_bind at 1, parse_frame, OM_of.
  - rewrite Hf. cbn [map_err]. eexists. split; [done|]. split; [destruct Hr; by split|].
    unfold queue in *. simpl. by rewrite restore_spec, Hq1, <-app_assoc.
  - rewrite Hg. cbn [map_err].
    destruct (IH fuel (retained ++ [SessSendFrame b]) s1) as (s2 & Hrun & Hr2 & Hq2); [lia|done|].
    exists s2. split_and!.
    + destruct m; try (unfold OM_bind; rewrite Hbm; exact Hrun). by edestruct Hm.
    + by apply (requeued_trans s s1).
    + by rewrite Hq2, <-!app_assoc.
Qed.

Lemma sendable_sync : sendable SYNC_PROTOCOL.
Proof. by vm_compute. Qed.

(** C24: a sync request is answered.  When a peer opens a substream and asks for blocks, the
    node manager gets the request as a frame of that peer, the first sync response among the
    commands is written to the substream after the negotiation, and the other commands stay
    queued in their order. *)
Theorem sync_request_served `{!PostcardRoundtrip SyncRequest} v s req frame rest before before' f after resp reply event :
  config_max_frame_len config < 2 ^ 32 → writable (current s) → event_faults s = [] →
  encode_sync_request req (config_max_frame_len config) = Ok frame →
  available (inbound (current s)) = dialer_lines SYNC_PROTOCOL ++ frame ++ rest →
  message_to_bytes (MsgSyncRequest req) = Ret event →
  queue s = before ++ SessSendFrame f :: after → Forall2 set_aside before before' →
  network_message_from_bytes f = Ok (MsgSyncResponse resp) →
  encode_sync_response resp (config_max_frame_len config) = Ok reply →
  ∃ s', handle_inbound_substream v s = Ret (s', Ok tt) ∧
    events_sent s' = events_sent s ++ [EvFrameReceived (verified_node_peer_id v) event] ∧
    outbound (current s') =
      outbound (current s) ++ listener_lines SYNC_PROTOCOL INBOUND_SESSION_PROTOCOLS ++ reply ∧
    available (inbound (current s')) = rest ∧ queue s' = before' ++ after.
Proof.
  intros Hmax Hw Hfaults Hframe Hav Hev Hq Hb Hf Hreply. unfold handle_inbound_substream.
  destruct (listener_select_run SYNC_PROTOCOL INBOUND_SESSION_PROTOCOLS (frame ++ rest) (current s) sendable_sync Hw Hav)
    as (d1 & Hd1 & Hi1 & Ho1 & Hw1).
  unfold OM_bind at 1. rewrite (io_of_run _ s d1 _ Hd1).
  do 5 (rewrite bool_decide_false by done). rewrite bool_decide_true by done.
  destruct (protocol_message_frame req _ _ Hframe) as (payload & Hp & Hdec).
  destruct (read_frame_run _ _ _ rest d1 Hmax Hp Hi1) as [Hd2 Hlp].
  match type of Hd2 with _ = (?x, _) => set (d2 := x) in * end.
  unfold OM_bind at 1. rewrite (io_of_run _ (set_io s d1) d2 _ Hd2).
  unfold OM_bind at 1, OM_lift, decode_sync_request, decode_protocol_message. rewrite Hlp.
  unfold PostcardCodec_decode, decode_postcard. cbn [mbind outcome_bind try_ map_err]. rewrite Hdec. cbn [map_err].
  set (s2 := set_io (set_io s d1) d2). unfold OM_bind at 1, report, OM_bind at 1. rewrite Hev. cbn [mbind outcome_bind].
  unfold send_event. change (event_faults s2) with (event_faults s). rewrite Hfaults. cbn [tail].
  set (s3 := set_events s2 [] _). unfold OM_bind at 1, wait_for_sync_response.
  destruct (wait_loop_run (S (length (deferred_commands s3) + length (command_rx s3))) [] s3 before before' f resp after)
    as (s4 & -> & Hr4 & Hq4); [|done..|].
  { apply (f_equal length) in Hq. unfold queue in Hq. rewrite !length_app in Hq. simpl in *. lia. }
  destruct (write_payload_run reply s4) as (d5 & Hd5 & Hi5 & Ho5 & _);
    [by rewrite (requeued_current _ _ Hr4)|].
  rewrite Hreply, Hd5. eexists. split; [done|]. simpl.
  rewrite (requeued_events _ _ Hr4). rewrite (requeued_current _ _ Hr4) in Hi5, Ho5.
  split_and!; [done| |by rewrite Hi5|done]. rewrite Ho5. simpl. by rewrite Ho1, <-app_assoc.
Qed.
End session.
