(* ===== verification/SessionWitness.v ===== *)
(** * Concrete sessions

    A dialer that completes the whole handshake with a peer and announces it, a session
    that serves a sync request while other commands wait, and the theorems of [Session]
    applied to them. *)

From S2P Require Import Prelude.
From S2P Require Import Text.
From S2P Require Import Crypto.
From S2P Require Import Models.
From S2P Require Import Messages.
From S2P Require Import Errors.
From S2P Require Import Framing.
From S2P Require Import Identity.
From S2P Require Import NodeHello.
From S2P Require Import Runtime.
From S2P Require Import ErpNetwork.
From S2P Require Import EngineWitness.
From S2P Require Import TransportIdentity.
From S2P Require Import Duplex.
From S2P Require Import Multistream.
From S2P Require Import Protobuf.
From S2P Require Import Identify.
From S2P Require Import Noise.
From S2P Require Import NoiseLink.
From S2P Require Import NoiseHandshake.
From S2P Require Import Yamux.
From S2P Require Import Session.

Module SessionRuns.
Import ToyCrypto Leb128 ToyProtobuf ToyMultiaddr TransportWitness IdentityWitness NodeHelloWitness.
Import NoiseWitness HandshakeWitness.

#[local] Existing Instance bare_chip.

(** The other node: its hello for the transport key [other_key]. *)
Definition config : NetworkConfig := NetworkConfig_default.
Definition me : TransportIdentityManager := id_of fresh_key.
Definition them : TransportIdentityManager := id_of other_key.
Definition their_node : IdentityManager := from_software_signing_key (x0c : SigningKey).
Definition blank_hello : NodeHello := mkNodeHello 0 [] [] [] 0 0 all_capabilities [].
Definition their_hello : NodeHello :=
  match build_node_hello their_node (peer_id_bytes them) 65536 8 with Ok h => h | Err _ => blank_hello end.

(** Stand-ins for the wire formats: what arrives is the hello of the other node. *)
#[export] Instance toy_hello : Postcard NodeHello :=
  {| to_allocvec _ := Some [x01]; postcard_from_bytes _ := Some their_hello |}.
#[export] Instance toy_response : Postcard NodeHelloResponse :=
  {| to_allocvec _ := Some [x02];
     postcard_from_bytes _ := Some (mkNodeHelloResponse true their_hello None) |}.
#[export] Instance toy_announce : Postcard AnnounceRequest :=
  {| to_allocvec _ := None; postcard_from_bytes _ := None |}.
#[export] Instance toy_announced : Postcard AnnounceResponse :=
  {| to_allocvec r := Some [if accepted r then x01 else x00]; postcard_from_bytes _ := None |}.
#[export] Instance toy_sync_request : Postcard SyncRequest :=
  {| to_allocvec r := match r with mkSyncRequest 0 10 => Some [x0a] | _ => None end;
     postcard_from_bytes b := match b with [x0a] => Some (mkSyncRequest 0 10) | _ => None end |}.
#[export] Instance toy_sync_response : Postcard SyncResponse :=
  {| to_allocvec r := match r with mkSyncResponse [] false None => Some [x0b] | _ => None end;
     postcard_from_bytes b := match b with [x0b] => Some (mkSyncResponse [] false None) | _ => None end |}.

#[local] Instance toy_sync_request_roundtrip : PostcardRoundtrip SyncRequest.
Proof.
  intros [a b] f Hf. change (match mkSyncRequest a b with mkSyncRequest 0 10 => Some [x0a] | _ => None end = Some f) in Hf.
  repeat match type of Hf with match ?x with _ => _ end = _ => destruct x; try discriminate Hf end.
  by injection Hf as <-.
Qed.

(** ** A dialer that gets through *)

Definition stream (b : bytes) : Stream := mkStream b eof.
Definition incoming (b : bytes) : Duplex := mkDuplex (stream b) [] [].

Definition frame_of (r : result bytes Erp.RuntimeError) : bytes := match r with Ok b => b | Err _ => [] end.

Definition their_payload : bytes :=
  payload_write_message (payload_of other_key (public_of seed_b)).
Definition wire_in : bytes :=
  listener_lines NOISE_PROTOCOL [NOISE_PROTOCOL] ++ handshake_frame (public_of seed_b ++ their_payload).
Definition their_identify : bytes :=
  match encode_identify (build_local_identify config them) with Ret (Ok b) => b | _ => [] end.

Definition dialed : World :=
  mkWorld (incoming wire_in) (incoming (listener_lines YAMUX_PROTOCOL [YAMUX_PROTOCOL]))
    (mkConnection Client [] [] [])
    (mkSession [Ok (incoming (dialer_lines IDENTIFY_PROTOCOL))]
       [Ok (incoming (listener_lines IDENTIFY_PROTOCOL [IDENTIFY_PROTOCOL] ++ their_identify));
        Ok (incoming (listener_lines (str NODE_HELLO_PROTOCOL) [str NODE_HELLO_PROTOCOL] ++
                      frame_of (erp_encode_length_prefixed [x02] 65536)))]
       [SessDisconnect] [] [] [] [] (incoming []) []).

Definition dial : SessionWorker := mkSessionWorker 7 Outbound (Some (peer_id_bytes them)).

Definition announces (worker : SessionWorker) (node : bytes) (events : list SessionEvent) : bool :=
  match events with
  | [SessReady id v; SessClosed id' (Some n)] =>
      bool_decide (id = worker_session_id worker) && bool_decide (verified_node_peer_id v = node) &&
      bool_decide (n = node)
  | _ => false
  end.

Section with_frames.
Import EngineRuns.

Lemma dial_announces :
  match run_async producer me config dial seed_a true dialed with
  | Ret (_, events, Ok _) => announces dial (hello_peer_id their_hello) events
  | _ => false
  end = true.
Proof. vm_compute. reflexivity. Qed.

Lemma session_worker_reports_witness :
  ∃ w' events r, run_async producer me config dial seed_a true dialed = Ret (w', events, r) ∧
    announces dial (hello_peer_id their_hello) events = true ∧ worker_reports me dial seed_a dialed events.
Proof.
  pose proof dial_announces as Hd.
  destruct (session_worker_reports producer me config dial seed_a true dialed) as (w' & events & r & E & Hr & _).
  rewrite E in Hd. exists w', events, r. split; [exact E|]. split; [|apply Hr; reflexivity].
  destruct r; [exact Hd|discriminate Hd].
Defined.

Lemma established_session_ends_witness :
  ∃ s' r, run_established_session producer me config
      (mkVerifiedPeer peer_a [] [] 65536 8 all_capabilities) (mux dialed) = Ret (s', r) ∧
    serves peer_a (mux dialed) s'.
Proof.
  exact (established_session_ends producer me config (mkVerifiedPeer peer_a [] [] 65536 8 all_capabilities)
    (mux dialed)).
Defined.
End with_frames.

(** ** A sync request, with other commands on the way *)

Section with_codec.

(** A codec of a few messages. *)
#[local] Instance some_frames : Postcard NetworkMessage :=
  {| to_allocvec m :=
       match m with
       | MsgSyncRequest (mkSyncRequest 0 10) => Some [x10]
       | MsgSyncResponse (mkSyncResponse [] false None) => Some [x11]
       | MsgAnnounceResponse r => Some [if Messages.accepted r then x12 else x13]
       | _ => None
       end;
     postcard_from_bytes b :=
       match b with
       | [x10] => Some (MsgSyncRequest (mkSyncRequest 0 10))
       | [x11] => Some (MsgSyncResponse (mkSyncResponse [] false None))
       | [x12] => Some (MsgAnnounceResponse (mkAnnounceResponse true))
       | [x13] => Some (MsgAnnounceResponse (mkAnnounceResponse false))
       | _ => None
       end |}.

#[local] Instance some_frames_roundtrip : PostcardRoundtrip NetworkMessage.
Proof.
  intros m f Hf. cbn [to_allocvec some_frames] in Hf.
  repeat match type of Hf with match ?x with _ => _ end = _ => destruct x; try discriminate Hf end;
    injection Hf as <-; try done.
  match goal with r : AnnounceResponse |- _ => by destruct r as [[]] end.
Qed.

Definition ask : SessionCommand := SessSendFrame [x10].
Definition answer : SessionCommand := SessSendFrame [x11].
Definition request_frame : bytes := frame_of (encode_sync_request (mkSyncRequest 0 10) 65536).
Definition reply_frame : bytes := frame_of (encode_sync_response (mkSyncResponse [] false None) 65536).

(** An outbound request was deferred, another follows; the answer is third. *)
Definition asked : Session :=
  mkSession [] [] [answer; SessDisconnect] [ask; ask] [] [] []
    (incoming (dialer_lines SYNC_PROTOCOL ++ request_frame)) [].

Lemma sync_wait_keeps_commands_witness :
  ∃ s' r before o after, wait_for_sync_response asked = Ret (s', r) ∧
    queue asked = before ++ option_list o ++ after ∧ (is_ok r = true → queue s' = before ++ after).
Proof.
  destruct (sync_wait_keeps_commands asked) as (s' & r & before & o & after & Hw & Hq & _ & _ & Hk & _).
  - repeat constructor; [exists (MsgSyncRequest (mkSyncRequest 0 10))|exists (MsgSyncRequest (mkSyncRequest 0 10))
      |exists (MsgSyncResponse (mkSyncResponse [] false None))]; reflexivity.
  - exists s', r, before, o, after. split; [exact Hw|]. split; [exact Hq|exact Hk].
Defined.

Lemma sync_request_served_witness :
  ∃ s', handle_inbound_substream producer me config (mkVerifiedPeer [x0a] [] [] 65536 8 all_capabilities) asked =
      Ret (s', Ok tt) ∧
    events_sent s' = [EvFrameReceived [x0a] [x10]] ∧ queue s' = [ask; ask; SessDisconnect].
Proof.
  assert (set_aside ask ask) as Ha by (by apply (set_aside_frame _ (MsgSyncRequest (mkSyncRequest 0 10)))).
  destruct (sync_request_served producer me config (mkVerifiedPeer [x0a] [] [] 65536 8 all_capabilities) asked
    (mkSyncRequest 0 10) request_frame [] [ask; ask] [ask; ask] [x11] [SessDisconnect]
    (mkSyncResponse [] false None) reply_frame [x10]) as (s' & Hr & He & _ & _ & Hq).
  - reflexivity.
  - constructor.
  - reflexivity.
  - vm_compute. reflexivity.
  - reflexivity.
  - reflexivity.
  - reflexivity.
  - repeat constructor; exact Ha.
  - reflexivity.
  - vm_compute. reflexivity.
  - exists s'. split; [exact Hr|]. split; [exact He|exact Hq].
Defined.
End with_codec.
End SessionRuns.
