(* ===== verification/Wire.v ===== *)
(** * A complete wire format

    A stand-in for [postcard] that writes every message and reads back what was written, over
    the toy scheme of [ToyCrypto].  With it the theorems that ask for a wire format that does
    both ([PostcardLaws], [PostcardRoundtrip]) are applied to concrete nodes. *)

From S2P Require Import Prelude.
From S2P Require Import Maps.
From S2P Require Import Crypto.
From S2P Require Import Models.
From S2P Require Import Messages.
From S2P Require Import Framing.
From stdpp Require Import countable.

Module ToyWire.
Import ToyCrypto.

Definition leaf : Type := Z + bytes.
Definition tree : Type := gen_tree leaf.
Definition num (z : Z) : tree := GenLeaf (inl z).
Definition raw (b : bytes) : tree := GenLeaf (inr b).

Definition sig_tree (s : option Signature) : tree :=
  match s with Some (a, b) => raw [a; b] | None => raw [] end.

Fixpoint block_tree (b : Block) : tree :=
  let '(mkBlock h s p v txs sg proofs r) := b in
  GenNode 0 [num h; num s; raw p; raw [v]; GenNode 0 (map tx_tree txs); sig_tree sg;
             GenNode 0 (map proof_tree proofs); raw r]
with tx_tree (t : Transaction) : tree :=
  let '(mkTransaction s d n f sg) := t in GenNode 0 [raw [s]; data_tree d; num n; num f; sig_tree sg]
with data_tree (d : TransactionData) : tree :=
  match d with
  | Transfer r a => GenNode 0 [raw [r]; num a]
  | Stake a => GenNode 1 [num a]
  | Unstake a => GenNode 2 [num a]
  | Slash p => GenNode 3 [proof_tree p]
  end
with proof_tree (p : SlashProof) : tree :=
  let '(mkSlashProof v a b) := p in GenNode 0 [raw [v]; block_tree a; block_tree b].

Definition tree_sig (t : tree) : option (option Signature) :=
  match t with
  | GenLeaf (inr [a; b]) => Some (Some ((a, b) : Signature))
  | GenLeaf (inr []) => Some None
  | _ => None
  end.

Fixpoint tree_block (t : tree) : option Block :=
  match t with
  | GenNode 0 [GenLeaf (inl h); GenLeaf (inl s); GenLeaf (inr p); GenLeaf (inr [v]); GenNode 0 txs; sg;
               GenNode 0 proofs; GenLeaf (inr r)] =>
      txs ← mapM tree_tx txs;
      sg ← tree_sig sg;
      proofs ← mapM tree_proof proofs;
      Some (mkBlock h s p (v : VerifyingKey) txs sg proofs r)
  | _ => None
  end
with tree_tx (t : tree) : option Transaction :=
  match t with
  | GenNode 0 [GenLeaf (inr [s]); d; GenLeaf (inl n); GenLeaf (inl f); sg] =>
      d ← tree_data d;
      sg ← tree_sig sg;
      Some (mkTransaction (s : VerifyingKey) d n f sg)
  | _ => None
  end
with tree_data (t : tree) : option TransactionData :=
  match t with
  | GenNode 0 [GenLeaf (inr [r]); GenLeaf (inl a)] => Some (Transfer (r : VerifyingKey) a)
  | GenNode 1 [GenLeaf (inl a)] => Some (Stake a)
  | GenNode 2 [GenLeaf (inl a)] => Some (Unstake a)
  | GenNode 3 [p] => Slash <$> tree_proof p
  | _ => None
  end
with tree_proof (t : tree) : option SlashProof :=
  match t with
  | GenNode 0 [GenLeaf (inr [v]); a; b] =>
      a ← tree_block a;
      b ← tree_block b;
      Some (mkSlashProof (v : VerifyingKey) a b)
  | _ => None
  end.

Lemma tree_sig_tree s : tree_sig (sig_tree s) = Some s.
Proof. by destruct s as [[]|]. Qed.

Lemma mapM_map {A B} (f : A → B) (g : B → option A) l :
  Forall (λ x, g (f x) = Some x) l → mapM g (map f l) = Some l.
Proof. induction 1 as [|x l Hx _ IH]; [done|]. simpl. by rewrite Hx, IH. Qed.

Lemma tree_model :
  (∀ b, tree_block (block_tree b) = Some b) ∧ (∀ t, tree_tx (tx_tree t) = Some t) ∧
  (∀ d, tree_data (data_tree d) = Some d) ∧ (∀ p, tree_proof (proof_tree p) = Some p).
Proof.
  apply model_ind.
  - intros h s p v txs sg proofs r Ht Hp. simpl.
    by rewrite (mapM_map _ _ _ Ht), tree_sig_tree, (mapM_map _ _ _ Hp).
  - intros s d n f sg Hd. simpl. by rewrite Hd, tree_sig_tree.
  - done.
  - done.
  - done.
  - intros p Hp. simpl. by rewrite Hp.
  - intros v a b Ha Hb. simpl. by rewrite Ha, Hb.
Qed.

Definition message_tree (m : NetworkMessage) : tree :=
  match m with
  | MsgAnnounceRequest (mkAnnounceRequest (NewTransaction tx)) => GenNode 0 [tx_tree tx]
  | MsgAnnounceRequest (mkAnnounceRequest (NewBlock b)) => GenNode 1 [block_tree b]
  | MsgSyncRequest (mkSyncRequest from to) => GenNode 2 [num from; num to]
  | MsgSyncResponse (mkSyncResponse bs more next) =>
      GenNode 3 [GenNode 0 (map block_tree bs); num (if more then 1%Z else 0%Z);
                 match next with Some n => GenNode 0 [num n] | None => GenNode 0 [] end]
  | MsgAnnounceResponse (mkAnnounceResponse ok) => GenNode 4 [num (if ok then 1%Z else 0%Z)]
  end.

Definition tree_message (t : tree) : option NetworkMessage :=
  match t with
  | GenNode 0 [tx] => (λ tx, MsgAnnounceRequest (mkAnnounceRequest (NewTransaction tx))) <$> tree_tx tx
  | GenNode 1 [b] => (λ b, MsgAnnounceRequest (mkAnnounceRequest (NewBlock b))) <$> tree_block b
  | GenNode 2 [GenLeaf (inl from); GenLeaf (inl to)] => Some (MsgSyncRequest (mkSyncRequest from to))
  | GenNode 3 [GenNode 0 bs; GenLeaf (inl more); GenNode 0 next] =>
      bs ← mapM tree_block bs;
      Some (MsgSyncResponse (mkSyncResponse bs (bool_decide (more = 1%Z))
        (match next with [GenLeaf (inl n)] => Some n | _ => None end)))
  | GenNode 4 [GenLeaf (inl ok)] => Some (MsgAnnounceResponse (mkAnnounceResponse (bool_decide (ok = 1%Z))))
  | _ => None
  end.

Lemma tree_message_tree m : tree_message (message_tree m) = Some m.
Proof.
  destruct tree_model as (Hb & Ht & _). destruct m as [[[tx|b]]|[from to]|[bs more next]|[ok]]; simpl.
  - by rewrite Ht.
  - by rewrite Hb.
  - done.
  - rewrite (mapM_map _ _ _ (Forall_true _ bs Hb)). simpl. by destruct more, next.
  - by destruct ok.
Qed.

(** Numbers as the list of their bits. *)
Fixpoint pos_bytes (p : positive) : bytes :=
  match p with
  | xH => []
  | xO p => x00 :: pos_bytes p
  | xI p => x01 :: pos_bytes p
  end.
Fixpoint bytes_pos (b : bytes) : option positive :=
  match b with
  | [] => Some xH
  | x00 :: b => xO <$> bytes_pos b
  | x01 :: b => xI <$> bytes_pos b
  | _ => None
  end.

Lemma bytes_pos_bytes p : bytes_pos (pos_bytes p) = Some p.
Proof. induction p as [p IH|p IH|]; simpl; by rewrite ?IH. Qed.

#[export] Instance wire : Postcard NetworkMessage :=
  {| to_allocvec m := Some (pos_bytes (encode (message_tree m)));
     postcard_from_bytes b := p ← bytes_pos b; t ← decode p; tree_message t |}.

#[export] Instance wire_laws : PostcardLaws NetworkMessage.
Proof. split. by eexists. Qed.

#[export] Instance wire_roundtrip : PostcardRoundtrip NetworkMessage.
Proof.
  intros m b [= <-]. cbn [postcard_from_bytes wire]. rewrite bytes_pos_bytes. simpl.
  rewrite decode_encode. apply tree_message_tree.
Qed.
End ToyWire.
