(* ===== verification/Convergence.v ===== *)
(** * Two nodes converge

    Composes the engine with itself: a node that connects to a peer whose chain goes on
    from its own head asks it for blocks, in the chunks that the network managers allow,
    until it has caught up.  The request a node makes ([on_peer_connected],
    [continue_request]), the limit its network manager puts on it ([clamp_sync_request] of
    both runtimes, behind the interface [Clamps]), the answer of the peer
    ([on_sync_request]) and what the node does with it ([on_sync_response]) are those of the
    files Engine, HostNetwork and ErpNetwork. *)

From S2P Require Import Prelude.
From S2P Require Import Maps.
From S2P Require Import Crypto.
From S2P Require Import Models.
From S2P Require Import State.
From S2P Require Import Ledger.
From S2P Require Import ChainCore.
From S2P Require Import Mempool.
From S2P Require Import Chain.
From S2P Require Import Messages.
From S2P Require Import Engine.
From S2P Require Import EngineSafety.
From S2P Require Import EngineSync.
From S2P Require Import EngineWitness.
From S2P Require Import Framing.
From S2P Require Import HostNetwork.
From S2P Require Import PeerRegistry.
From S2P Require Import ErpNetwork.
From S2P Require Import Wire.

(** ** The limit on a request *)

(** What a network manager promises about the requests it passes on: they start where the
    node asked, are not empty when it asked for something, and do not ask for more. *)
Class Clamps `{Crypto} (clamp : SyncRequest → SyncRequest) : Prop := {
  clamp_from r : sync_from_height (clamp r) = sync_from_height r;
  clamp_to r : is_u64 (sync_from_height r) → is_u64 (sync_to_height r) →
    sync_from_height r ≤ sync_to_height r →
    sync_from_height r ≤ sync_to_height (clamp r) ≤ sync_to_height r;
}.

Section clamps.
Context `{Crypto}.

(** Both managers cut a request to a number of blocks. *)
Lemma cut_clamps (limit : SyncRequest → option Z) :
  (∀ r l, limit r = Some l → is_u64 l) →
  Clamps (λ r, match limit r with
               | None => r
               | Some l =>
                   if bool_decide (l = 0) || bool_decide (sync_to_height r < sync_from_height r) then r
                   else mkSyncRequest (sync_from_height r)
                          (Z.min (sync_to_height r)
                             (u64_saturating_add (sync_from_height r) (u64_saturating_sub l 1)))
               end).
Proof.
  intros Hl. split; intros r.
  - destruct (limit r); [|done]. by case_match.
  - intros Hf Ht Hle. destruct (limit r) as [l|] eqn:E; [|lia]. apply Hl in E.
    destruct (bool_decide (l = 0)) eqn:E0; [simpl; lia|]. rewrite bool_decide_false by lia. simpl.
    apply bool_decide_eq_false in E0. unfold u64_saturating_add, u64_saturating_sub in *. u64_lia.
Qed.
End clamps.

Lemma host_clamps `{Crypto} m peer :
  (∀ l, peer_max_blocks_per_chunk (tables m) !! peer = Some l → is_u64 l) →
  Clamps (clamp_sync_request m peer).
Proof. intros Hl. apply (cut_clamps (λ _, peer_max_blocks_per_chunk (tables m) !! peer)). intros _. apply Hl. Qed.

Lemma erp_clamps `{Crypto} (m : ErpNetworkManager) peer :
  (∀ id s, get (ErpNetwork.peers m) id = Some s → is_u64 (max_blocks_per_chunk s)) →
  Clamps (erp_clamp_sync_request m peer).
Proof.
  intros Hl.
  pose proof (cut_clamps (λ _, id ← session_for_node (ErpNetwork.peers m) peer;
    max_blocks_per_chunk <$> get (ErpNetwork.peers m) id)) as Hc.
  unfold erp_clamp_sync_request. destruct (session_for_node _ _) as [id|]; simpl in Hc; [|by apply Hc].
  destruct (get _ id) as [s|] eqn:E; simpl in Hc; [|by apply Hc]. apply Hc. intros _ l [= <-]. by eapply Hl.
Qed.

(** ** The exchange *)

Section exchange.
Context `{Target, Crypto, !Postcard NetworkMessage}.

Definition requests_to (p : bytes) (acts : list NodeAction) : list (Z * Z) :=
  omap (λ a, match a with
             | RequestBlocks q from to => if bool_decide (q = p) then Some (from, to) else None
             | _ => None
             end) acts.

Definition frames_to (p : bytes) (acts : list NodeAction) : list bytes :=
  omap (λ a, match a with
             | SendFrame q frame => if bool_decide (q = p) then Some frame else None
             | _ => None
             end) acts.

(** A node, its peer, and the requests of the node that are on the way. *)
Record Pair : Type := mkPair {
  follower : NodeEngine;
  server : NodeEngine;
  outstanding : list (Z * Z);
}.

(** [pa] is the follower and [pb] the server. *)
Context (clamp : SyncRequest → SyncRequest) (pa pb : bytes).

(** The oldest request reaches the server, and its answer the follower. *)
Definition sync_round (w : Pair) : outcome Pair :=
  match outstanding w with
  | [] => Ret w
  | (from, to) :: rest =>
      request ← message_to_bytes (MsgSyncRequest (clamp (mkSyncRequest from to)));
      '(server, acts) ← step (server w) (FrameReceived pa request);
      match frames_to pa acts with
      | [] => Ret (mkPair (follower w) server rest)
      | reply :: _ =>
          '(follower, acts) ← step (follower w) (FrameReceived pb reply);
          Ret (mkPair follower server (rest ++ requests_to pb acts))
      end
  end.

Fixpoint sync_rounds (n : nat) (w : Pair) : outcome Pair :=
  match n with
  | O => Ret w
  | S n => w ← sync_round w; sync_rounds n w
  end.

(** The two are connected. *)
Definition sync_start (a b : NodeEngine) : outcome Pair :=
  '(a, acts) ← step a (PeerConnected pb);
  Ret (mkPair a b (requests_to pb acts)).

Lemma requests_to_filter p acts : requests_to p (filter is_request acts) = requests_to p acts.
Proof.
  induction acts as [|a acts IH]; [done|]. rewrite filter_cons. unfold requests_to in *.
  case_decide as Hr; csimpl; rewrite IH; [done|]. by destruct a.
Qed.

Lemma requests_to_wake p acts a :
  match a with Some (ScheduleWake _) | Some CancelWake | None => True | _ => False end →
  requests_to p (match a with Some a => acts ++ [a] | None => acts end) = requests_to p acts.
Proof.
  destruct a as [a|]; [|done]. unfold requests_to. rewrite omap_app. intros Ha.
  destruct a; try done; apply app_nil_r.
Qed.

(** What a step does besides its handler is to set the timer. *)
Lemma step_handled e input e1 acts :
  handle_input e input = Ret (e1, acts) →
  ∃ e2 acts2, step e input = Ret (e2, acts2) ∧ blockchain e2 = blockchain e1 ∧
    pending_blocks e2 = pending_blocks e1 ∧ pending_requests e2 = pending_requests e1 ∧
    (∀ p, requests_to p acts2 = requests_to p acts) ∧ (∀ p, frames_to p acts2 = frames_to p acts).
Proof.
  intros Hh. unfold step. rewrite Hh. simpl. pose proof (sync_wake_action_spec e1) as Hw.
  destruct (sync_wake_action e1) as [e2 a]. destruct Hw as (Hb & Hp & _ & Hr & _ & Ha).
  eexists _, _. split; [reflexivity|]. split_and!; try done.
  - intros p. apply requests_to_wake. by destruct a as [[]|].
  - intros p. destruct a as [a|]; [|done]. unfold frames_to. rewrite omap_app.
    destruct a; try done; apply app_nil_r.
Qed.
End exchange.
Arguments mkPair {_} _ _ _.

(** ** The server *)

Section server.
Context `{Target, Crypto, !CryptoLaws, !Postcard NetworkMessage, !PostcardLaws NetworkMessage}.
Context (U : Block → Prop) (missing : option (bytes * Z)) `{!Delivered U missing}.

Lemma path_unique t h l1 l2 : path t h l1 → path t h l2 → l1 = l2.
Proof.
  intros Hl. revert l2. induction Hl as [h b Hb Hend|h b p l Hb Hz Hp Hl IH]; intros l2 Hl2;
    inversion Hl2 as [? b' Hb' Hend'|? b' p' l' Hb' Hz' Hp' Hl']; subst; simplify_eq.
  - done.
  - by destruct Hend; congruence.
  - by destruct Hend'; congruence.
  - f_equal. by apply IH.
Qed.

Lemma heights_determine (l xs ys : list Block) :
  NoDup (map block_height l) → (∀ x, x ∈ xs → x ∈ l) → (∀ y, y ∈ ys → y ∈ l) →
  map block_height xs = map block_height ys → xs = ys.
Proof.
  intros Hnd. revert ys. induction xs as [|x xs IH]; intros [|y ys] Hx Hy; simpl; try done.
  intros [= Hh Hhs]. f_equal; [|apply IH; [intros z Hz..|done]; [apply Hx|apply Hy]; by right].
  assert (x ∈ l) as (i & Hi)%list_elem_of_lookup by (apply Hx; left).
  assert (y ∈ l) as (j & Hj)%list_elem_of_lookup by (apply Hy; left).
  assert (i = j) as ->; [|congruence].
  apply (NoDup_lookup (map block_height l) i j (block_height x)); [done|..];
    change (map block_height l) with (block_height <$> l); rewrite list_lookup_fmap.
  - by rewrite Hi.
  - rewrite Hj. simpl. by rewrite Hh.
Qed.

(** [bs] are the blocks of the branch of the server above [hb]. *)
Definition goes_on (bc : Blockchain) (hb : Block) (bs : list Block) : Prop :=
  ∃ rest, path (tree_blocks (chain bc)) (head_hash bc) (reverse bs ++ hb :: rest).

Lemma descending_suffix l1 l2 : descending (l1 ++ l2) → descending l2.
Proof.
  induction l1 as [|x l1 IH]; [done|]. intros Hd. apply IH. destruct l1, l2; simpl in *; try done; by destruct Hd.
Qed.

Lemma ascending_heights hb bs rest :
  descending (reverse bs ++ hb :: rest) → map block_height bs = seqZ (block_height hb + 1) (Z.of_nat (length bs)).
Proof.
  revert hb rest. induction bs as [|b bs IH]; intros hb rest; [done|].
  rewrite reverse_cons, <-app_assoc. simpl. intros Hd. rewrite (IH b (hb :: rest)) by done.
  apply descending_suffix in Hd as [-> _]. rewrite (seqZ_cons (block_height hb + 1)) by lia.
  f_equal. f_equal; lia.
Qed.

Lemma linked_suffix l1 l2 : linked (l1 ++ l2) → linked l2.
Proof.
  induction l1 as [|x l1 IH]; [done|]. intros Hd. apply IH. destruct l1, l2; simpl in *; try done; by destruct Hd.
Qed.

Lemma ascending_extends hb bs rest : linked (reverse bs ++ hb :: rest) → extends (hash hb) bs.
Proof.
  revert hb rest. induction bs as [|b bs IH]; intros hb rest; [done|].
  rewrite reverse_cons, <-app_assoc. simpl. intros Hd. split; [|by apply (IH b (hb :: rest))].
  by apply linked_suffix in Hd as [-> _].
Qed.

(** What the server holds above [hb]. *)
Lemma goes_on_spec bc hb bs :
  chain_inv U missing bc → goes_on bc hb bs →
  Forall U bs ∧ hash hb ∈ dom (tree_blocks (chain bc)) ∧ extends (hash hb) bs ∧
  map block_height bs = seqZ (block_height hb + 1) (Z.of_nat (length bs)) ∧
  get_latest_block bc = Ret (default hb (last bs)) ∧
  ∃ lowest, earliest_contiguous_height bc = Ret lowest ∧ lowest ≤ block_height hb.
Proof.
  intros Hbc (rest & Hl). pose proof (inv_tree _ _ _ Hbc) as Ht.
  pose proof (path_in_tree U missing _ _ _ Ht Hl) as Hin. rewrite Forall_forall in Hin.
  destruct (head_path U missing bc Hbc) as (b & l & low & Hb & Hl' & Hlast & Hh & He & Hle & _).
  pose proof (path_unique _ _ _ _ Hl' Hl) as El.
  pose proof (path_descending U missing _ _ _ Ht Hl) as Hd. split_and!.
  - apply Forall_forall. intros x Hx. apply (tree_keys U missing _ Ht (hash x)), Hin.
    apply elem_of_app. left. by apply elem_of_reverse.
  - apply elem_of_dom. eexists. apply Hin. apply elem_of_app. right. left.
  - eapply ascending_extends, (path_linked U missing); done.
  - by eapply ascending_heights.
  - rewrite Hb. f_equal. apply (f_equal head) in El. simpl in El.
    destruct bs as [|y bs _] using rev_ind; [by injection El|]. rewrite last_snoc. simpl.
    rewrite reverse_snoc in El. by injection El.
  - exists (block_height low). split; [done|]. rewrite El, last_app in Hlast.
    apply descending_suffix in Hd. clear -Hlast Hd.
    assert (low ∈ hb :: rest) as Hlow.
    { apply last_Some_elem_of. destruct (last (hb :: rest)) eqn:E; [done|]. by apply last_None in E. }
    by eapply descending_le.
Qed.

Lemma take_seqZ m n k : 0 ≤ n → take k (seqZ m n) = seqZ m (Z.min n (Z.of_nat k)).
Proof.
  intros Hn. destruct (decide (Z.of_nat k ≤ n)) as [Hk|Hk].
  - replace n with (Z.of_nat k + (n - Z.of_nat k)) at 1 by lia. rewrite seqZ_app by lia.
    rewrite take_app_length' by (rewrite length_seqZ; lia). f_equal. lia.
  - rewrite take_ge by (rewrite length_seqZ; lia). f_equal. lia.
Qed.

Lemma height_lookup (bs : list Block) m i b :
  map block_height bs = seqZ m (Z.of_nat (length bs)) → bs !! i = Some b → block_height b = m + Z.of_nat i.
Proof.
  intros Hh Hb. assert (map block_height bs !! i = Some (block_height b)) as Hl.
  { change (map block_height bs) with (block_height <$> bs). by rewrite list_lookup_fmap, Hb. }
  rewrite Hh in Hl. apply lookup_seqZ in Hl as [? _]. lia.
Qed.

Lemma last_height hb bs :
  map block_height bs = seqZ (block_height hb + 1) (Z.of_nat (length bs)) →
  block_height (default hb (last bs)) = block_height hb + Z.of_nat (length bs).
Proof.
  intros Hh. destruct (last bs) as [b|] eqn:E; simpl; [|apply last_None in E as ->; simpl; lia].
  rewrite last_lookup in E. pose proof (height_lookup _ _ _ _ Hh E).
  apply lookup_lt_Some in E. lia.
Qed.

Lemma take_heights (bs : list Block) m k :
  map block_height bs = seqZ m (Z.of_nat (length bs)) →
  map block_height (take k bs) = seqZ m (Z.of_nat (length (take k bs))).
Proof.
  intros Hh. change (map block_height (take k bs)) with (block_height <$> take k bs). rewrite fmap_take.
  change (block_height <$> bs) with (map block_height bs). rewrite Hh, take_seqZ, length_take by lia. f_equal. lia.
Qed.

(** The server answers with the blocks that follow, as many as were asked for, and says
    where to go on. *)
Lemma server_replies e peer hb bs r :
  engine_inv U missing e → goes_on (blockchain e) hb bs →
  sync_from_height r = block_height hb + 1 → sync_from_height r ≤ sync_to_height r →
  let k := Z.to_nat (sync_to_height r - block_height hb) in
  ∃ resp frame, message_to_bytes (MsgSyncResponse resp) = Ret frame ∧
    on_sync_request e peer r = Ret (e, [SendFrame peer frame]) ∧
    sync_blocks resp = take k bs ∧ sync_next_height resp = block_height <$> bs !! k.
Proof.
  intros He Hgo Hfrom Hto k.
  destruct (goes_on_spec _ _ _ (proj1 He) Hgo) as (_ & _ & _ & Hh & Hlatest & low & Hlow & Hle).
  destruct (on_sync_request_reply U missing e peer r He)
    as (hd & low' & resp & f & Hhd & Hlow' & Hr & Hg & Hf & Hreq).
  rewrite Hlatest in Hhd. injection Hhd as <-. rewrite Hlow in Hlow'. injection Hlow' as <-.
  exists resp, f. split_and!; [done..| |]; unfold reply_ok in Hr; rewrite last_height in Hr by done.
  - destruct (get_blocks_spec U missing (blockchain e) (sync_from_height r) (sync_to_height r) (proj1 He))
      as (hd & low'' & sv & Hhd & Hlow'' & _ & Hsv & Hspec).
    rewrite Hg in Hsv. injection Hsv as <-. clear Hr.
    rewrite Hlatest in Hhd. injection Hhd as <-. rewrite Hlow in Hlow''. injection Hlow'' as <-.
    rewrite last_height in Hspec by done. case_decide as Hc.
    2: { rewrite Hspec. destruct bs; [by rewrite take_nil|]. simpl in Hc. lia. }
    destruct Hspec as (Hm & _ & l & Hl & Hin).
    destruct Hgo as (rest & Hl'). rewrite (path_unique _ _ _ _ Hl Hl') in Hin.
    apply (heights_determine (reverse bs ++ hb :: rest)); [|done|..].
    + destruct (path_head _ _ _ Hl') as (b0 & l0 & _ & Hb0).
      rewrite (path_heights U missing _ _ _ _ (inv_tree _ _ _ (proj1 He)) Hl' Hb0), reverse_Permutation.
      apply NoDup_seqZ.
    + intros x Hx%elem_of_take. destruct Hx as (i & Hx & _). apply elem_of_app. left.
      apply elem_of_reverse. by eapply list_elem_of_lookup_2.
    + rewrite Hm. change (map block_height (take k bs)) with (block_height <$> take k bs).
      rewrite fmap_take. change (block_height <$> bs) with (map block_height bs). rewrite Hh, take_seqZ by lia.
      rewrite Hfrom. f_equal. lia.
  - case_decide as Hc.
    + destruct Hr as (_ & _ & _ & ->). case_decide as Ht.
      * destruct (lookup_lt_is_Some_2 bs k) as [b Hb]; [lia|]. rewrite Hb. simpl. f_equal.
        rewrite (height_lookup _ _ _ _ Hh Hb). lia.
      * rewrite lookup_ge_None_2; [done|lia].
    + destruct Hr as (_ & _ & ->). rewrite decide_False by lia. destruct bs; [done|]. simpl in Hc. lia.
Qed.
End server.

(** ** The follower *)

Section follower.
Context `{Target, Crypto, !CryptoLaws, !Postcard NetworkMessage}.
Context (U : Block → Prop) (missing : option (bytes * Z)) `{!Delivered U missing}.

(** A node whose head is [hb], with nothing parked, that waits for one answer of [peer]. *)
Record waits (e : NodeEngine) (peer : bytes) (hb : Block) (from to : Z) : Prop := {
  waits_inv : engine_inv U missing e;
  waits_parked : pending_blocks e = ∅;
  waits_head : tree_blocks (chain (blockchain e)) !! head_hash (blockchain e) = Some hb;
  waits_request : ∃ deadline,
    filter (λ r, req_peer r = peer) (pending_requests e) = [mkPendingRequest peer from to deadline];
}.

Lemma filter_settled (peer : bytes) (rs rs' : list PendingRequest) :
  Forall (λ r, req_peer r = peer) rs' →
  filter (λ r, req_peer r = peer) (filter (λ r, req_peer r ≠ peer) rs ++ rs') = rs'.
Proof.
  intros Hrs. rewrite filter_app, (filter_none _ (filter _ rs)); [|by intros x [? _]%list_elem_of_filter].
  simpl. apply filter_all. by apply Forall_forall.
Qed.

(** The follower takes an answer: it moves to the last block of it, and asks on when it is
    told where. *)
Lemma follower_takes e peer hb from to resp st1 :
  waits e peer hb from to → Forall U (sync_blocks resp) →
  extends (head_hash (blockchain e)) (sync_blocks resp) →
  branch hb (bc_state (blockchain e)) (sync_blocks resp) st1 →
  (∀ nh, sync_next_height resp = Some nh → nh ≠ 0) →
  ∃ e' acts, on_sync_response e peer resp = Ret (e', acts) ∧
    bc_state (blockchain e') = st1 ∧
    match sync_next_height resp with
    | None => requests_to peer acts = [] ∧
        get_latest_block (blockchain e') = Ret (default hb (last (sync_blocks resp)))
    | Some nh =>
        let to' := if bool_decide (nh ≤ to) then to
                   else u64_saturating_add nh (u64_saturating_sub to from) in
        requests_to peer acts = [(nh, to')] ∧
        waits e' peer (default hb (last (sync_blocks resp))) nh to'
    end.
Proof.
  intros [He Hpark Hhb (d & Hr)] HU Hext Hbr Hnh.
  destruct (ingest_branch U missing (set_pending_requests e
    (filter (λ r, req_peer r ≠ peer) (pending_requests e))) peer hb (sync_blocks resp) st1 [])
    as (e1 & a1 & E1 & He1 & Hs1 & Ht1 & Hp1 & Ha1); [done..|].
  assert (∃ e' acts, on_sync_response e peer resp = Ret (e', acts)) as (e' & acts & E).
  { unfold on_sync_response. rewrite E1. simpl. destruct (sync_next_height resp); [|by do 2 eexists].
    destruct (continue_requests _ _ _ _). by do 2 eexists. }
  exists e', acts. split; [done|]. pose proof (sync_response_settles_requests _ _ _ _ _ E) as Hset.
  unfold on_sync_response in E.
  rewrite E1 in E. cbn [mbind outcome_bind] in E. apply ingest_blocks_requests in E1 as (_ & Hc1 & _).
  assert (tree_blocks (chain (blockchain e1)) !! head_hash (blockchain e1) =
    Some (default hb (last (sync_blocks resp)))) as Ht1'.
  { rewrite Ht1. destruct (sync_blocks resp) as [|b l]; [done|].
    change (last (hb :: b :: l)) with (last (b :: l)).
    destruct (last (b :: l)) eqn:El; [done|by apply last_None in El]. }
  assert (requests_to peer a1 = []) as Hq by by rewrite <-requests_to_filter, Ha1.
  destruct (sync_next_height resp) as [nh|] eqn:En.
  - rewrite decide_False in Hset by by apply Hnh. rewrite Hr in Hset, E. cbn [map] in Hset.
    rewrite continue_requests_eq in E by by apply Hnh. cbn [map] in E.
    assert (∃ x, acts = a1 ++ [x] ∧ x = RequestBlocks peer nh
      (if bool_decide (nh ≤ to) then to else u64_saturating_add nh (u64_saturating_sub to from))) as (x & -> & ->).
    { eexists. destruct a1; injection E as _ <-; split; reflexivity. }
    assert (blockchain e' = blockchain e1 ∧ pending_blocks e' = pending_blocks e1) as [Hbc Hpb].
    { by destruct a1; simplify_eq. }
    split; [congruence|split].
    + unfold requests_to in *. rewrite omap_app, Hq. simpl. by rewrite bool_decide_true.
    + split; rewrite ?Hbc, ?Hpb; try done.
      * unfold engine_inv. rewrite Hbc, Hpb. apply He1.
      * rewrite Hset. eexists. apply filter_settled. by apply Forall_singleton.
  - assert (e' = e1) as -> by by destruct a1; injection E as <- _.
    split_and!; [done| |by apply get_latest_block_tree].
    by destruct a1; simplify_eq.
Qed.
End follower.

(** ** Convergence *)

Section convergence.
Context `{Target, Crypto, !CryptoLaws}.
Context `{!Postcard NetworkMessage, !PostcardLaws NetworkMessage, !PostcardRoundtrip NetworkMessage}.
Context (U : Block → Prop) (missing_a missing_b : option (bytes * Z)).
Context `{!Delivered U missing_a, !Delivered U missing_b}.
Context (clamp : SyncRequest → SyncRequest) `{!Clamps clamp} (pa pb : bytes).

Lemma default_last_cons {A} (x y : A) (l : list A) : default x (last (y :: l)) = default y (last l).
Proof.
  destruct l as [|z l]; [done|]. change (last (y :: z :: l)) with (last (z :: l)).
  destruct (last (z :: l)) eqn:E; [done|]. by apply last_None in E.
Qed.

Lemma branch_app hb st bs1 bs2 st' :
  branch hb st (bs1 ++ bs2) st' →
  ∃ st1, branch hb st bs1 st1 ∧ branch (default hb (last bs1)) st1 bs2 st'.
Proof.
  revert hb st. induction bs1 as [|b bs1 IH]; intros hb st Hb; simpl in *; [by eexists; split; [constructor|]|].
  inversion Hb as [|? ? ? st1 ? ? Hv Hb']; subst. destruct (IH _ _ Hb') as (st2 & H1' & H2'). exists st2.
  split; [by econstructor|]. by rewrite default_last_cons.
Qed.

Lemma extends_app h bs1 bs2 : extends h (bs1 ++ bs2) → extends h bs1.
Proof. revert h. induction bs1 as [|b bs1 IH]; intros h; simpl; [done|]. intros [? ?]. auto. Qed.

Lemma goes_on_app bc hb bs1 bs2 : goes_on bc hb (bs1 ++ bs2) → goes_on bc (default hb (last bs1)) bs2.
Proof.
  intros (rest & Hl). destruct bs1 as [|b bs1 _] using rev_ind; [by exists rest|]. rewrite last_snoc. simpl.
  exists (reverse bs1 ++ hb :: rest). revert Hl. rewrite !reverse_app, <-!app_assoc. done.
Qed.

Lemma message_roundtrip (m : NetworkMessage) b : message_to_bytes m = Ret b → network_message_from_bytes b = Ok m.
Proof.
  unfold message_to_bytes, network_message_from_bytes, message_from_bytes.
  destruct (to_allocvec m) as [b'|] eqn:E; [|done]. intros [= ->]. by rewrite (postcard_from_to _ _ E).
Qed.

Lemma waits_height e peer hb from to :
  waits U missing_a e peer hb from to → 0 ≤ block_height hb < u64_max.
Proof.
  intros [He _ Hh _]. apply sane_height, (delivered_sane hb).
  apply (tree_keys U missing_a _ (inv_tree _ _ _ (proj1 He)) _ _ Hh).
Qed.

Lemma waits_same e e' peer hb from to :
  blockchain e' = blockchain e → pending_blocks e' = pending_blocks e → pending_requests e' = pending_requests e →
  waits U missing_a e peer hb from to → waits U missing_a e' peer hb from to.
Proof. intros Hb Hp Hr [He Hk Hh Hq]. split; unfold engine_inv; rewrite ?Hb, ?Hp, ?Hr; done. Qed.

(** The server has the chain [bs] above the head [hb] of the follower, the follower waits for
    an answer to its request for it, and [bs] leads to [st']. *)
Record catching_up (w : Pair) (hb : Block) (bs : list Block) (st' : State) (from to : Z) : Prop := {
  catching_waits : waits U missing_a (follower w) pb hb from to;
  catching_request : outstanding w = [(from, to)];
  catching_from : from = block_height hb + 1;
  catching_to : from ≤ to ∧ is_u64 to;
  catching_server : engine_inv U missing_b (server w);
  catching_goes_on : goes_on (blockchain (server w)) hb bs;
  catching_branch : branch hb (bc_state (blockchain (follower w))) bs st';
}.

Record caught_up (w : Pair) (head : Block) (st' : State) : Prop := {
  caught_request : outstanding w = [];
  caught_head : get_latest_block (blockchain (follower w)) = Ret head;
  caught_state : bc_state (blockchain (follower w)) = st';
}.

(** The server's half of a round. *)
Lemma server_round w hb bs st' from to :
  catching_up w hb bs st' from to →
  ∃ request resp reply server' acts k,
    message_to_bytes (MsgSyncRequest (clamp (mkSyncRequest from to))) = Ret request ∧
    step (server w) (FrameReceived pa request) = Ret (server', acts) ∧
    blockchain server' = blockchain (server w) ∧ engine_inv U missing_b server' ∧
    frames_to pa acts = [reply] ∧ network_message_from_bytes reply = Ok (MsgSyncResponse resp) ∧
    (0 < k)%nat ∧ sync_blocks resp = take k bs ∧ sync_next_height resp = block_height <$> bs !! k.
Proof.
  intros [Hw _ Hfrom [Hle Hto] Hb Hgo _].
  destruct (message_to_bytes_Ret (MsgSyncRequest (clamp (mkSyncRequest from to)))) as [request Hrequest].
  assert (is_u64 from) as Hu by (pose proof (waits_height _ _ _ _ _ Hw); u64_lia).
  pose proof (clamp_to (mkSyncRequest from to) Hu Hto Hle) as Hc. simpl in Hc.
  destruct (server_replies U missing_b (server w) pa hb bs (clamp (mkSyncRequest from to)))
    as (resp & reply & Hf & Hr & Hblocks & Hnext); [done|done|by rewrite clamp_from|by rewrite clamp_from; apply Hc|].
  destruct (step_handled (server w) (FrameReceived pa request) (server w) [SendFrame pa reply])
    as (b' & acts & Hs & Hbc & Hp & _ & _ & Hfr).
  { simpl. unfold on_frame. by rewrite (message_roundtrip _ _ Hrequest). }
  eexists request, resp, reply, b', acts, _. split_and!; [done|done|done| | |by apply message_roundtrip| |done|done].
  - unfold engine_inv. by rewrite Hbc, Hp.
  - rewrite Hfr. unfold frames_to. simpl. by rewrite bool_decide_true.
  - lia.
Qed.

(** A round brings the follower closer. *)
Lemma round_advances w hb bs st' from to :
  catching_up w hb bs st' from to →
  ∃ w' k, sync_round clamp pa pb w = Ret w' ∧ (0 < k)%nat ∧ blockchain (server w') = blockchain (server w) ∧
    match drop k bs with
    | [] => caught_up w' (default hb (last bs)) st'
    | _ => ∃ hb' from' to', catching_up w' hb' (drop k bs) st' from' to' ∧
             default hb' (last (drop k bs)) = default hb (last bs)
    end.
Proof.
  intros Hcu. destruct (server_round _ _ _ _ _ _ Hcu)
    as (request & resp & reply & b' & acts & k & Hrequest & Hb & Hbc & Hb' & Hfr & Hreply & Hk & Hblocks & Hnext).
  destruct Hcu as [Hw Hout Hfrom [Hle Hto] Hserver Hgo Hbr].
  destruct (goes_on_spec U missing_b _ _ _ (proj1 Hserver) Hgo) as (HUall & _ & Hext & Hh & _).
  pose proof HUall as HU. rewrite <-(take_drop k bs) in Hbr, Hext, Hgo, HU.
  apply branch_app in Hbr as (st1 & Hbr1 & Hbr2). apply extends_app in Hext. apply Forall_app in HU as [HU _].
  apply goes_on_app in Hgo.
  assert (head_hash (blockchain (follower w)) = hash hb) as Hhash.
  { symmetry. apply (tree_keys U missing_a _ (inv_tree _ _ _ (proj1 (waits_inv _ _ _ _ _ _ _ Hw)))).
    by destruct Hw. }
  destruct (follower_takes U missing_a (follower w) pb hb from to resp st1) as (a1 & acts1 & Ha1 & Hs1 & Hcase);
    [done|by rewrite Hblocks|by rewrite Hblocks, Hhash|by rewrite Hblocks|..].
  { rewrite Hnext. intros nh Hnh. destruct (bs !! k) as [x|] eqn:Ex; [|done]. injection Hnh as <-.
    pose proof (height_lookup _ _ _ _ Hh Ex). pose proof (waits_height _ _ _ _ _ Hw). lia. }
  destruct (step_handled (follower w) (FrameReceived pb reply) a1 acts1)
    as (a2 & acts2 & Ha2 & Hbc2 & Hp2 & Hr2 & Hq2 & _).
  { simpl. unfold on_frame. by rewrite Hreply. }
  exists (mkPair a2 b' (requests_to pb acts1)), k. split_and!; [|done|done|].
  { unfold sync_round. rewrite Hout, Hrequest. cbn [mbind outcome_bind]. rewrite Hb. cbn [mbind outcome_bind].
    rewrite Hfr, Ha2. cbn [mbind outcome_bind app]. by rewrite Hq2. }
  rewrite Hnext in Hcase. rewrite Hblocks in Hcase.
  destruct (bs !! k) as [x|] eqn:Ex; simpl in Hcase.
  - rewrite (drop_S _ _ _ Ex). destruct Hcase as [Hq Hw1]. do 3 eexists.
    rewrite <-(drop_S _ _ _ Ex). split.
    + pose proof (height_lookup _ _ _ _ Hh Ex) as Hx. pose proof (lookup_lt_Some _ _ _ Ex) as Hlt.
      assert (is_u64 (block_height x)) as Hux.
      { rewrite Forall_forall in HUall. pose proof (sane_height x (delivered_sane x
          (HUall x (list_elem_of_lookup_2 _ _ _ Ex)))). u64_lia. }
      split; cbn [follower server outstanding]; [by eapply waits_same|done| | |done|by rewrite Hbc|].
      * rewrite last_height, length_take_le by (lia || by apply take_heights). lia.
      * case_bool_decide; [done|]. unfold u64_saturating_add, u64_saturating_sub in *. u64_lia.
      * by rewrite Hbc2, Hs1.
    + assert (last bs = last (drop k bs)) as ->.
      { rewrite <-(take_drop k bs) at 1. rewrite last_app, (drop_S _ _ _ Ex).
        destruct (last (x :: _)) eqn:El; [done|]. by apply last_None in El. }
      rewrite (drop_S _ _ _ Ex). by rewrite !default_last_cons.
  - assert (drop k bs = []) as Hd by by apply drop_ge, lookup_ge_None. rewrite Hd in Hbr2 |- *.
    inversion Hbr2; subst. destruct Hcase as [Hq Hl].
    split; cbn [follower server outstanding]; [done|by rewrite Hbc2, Hl, take_ge by by apply lookup_ge_None|by rewrite Hbc2].
Qed.

Lemma rounds_done n w hd st' : caught_up w hd st' → sync_rounds clamp pa pb n w = Ret w.
Proof.
  intros [Ho _ _]. induction n as [|n IH]; [done|]. simpl. unfold sync_round at 1. by rewrite Ho.
Qed.

Lemma rounds_converge n w hb bs st' from to :
  catching_up w hb bs st' from to → (length bs < n)%nat →
  ∃ w', sync_rounds clamp pa pb n w = Ret w' ∧ caught_up w' (default hb (last bs)) st' ∧
    blockchain (server w') = blockchain (server w).
Proof.
  revert w hb bs from to. induction n as [|n IH]; intros w hb bs from to Hcu Hn; [lia|].
  destruct (round_advances _ _ _ _ _ _ Hcu) as (w1 & k & E & Hk & Hb & Hcase). simpl. rewrite E.
  cbn [mbind outcome_bind]. destruct (drop k bs) as [|x bs'] eqn:Ed.
  - exists w1. split; [by eapply rounds_done|done].
  - destruct Hcase as (hb' & from' & to' & Hcu' & Hlast).
    destruct (IH _ _ _ _ _ Hcu') as (w' & E' & Hc & Hb').
    { apply (f_equal length) in Ed. rewrite length_drop in Ed. simpl in *. lia. }
    exists w'. rewrite Hb', Hb. split_and!; [done| |done]. by rewrite <-Hlast.
Qed.

(** C3: two nodes converge.  When a node connects to a peer whose chain goes on from its head
    with valid blocks, it asks for them in requests that both network managers may cut to any
    length, and after at most one round more than there are blocks it has no request left, its
    head is the head of the peer and its state is the state of the peer, which has not changed
    its chain. *)
Theorem nodes_converge a b hb bs :
  engine_inv U missing_a a → pending_blocks a = ∅ → Forall (λ r, req_peer r ≠ pb) (pending_requests a) →
  get_latest_block (blockchain a) = Ret hb →
  engine_inv U missing_b b → goes_on (blockchain b) hb bs →
  branch hb (bc_state (blockchain a)) bs (bc_state (blockchain b)) →
  ∃ w w', sync_start pb a b = Ret w ∧ sync_rounds clamp pa pb (S (length bs)) w = Ret w' ∧
    outstanding w' = [] ∧
    get_latest_block (blockchain (follower w')) = get_latest_block (blockchain b) ∧
    bc_state (blockchain (follower w')) = bc_state (blockchain b) ∧
    blockchain (server w') = blockchain b.
Proof.
  intros Ha Hpark Hreq Hhb Hb Hgo Hbr.
  destruct (inv_head _ _ _ (proj1 Ha)) as (hb' & Hhb' & _).
  rewrite (get_latest_block_tree _ hb' Hhb') in Hhb. injection Hhb as ->.
  destruct (step_handled a (PeerConnected pb) _ _
    (ltac:(simpl; unfold on_peer_connected; simpl; rewrite (get_latest_block_tree _ hb Hhb'); reflexivity)))
    as (a1 & acts & Ha1 & Hbc & Hp & Hr & Hq & _).
  destruct (rounds_converge (S (length bs)) (mkPair a1 b (requests_to pb acts)) hb bs (bc_state (blockchain b))
    (u64_saturating_add (block_height hb) 1) (u64_saturating_add (block_height hb) 100))
    as (w' & E & [Ho Hl Hs] & Hsb); [|lia|].
  { simpl in Hbc, Hp, Hr. assert (waits U missing_a a1 pb hb (u64_saturating_add (block_height hb) 1)
      (u64_saturating_add (block_height hb) 100)) as Hw.
    { split; unfold engine_inv; rewrite ?Hbc, ?Hp; try done. eexists. rewrite Hr.
      rewrite filter_app, filter_none by by apply Forall_forall.
      cbn [app]. by rewrite filter_cons_True. }
    pose proof (waits_height _ _ _ _ _ Hw) as Hh.
    split; cbn [follower server outstanding]; try done.
    - rewrite Hq. unfold requests_to. simpl. by rewrite bool_decide_true.
    - unfold u64_saturating_add in *. u64_lia.
    - unfold u64_saturating_add in *. u64_lia.
    - by rewrite Hbc. }
  eexists _, w'. split; [unfold sync_start; rewrite Ha1; reflexivity|]. split_and!; try done.
  destruct (goes_on_spec U missing_b _ _ _ (proj1 Hb) Hgo) as (_ & _ & _ & _ & -> & _). done.
Qed.
End convergence.

(** ** Two concrete nodes *)

Module ConvergenceWitness.
Import ToyCrypto ModelsWitness ChainWitness ToyWire.
#[local] Existing Instance dev_host.

(** A network manager that passes on requests for one block at a time. *)
Definition one_block (r : SyncRequest) : SyncRequest :=
  mkSyncRequest (sync_from_height r) (Z.min (sync_to_height r) (sync_from_height r)).

#[local] Instance one_block_clamps : Clamps one_block.
Proof. split; [done|]. intros r _ _ Hr. simpl. lia. Qed.

Definition node_a : bytes := replicate 32 x0a.
Definition node_b : bytes := replicate 32 x0b.
Definition newcomer : NodeEngine := NodeEngine_new fresh.

(** A node that has the first block. *)
Lemma server_exists :
  ∃ b, engine_inv known None b ∧ goes_on (blockchain b) genesis [first_block] ∧
    bc_state (blockchain b) = State_new.
Proof.
  assert (tree_blocks (chain fresh) !! hash genesis = Some genesis) as Hg.
  { simpl. rewrite singleton_tree. apply lookup_singleton_eq. }
  destruct (add_child_of_head known None fresh genesis first_block State_new)
    as (bc & _ & Hbc & (_ & Hmono & _ & _ & _ & Hh & Hs) & Ht);
    [apply fresh_inv|exact Hg|by right|reflexivity|exact EngineRuns.first_block_valid|].
  exists (NodeEngine_new bc). split_and!; [by split; [|apply map_Forall_empty]| |done].
  exists []. simpl. rewrite Hh. apply Hmono in Hg. eapply path_step; [done|done|exact Hg|].
  by apply path_bottom; [|left].
Qed.

Lemma nodes_converge_witness :
  ∃ b w w', goes_on (blockchain b) genesis [first_block] ∧
    sync_start node_b newcomer b = Ret w ∧ sync_rounds one_block node_a node_b 2 w = Ret w' ∧
    outstanding w' = [] ∧
    get_latest_block (blockchain (follower w')) = get_latest_block (blockchain b).
Proof.
  destruct server_exists as (b & Hb & Hgo & Hst).
  destruct (nodes_converge known None None one_block node_a node_b newcomer b genesis [first_block])
    as (w & w' & E & E' & Ho & Hl & _).
  - apply EngineRuns.e0_inv.
  - done.
  - done.
  - apply get_latest_block_tree. simpl. rewrite singleton_tree. apply lookup_singleton_eq.
  - done.
  - done.
  - rewrite Hst. econstructor; [exact EngineRuns.first_block_valid|constructor].
  - exists b, w, w'. exact (conj Hgo (conj E (conj E' (conj Ho Hl)))).
Defined.
End ConvergenceWitness.
