(* ===== verification/NodeCore.v ===== *)
(** * The engine of a running node and its storage

    What the two runtimes have in common once their tasks run: the node manager feeds
    events to the engine and hands its storage commands, in order, to the storage
    manager.  The storage then holds the last snapshot that was written, with its block,
    every snapshot that is loaded is one this node stored, and the engine takes whatever
    event comes next.  [HostNode] and [ErpNode] run this with their own network managers,
    channels and clocks. *)

From S2P Require Import Prelude.
From S2P Require Import Maps.
From S2P Require Import Crypto.
From S2P Require Import Models.
From S2P Require Import State.
From S2P Require Import StateCodec.
From S2P Require Import ChainCore.
From S2P Require Import Mempool.
From S2P Require Import Chain.
From S2P Require Import Messages.
From S2P Require Import Engine.
From S2P Require Import EngineSafety.
From S2P Require Import EngineSync.
From S2P Require Import EngineWitness.
From S2P Require Import Errors.
From S2P Require Import Runtime.
From S2P Require Import Storage.

(** ** The storage of a running node *)

Section store.
Context `{Target, Crypto, !CryptoLaws, !Postcard NetworkMessage}.
Context {S : Type} `{!Storage S, !Stops S} (view_of : S → view) (healthy : S → Prop).
Context `{!StorageLaws S view_of healthy}.
(** The block and the snapshot the storage holds when the node starts. *)
Context (o0 : option (Block * bytes)).
Implicit Types cmds : list StorageCommand.

(** The bytes of a state of the ledger. *)
Definition snapshot_of (bs : bytes) (st : State) : Prop := bs = to_bytes st ∧ state_sound st ∧ state_fits st.

Definition booted : RuntimeEvent := EvLatestSnapshotLoaded (fst <$> o0) (snd <$> o0).

(** What the storage manager sends. *)
Definition stored_event_ok (ev : RuntimeEvent) : Prop :=
  match ev with
  | EvLatestSnapshotLoaded _ _ => ev = booted
  | EvStorageLoaded _ (Some bs) => ∃ st, snapshot_of bs st
  | EvStorageLoaded _ None => True
  | _ => False
  end.

(** The blocks written so far. *)
Definition persisted cmds (b : Block) : Prop := StPersistBlock b ∈ cmds ∨ fst <$> o0 = Some b.

Definition latest_step (latest : option (bytes * bytes)) (c : StorageCommand) : option (bytes * bytes) :=
  match c with StPersistSnapshot h bs => Some (h, bs) | _ => latest end.

(** The snapshot written last, with the hash it is filed under. *)
Definition last_snapshot cmds : option (bytes * bytes) :=
  foldl latest_step ((λ '(b, bs), (hash b, bs)) <$> o0) cmds.

(** A snapshot that follows the block it belongs to. *)
Definition paired cmds (h bs : bytes) : Prop :=
  ∃ b st, persisted cmds b ∧ hash b = h ∧ snapshot_of bs st ∧ block_state_root b = compute_state_root st.

(** What the loads see after these commands. *)
Record view_ok cmds (v : view) : Prop := {
  view_blocks b : persisted cmds b →
    ∃ b', persisted cmds b' ∧ hash b' = hash b ∧ v_block v (hash b) = Ok (Some b');
  view_snapshots h bs : length h = 32%nat → v_snapshot v h = Ok (Some bs) → ∃ st, snapshot_of bs st;
  view_latest : v_latest v = fst <$> last_snapshot cmds;
  view_last h bs : last_snapshot cmds = Some (h, bs) → v_snapshot v h = Ok (Some bs) ∧ paired cmds h bs;
}.

Record store_inv cmds (s : S) : Prop := {
  store_healthy : healthy s;
  store_settled : settled s;
  store_view : view_ok cmds (view_of s);
}.

(** The commands an engine asks for, given the ones before. *)
Definition next_ok cmds (c : StorageCommand) : Prop :=
  match c with
  | StLoadLatestSnapshot => cmds = []
  | StPersistBlock _ => True
  | StPersistSnapshot h bs => paired cmds h bs
  | StLoadSnapshot h => length h = 32%nat
  end.

Lemma persisted_snoc cmds c b : persisted cmds b → persisted (cmds ++ [c]) b.
Proof. intros [|]; [left; set_solver|by right]. Qed.

Lemma paired_snoc cmds c h bs : paired cmds h bs → paired (cmds ++ [c]) h bs.
Proof. intros (b & st & Hb & ?). exists b, st. eauto using persisted_snoc. Qed.

Lemma last_snapshot_snoc cmds c : last_snapshot (cmds ++ [c]) = latest_step (last_snapshot cmds) c.
Proof. unfold last_snapshot. by rewrite foldl_app. Qed.

Lemma paired_length cmds h bs : paired cmds h bs → length h = 32%nat.
Proof. intros (b & st & _ & <- & _). apply length_hash. Qed.

Lemma view_ok_same cmds v w : same_view v w → view_ok cmds w → view_ok cmds v.
Proof.
  intros (Vb & Vs & Vl) [Hb Hs Hl Hp]. split.
  - intros b Hpb. rewrite Vb by apply length_hash. by apply Hb.
  - intros h bs Hh. rewrite Vs by done. by apply Hs.
  - by rewrite Vl.
  - intros h bs Hhb. destruct (Hp h bs Hhb) as [? Hq]. by rewrite Vs by by eapply paired_length.
Qed.

(** A command that writes no block and no snapshot. *)
Lemma view_ok_load cmds c v :
  view_ok cmds v → (∀ b, c ≠ StPersistBlock b) → (∀ h bs, c ≠ StPersistSnapshot h bs) → view_ok (cmds ++ [c]) v.
Proof.
  intros [Hb Hs Hl Hp] Hnb Hns.
  assert (last_snapshot (cmds ++ [c]) = last_snapshot cmds) as El.
  { rewrite last_snapshot_snoc. destruct c; naive_solver. }
  split; rewrite ?El; try done.
  - intros b Hpb. destruct (Hb b) as (b' & ? & ?); [|eauto using persisted_snoc].
    destruct Hpb as [[|Hin%list_elem_of_singleton]%elem_of_app|]; [by left| |by right]. naive_solver.
  - intros h bs Hhb. destruct (Hp h bs Hhb). eauto using paired_snoc.
Qed.

Lemma view_ok_block cmds b v : view_ok cmds v → view_ok (cmds ++ [StPersistBlock b]) (put_block b v).
Proof.
  intros [Hb Hs Hl Hp].
  assert (last_snapshot (cmds ++ [StPersistBlock b]) = last_snapshot cmds) as El by apply last_snapshot_snoc.
  split; rewrite ?El; try done.
  - intros c Hc. simpl. case_decide as E.
    + exists b. split_and!; [left; set_solver|done|done].
    + destruct (Hb c) as (c' & ? & ?); [|eauto using persisted_snoc].
      destruct Hc as [[|Hin%list_elem_of_singleton]%elem_of_app|]; [by left| |by right]. naive_solver.
  - intros h bs Hhb. destruct (Hp h bs Hhb) as [Hv Hq]. eauto using paired_snoc.
Qed.

Lemma view_ok_snapshot cmds h bs v :
  view_ok cmds v → paired cmds h bs →
  view_ok (cmds ++ [StPersistSnapshot h bs]) (put_latest h (put_snapshot h bs v)).
Proof.
  intros [Hb Hs Hl Hp] Hq.
  assert (last_snapshot (cmds ++ [StPersistSnapshot h bs]) = Some (h, bs)) as El by apply last_snapshot_snoc.
  split; rewrite ?El; try done.
  - intros c Hc. simpl. destruct (Hb c) as (c' & ? & ?); [|eauto using persisted_snoc].
    destruct Hc as [[|Hin%list_elem_of_singleton]%elem_of_app|]; [by left|done|by right].
  - intros h' bs' Hlen. simpl. case_decide; [|by apply Hs].
    intros [= <-]. destruct Hq as (b & st & _ & _ & ? & _). eauto.
  - intros h' bs' [= <- <-]. simpl. rewrite decide_True by done. eauto using paired_snoc.
Qed.

(** A snapshot that is stored before the pointer is moved to it: the latest is still the
    one before, or it is the same block's. *)
Lemma view_ok_half_snapshot cmds h bs v :
  view_ok cmds v → paired cmds h bs →
  view_ok cmds (put_snapshot h bs v) ∨ view_ok (cmds ++ [StPersistSnapshot h bs]) (put_snapshot h bs v).
Proof.
  intros Hv Hq. destruct (decide (v_latest v = Some h)) as [E|E].
  - right. eapply view_ok_same; [|by apply view_ok_snapshot]. by split_and!.
  - left. destruct Hv as [Hb Hs Hl Hp]. split; try done.
    + intros h' bs' Hlen. simpl. case_decide; [|by apply Hs].
      intros [= <-]. destruct Hq as (b & st & _ & _ & ? & _). eauto.
    + intros h' bs' El. destruct (Hp h' bs' El) as [Hv Hq']. split; [|done]. simpl.
      rewrite decide_False; [done|]. intros ->. rewrite Hl, El in E. done.
Qed.

(** Asked for the latest snapshot, the storage returns the one written last, with a
    block that has been written under its hash. *)
Definition loaded_latest cmds (o : option (Block * bytes)) : Prop :=
  match last_snapshot cmds with
  | None => o = None
  | Some (h, bs) => ∃ b, persisted cmds b ∧ hash b = h ∧ o = Some (b, bs)
  end.

Lemma latest_loaded cmds v o : view_ok cmds v → latest_is v o → loaded_latest cmds o.
Proof.
  intros [Hb Hs Hl Hp] Ho. unfold latest_is, loaded_latest in *. rewrite Hl in Ho.
  destruct (last_snapshot cmds) as [[h bs]|]; [|done]. simpl in Ho.
  destruct (Hp h bs eq_refl) as (Hv & b & st & Hpb & <- & _).
  destruct (Hb b Hpb) as (b' & Hpb' & Hhb & Hvb). exists b'. split_and!; [done|done|].
  by apply Ho; [apply length_hash|..].
Qed.

(** Before anything is written, that is the pair found at start-up. *)
Lemma loaded_first o : loaded_latest [] o → o = o0.
Proof.
  unfold loaded_latest, last_snapshot, persisted. simpl. destruct o0 as [[b0 bs]|]; simpl; [|done].
  by intros (b & [Hin|[= ->]] & _ & ->); [apply not_elem_of_nil in Hin|].
Qed.

Lemma store_step {E} (contract : ContractError → E) cmds c s s' evs :
  store_inv cmds s → next_ok cmds c → storage_round contract c s = (s', Ok evs) →
  store_inv (cmds ++ [c]) s' ∧ Forall stored_event_ok evs.
Proof.
  intros [Hh Hset Hi] Hc Hr. destruct c as [|b|h bs|h];
    apply map_err_round in Hr as (x & Hx & Hok); try (by intros ????; repeat case_match; intros [= <- <-]);
    destruct (Hok _ eq_refl) as (a & -> & Hev); clear Hok.
  - simpl in Hc. subst cmds. destruct (healthy_load_latest _ _ _ Hh Hx) as [Hh' Ho].
    assert (evs = [booted]) as ->.
    { apply (latest_loaded [] _ _ Hi), loaded_first in Ho. subst a. unfold booted.
      destruct o0 as [[b bs]|]; by injection Hev. }
    split; [|by apply Forall_singleton]. split; [done|by eapply load_latest_settled|].
    rewrite (load_latest_view _ _ _ Hx). by apply view_ok_load.
  - destruct a, (save_block_view _ _ _ _ Hx) as [_ Hv]. injection Hev as <-. split; [|constructor].
    pose proof (healthy_save_block b s Hh) as Hh'. rewrite Hx in Hh'.
    split; [done|by eapply save_block_settled|]. eapply view_ok_same; [by apply Hv|]. by apply view_ok_block.
  - destruct a, (save_snapshot_view _ _ _ _ _ (paired_length _ _ _ Hc) Hx) as [_ Hv]. injection Hev as <-.
    split; [|constructor]. pose proof (healthy_save_snapshot h bs s Hh) as Hh'. rewrite Hx in Hh'.
    split; [done|by eapply save_snapshot_settled|]. eapply view_ok_same; [by apply Hv|]. by apply view_ok_snapshot.
  - destruct (healthy_load_snapshot _ _ _ _ Hh Hx) as [Hh' Hs]. injection Hev as <-. split.
    + split; [done|by eapply load_snapshot_settled|]. rewrite (load_snapshot_view _ _ _ _ Hx). by apply view_ok_load.
    + apply Forall_singleton. destruct a as [bs|]; [|done]. by eapply view_snapshots.
Qed.

(** *** Stopping *)

(** Stopped between two commands, the storage keeps what they wrote. *)
Lemma store_stopped cmds s s' : store_inv cmds s → stopped s s' → store_inv cmds s'.
Proof.
  intros [Hh Hset Hi] Hst. destruct (stopped_ready _ _ Hst). split; [done..|]. by rewrite (settled_stopped _ _ Hset Hst).
Qed.

(** Stopped while it carries out a command, whatever operation it had come to or failed at,
    it has carried it out or not. *)
Lemma store_cut {E} (contract : ContractError → E) cmds c s s1 s2 r s3 :
  store_inv cmds s → next_ok cmds c → disturbed s s1 → storage_round contract c s1 = (s2, r) → stopped s2 s3 →
  store_inv cmds s3 ∨ store_inv (cmds ++ [c]) s3.
Proof.
  intros [Hh Hset Hi] Hc Hd Hr Hst. destruct (stopped_ready _ _ Hst) as [Hh3 Hset3].
  pose proof (disturbed_settled _ _ Hd Hset) as Hset1. rewrite <-(disturbed_view _ _ Hd) in Hi.
  assert (view_ok cmds (view_of s3) ∨ view_ok (cmds ++ [c]) (view_of s3)) as [|]; [|by left..|by right].
  destruct c as [|b|h bs|h];
    apply map_err_round in Hr as (x & Hx & _); try (by intros ????; repeat case_match; intros [= <- <-]).
  - left. rewrite (settled_stopped s2 s3), (load_latest_view _ _ _ Hx); [done|by eapply load_latest_settled|done].
  - destruct (save_block_stopped _ _ _ _ _ Hset1 Hx Hst) as [Hs|Hs]; [left|right]; eapply view_ok_same; try done.
    by apply view_ok_block.
  - destruct (save_snapshot_stopped _ _ _ _ _ _ (paired_length _ _ _ Hc) Hset1 Hx Hst) as [Hs|[Hs|Hs]].
    + left. by eapply view_ok_same.
    + destruct (view_ok_half_snapshot _ _ _ _ Hi Hc); [left|right]; by eapply view_ok_same.
    + right. eapply view_ok_same; [done|]. by apply view_ok_snapshot.
  - left. rewrite (settled_stopped s2 s3), (load_snapshot_view _ _ _ _ Hx); [done|by eapply load_snapshot_settled|done].
Qed.

(** A storage as a new process finds it answers. *)
Lemma store_answers {E} (contract : ContractError → E) cmds s0 s :
  store_inv cmds s → stopped s0 s → ∃ o, loaded_latest cmds o ∧
    storage_round contract StLoadLatestSnapshot s = (s, Ok [EvLatestSnapshotLoaded (fst <$> o) (snd <$> o)]).
Proof.
  intros [Hh _ [Hb Hs Hl Hp]] Hst. unfold storage_round, M_bind, M_map_err, loaded_latest.
  destruct (last_snapshot cmds) as [[h bs]|]; simpl in Hl.
  - destruct (Hp h bs eq_refl) as (Hv & b & st & Hpb & <- & _).
    destruct (Hb b Hpb) as (b' & Hpb' & Hhb & Hvb). exists (Some (b', bs)). split; [by exists b'|].
    by rewrite (stopped_load_latest _ _ _ _ _ Hst Hl (length_hash b) Hvb Hv).
  - exists None. split; [done|]. by rewrite (stopped_load_none _ _ Hst Hl).
Qed.
End store.

(** The storage of a node that is stopped is one to start from. *)
Lemma store_restarts `{Target, Crypto, !CryptoLaws, !Postcard NetworkMessage} {S : Type} `{!Storage S, !Stops S}
    (view_of : S → view) (healthy : S → Prop) o0 cmds (s : S) b bs st :
  store_inv view_of healthy o0 cmds s → last_snapshot o0 cmds = Some (hash b, bs) →
  v_block (view_of s) (hash b) = Ok (Some b) → snapshot_of bs st → block_state_root b = compute_state_root st →
  store_inv view_of healthy (Some (b, bs)) [] s.
Proof.
  intros [Hh Hset [Hb Hs Hl Hp]] El Hv Hsn Hr. destruct (Hp _ _ El) as [Hvs _]. split; [done..|]. split; try done.
  - intros c [Hc|[= ->]]; [by apply not_elem_of_nil in Hc|]. exists c. split_and!; [by right|done|done].
  - rewrite Hl, El. done.
  - intros h bs' [= <- <-]. split; [done|]. exists b, st. split_and!; try done. by right.
Qed.

(** ** The engine *)

Section core.
Context `{Target, Crypto, !CryptoLaws, !Postcard NetworkMessage, !PostcardLaws NetworkMessage}.
Context {S : Type} `{!Storage S, !Stops S} (view_of : S → view) (healthy : S → Prop).
Context `{!StorageLaws S view_of healthy}.
Context (U : Block → Prop) (missing : option (bytes * Z)) `{!Delivered U missing}.
Context (o0 : option (Block * bytes)) (e0 : NodeEngine).

(** The commands of an engine come in an order the storage can serve. *)
Lemma persist_ok_before acts t1 h bs t2 :
  persist_ok acts → omap storage_command acts = t1 ++ StPersistSnapshot h bs :: t2 →
  ∃ b st, StPersistBlock b ∈ t1 ∧ hash b = h ∧ bs = to_bytes st ∧ state_sound st ∧
    block_state_root b = compute_state_root st.
Proof.
  intros Hp. revert t1. induction Hp as [|a l Ha Hp IH|b st l Hst Hr Hp IH]; intros t1 E; simpl in E.
  - by destruct t1.
  - destruct (storage_command a) as [c|] eqn:Hc; [|by apply IH].
    destruct t1 as [|c' t1]; injection E as -> E; [by destruct a|].
    destruct (IH t1 E) as (b & st & Hin & ?). exists b, st. split; [by right|done].
  - destruct t1 as [|c t1]; [done|]. injection E as <- E. destruct t1 as [|c t1]; simplify_eq/=.
    + exists b, st. split_and!; try done. left.
    + destruct (IH t1) as (b' & st' & Hin & ?); [done|]. exists b', st'. split; [by do 2 right|done].
Qed.

(** No buffer of a process is longer than [isize::MAX]. *)
Definition small_snapshots (acts : list NodeAction) : Prop :=
  ∀ h bs, PersistSnapshot h bs ∈ acts → Z.of_nat (length bs) ≤ isize_max.

Lemma omap_storage_elem (acts : list NodeAction) c :
  c ∈ omap storage_command acts → ∃ a, a ∈ acts ∧ storage_command a = Some c.
Proof. by intros ?%list_elem_of_omap. Qed.

Lemma commands_next acts taken c rest :
  0 < pointer_width ≤ 64 → acts_ok U acts → small_snapshots acts →
  StLoadLatestSnapshot :: omap storage_command acts = taken ++ c :: rest → next_ok o0 taken c.
Proof.
  intros Hw [Hp Hk] Hsm E. destruct taken as [|c' taken]; injection E as <- E; [done|].
  assert (c ∈ omap storage_command acts) as (a & Ha & Hc)%omap_storage_elem by (rewrite E; set_solver).
  rewrite Forall_forall in Hk. specialize (Hk a Ha).
  destruct c as [|b|h bs|h]; [by destruct a|done| |by destruct a; simplify_eq/=].
  destruct (persist_ok_before _ _ _ _ _ Hp E) as (b & st & Hb & Hh & -> & Hst & Hr).
  exists b, st. split_and!; try done; [left; by right|split_and!; [done..|]].
  apply state_fits_length; [done|]. destruct a; simplify_eq/=. by eapply Hsm.
Qed.

(** *** The engine *)

(** The blocks that frames carry are delivered blocks. *)
Definition frame_known (ev : RuntimeEvent) : Prop :=
  match ev with
  | EvFrameReceived _ f => ∀ m, network_message_from_bytes f = Ok m → Forall U (message_blocks m)
  | _ => True
  end.

(** The peer an event is about. *)
Definition event_peer (ev : RuntimeEvent) : option bytes :=
  match ev with
  | EvPeerConnected p | EvPeerDisconnected p | EvFrameReceived p _ => Some p
  | _ => None
  end.

(** What the managers of a node send: events about peers, what the storage holds, ticks. *)
Definition node_event_ok (ev : RuntimeEvent) : Prop :=
  is_Some (event_peer ev) ∨ stored_event_ok o0 ev ∨ ∃ now_ms, ev = EvTick now_ms.

(** A first start, with nothing stored, or a restart from a block and its state. *)
Definition boot_ok : Prop :=
  parked_inv U (pending_blocks e0) ∧
  match o0 with
  | None => engine_inv U missing e0
  | Some (b, bs) => U b ∧
      (block_height b = 0 ∧ missing = None ∨ missing = Some (block_previous_hash b, block_height b)) ∧
      ∃ st, snapshot_of bs st ∧ block_state_root b = compute_state_root st
  end.

(** The engine can take an event: the start-up snapshot, or any once it is set up. *)
Definition can_take (e : NodeEngine) (ev : RuntimeEvent) : Prop :=
  engine_inv U missing e ∨ is_Some o0 ∧ ev = booted o0 ∧ parked_inv U (pending_blocks e).

Lemma restore_boot e :
  0 < pointer_width ≤ 64 → boot_ok → can_take e (booted o0) →
  ∃ e' acts, handle_event e (booted o0) = Ret (e', acts) ∧ engine_inv U missing e' ∧ acts_ok U acts.
Proof.
  intros Hw [_ Hb] Hr. unfold can_take, booted in *. destruct o0 as [[b bs]|] eqn:Eo; simpl.
  - destruct Hb as (HU & Hm & st & (-> & Hst & Hfit) & Hroot).
    assert (parked_inv U (pending_blocks e)) as Hp by (destruct Hr as [[]|(_ & _ & ?)]; done).
    destruct (restart_restores_head U missing e b st Hw Hst Hfit HU Hroot Hp Hm)
      as (e' & acts & E & _ & _ & _ & Hi).
    exists e', acts. split_and!; [exact E|done|]. unfold restore_latest_snapshot in E.
    apply bind_Ret in E as ([st'|err] & _ & E); [case_bool_decide|]; injection E as _ <-;
      apply acts_ok_plain; by repeat constructor.
  - destruct Hr as [Hi|[[? [=]] _]]. eexists _, _. split_and!; [done|done|].
    apply acts_ok_plain. by repeat constructor.
Qed.

Lemma step_ok e i :
  engine_inv U missing e → input_ok U i →
  ∃ e' acts, step e i = Ret (e', acts) ∧ engine_inv U missing e' ∧ acts_ok U acts.
Proof.
  intros He Hi. destruct (step_spec U missing e i He Hi) as (e' & acts & ? & ? & ? & _). eauto.
Qed.

Lemma handle_event_ok e ev :
  0 < pointer_width ≤ 64 → boot_ok → can_take e ev → node_event_ok ev → frame_known ev →
  ∃ e' acts, handle_event e ev = Ret (e', acts) ∧ engine_inv U missing e' ∧ acts_ok U acts.
Proof.
  intros Hw Hb Hr Hev Hf.
  assert (stored_event_ok o0 ev → (∃ b bs, ev = EvLatestSnapshotLoaded b bs) → ev = booted o0) as Hboot.
  { by intros Hst (b & bs & ->). }
  destruct ev as [n|p|p|p f|h bs|b bs].
  6: { destruct Hev as [[? [=]]|[Hst|[? [=]]]]. rewrite Hboot by eauto. apply restore_boot; [done..|].
       by rewrite <-Hboot by eauto. }
  all: destruct Hr as [He|(_ & [=] & _)].
  all: apply (step_ok e _ He); try done.
  destruct bs as [bs|]; [|done].
  destruct Hev as [[? [=]]|[(st & -> & [Hwf Hsup] & Hfit)|[? [=]]]]. exists (Ok st). split.
  - rewrite <-(app_nil_r (to_bytes st)). by apply state_from_to_bytes.
  - by intros st' [= <-].
Qed.

(** *** Runs *)

(** The start-up snapshot, if there is one, is the first event the engine handles. *)
Definition restored_first (tr : list label) : Prop :=
  is_Some o0 → ∀ ev, head (handled tr) = Some ev → ev = booted o0.

(** What a run relies on: the blocks that peers send, and the memory of the process. *)
Record run_ok (tr : list label) : Prop := {
  run_frames : Forall frame_known (posted tr);
  run_small : small_snapshots (emitted tr);
  run_restored : restored_first tr;
}.

Lemma head_app {A} (l k : list A) x : head l = Some x → head (l ++ k) = Some x.
Proof. by destruct l. Qed.

Lemma run_ok_snoc tr l : run_ok (tr ++ [l]) → run_ok tr.
Proof.
  intros [Hf Hs Hr]. unfold restored_first, small_snapshots, posted, emitted, handled in *.
  rewrite !omap_app, flat_map_app in *. split.
  - by apply Forall_app in Hf as [? _].
  - intros h bs Hin. apply (Hs h bs). by apply elem_of_app; left.
  - intros Ho ev Hev. apply Hr; [done|]. by apply head_app.
Qed.

(** What a label adds to the history. *)
Lemma label_adds tr l :
  posted (tr ++ [l]) = posted tr ++ posted [l] ∧ handled (tr ++ [l]) = handled tr ++ handled [l] ∧
  emitted (tr ++ [l]) = emitted tr ++ emitted [l] ∧
  storage_taken (tr ++ [l]) = storage_taken tr ++ storage_taken [l].
Proof. unfold posted, handled, emitted, storage_taken. by rewrite !omap_app, flat_map_app. Qed.

(** A step that posts nothing. *)
Lemma posted_same tr l : (∀ ev, l ≠ LPost ev) → posted (tr ++ [l]) = posted tr.
Proof.
  intros Hl. destruct (label_adds tr l) as (-> & _). destruct l; cbn; rewrite ?app_nil_r; try done. by destruct (Hl ev).
Qed.

Lemma posted_more tr (P : RuntimeEvent → Prop) ev : Forall P (posted tr) → P ev → Forall P (posted (tr ++ [LPost ev])).
Proof. intros. destruct (label_adds tr (LPost ev)) as (-> & _). cbn. apply Forall_app. by rewrite Forall_singleton. Qed.

Lemma stored_no_peer ev : stored_event_ok o0 ev → ¬ is_Some (event_peer ev).
Proof. destruct ev; simpl; intros Hs [? [=]]; done. Qed.

(** What holds at every point of a run with the history [tr]: the events in the queue of
    the node manager, the engine, the actions it has still to carry out, the queue of the
    storage manager, the events it has still to send, and the storage. *)
Record core_inv (tr : list label) (events : list RuntimeEvent) (e : NodeEngine) (todo : list NodeAction)
    (commands : list StorageCommand) (loaded : list RuntimeEvent) (st : S) : Prop := {
  core_run : run_events e0 (handled tr) = Ret (e, emitted tr);
  core_events : posted tr = handled tr ++ events;
  core_commands : StLoadLatestSnapshot :: omap storage_command (emitted tr) =
    storage_taken tr ++ commands ++ omap storage_command todo;
  core_posted : Forall node_event_ok (posted tr);
  core_loaded : Forall (stored_event_ok o0) loaded;
  core_store : store_inv view_of healthy o0 (storage_taken tr) st;
  core_engine : (is_Some o0 ∧ handled tr = [] ∧ e = e0) ∨ engine_inv U missing e;
  core_acts : acts_ok U (emitted tr);
}.

(** Rewrites the history of one more step and splits the invariant. *)
Ltac one_more_label :=
  match goal with
  | |- core_inv (?tr ++ [?l]) _ _ _ _ _ _ =>
      let Hp := fresh in let Hh := fresh in let He := fresh in let Hs := fresh in
      destruct (label_adds tr l) as (Hp & Hh & He & Hs); cbn in Hp, Hh, He, Hs;
      split; rewrite ?Hp, ?Hh, ?He, ?Hs, ?app_nil_r; try done
  end.

Lemma core_start st :
  boot_ok → store_inv view_of healthy o0 [] st → core_inv [] [] e0 [] [StLoadLatestSnapshot] [] st.
Proof.
  intros [_ Hb] Hs. split; try done; [|by apply acts_ok_plain]. destruct o0; [left|by right]. eauto.
Qed.

(** The next event of the engine is one it can take. *)
Lemma core_next tr ev events e todo cs ld st :
  0 < pointer_width ≤ 64 → boot_ok → core_inv tr (ev :: events) e todo cs ld st → run_ok tr →
  (handled tr = [] → is_Some o0 → ev = booted o0) →
  ∃ e' acts, handle_event e ev = Ret (e', acts) ∧ engine_inv U missing e' ∧ acts_ok U acts.
Proof.
  intros Hw Hb Hi Hrun Hfirst.
  assert (ev ∈ posted tr) as Hev by (rewrite (core_events _ _ _ _ _ _ _ Hi); set_solver).
  apply handle_event_ok; [done|done| | |].
  - destruct (core_engine _ _ _ _ _ _ _ Hi) as [(Ho & Hh & ->)|?]; [right|by left].
    split_and!; [done|by apply Hfirst|apply Hb].
  - exact (proj1 (Forall_forall _ _) (core_posted _ _ _ _ _ _ _ Hi) ev Hev).
  - exact (proj1 (Forall_forall _ _) (run_frames _ Hrun) ev Hev).
Qed.

(** The node manager takes an event. *)
Lemma core_handle tr ev events e e' acts cs ld st :
  0 < pointer_width ≤ 64 → boot_ok → core_inv tr (ev :: events) e [] cs ld st →
  run_ok (tr ++ [LHandle ev acts]) → handle_event e ev = Ret (e', acts) →
  core_inv (tr ++ [LHandle ev acts]) events e' acts cs ld st.
Proof.
  intros Hw Hb Hi Hrun Hh.
  destruct (core_next tr ev events e [] cs ld st) as (e1 & a1 & E & Hinv & Ha); [done..|by eapply run_ok_snoc| |].
  { intros Hn Ho. apply (run_restored _ Hrun Ho). destruct (label_adds tr (LHandle ev acts)) as (_ & -> & _).
    by rewrite Hn. }
  rewrite E in Hh. injection Hh as -> ->. destruct Hi as [Hr Hev Hc Hp Hl Hst _ Hacts]. one_more_label.
  - by eapply run_events_snoc.
  - by rewrite Hev, <-app_assoc.
  - cbn [omap list_omap] in Hc. rewrite app_nil_r in Hc. by rewrite omap_app, app_comm_cons, Hc, <-app_assoc.
  - by right.
  - by apply acts_ok_app.
Qed.

(** It carries out an action. *)
Lemma core_action tr events e a todo cs cs' ld st :
  core_inv tr events e (a :: todo) cs ld st → cs' = cs ++ option_list (storage_command a) →
  core_inv (tr ++ [LAction a]) events e todo cs' ld st.
Proof.
  intros [Hr Hev Hc Hp Hl Hst He Hacts] ->. one_more_label.
  rewrite Hc. cbn [omap list_omap]. destruct (storage_command a); simpl; by rewrite <-!app_assoc.
Qed.

Lemma action_storage {E} (ne se we : E) out a out' :
  handle_action ne se we out a = Ready (Ok out') →
  ch_queue (storage_tx out') = ch_queue (storage_tx out) ++ option_list (storage_command a).
Proof.
  destruct out as [n s w]. unfold handle_action.
  destruct a; unfold send_network, send_storage, send_wake; simpl; try (intros [= <-]; by rewrite app_nil_r);
    match goal with |- context [ch_send ?c ?x] => destruct (ch_send c x) as [[c'|]|] eqn:Es end;
    simpl; try done; intros [= <-]; simpl; apply ch_send_Ok in Es as (_ & _ & ->); by rewrite ?app_nil_r.
Qed.

(** A manager sends an event. *)
Lemma core_post tr events ev e todo cs ld ld' st :
  core_inv tr events e todo cs ld st → node_event_ok ev → Forall (stored_event_ok o0) ld' →
  core_inv (tr ++ [LPost ev]) (events ++ [ev]) e todo cs ld' st.
Proof.
  intros [Hr Hev Hc Hp Hl Hst He Hacts] Hok Hld. one_more_label.
  - by rewrite Hev, app_assoc.
  - apply Forall_app. by rewrite Forall_singleton.
Qed.

(** The storage manager carries out a command. *)
Lemma core_storage {E} (contract : ContractError → E) tr events e todo c cs evs st st' :
  0 < pointer_width ≤ 64 → run_ok tr → core_inv tr events e todo (c :: cs) [] st →
  storage_round contract c st = (st', Ok evs) →
  core_inv (tr ++ [LStorage c]) events e todo cs evs st'.
Proof.
  intros Hw Hrun [Hr Hev Hc Hp Hl Hst He Hacts] Hround.
  assert (next_ok o0 (storage_taken tr) c) as Hnext.
  { eapply commands_next; [done|exact Hacts|apply Hrun|exact Hc]. }
  destruct (store_step view_of healthy o0 contract _ _ _ _ _ Hst Hnext Hround). one_more_label.
  by rewrite Hc, <-app_assoc.
Qed.

(** Anything else leaves all this as it is. *)
Definition other_label (l : label) : bool :=
  match l with LNetwork _ | LWake _ | LWork => true | _ => false end.

Lemma core_other tr l events e todo cs ld st :
  core_inv tr events e todo cs ld st → other_label l = true → core_inv (tr ++ [l]) events e todo cs ld st.
Proof. intros [Hr Hev Hc Hp Hl Hst He Hacts] Ho. destruct l; try done; one_more_label. Qed.

(** ** Stopping and starting again *)

Lemma persisted_known tr events e todo cs ld st cmds b :
  boot_ok → core_inv tr events e todo cs ld st →
  cmds `prefix_of` StLoadLatestSnapshot :: omap storage_command (emitted tr) → persisted o0 cmds b → U b.
Proof.
  intros [_ Hb] Hi [rest Hcmds] [Hin|Ho].
  - assert (StPersistBlock b ∈ StLoadLatestSnapshot :: omap storage_command (emitted tr)) as Hc
      by (rewrite Hcmds; set_solver).
    apply elem_of_cons in Hc as [|(a & Ha & Hc)%omap_storage_elem]; [done|].
    destruct (core_acts _ _ _ _ _ _ _ Hi) as [_ Hk]. rewrite Forall_forall in Hk. specialize (Hk a Ha).
    by destruct a; simplify_eq/=.
  - destruct o0 as [[b0 bs]|]; simplify_eq/=. by destruct Hb.
Qed.

Lemma same_hash_same_root b1 b2 : U b1 → U b2 → hash b1 = hash b2 → block_state_root b1 = block_state_root b2.
Proof.
  intros Hu1 Hu2 Hh. pose proof (delivered_no_collision b1 b2 Hu1 Hu2 Hh) as E.
  destruct b1, b2; simpl in *. by injection E.
Qed.

(** A storage with the latest block and snapshot [o] from which a node starts again. *)
Record starts_again {E} (contract : ContractError → E) (o : option (Block * bytes)) (st : S) : Prop := {
  again_store : store_inv view_of healthy o [] st;
  again_loads : storage_round contract StLoadLatestSnapshot st = (st, Ok [booted o]);
  again_restores b bs : o = Some (b, bs) → ∃ s, bs = to_bytes s ∧
    ∀ e, ∃ e' acts, handle_event e (booted o) = Ret (e', acts) ∧
      get_latest_block (blockchain e') = Ret b ∧ bc_state (blockchain e') = s;
}.

(** The block and the snapshot that the last of these commands wrote. *)
Definition wrote_last (cmds : list StorageCommand) (o : option (Block * bytes)) : Prop :=
  (λ '(b, bs), (hash b, bs)) <$> o = last_snapshot o0 cmds.

Lemma store_durable {E} (contract : ContractError → E) cmds s0 st :
  0 < pointer_width ≤ 64 → (∀ b, persisted o0 cmds b → U b) → store_inv view_of healthy o0 cmds st →
  stopped s0 st → ∃ o, wrote_last cmds o ∧ starts_again contract o st.
Proof.
  intros Hw HU Hst Hstop. pose proof Hst as [Hh Hset [Hbl Hsn Hl Hla]]. unfold wrote_last.
  destruct (last_snapshot o0 cmds) as [[h bs]|] eqn:El.
  - destruct (Hla h bs eq_refl) as (Hv & b1 & s & Hp1 & <- & Hsnap & Hr1).
    destruct (Hbl b1 Hp1) as (b & Hp & Hhb & Hvb).
    assert (block_state_root b = compute_state_root s) as Hrb.
    { rewrite <-Hr1. by apply same_hash_same_root; [apply HU..|]. }
    rewrite <-Hhb in *. exists (Some (b, bs)).
    assert (store_inv view_of healthy (Some (b, bs)) [] st) as Hre by by eapply store_restarts.
    destruct (store_answers view_of healthy (Some (b, bs)) contract [] s0 st Hre Hstop) as (o & ->%loaded_first & Hload).
    split; [done|]. split; [done|done|]. intros ?? [= <- <-].
    exists s. destruct Hsnap as (-> & [Hwf _] & Hfit). split; [done|]. intros e1. by apply restore_saved.
  - exists None. assert (store_inv view_of healthy None [] st) as Hre.
    { split; [done..|]. split; try done. by intros b [Hin%not_elem_of_nil|]. }
    destruct (store_answers view_of healthy None contract [] s0 st Hre Hstop) as (o & ->%loaded_first & Hload).
    split; [done|]. split; [done|done|by intros ??].
Qed.

(** What survives of a node that has carried out the commands [taken], has the commands [cs]
    in its queue and the storage [st]: stopped now, or while it carries out the next one. *)
Record survives {E} (contract : ContractError → E) (taken cs : list StorageCommand) (st : S) : Prop := {
  survives_between st' : stopped st st' → ∃ o, wrote_last taken o ∧ starts_again contract o st';
  survives_within c cs' st1 st2 r st' :
    cs = c :: cs' → disturbed st st1 → storage_round contract c st1 = (st2, r) → stopped st2 st' →
    ∃ o, (wrote_last taken o ∨ wrote_last (taken ++ [c]) o) ∧ starts_again contract o st';
}.

Lemma core_durable {E} (contract : ContractError → E) tr events e todo cs ld st :
  0 < pointer_width ≤ 64 → boot_ok → run_ok tr → core_inv tr events e todo cs ld st →
  storage_taken tr `prefix_of` StLoadLatestSnapshot :: omap storage_command (emitted tr) ∧
  survives contract (storage_taken tr) cs st.
Proof.
  intros Hw Hb Hrun Hi. pose proof (core_commands _ _ _ _ _ _ _ Hi) as Hc.
  assert (storage_taken tr `prefix_of` StLoadLatestSnapshot :: omap storage_command (emitted tr)) as Hpre
    by (rewrite Hc; by eexists).
  pose proof (core_store _ _ _ _ _ _ _ Hi) as Hst. split; [done|]. split.
  - intros st' Hstop. eapply store_durable; [done| |by eapply store_stopped|exact Hstop].
    intros b. by eapply persisted_known.
  - intros c cs' st1 st2 r st' -> Hd Hr Hstop.
    assert (storage_taken tr ++ [c] `prefix_of` StLoadLatestSnapshot :: omap storage_command (emitted tr)) as Hpre'.
    { rewrite Hc. exists (cs' ++ omap storage_command todo). by rewrite <-!app_assoc. }
    assert (next_ok o0 (storage_taken tr) c) as Hn.
    { eapply commands_next; [done|apply Hi|apply Hrun|exact Hc]. }
    destruct (store_cut view_of healthy o0 contract _ _ _ _ _ _ _ Hst Hn Hd Hr Hstop) as [Hs|Hs];
      (eapply (store_durable contract) in Hs as (o & Ho & Ha);
        [exists o; auto|done|intros b; by eapply persisted_known|exact Hstop]).
Qed.
End core.
