(* ===== verification/HostNode.v ===== *)
(** * The whole host node

    [run] of rp-runtime/src/main.rs joins four tasks: the node manager with its engine,
    the network manager, the storage manager and the wake loop.  Runtime.v models the
    node manager and the channels and lets the other three send what they like; here
    they are the managers of HostNetwork.v and Storage.v and the wake loop, and what
    Runtime.v and EngineSafety.v ask of the events is discharged: every event about a
    peer comes from a node that has authenticated itself, every snapshot that is loaded
    was stored by this node, and so the engine never panics, and the storage always
    holds the last block whose snapshot was written. *)

From S2P Require Import Prelude.
From S2P Require Import Maps.
From S2P Require Import Crypto.
From S2P Require Import Models.
From S2P Require Import State.
From S2P Require Import StateCodec.
From S2P Require Import ChainCore.
From S2P Require Import Mempool.
From S2P Require Import Chain.
From S2P Require Import Messages.
From S2P Require Import Engine.
From S2P Require Import EngineSafety.
From S2P Require Import EngineSync.
From S2P Require Import EngineWitness.
From S2P Require Import Errors.
From S2P Require Import Framing.
From S2P Require Import Identity.
From S2P Require Import NodeHello.
From S2P Require Import Runtime.
From S2P Require Import Storage.
From S2P Require Import HostNetwork.
From S2P Require Import NodeCore.

(** ** The node *)

Section node.
Context `{Target, Crypto, !Postcard NetworkMessage, !Postcard NodeHelloTranscript, HashOrder}.
Context {S : Type} `{!Storage S} (cfg : HostConfig).

Record HostNode : Type := mkHostNode {
  hn_rt : Runtime;
  hn_net : NetworkManager;
  hn_store : S;
  hn_tick : option Z;
}.

(** The steps of the node manager, and the sending of an event by a manager. *)
Definition manager_label (l : label) : bool :=
  match l with LHandle _ _ | LAction _ | LPost _ => true | _ => false end.

(** The events that the network manager sends while it handles an input. *)
Definition new_events (net net' : NetworkManager) : list RuntimeEvent :=
  drop (length (sent_events net)) (sent_events net').

(** One step, with the input it gives to the network manager.  A task that fails ends
    [try_join!] and with it the process: there is no step for it. *)
Inductive hn_step : HostNode → label → list (Env * NetworkInput) → HostNode → Prop :=
| hn_manager rt l rt' net st tk :
    manager_label l = true → rt_step rt l rt' →
    hn_step (mkHostNode rt net st tk) l [] (mkHostNode rt' net st tk)
(** [command = self.network_rx.recv()] in the loop of the network manager *)
| hn_command e todo events c n n' s w sb wb env net net' st tk :
    ch_pop n = Some (c, n') → network_step cfg env net (InCommand c) = Ret (net', Ok tt) →
    hn_step (mkHostNode (mkRuntime e todo events (mkOutboxes n s w) (mkBusy [] sb wb)) net st tk)
      (LNetwork c) [(env, InCommand c)]
      (mkHostNode (mkRuntime e todo events (mkOutboxes n' s w) (mkBusy (new_events net net') sb wb)) net' st tk)
(** [event = self.swarm.select_next_some()] *)
| hn_swarm e todo events out ev sb wb env net net' st tk :
    network_step cfg env net (InEvent ev) = Ret (net', Ok tt) →
    hn_step (mkHostNode (mkRuntime e todo events out (mkBusy [] sb wb)) net st tk)
      LWork [(env, InEvent ev)]
      (mkHostNode (mkRuntime e todo events out (mkBusy (new_events net net') sb wb)) net' st tk)
| hn_storage e todo events c n s s' w evs nb wb net st st' tk :
    ch_pop s = Some (c, s') → host_storage_round c st = (st', Ok evs) →
    hn_step (mkHostNode (mkRuntime e todo events (mkOutboxes n s w) (mkBusy nb [] wb)) net st tk)
      (LStorage c) []
      (mkHostNode (mkRuntime e todo events (mkOutboxes n s' w) (mkBusy nb evs wb)) net st' tk)
(** the wake loop takes a command, or its timer fires *)
| hn_wake e todo events c n s w w' nb sb net st now tk tk' evs :
    ch_pop w = Some (c, w') → host_wake_round tk false (Some c) now = (tk', evs) →
    hn_step (mkHostNode (mkRuntime e todo events (mkOutboxes n s w) (mkBusy nb sb [])) net st tk)
      (LWake c) []
      (mkHostNode (mkRuntime e todo events (mkOutboxes n s w') (mkBusy nb sb evs)) net st tk')
| hn_timer e todo events out nb sb net st now tk tk' ev :
    host_wake_round tk true None now = (tk', [ev]) →
    hn_step (mkHostNode (mkRuntime e todo events out (mkBusy nb sb [])) net st tk)
      LWork []
      (mkHostNode (mkRuntime e todo events out (mkBusy nb sb [ev])) net st tk').

Inductive hn_run : HostNode → list label → list (Env * NetworkInput) → HostNode → Prop :=
| hn_run_nil n : hn_run n [] [] n
| hn_run_snoc n tr hist n1 l ins n2 :
    hn_run n tr hist n1 → hn_step n1 l ins n2 → hn_run n (tr ++ [l]) (hist ++ ins) n2.

(** What [run] sets up: the channels, the managers, and the first tick. *)
Definition host_node_start (e : NodeEngine) (store : S) (now_ms : Z) : HostNode :=
  mkHostNode (host_start e) (network_start cfg) store (Some (startup_heartbeat_deadline_ms now_ms)).

(** The node is a runtime in the sense of Runtime.v. *)
Lemma hn_step_rt n l ins n' : hn_step n l ins n' → rt_step (hn_rt n) l (hn_rt n').
Proof. destruct 1; simpl; [done|by constructor..]. Qed.
End node.

(** ** The invariant of the node *)

Section invariant.
Context `{Target, Crypto, !CryptoLaws, !Postcard NetworkMessage, !PostcardLaws NetworkMessage}.
Context `{!Postcard NodeHelloTranscript, HashOrder}.
Context {S : Type} `{!Storage S, !Stops S} (view_of : S → view) (healthy : S → Prop).
Context `{!StorageLaws S view_of healthy}.
Context (U : Block → Prop) (missing : option (bytes * Z)) `{!Delivered U missing}.
Context (cfg : HostConfig) (o0 : option (Block * bytes)) (e0 : NodeEngine).
Implicit Types hist : list (Env * NetworkInput).

Record node_inv (tr : list label) hist (n : HostNode) : Prop := {
  node_core : core_inv view_of healthy U missing o0 e0 tr (ch_queue (rt_events (hn_rt n))) (rt_engine (hn_rt n))
    (rt_todo (hn_rt n)) (ch_queue (storage_tx (rt_out (hn_rt n)))) (storage_busy (rt_busy (hn_rt n))) (hn_store n);
  node_network : manager_ok hist (hn_net n);
  node_network_busy : Forall (event_ok hist) (network_busy (rt_busy (hn_rt n)));
  node_wake_busy : Forall (λ ev, ∃ now_ms, ev = EvTick now_ms) (wake_busy (rt_busy (hn_rt n)));
  node_peers : Forall (λ ev, is_Some (event_peer ev) → event_ok hist ev) (posted tr);
}.

Lemma event_ok_peer hist ev : event_ok hist ev → is_Some (event_peer ev).
Proof. destruct ev; simpl; by eauto. Qed.

(** A step of the network manager. *)
Lemma node_network_step tr hist n env i net' :
  node_inv tr hist n → network_step cfg env (hn_net n) i = Ret (net', Ok tt) →
  manager_ok (hist ++ [(env, i)]) net' ∧
  Forall (event_ok (hist ++ [(env, i)])) (new_events (hn_net n) net').
Proof.
  intros Hi Hs. apply (network_step_ok cfg (hist ++ [(env, i)])) in Hs;
    [|set_solver|by apply manager_ok_app, Hi]. split; [done|]. apply Forall_drop, Hs.
Qed.

Lemma wake_sends_ticks tk b c now tk' evs :
  host_wake_round tk b c now = (tk', evs) → Forall (λ ev : RuntimeEvent, ∃ now_ms, ev = EvTick now_ms) evs.
Proof.
  unfold host_wake_round. intros E. repeat (case_match; simplify_eq/=); repeat constructor; eauto.
Qed.

Lemma node_manager_step tr hist rt l rt' net st tk :
  0 < pointer_width ≤ 64 → boot_ok U missing o0 e0 → node_inv tr hist (mkHostNode rt net st tk) →
  run_ok U o0 (tr ++ [l]) → manager_label l = true → rt_step rt l rt' →
  node_inv (tr ++ [l]) hist (mkHostNode rt' net st tk).
Proof.
  intros Hw Hb [Hc Hnet Hnb Hwb Hpo] Hrun Hl Hstep.
  destruct Hstep; try done; cbn in Hc, Hnb, Hwb; try apply Forall_cons in Hnb as [Hev ?];
    try apply Forall_cons in Hwb as [[now ->] ?];
    repeat match goal with
    | Hp : ch_pop _ = Some _ |- _ => apply ch_pop_Some in Hp as (Hq & _ & _); rewrite Hq in Hc
    | Hs : ch_send _ _ = _ |- _ => apply ch_send_Ok in Hs as (_ & _ & ->)
    end; split; cbn; rewrite ?posted_same by done; try done.
  - by eapply core_handle.
  - eapply core_action; [done|]. by eapply action_storage.
  - eapply core_post; [done|left; by eapply event_ok_peer|apply Hc].
  - apply posted_more; [done|]. by intros _.
  - pose proof (core_loaded _ _ _ _ _ _ _ _ _ _ _ _ _ Hc) as [Hev ?]%Forall_cons.
    eapply core_post; [done|by right; left|done].
  - pose proof (core_loaded _ _ _ _ _ _ _ _ _ _ _ _ _ Hc) as [Hev ?]%Forall_cons.
    apply posted_more; [done|]. by intros []%(stored_no_peer o0).
  - eapply core_post; [done|right; right; eauto|apply Hc].
  - apply posted_more; [done|]. by intros [? [=]].
Qed.

Lemma node_inv_step tr hist n l ins n' :
  0 < pointer_width ≤ 64 → boot_ok U missing o0 e0 → node_inv tr hist n → run_ok U o0 (tr ++ [l]) →
  hn_step cfg n l ins n' → node_inv (tr ++ [l]) (hist ++ ins) n'.
Proof.
  intros Hw Hb Hi Hrun Hstep. pose proof (run_ok_snoc _ _ _ _ Hrun) as Hrun'.
  assert (Forall (λ ev, is_Some (event_peer ev) → event_ok (hist ++ ins) ev) (posted tr)) as Hpo.
  { eapply Forall_impl; [exact (node_peers _ _ _ Hi)|]. intros ev Hev Hp. by apply event_ok_app, Hev. }
  pose proof Hi as [Hc Hnet Hnb Hwb _].
  destruct Hstep as [rt l rt' net st tk Hl Hs
    |e todo events c nt nt' s w sb wb env net net' st tk Hpop Hn
    |e todo events out ev sb wb env net net' st tk Hn
    |e todo events c nt s s' w evs nb wb net st st' tk Hpop Hround
    |e todo events c nt s w w' nb sb net st now tk tk' evs Hpop Hround
    |e todo events out nb sb net st now tk tk' ev Hround]; rewrite ?app_nil_r in *;
    [by eapply node_manager_step|..]; split; cbn; rewrite ?posted_same by done; try done;
    try (by apply core_other); try (by eapply node_network_step); try (by eapply wake_sends_ticks).
  1,2: exact (proj2 (node_network_step _ _ _ _ _ _ Hi Hn)).
  apply ch_pop_Some in Hpop as (Hq & _ & _). cbn in Hc. rewrite Hq in Hc. by eapply core_storage.
Qed.

Lemma node_inv_run store now_ms tr hist n :
  0 < pointer_width ≤ 64 → boot_ok U missing o0 e0 → store_inv view_of healthy o0 [] store → run_ok U o0 tr →
  hn_run cfg (host_node_start cfg e0 store now_ms) tr hist n → node_inv tr hist n.
Proof.
  intros Hw Hb Hs Hrun Hr. remember (host_node_start cfg e0 store now_ms) as n0 eqn:E.
  induction Hr as [n|n tr hist n1 l ins n2 Hr IH Hstep]; subst.
  - split; simpl; try done; [by apply core_start|apply network_start_ok].
  - eapply node_inv_step; eauto using run_ok_snoc.
Qed.


(** C5: wherever the host node is stopped, nothing it wrote is lost.  The storage
    manager has carried out the commands of the engine in order, up to some point, each
    with its flush.  Stop the process between two commands, or while it carries out the
    next one, at any operation of the database, also because that operation failed; writes
    that were not flushed may be lost, from any of them on.  The database then holds, as its
    latest snapshot, the one of the last snapshot command that was carried out (or the one
    the node started from), or that of the command that was under way, with a block of that
    hash: it is a storage from which the node can be started again, a restarted node is
    given that block and that snapshot, and its engine takes them as its head and state.
    The assumptions are those of the safety of the node: delivered blocks do not collide and
    are in range, snapshots fit in memory, and a stored snapshot is the first event. *)
Theorem host_node_durable store now_ms tr hist n :
  0 < pointer_width ≤ 64 → boot_ok U missing o0 e0 → store_inv view_of healthy o0 [] store → run_ok U o0 tr →
  hn_run cfg (host_node_start cfg e0 store now_ms) tr hist n →
  storage_taken tr `prefix_of` StLoadLatestSnapshot :: omap storage_command (emitted tr) ∧
  survives view_of healthy o0 Host.Contract (storage_taken tr) (ch_queue (storage_tx (rt_out (hn_rt n)))) (hn_store n).
Proof.
  intros Hw Hb Hs Hrun Hr. eapply core_durable; [done..|]. by apply (node_inv_run store now_ms tr hist n).
Qed.
End invariant.

(** ** Schedules

    An executable form of the steps: which task goes next, and what the environment
    does. *)

Section schedule.
Context `{Target, Crypto, !Postcard NetworkMessage, !Postcard NodeHelloTranscript, HashOrder}.
Context {S : Type} `{!Storage S} (cfg : HostConfig).

Inductive turn : Type :=
| TurnHandle
| TurnAction
| TurnPostNetwork
| TurnPostStorage
| TurnPostWake
| TurnCommand (env : Env)
| TurnSwarm (env : Env) (event : SwarmEvent)
| TurnStorage
| TurnWake (now_ms : Z)
| TurnTimer (now_ms : Z).

Definition took : Type := HostNode (S := S) * label * list (Env * NetworkInput).

Definition take_turn (n : HostNode (S := S)) (t : turn) : option took :=
  let '(mkHostNode (mkRuntime e todo events out (mkBusy nb sb wb)) net st tk) := n in
  match t with
  | TurnHandle =>
      match todo, ch_pop events with
      | [], Some (ev, events') =>
          match handle_event e ev with
          | Ret (e', acts) =>
              Some (mkHostNode (mkRuntime e' acts events' out (mkBusy nb sb wb)) net st tk, LHandle ev acts, [])
          | _ => None
          end
      | _, _ => None
      end
  | TurnAction =>
      match todo with
      | a :: todo =>
          match host_handle_action out a with
          | Ready (Ok out') =>
              Some (mkHostNode (mkRuntime e todo events out' (mkBusy nb sb wb)) net st tk, LAction a, [])
          | _ => None
          end
      | [] => None
      end
  | TurnPostNetwork =>
      match nb with
      | ev :: nb =>
          match ch_send events ev with
          | Ready (Ok events') =>
              Some (mkHostNode (mkRuntime e todo events' out (mkBusy nb sb wb)) net st tk, LPost ev, [])
          | _ => None
          end
      | [] => None
      end
  | TurnPostStorage =>
      match sb with
      | ev :: sb =>
          match ch_send events ev with
          | Ready (Ok events') =>
              Some (mkHostNode (mkRuntime e todo events' out (mkBusy nb sb wb)) net st tk, LPost ev, [])
          | _ => None
          end
      | [] => None
      end
  | TurnPostWake =>
      match wb with
      | ev :: wb =>
          match ch_send events ev with
          | Ready (Ok events') =>
              Some (mkHostNode (mkRuntime e todo events' out (mkBusy nb sb wb)) net st tk, LPost ev, [])
          | _ => None
          end
      | [] => None
      end
  | TurnCommand env =>
      match nb, ch_pop (network_tx out) with
      | [], Some (c, q) =>
          match network_step cfg env net (InCommand c) with
          | Ret (net', Ok tt) =>
              Some (mkHostNode (mkRuntime e todo events (mkOutboxes q (storage_tx out) (wake_tx out))
                      (mkBusy (new_events net net') sb wb)) net' st tk, LNetwork c, [(env, InCommand c)])
          | _ => None
          end
      | _, _ => None
      end
  | TurnSwarm env ev =>
      match nb with
      | [] =>
          match network_step cfg env net (InEvent ev) with
          | Ret (net', Ok tt) =>
              Some (mkHostNode (mkRuntime e todo events out (mkBusy (new_events net net') sb wb)) net' st tk,
                    LWork, [(env, InEvent ev)])
          | _ => None
          end
      | _ => None
      end
  | TurnStorage =>
      match sb, ch_pop (storage_tx out) with
      | [], Some (c, q) =>
          match host_storage_round c st with
          | (st', Ok evs) =>
              Some (mkHostNode (mkRuntime e todo events (mkOutboxes (network_tx out) q (wake_tx out))
                      (mkBusy nb evs wb)) net st' tk, LStorage c, [])
          | _ => None
          end
      | _, _ => None
      end
  | TurnWake now_ms =>
      match wb, ch_pop (wake_tx out) with
      | [], Some (c, q) =>
          let '(tk', evs) := host_wake_round tk false (Some c) now_ms in
          Some (mkHostNode (mkRuntime e todo events (mkOutboxes (network_tx out) (storage_tx out) q)
                  (mkBusy nb sb evs)) net st tk', LWake c, [])
      | _, _ => None
      end
  | TurnTimer now_ms =>
      match wb, host_wake_round tk true None now_ms with
      | [], (tk', [ev]) =>
          Some (mkHostNode (mkRuntime e todo events out (mkBusy nb sb [ev])) net st tk', LWork, [])
      | _, _ => None
      end
  end.

Lemma take_turn_step n t n' l ins : take_turn n t = Some (n', l, ins) → hn_step cfg n l ins n'.
Proof.
  destruct n as [[e todo events [nt s w] [nb sb wb]] net st tk]. intros E.
  destruct t; simpl in E; repeat (case_match; simplify_eq/=);
    solve [by econstructor | apply hn_manager; [done|by constructor]].
Qed.

(** A schedule, with the history it has so far. *)
Fixpoint take_turns (ts : list turn) (n : HostNode (S := S)) (tr : list label)
    (hist : list (Env * NetworkInput)) : option (HostNode * list label * list (Env * NetworkInput)) :=
  match ts with
  | [] => Some (n, tr, hist)
  | t :: ts =>
      match take_turn n t with
      | Some (n', l, ins) => take_turns ts n' (tr ++ [l]) (hist ++ ins)
      | None => None
      end
  end.

Lemma take_turns_run n0 ts n tr hist n' tr' hist' :
  hn_run cfg n0 tr hist n → take_turns ts n tr hist = Some (n', tr', hist') → hn_run cfg n0 tr' hist' n'.
Proof.
  revert n tr hist. induction ts as [|t ts IH]; intros n tr hist Hr E; simpl in E; [by simplify_eq|].
  destruct (take_turn n t) as [[[n1 l] ins]|] eqn:Et; [|done].
  eapply IH; [|exact E]. eapply hn_run_snoc; [exact Hr|]. by eapply take_turn_step.
Qed.
End schedule.

(** ** Witnesses *)

Module HostNodeWitness.
Import ToyCrypto ModelsWitness ChainWitness EngineRuns StorageWitness IdentityWitness NodeHelloWitness
  HostNetworkWitness.
#[local] Existing Instance dev_host.

Definition disk : SledStorage := device ∅.

(** The node starts, a peer introduces itself and sends a block, the block is stored,
    and the timer goes off. *)
Definition turns : list turn :=
  match host_build (from_signing_key host_key) transport_a 65536 8 with
  | Ok h =>
      [TurnStorage; TurnPostStorage; TurnHandle; TurnAction;
       TurnSwarm open_env (EvNodeHello (RrRequest transport_a h 1)); TurnPostNetwork; TurnHandle;
       TurnAction; TurnAction; TurnAction; TurnCommand open_env; TurnWake 5;
       TurnSwarm open_env (EvGossipsub (GossipMessage transport_a [x01])); TurnPostNetwork; TurnHandle;
       TurnAction; TurnAction; TurnAction; TurnStorage; TurnStorage;
       TurnTimer 40000; TurnPostWake; TurnHandle]
  | Err _ => []
  end.

Definition small (a : NodeAction) : bool :=
  match a with PersistSnapshot _ bs => bool_decide (Z.of_nat (length bs) ≤ isize_max) | _ => true end.

Definition ran := take_turns host_cfg turns (host_node_start host_cfg EngineRuns.e0 disk 0) [] [].

Definition ran_ok : bool :=
  match ran with
  | Some (n, tr, hist) =>
      forallb small (emitted tr) && bool_decide (length (handled tr) = 4%nat) &&
      bool_decide (fst <$> last_snapshot None (storage_taken tr) = Some (hash first_block))
  | None => false
  end.

Lemma ran_is_ok : ran_ok = true.
Proof. vm_compute. reflexivity. Qed.

Lemma ran_run : ∃ n tr hist,
  hn_run host_cfg (host_node_start host_cfg EngineRuns.e0 disk 0) tr hist n ∧
  run_ok known None tr ∧ length (handled tr) = 4%nat ∧
  fst <$> last_snapshot None (storage_taken tr) = Some (hash first_block).
Proof.
  pose proof ran_is_ok as Hok. unfold ran_ok in Hok. destruct ran as [[[n tr] hist]|] eqn:E; [|discriminate Hok].
  apply andb_prop in Hok as [Hok Hl]. apply andb_prop in Hok as [Hs Hh].
  exists n, tr, hist. split_and!.
  - exact (take_turns_run host_cfg _ turns _ [] [] n tr hist (hn_run_nil host_cfg _) E).
  - split.
    + apply Forall_forall. intros [] _; try exact I. intros m. apply frame_ok.
    + intros h bs Hin. rewrite forallb_forall in Hs. apply list_elem_of_In, Hs in Hin.
      exact (bool_decide_eq_true_1 _ Hin).
    + intros [x Hx]. discriminate Hx.
  - exact (bool_decide_eq_true_1 _ Hh).
  - exact (bool_decide_eq_true_1 _ Hl).
Qed.

Lemma boots : boot_ok known None None EngineRuns.e0.
Proof. split; [apply e0_inv|exact e0_inv]. Qed.

Lemma empty_disk : store_inv sled_view sled_healthy None [] disk.
Proof. split; [done..|]. split; try done. by intros b [Hin%not_elem_of_nil|]. Qed.


(** The process is killed; a new one is given what was stored. *)
Lemma host_node_durable_witness : ∃ n tr hist,
  hn_run host_cfg (host_node_start host_cfg EngineRuns.e0 disk 0) tr hist n ∧
  ∀ st, stopped (hn_store n) st → ∃ o, (hash ∘ fst) <$> o = Some (hash first_block) ∧
    host_storage_round StLoadLatestSnapshot st = (st, Ok [booted o]).
Proof.
  destruct ran_run as (n & tr & hist & Hr & Hrun & _ & Hl). exists n, tr, hist. split; [exact Hr|].
  destruct (host_node_durable sled_view sled_healthy known None host_cfg None EngineRuns.e0 disk 0
    tr hist n ltac:(by vm_compute) boots empty_disk Hrun Hr) as (_ & Hstop & _).
  intros st Hst. destruct (Hstop st Hst) as (o & Ho & [_ Hload _]). exists o. split; [|exact Hload].
  unfold wrote_last in Ho. rewrite <-Ho in Hl. destruct o as [[b bs]|]; exact Hl.
Defined.
End HostNodeWitness.
