(* ===== verification/HostDeadlock.v ===== *)
(** * The host node can deadlock

    The node manager and the network manager of the host send to each other through bounded
    channels, and each waits for room in the middle of handling its own input.  Here the
    node of HostNode.v, with the network manager of HostNetwork.v as it is, is led into a
    state where both wait forever, by nothing but the hellos of one peer that uses two
    transport keys in turn. *)

From S2P Require Import Prelude.
From S2P Require Import Maps.
From S2P Require Import Crypto.
From S2P Require Import Models.
From S2P Require Import State.
From S2P Require Import Chain.
From S2P Require Import Messages.
From S2P Require Import Engine.
From S2P Require Import EngineWitness.
From S2P Require Import Errors.
From S2P Require Import Framing.
From S2P Require Import Identity.
From S2P Require Import NodeHello.
From S2P Require Import Runtime.
From S2P Require Import Storage.
From S2P Require Import HostNetwork.
From S2P Require Import NodeCore.
From S2P Require Import HostNode.

Section deadlock.
Context `{Target, Crypto, !CryptoLaws, !Postcard NetworkMessage, !Postcard NodeHelloTranscript, HashOrder}.
Context {S : Type} `{!Storage S} (cfg : HostConfig).

(** A node that shows a hello over each of two transports. *)
Record Rival : Type := mkRival {
  rival_hello : bool → NodeHello;
  rival_transport : bool → bytes;
}.

Record rival_ok (r : Rival) : Prop := {
  rival_authentic k : hello_authentic (rival_hello r k) (rival_transport r k);
  rival_node k : hello_peer_id (rival_hello r k) = hello_peer_id (rival_hello r true);
  rival_transports : rival_transport r true ≠ rival_transport r false;
}.

(** The hello arrives as a request whose answer can be sent. *)
Definition all_alive : Env := mkEnv true (λ _, true).
Definition rival_input (r : Rival) (k : bool) : Env * NetworkInput :=
  (all_alive, InEvent (EvNodeHello (RrRequest (rival_transport r k) (rival_hello r k) 0))).

(** The node manager has nothing to do, and no event and no command waits; the storage
    manager may have commands [s] left. *)
Definition idle_node (e : NodeEngine) (s : Channel StorageCommand) (net : NetworkManager) (st : S)
    (tk : option Z) : HostNode :=
  mkHostNode (waiting EVENT_CHANNEL_CAPACITY NETWORK_CHANNEL_CAPACITY WAKE_CHANNEL_CAPACITY s e []) net st tk.

(** A node that has just started is such a node, whatever it was started on. *)
Lemma start_idle e st now_ms :
  host_node_start cfg e st now_ms =
    idle_node e (mkChannel [StLoadLatestSnapshot] STORAGE_CHANNEL_CAPACITY true) (network_start cfg) st
      (Some (startup_heartbeat_deadline_ms now_ms)).
Proof. done. Qed.

Context (r : Rival) (r_ok : rival_ok r) (builds : is_ok (build_local_node_hello cfg) = true).

Definition from_rival (i : Env * NetworkInput) : Prop := ∃ k, i = rival_input r k.

Definition leads (a b : HostNode (S := S)) : Prop :=
  ∃ tr hist, hn_run cfg a tr hist b ∧ Forall from_rival hist.

Lemma leads_refl a : leads a a.
Proof. exists [], []. split; constructor. Qed.

Lemma leads_step a b l ins c : leads a b → hn_step cfg b l ins c → Forall from_rival ins → leads a c.
Proof.
  intros (tr & hist & Hr & Hh) Hs Hi. exists (tr ++ [l]), (hist ++ ins). split; [by econstructor|].
  by apply Forall_app.
Qed.

Lemma leads_trans a b c : leads a b → leads b c → leads a c.
Proof.
  intros Hab (tr & hist & Hr & Hh). induction Hr as [|b tr hist c l ins d _ IH Hs]; [done|].
  apply Forall_app in Hh as [Hh Hi]. eapply leads_step; [by apply IH|done|done].
Qed.

Lemma leads_cons a l ins b c : hn_step cfg a l ins b → Forall from_rival ins → leads b c → leads a c.
Proof. intros Hs Hi. apply leads_trans. eapply leads_step; [apply leads_refl|done..]. Qed.

(** Whatever the tables of the network manager are, the hello over one of the transports is
    news, and it tells the engine. *)
Lemma rival_connects net : ∃ k net',
  network_step cfg all_alive net (InEvent (EvNodeHello (RrRequest (rival_transport r k) (rival_hello r k) 0))) =
    Ret (net', Ok tt) ∧
  new_events net net' = [EvPeerConnected (hello_peer_id (rival_hello r true))].
Proof.
  destruct r_ok as [Ha Hn Ht]. set (node := hello_peer_id (rival_hello r true)) in *.
  assert (∃ k, peer_by_node (tables net) !! node ≠ Some (rival_transport r k)) as [k Hk].
  { destruct (decide (peer_by_node (tables net) !! node = Some (rival_transport r true))) as [E|];
      [exists false|by exists true]. rewrite E. congruence. }
  exists k. cbn [network_step handle_swarm_event handle_node_hello_event].
  rewrite (host_verify_authentic _ _ (Ha k)), Hn. unfold build_local_node_hello_or_disconnect.
  destruct (build_local_node_hello cfg) as [local|]; [|done]. cbn [respond channel_alive all_alive negb].
  unfold register_verified_peer. cbn [host_verified_peer_id tables call].
  rewrite (bool_decide_true (peer_by_node (tables net) !! node ≠ _)) by done. cbn [orb].
  unfold HostNetwork.send_event. cbn [events_open all_alive]. eexists. split; [done|].
  unfold new_events. cbn [sent_events set_tables call]. apply drop_app_length.
Qed.

(** A manager step of the node. *)
Lemma leads_manager rt l rt' net st tk c :
  manager_label l = true → rt_step rt l rt' → leads (mkHostNode rt' net st tk) c → leads (mkHostNode rt net st tk) c.
Proof. intros Hl Hs. eapply leads_cons; [by apply hn_manager|constructor]. Qed.

Section filling.
Context (ec nc wc : nat) (room_e : (0 < ec)%nat) (room_w : (0 < wc)%nat) (s : Channel StorageCommand) (b : Block).

(** The hello makes the node manager ask for blocks: it gets to the point of sending the
    command. *)
Lemma asks e q net st tk :
  get_latest_block (blockchain e) = Ret b →
  ∃ e' p from to wake net',
    leads (mkHostNode (waiting ec nc wc s e q) net st tk)
      (mkHostNode (mkRuntime e' (RequestBlocks p from to :: wake) (mkChannel [] ec true)
         (mkOutboxes (mkChannel q nc true) s (mkChannel [] wc true)) (mkBusy [] [] [])) net' st tk) ∧
    get_latest_block (blockchain e') = Ret b ∧
    (wake = [] ∨ ∃ t, wake = [ScheduleWake t] ∨ wake = [CancelWake]).
Proof.
  intros Hb. set (node := hello_peer_id (rival_hello r true)).
  destruct (peer_connected_actions e node b Hb) as (e' & m & from & to & wake & Hh & Hb' & Hw).
  destruct (rival_connects net) as (k & net' & Hn & Hev).
  exists e', node, from, to, wake, net'. split_and!; [|done..].
  eapply leads_cons; [by eapply hn_swarm|apply Forall_singleton; by exists k|]. rewrite Hev.
  eapply leads_manager; [|apply step_post_network, ch_send_room|]; [done|done|].
  eapply leads_manager; [|by eapply step_handle|]; [done|].
  eapply leads_manager; [|by apply step_action|]; [done|]. apply leads_refl.
Qed.

(** One more command waits for the network manager. *)
Lemma queue_grows e q net st tk :
  (length q < nc)%nat → get_latest_block (blockchain e) = Ret b →
  ∃ e' c net' tk', leads (mkHostNode (waiting ec nc wc s e q) net st tk)
      (mkHostNode (waiting ec nc wc s e' (q ++ [c])) net' st tk') ∧
    get_latest_block (blockchain e') = Ret b.
Proof.
  intros Hq Hb. destruct (asks e q net st tk Hb) as (e' & p & from & to & wake & net' & Hr & Hb' & Hw).
  assert (∃ tk', leads (mkHostNode (mkRuntime e' wake (mkChannel [] ec true)
      (mkOutboxes (mkChannel (q ++ [NetRequestBlocks p from to]) nc true) s (mkChannel [] wc true)) (mkBusy [] [] [])) net' st tk)
    (mkHostNode (waiting ec nc wc s e' (q ++ [NetRequestBlocks p from to])) net' st tk')) as [tk' Hr'].
  { destruct Hw as [->|(t & [->| ->])]; [exists tk; apply leads_refl|..]; eexists;
      (eapply leads_manager; [|apply step_action|]; [done| |]);
      [unfold host_handle_action, handle_action, send_wake; simpl; by rewrite ch_send_room| |
       unfold host_handle_action, handle_action, send_wake; simpl; by rewrite ch_send_room|];
      (eapply leads_cons; [eapply (hn_wake _ _ _ _ _ _ _ _ _ _ _ _ _ 0); [done|]|constructor|apply leads_refl]);
      unfold host_wake_round; destruct tk; rewrite ?andb_false_r; reflexivity. }
  exists e', (NetRequestBlocks p from to), net', tk'. split; [|done]. eapply leads_trans; [exact Hr|].
  eapply leads_manager; [|apply step_action|exact Hr']; [done|].
  unfold host_handle_action, handle_action, send_network. simpl. by rewrite ch_send_room by done.
Qed.

Lemma queue_fills e net st tk (k : nat) :
  (k ≤ nc)%nat → get_latest_block (blockchain e) = Ret b →
  ∃ e' q net' tk', leads (mkHostNode (waiting ec nc wc s e []) net st tk)
      (mkHostNode (waiting ec nc wc s e' q) net' st tk') ∧ length q = k ∧
    get_latest_block (blockchain e') = Ret b.
Proof.
  intros Hk Hb. induction k as [|k IH].
  - exists e, [], net, tk. split_and!; [apply leads_refl|done..].
  - destruct IH as (e1 & q & net1 & tk1 & Hr & Hq & Hb1); [lia|].
    destruct (queue_grows e1 q net1 st tk1) as (e2 & c & net2 & tk2 & Hr2 & Hb2); [lia|done|].
    exists e2, (q ++ [c]), net2, tk2. split_and!; [by eapply leads_trans| |done]. rewrite length_app. simpl. lia.
Qed.

End filling.

(** Hellos arrive until the event channel is full, and one more. *)
Lemma events_fill (ec : nat) e todo q out net st tk (k : nat) :
  (length q + k ≤ ec)%nat →
  ∃ q' ev net', leads (mkHostNode (mkRuntime e todo (mkChannel q ec true) out (mkBusy [] [] [])) net st tk)
    (mkHostNode (mkRuntime e todo (mkChannel q' ec true) out (mkBusy [ev] [] [])) net' st tk) ∧
    length q' = (length q + k)%nat.
Proof.
  revert q net. induction k as [|k IH]; intros q net Hk; destruct (rival_connects net) as (j & net' & Hn & Hev).
  - eexists q, _, net'. split; [|lia].
    eapply leads_cons; [by eapply hn_swarm|apply Forall_singleton; by exists j|]. rewrite Hev. apply leads_refl.
  - destruct (IH (q ++ [EvPeerConnected (hello_peer_id (rival_hello r true))]) net') as (q' & ev & net2 & Hr & Hq');
      [rewrite length_app; simpl; lia|]. rewrite length_app in Hq'. simpl in Hq'.
    exists q', ev, net2. split; [|lia].
    eapply leads_cons; [by eapply hn_swarm|apply Forall_singleton; by exists j|]. rewrite Hev.
    eapply leads_manager; [|apply step_post_network, ch_send_room|exact Hr]; [done|lia].
Qed.
Lemma hn_run_rt (n n' : HostNode (S := S)) tr hist : hn_run cfg n tr hist n' → rt_run (hn_rt n) tr (hn_rt n').
Proof. induction 1 as [|n tr hist n1 l ins n2 _ IH Hs]; [constructor|]. econstructor; [done|by eapply hn_step_rt]. Qed.

(** C39: the host node can deadlock.  Take the node with its own network manager at any
    moment when no event and no network command waits, its start for one ([start_idle]), and a peer with one node key and two
    transport keys.  By sending its hello over the one and the other transport, while the
    network manager happens to pick swarm events before commands, the peer alone leads the
    node to a state where the node manager has an action left and the network manager an
    event, and from which, whatever else happens, the node manager never handles another
    event nor completes another action, and the network manager never takes another command
    nor delivers another event: each waits for room in the channel that the other drains. *)
Theorem host_node_can_deadlock e b s net st tk :
  get_latest_block (blockchain e) = Ret b →
  ∃ tr hist n, hn_run cfg (idle_node e s net st tk) tr hist n ∧ Forall from_rival hist ∧
    rt_todo (hn_rt n) ≠ [] ∧ network_busy (rt_busy (hn_rt n)) ≠ [] ∧
    ∀ tr' hist' n', hn_run cfg n tr' hist' n' → frozen (hn_rt n) (hn_rt n') ∧ Forall no_progress tr'.
Proof.
  intros Hb. unfold idle_node. set (ec := EVENT_CHANNEL_CAPACITY). set (nc := NETWORK_CHANNEL_CAPACITY).
  set (wc := WAKE_CHANNEL_CAPACITY).
  assert (0 < ec)%nat as He by (unfold ec, EVENT_CHANNEL_CAPACITY; lia).
  assert (0 < wc)%nat as Hw by (unfold wc, WAKE_CHANNEL_CAPACITY; lia).
  assert (nc ≤ nc)%nat as Hn by done. assert (length (A := RuntimeEvent) [] + ec ≤ ec)%nat as Hf by (simpl; lia).
  destruct (queue_fills ec nc wc He Hw s b e net st tk nc Hn Hb) as (e1 & q & net1 & tk1 & Hr1 & Hq & Hb1).
  destruct (asks ec nc wc He s b e1 q net1 st tk1 Hb1)
    as (e2 & p & from & to & wake & net2 & Hr2 & _ & _).
  destruct (events_fill ec e2 (RequestBlocks p from to :: wake) []
    (mkOutboxes (mkChannel q nc true) s (mkChannel [] wc true)) net2 st tk1 ec Hf)
    as (q' & ev & net3 & Hr3 & Hq').
  destruct (leads_trans _ _ _ Hr1 (leads_trans _ _ _ Hr2 Hr3)) as (tr & hist & Hr & Hh).
  eexists tr, hist, _. split_and!; [exact Hr|exact Hh|done|done|]. intros tr' hist' n' Hr'%hn_run_rt.
  eapply stuck_forever; [|exact Hr']. split_and!; simpl in *; [by eexists _, _, _, _|done|lia|lia].
Qed.
End deadlock.

(** ** Witness *)

Module HostDeadlockWitness.
Import ToyCrypto ModelsWitness ChainWitness EngineRuns StorageWitness IdentityWitness NodeHelloWitness
  HostNetworkWitness HostNodeWitness.
#[local] Existing Instance dev_host.

(** The hello that the node with [host_key] builds over a transport. *)
Definition rival : Rival :=
  let t (k : bool) := if k then transport_a else transport_b in
  mkRival (λ k, match host_build (from_signing_key host_key) (t k) 65536 8 with
                | Ok h => h
                | Err _ => mkNodeHello 0 [] [] [] 0 0 all_capabilities []
                end) t.

Lemma rival_is_ok : rival_ok rival.
Proof.
  split; [|by intros []|done].
  intros []; eapply (host_hello_authentic host_key); reflexivity.
Qed.

Lemma genesis_latest : get_latest_block (blockchain EngineRuns.e0) = Ret genesis.
Proof.
  apply (get_latest_block_tree fresh genesis). unfold tree_blocks. cbn [chain fresh head_hash].
  by rewrite lookup_fmap, lookup_singleton_eq.
Qed.

(** The node is stopped for good by a peer right after its start. *)
Lemma host_node_can_deadlock_witness : ∃ tr hist n,
  hn_run host_cfg (host_node_start host_cfg EngineRuns.e0 disk 0) tr hist n ∧ Forall (from_rival rival) hist ∧
  rt_todo (hn_rt n) ≠ [].
Proof.
  rewrite start_idle.
  destruct (host_node_can_deadlock (S := SledStorage) host_cfg rival rival_is_ok ltac:(by vm_compute) EngineRuns.e0 genesis
    (mkChannel [StLoadLatestSnapshot] STORAGE_CHANNEL_CAPACITY true) (network_start host_cfg) disk
    (Some (startup_heartbeat_deadline_ms 0)) genesis_latest) as (tr & hist & n & Hr & Hh & Ht & _).
  by exists tr, hist, n.
Defined.
End HostDeadlockWitness.
