(* ===== verification/Introductions.v ===== *)
(** * An embedded node and a host node introduce themselves to each other

    The two runtimes meet at the node hello protocol: the session worker of the embedded
    runtime (erp-runtime/src/network/session.rs) at one end, the network manager of the
    host (rp-runtime/src/network/manager.rs) with its request-response codec at the
    other.  Whichever of them dials, the handshake completes and each registers the
    other under its node id, with the limits the other announced, as long as the host opens
    substreams for the set-up protocols only; the host also runs gossipsub, and one of its
    substreams that arrives too early ends the session of the embedded node. *)

From S2P Require Import Prelude.
From S2P Require Import Text.
From S2P Require Import Crypto.
From S2P Require Import Models.
From S2P Require Import Messages.
From S2P Require Import Errors.
From S2P Require Import Framing.
From S2P Require Import Identity.
From S2P Require Import NodeHello.
From S2P Require Import EngineWitness.
From S2P Require Import Runtime.
From S2P Require Import HostNetwork.
From S2P Require Import PeerRegistry.
From S2P Require Import ErpNetwork.
From S2P Require Import TransportIdentity.
From S2P Require Import Duplex.
From S2P Require Import Multistream.
From S2P Require Import Protobuf.
From S2P Require Import Identify.
From S2P Require Import Noise.
From S2P Require Import NoiseLink.
From S2P Require Import NoiseHandshake.
From S2P Require Import NetConfig.
From S2P Require Import HostCodecs.
From S2P Require Import Yamux.
From S2P Require Import Session.

Section host.
Context `{Crypto, !CryptoLaws, !Postcard NetworkMessage, !Postcard NodeHelloTranscript, HashOrder}.
Context (cfg : HostConfig).

(** The manager has the node [n] at the transport [t], with the limit [limit]. *)
Record introduced (n t : bytes) (limit : Z) (m : NetworkManager) : Prop := {
  intro_node : peer_by_node (tables m) !! n = Some t;
  intro_transport : node_by_transport (tables m) !! t = Some n;
  intro_limit : peer_max_blocks_per_chunk (tables m) !! n = Some limit;
}.

(** An introduction is told to the node manager, unless it changes nothing. *)
Definition told (n t : bytes) (m m' : NetworkManager) : Prop :=
  sent_events m' = sent_events m ++ [EvPeerConnected n] ∨
  sent_events m' = sent_events m ∧ peer_by_node (tables m) !! n = Some t ∧
    node_by_transport (tables m) !! t = Some n.

Lemma register_introduces env m t v :
  events_open env = true →
  ∃ m', register_verified_peer env m t v = Ret (m', Ok tt) ∧
    introduced (host_verified_peer_id v) t (host_verified_max_blocks v) m' ∧
    told (host_verified_peer_id v) t m m' ∧ swarm m' = swarm m.
Proof.
  intros He. unfold register_verified_peer. set (n := host_verified_peer_id v).
  set (t' := match node_by_transport _ !! t with Some _ => _ | None => _ end).
  assert (peer_by_node t' = relink (<[n := t]> (peer_by_node (tables m))) (node_by_transport (tables m) !! t) n ∧
    node_by_transport t' = relink (<[t := n]> (node_by_transport (tables m))) (peer_by_node (tables m) !! n) t ∧
    peer_max_blocks_per_chunk t' = <[n := host_verified_max_blocks v]> (peer_max_blocks_per_chunk (tables m)))
    as (Hp & Ht & Hl).
  { subst t'. simpl. unfold relink. destruct (_ !! n), (_ !! t); simpl; repeat case_bool_decide; done. }
  assert (introduced n t (host_verified_max_blocks v) (set_tables m t')) as Hi.
  { split; simpl; [rewrite Hp|rewrite Ht|rewrite Hl].
    1,2: rewrite lookup_relink by auto.
    all: apply lookup_insert_eq. }
  destruct (_ || _) eqn:E.
  - unfold HostNetwork.send_event. rewrite He. eexists. split_and!; [done|destruct Hi; by split|by left|done].
  - eexists. split_and!; [done|done| |done]. right. apply orb_false_iff in E as [E1 E2].
    apply bool_decide_eq_false, dec_stable in E1. apply bool_decide_eq_false, dec_stable in E2. done.
Qed.

(** The host gets a hello, answers and registers the node. *)
Lemma host_takes_hello env m t h ch local :
  events_open env = true → channel_alive env ch = true → hello_authentic h t →
  build_local_node_hello cfg = Ok local →
  ∃ m', network_step cfg env m (InEvent (EvNodeHello (RrRequest t h ch))) = Ret (m', Ok tt) ∧
    swarm m' = swarm m ++ [RespondHello ch (mkNodeHelloResponse true local None)] ∧
    introduced (hello_peer_id h) t (hello_max_blocks_per_chunk h) m' ∧ told (hello_peer_id h) t m m'.
Proof.
  intros He Hc Ha Hl. simpl. rewrite (host_verify_authentic _ _ Ha).
  unfold build_local_node_hello_or_disconnect. rewrite Hl, respond_alive by done. cbn [negb].
  destruct (register_introduces env (call m (RespondHello ch (mkNodeHelloResponse true local None))) t
    (mkHostVerifiedPeer (hello_peer_id h) (hello_max_blocks_per_chunk h)) He) as (m' & Hr & Hi & Ht & Hs).
  exists m'. by split_and!.
Qed.

(** The host gets the answer to its hello and registers the node. *)
Lemma host_takes_answer env m t h id :
  events_open env = true → hello_authentic h t →
  ∃ m', network_step cfg env m (InEvent (EvNodeHello (RrResponse t id (mkNodeHelloResponse true h None)))) =
      Ret (m', Ok tt) ∧
    swarm m' = swarm m ∧
    introduced (hello_peer_id h) t (hello_max_blocks_per_chunk h) m' ∧ told (hello_peer_id h) t m m'.
Proof.
  intros He Ha. simpl. rewrite (host_verify_authentic _ _ Ha).
  destruct (register_introduces env m t
    (mkHostVerifiedPeer (hello_peer_id h) (hello_max_blocks_per_chunk h)) He) as (m' & Hr & Hi & Ht & Hs).
  exists m'. by split_and!.
Qed.
End host.

Section embedded.
Context `{Crypto, !CryptoLaws, UnsignedVarint, !VarintLaws, QuickProtobuf, MultiaddrLib, !Libp2p, Psa}.
Context `{!Postcard NodeHello, !Postcard NodeHelloResponse, !Postcard NodeHelloTranscript}.
Context `{!PostcardRoundtrip NodeHello, !PostcardRoundtrip NodeHelloResponse}.
Context (node_identity : IdentityManager) (transport_identity : TransportIdentityManager) (config : NetworkConfig).

(** What the embedded node takes from a hello. *)
Definition verified_of (h : NodeHello) (t : bytes) : VerifiedPeer :=
  mkVerifiedPeer (hello_peer_id h) (hello_public_key h) t (hello_max_frame_len h)
    (hello_max_blocks_per_chunk h) (hello_capabilities h).

Lemma verifier_verify_authentic h t : hello_authentic h t → verifier_verify h t = Ok (verified_of h t).
Proof.
  intros Ha. pose proof Ha as [Ht _]. apply verifier_verify_Ok in Ha as [v Hv]. rewrite Hv.
  apply verifier_verify_fields in Hv as ->. by rewrite Ht.
Qed.

(** *** Frames on a substream *)

Lemma write_postcard_run `{Postcard A} (a : A) max_len f d :
  erp_write_postcard_frame a max_len = Ok f → writable d →
  ∃ d', io_write_postcard a max_len d = (d', Ok tt) ∧ inbound d' = inbound d ∧ outbound d' = outbound d ++ f ∧
    writable d'.
Proof.
  intros Hf Hw. unfold io_write_postcard, M_bind, lift. rewrite Hf.
  destruct (write_all_run f d Hw) as (d1 & -> & Hi1 & Ho1 & Hw1).
  destruct (write_all_run [] d1 Hw1) as (d2 & Hd2 & Hi2 & Ho2 & Hw2). unfold flush. rewrite Hd2.
  exists d2. split_and!; [done|by rewrite Hi2| |done]. by rewrite Ho2, Ho1, app_nil_r.
Qed.

Lemma read_postcard_run `{Postcard A, !PostcardRoundtrip A} (a : A) f rest d :
  write_postcard_frame a HostNetwork.DEFAULT_MAX_FRAME_LEN = Ok f → available (inbound d) = f ++ rest →
  io_read_postcard HostNetwork.DEFAULT_MAX_FRAME_LEN d =
    (mkDuplex (mkStream rest (at_end (inbound d))) (outbound d) (write_faults d), Ok a).
Proof.
  intros Hf. destruct d as [[av e] o fs]. simpl. intros ->. unfold io_read_postcard, reading. simpl.
  by rewrite (proj2 (both_read _ _ _ _ hello_interoperates a f rest e Hf)).
Qed.

(** The frames of the two runtimes are the same. *)
Lemma same_hello_frame `{Postcard A, !PostcardRoundtrip A} (a : A) f :
  write_postcard_frame a HostNetwork.DEFAULT_MAX_FRAME_LEN = Ok f ↔ erp_write_postcard_frame a HostNetwork.DEFAULT_MAX_FRAME_LEN = Ok f.
Proof. exact (same_frames _ _ _ _ hello_interoperates a f). Qed.

Lemma listener_select_takes p supported rest d :
  sendable p → p ∈ supported → writable d → available (inbound d) = dialer_lines p ++ rest →
  ∃ d', listener_select supported d = (d', Ok p) ∧ available (inbound d') = rest ∧
    outbound d' = outbound d ++ listener_lines p supported ∧ writable d'.
Proof.
  intros Hp Hin Hw Ha. destruct (listener_select_run p supported rest d Hp Hw Ha) as (d' & Hr & Hd).
  exists d'. split; [|done]. unfold listener_select, M_bind. rewrite Hr. by rewrite bool_decide_true.
Qed.

Lemma dialer_select_takes p supported rest d :
  sendable p → p ≠ MULTISTREAM_NOT_AVAILABLE → p ∈ supported → writable d →
  available (inbound d) = listener_lines p supported ++ rest →
  ∃ d', dialer_select p d = (d', Ok tt) ∧ available (inbound d') = rest ∧
    outbound d' = outbound d ++ dialer_lines p ∧ writable d'.
Proof.
  intros Hp Hna Hin Hw Ha. destruct (dialer_select_run p supported rest d Hp Hna Hw Ha) as (d' & Hr & Hd).
  exists d'. split; [|done]. rewrite Hr. by rewrite bool_decide_true.
Qed.

Lemma setup_sendable : sendable IDENTIFY_PROTOCOL ∧ sendable PING_PROTOCOL ∧ sendable (str NODE_HELLO_PROTOCOL).
Proof. by vm_compute. Qed.

Lemma setup_named :
  IDENTIFY_PROTOCOL ≠ MULTISTREAM_NOT_AVAILABLE ∧ str NODE_HELLO_PROTOCOL ≠ MULTISTREAM_NOT_AVAILABLE ∧
  IDENTIFY_PROTOCOL ≠ PING_PROTOCOL ∧ IDENTIFY_PROTOCOL ≠ str NODE_HELLO_PROTOCOL ∧
  PING_PROTOCOL ≠ str NODE_HELLO_PROTOCOL.
Proof. by vm_compute. Qed.

(** A substream that the peer opens for a protocol, with what it writes on it. *)
Definition opened (p data : bytes) (d : Duplex) : Prop :=
  writable d ∧ ∃ rest, available (inbound d) = dialer_lines p ++ data ++ rest.

Lemma negotiates supported p data d :
  sendable p → p ∈ supported → opened p data d →
  ∃ d' rest, listener_select supported d = (d', Ok p) ∧ writable d' ∧ available (inbound d') = data ++ rest ∧
    outbound d' = outbound d ++ listener_lines p supported.
Proof.
  intros Hp Hin (Hw & rest & Hav).
  destruct (listener_select_takes _ supported _ d Hp Hin Hw Hav) as (d' & Hd & Hi & Ho & Hw').
  by exists d', rest.
Qed.

(** What the set-up answers to a substream of any other protocol. *)
Definition UNSUPPORTED : Erp.RuntimeError :=
  Erp.Config "requested protocol is not supported by the listener".

Lemma refuses supported p d :
  sendable p → p ∉ supported → opened p [] d →
  ∃ d', listener_select supported d = (d', Err UNSUPPORTED) ∧
    outbound d' = outbound d ++ listener_lines p supported.
Proof.
  intros Hp Hin (Hw & rest & Hav).
  destruct (listener_select_run p supported _ d Hp Hw Hav) as (d' & Hr & _ & Ho & _).
  exists d'. split; [|done]. unfold listener_select, M_bind. rewrite Hr. by rewrite bool_decide_false.
Qed.

Lemma io_of_fails {A} (m : IO A) s d e : m (current s) = (d, Err e) → io (OM_of m) s = Ret (set_io s d, Err e).
Proof. unfold io, OM_of. by intros ->. Qed.

Lemma answer_ping_run payload rest d :
  length payload = PING_SIZE → writable d → available (inbound d) = payload ++ rest →
  ∃ d', answer_ping d = Ret (d', Ok tt) ∧ outbound d' = outbound d ++ payload.
Proof.
  intros Hl Hw Hav. unfold answer_ping, OM_bind at 1, OM_of at 1.
  rewrite (read_exact_run PING_SIZE payload rest d Hav Hl). unfold OM_bind, OM_of. cbn [mbind outcome_bind].
  destruct (write_all_run payload (mkDuplex (mkStream rest (at_end (inbound d))) (outbound d) (write_faults d)) Hw)
    as (d1 & -> & _ & Ho1 & Hw1).
  destruct (write_all_run [] d1 Hw1) as (d2 & Hd2 & _ & Ho2 & _). unfold flush. rewrite Hd2.
  cbn [mbind outcome_bind]. exists d2. split; [done|]. by rewrite Ho2, Ho1, app_nil_r.
Qed.

Lemma send_identify_run identify_frame d :
  encode_identify (build_local_identify config transport_identity) = Ret (Ok identify_frame) → writable d →
  ∃ d', send_identify transport_identity config d = Ret (d', Ok tt) ∧ outbound d' = outbound d ++ identify_frame.
Proof.
  intros He Hw. unfold send_identify, OM_bind at 1, OM_lift. rewrite He. cbn [mbind outcome_bind].
  unfold OM_bind, OM_of. destruct (write_all_run identify_frame d Hw) as (d1 & -> & _ & Ho1 & Hw1).
  destruct (write_all_run [] d1 Hw1) as (d2 & Hd2 & _ & Ho2 & _). unfold flush. rewrite Hd2.
  exists d2. split; [done|]. by rewrite Ho2, Ho1, app_nil_r.
Qed.

(** *** The node hello exchange *)

Context (default_limit : config_max_frame_len config = HostNetwork.DEFAULT_MAX_FRAME_LEN).
Context (local remote : NodeHello) (th : bytes).
Context (local_built : local_node_hello node_identity transport_identity config = Ok local).
Context (remote_authentic : hello_authentic remote th).

Lemma request_node_hello_run supported hello_frame answer_frame s d op rest :
  write_postcard_frame local HostNetwork.DEFAULT_MAX_FRAME_LEN = Ok hello_frame →
  write_postcard_frame (mkNodeHelloResponse true remote None) HostNetwork.DEFAULT_MAX_FRAME_LEN = Ok answer_frame →
  str NODE_HELLO_PROTOCOL ∈ supported → opens s = Ok d :: op → writable d →
  available (inbound d) = listener_lines (str NODE_HELLO_PROTOCOL) supported ++ answer_frame ++ rest →
  ∃ s', request_node_hello node_identity transport_identity config th s =
      Ret (s', Ok (Established (verified_of remote th))) ∧
    outbound (current s') = outbound d ++ dialer_lines (str NODE_HELLO_PROTOCOL) ++ hello_frame.
Proof.
  intros Hhf Haf Hsup Hop Hw Hav. unfold request_node_hello, OM_bind at 1, open_substream. rewrite Hop.
  set (s1 := set_current s _ _ d).
  destruct (dialer_select_takes _ supported (answer_frame ++ rest) d (proj2 (proj2 setup_sendable))
    (proj1 (proj2 setup_named)) Hsup Hw Hav) as (d1 & Hd1 & Hi1 & Ho1 & Hw1).
  unfold OM_bind at 1. rewrite (io_of_run _ s1 d1 tt Hd1).
  unfold OM_bind at 1, OM_lift. rewrite local_built. cbn [mbind outcome_bind]. rewrite default_limit.
  destruct (write_postcard_run local _ hello_frame d1 (proj1 (same_hello_frame _ _) Hhf) Hw1)
    as (d2 & Hd2 & Hi2 & Ho2 & Hw2).
  unfold OM_bind at 1. rewrite (io_of_run _ (set_io s1 d1) d2 tt Hd2).
  assert (available (inbound d2) = answer_frame ++ rest) as Hi3 by by rewrite Hi2.
  pose proof (read_postcard_run (mkNodeHelloResponse true remote None) answer_frame rest d2 Haf Hi3) as Hd3.
  unfold OM_bind at 1. rewrite (io_of_run _ (set_io (set_io s1 d1) d2) _ _ Hd3). cbn [hello_accepted negb hello_remote].
  rewrite (verifier_verify_authentic _ _ remote_authentic). eexists. split; [done|].
  simpl. by rewrite Ho2, Ho1, <-app_assoc.
Qed.

Lemma answer_node_hello_run hello_frame answer_frame d rest :
  write_postcard_frame remote HostNetwork.DEFAULT_MAX_FRAME_LEN = Ok hello_frame →
  write_postcard_frame (mkNodeHelloResponse true local None) HostNetwork.DEFAULT_MAX_FRAME_LEN = Ok answer_frame →
  writable d → available (inbound d) = hello_frame ++ rest →
  ∃ d', answer_node_hello node_identity transport_identity config th d =
      Ret (d', Ok (Established (verified_of remote th))) ∧
    available (inbound d') = rest ∧ outbound d' = outbound d ++ answer_frame.
Proof.
  intros Hhf Haf Hw Hav. unfold answer_node_hello. rewrite default_limit. unfold OM_bind at 1, OM_of.
  rewrite (read_postcard_run remote hello_frame rest d Hhf Hav). cbn [mbind outcome_bind].
  rewrite (verifier_verify_authentic _ _ remote_authentic). unfold OM_bind at 1, lift. rewrite local_built.
  cbn [mbind outcome_bind]. unfold OM_bind at 1.
  destruct (write_postcard_run (mkNodeHelloResponse true local None) _ answer_frame
    (mkDuplex (mkStream rest (at_end (inbound d))) (outbound d) (write_faults d))
    (proj1 (same_hello_frame _ _) Haf) Hw) as (d2 & -> & Hi2 & Ho2 & _).
  cbn [mbind outcome_bind]. exists d2. split_and!; [done|by rewrite Hi2|done].
Qed.

(** *** The embedded node as the dialer *)

Definition DIALER_SETUP : list bytes := [IDENTIFY_PROTOCOL; PING_PROTOCOL].

(** It first serves the identify request of the peer, and pings before it. *)
Lemma serve_pings pings ds ac fuel s :
  (length ds ≤ fuel)%nat → accepts s = map Ok ds ++ ac →
  Forall2 (λ payload d, opened PING_PROTOCOL payload d ∧ length payload = PING_SIZE) pings ds →
  ∃ s', serve_identify_loop transport_identity config fuel s =
      serve_identify_loop transport_identity config (fuel - length ds) s' ∧ accepts s' = ac ∧ opens s' = opens s.
Proof.
  pose proof setup_sendable as (_ & Hsp & _). pose proof setup_named as (_ & _ & Hne & _).
  intros Hf Hac Hp. revert fuel s Hf Hac. induction Hp as [|payload d0 pings ds [Hop Hlen] Hp IH]; intros fuel s Hf Hac.
  { exists s. by rewrite Nat.sub_0_r. }
  destruct fuel as [|fuel]; simpl in Hf; [lia|]. cbn [serve_identify_loop length Nat.sub]. simpl in Hac.
  unfold OM_bind at 1, accept_substream. rewrite Hac. cbn [negb]. fold DIALER_SETUP.
  destruct (negotiates DIALER_SETUP _ _ d0 Hsp ltac:(right; left) Hop) as (d1 & rest & Hd1 & Hw1 & Hi1 & _).
  unfold OM_bind at 1. rewrite (io_of_run _ (set_current s _ _ d0) d1 _ Hd1).
  rewrite bool_decide_false, bool_decide_true by done.
  destruct (answer_ping_run payload rest d1 Hlen Hw1 Hi1) as (d2 & Hd2 & _). unfold OM_bind at 1, io. cbn [current set_io].
  rewrite Hd2. cbn [mbind outcome_bind].
  match goal with |- context [serve_identify_loop _ _ fuel ?x] => destruct (IH fuel x) as (s' & Hs & Ha & Ho) end;
    [lia|done|]. exists s'. split_and!; [exact Hs|done|by rewrite Ho].
Qed.

Lemma serve_identify_run identify_frame pings ds d ac fuel s :
  encode_identify (build_local_identify config transport_identity) = Ret (Ok identify_frame) →
  (length ds < fuel)%nat → accepts s = map Ok (ds ++ [d]) ++ ac →
  Forall2 (λ payload d, opened PING_PROTOCOL payload d ∧ length payload = PING_SIZE) pings ds →
  opened IDENTIFY_PROTOCOL [] d →
  ∃ s', serve_identify_loop transport_identity config fuel s = Ret (s', Ok tt) ∧ opens s' = opens s ∧
    outbound (current s') = outbound d ++ listener_lines IDENTIFY_PROTOCOL DIALER_SETUP ++ identify_frame.
Proof.
  intros He Hf Hac Hp Hd. rewrite map_app, <-app_assoc in Hac. pose proof setup_sendable as (Hsi & _).
  destruct (serve_pings pings ds _ fuel s ltac:(lia) Hac Hp) as (s1 & -> & Ha1 & Ho1). rewrite <-Ho1.
  destruct (fuel - length ds)%nat as [|k] eqn:Ek; [lia|]. cbn [serve_identify_loop].
  unfold OM_bind at 1, accept_substream. simpl in Ha1. rewrite Ha1. cbn [negb]. fold DIALER_SETUP.
  destruct (negotiates DIALER_SETUP _ _ d Hsi ltac:(left) Hd) as (d1 & rest & Hd1 & Hw1 & _ & Ho2).
  unfold OM_bind at 1. rewrite (io_of_run _ (set_current s1 _ _ d) d1 _ Hd1). rewrite bool_decide_true by done.
  destruct (send_identify_run identify_frame d1 He Hw1) as (d2 & Hd2 & Ho3). unfold io. cbn [current set_io].
  rewrite Hd2. cbn [mbind outcome_bind]. eexists. split_and!; [done|done|]. simpl. by rewrite Ho3, Ho2, <-app_assoc.
Qed.

(** A substream of another protocol in its place ends the handshake. *)
Lemma serve_identify_refuses p pings ds d ac fuel s :
  (length ds < fuel)%nat → accepts s = map Ok (ds ++ [d]) ++ ac →
  Forall2 (λ payload d, opened PING_PROTOCOL payload d ∧ length payload = PING_SIZE) pings ds →
  sendable p → p ∉ DIALER_SETUP → opened p [] d →
  ∃ s', serve_identify_loop transport_identity config fuel s = Ret (s', Err UNSUPPORTED) ∧ opens s' = opens s ∧
    outbound (current s') = outbound d ++ listener_lines p DIALER_SETUP.
Proof.
  intros Hf Hac Hp Hsp Hin Hd. rewrite map_app, <-app_assoc in Hac.
  destruct (serve_pings pings ds _ fuel s ltac:(lia) Hac Hp) as (s1 & -> & Ha1 & Ho1). rewrite <-Ho1.
  destruct (fuel - length ds)%nat as [|k] eqn:Ek; [lia|]. cbn [serve_identify_loop].
  unfold OM_bind at 1, accept_substream. simpl in Ha1. rewrite Ha1. cbn [negb]. fold DIALER_SETUP.
  destruct (refuses DIALER_SETUP p d Hsp Hin Hd) as (d1 & Hd1 & Ho2).
  unfold OM_bind at 1. rewrite (io_of_fails _ (set_current s1 _ _ d) d1 _ Hd1). eexists. by split_and!.
Qed.

Lemma request_identify_run supported payload frame info s d op rest :
  opens s = Ok d :: op → writable d → IDENTIFY_PROTOCOL ∈ supported →
  available (inbound d) = listener_lines IDENTIFY_PROTOCOL supported ++ frame ++ rest →
  encode_length_prefixed payload HostNetwork.DEFAULT_MAX_FRAME_LEN = Ok frame →
  decode_identify frame = Ret (Ok info) → info_transport_peer_id info = th →
  ∃ s', request_identify config th s = Ret (s', Ok info) ∧ opens s' = op.
Proof.
  intros Hop Hw Hsup Hav Hf Hdec Ht. unfold request_identify, OM_bind at 1, open_substream. rewrite Hop.
  set (s1 := set_current s _ _ d).
  destruct (dialer_select_takes _ supported (frame ++ rest) d (proj1 setup_sendable) (proj1 setup_named) Hsup Hw Hav)
    as (d1 & Hd1 & Hi1 & Ho1 & Hw1).
  unfold OM_bind at 1. rewrite (io_of_run _ s1 d1 tt Hd1). rewrite default_limit.
  destruct (read_frame_run payload _ frame rest d1 limit_small Hf Hi1) as [Hd2 _].
  unfold OM_bind at 1. rewrite (io_of_run _ (set_io s1 d1) _ _ Hd2).
  unfold OM_bind at 1, OM_lift. rewrite Hdec. cbn [mbind outcome_bind].
  rewrite bool_decide_false by (by rewrite Ht; tauto). eexists. by split.
Qed.

(** *** The substreams a peer opens during the set-up *)

Inductive setup_request : Type :=
| AskPing (payload : bytes)
| AskIdentify
| SayHello.

Definition setup_protocol (k : setup_request) : bytes :=
  match k with
  | AskPing _ => PING_PROTOCOL
  | AskIdentify => IDENTIFY_PROTOCOL
  | SayHello => str NODE_HELLO_PROTOCOL
  end.

Context (identify_frame hello_frame answer_frame : bytes).
Context (identify_encoded : encode_identify (build_local_identify config transport_identity) = Ret (Ok identify_frame)).
Context (hello_framed : write_postcard_frame remote HostNetwork.DEFAULT_MAX_FRAME_LEN = Ok hello_frame).
Context (answer_framed :
  write_postcard_frame (mkNodeHelloResponse true local None) HostNetwork.DEFAULT_MAX_FRAME_LEN = Ok answer_frame).

(** What the peer writes on the substream after the protocol, and what it is answered. *)
Definition asked (k : setup_request) : bytes :=
  match k with AskPing payload => payload | AskIdentify => [] | SayHello => hello_frame end.
Definition answered (supported : list bytes) (k : setup_request) : bytes :=
  listener_lines (setup_protocol k) supported ++
  match k with AskPing payload => payload | AskIdentify => identify_frame | SayHello => answer_frame end.

(** A substream on which the peer makes the request. *)
Definition requests (k : setup_request) (d : Duplex) : Prop :=
  opened (setup_protocol k) (asked k) d ∧
  match k with AskPing payload => length payload = PING_SIZE | _ => True end.

Definition answers_on (supported : list bytes) (k : setup_request) (d d' : Duplex) : Prop :=
  outbound d' = outbound d ++ answered supported k.

Lemma setup_protocol_sendable k : sendable (setup_protocol k).
Proof. destruct setup_sendable as (? & ? & ?). by destruct k. Qed.

(** *** The embedded node as the listener *)

Definition LISTENER_SETUP : list bytes := [IDENTIFY_PROTOCOL; str NODE_HELLO_PROTOCOL; PING_PROTOCOL].

Definition served_after (k : setup_request) (served : bool) : bool :=
  match k with AskIdentify => true | _ => served end.
Definition verified_after (k : setup_request) (o : option VerifiedPeer) : option VerifiedPeer :=
  match k with SayHello => Some (verified_of remote th) | _ => o end.

(** The substreams used so far, and that none was opened. *)
Definition used (s : Session) : list Duplex := finished s ++ [current s].

(** One turn of the loop that is not over. *)
Lemma inbound_turn fuel k served o s d ac :
  served = false ∨ o = None → accepts s = Ok d :: ac → requests k d →
  ∃ s' d', inbound_handshake_loop node_identity transport_identity config (S fuel) th served o s =
      inbound_handshake_loop node_identity transport_identity config fuel th (served_after k served)
        (verified_after k o) s' ∧
    accepts s' = ac ∧ opens s' = opens s ∧ used s' = used s ++ [d'] ∧ answers_on LISTENER_SETUP k d d'.
Proof.
  intros Hopen Hac Hk. cbn [inbound_handshake_loop].
  assert (∀ (A : Type) (x : VerifiedPeer → A) (y : A),
    (match served, o with true, Some p => x p | _, _ => y end) = y) as ->
    by (by intros; destruct served, o, Hopen).
  unfold OM_bind at 1, accept_substream. rewrite Hac. cbn [negb].
  set (s1 := set_current s ac (opens s) d).
  destruct Hk as (Hk & Hlen).
  destruct (negotiates LISTENER_SETUP _ (asked k) d (setup_protocol_sendable k))
    as (d1 & rest & Hd1 & Hw1 & Hi1 & Ho1); [unfold LISTENER_SETUP; destruct k; set_solver|done|].
  fold LISTENER_SETUP. unfold OM_bind at 1. rewrite (io_of_run _ s1 d1 _ Hd1).
  pose proof setup_named as (_ & _ & Hn1 & Hn2 & Hn3).
  assert (used (set_io s1 d1) = used s ++ [d1]) as Hu by done.
  assert (∀ d2 x, outbound d2 = outbound d1 ++ x →
    outbound d2 = outbound d ++ listener_lines (setup_protocol k) LISTENER_SETUP ++ x) as Hout
    by (intros d2 x ->; by rewrite Ho1, <-app_assoc).
  destruct k as [payload| |]; cbn [setup_protocol] in *.
  - rewrite bool_decide_false, bool_decide_true by done.
    destruct (answer_ping_run payload rest d1 Hlen Hw1 Hi1) as (d2 & Hd2 & Ho2).
    unfold OM_bind at 1, io. cbn [current set_io]. rewrite Hd2. cbn [mbind outcome_bind].
    eexists _, d2. split; [reflexivity|]. split_and!; [done|done|done|by apply Hout].
  - rewrite bool_decide_true by done.
    destruct (send_identify_run identify_frame d1 identify_encoded Hw1) as (d2 & Hd2 & Ho2).
    unfold OM_bind at 1, io. cbn [current set_io]. rewrite Hd2. cbn [mbind outcome_bind].
    eexists _, d2. split; [reflexivity|]. split_and!; [done|done|done|by apply Hout].
  - rewrite bool_decide_false, bool_decide_false, bool_decide_true by done.
    destruct (answer_node_hello_run hello_frame answer_frame d1 rest hello_framed answer_framed Hw1 Hi1)
      as (d2 & Hd2 & _ & Ho2).
    unfold OM_bind at 1, io. cbn [current set_io]. rewrite Hd2. cbn [mbind outcome_bind].
    eexists _, d2. split; [reflexivity|]. split_and!; [done|done|done|by apply Hout].
Qed.

(** The set-up is not over while the identify request or the hello is missing. *)
Lemma inbound_turns ks ds ac fuel served o s :
  (length ks ≤ fuel)%nat → accepts s = map Ok ds ++ ac → Forall2 requests ks ds →
  (served = false ∧ AskIdentify ∉ ks ∨ o = None ∧ SayHello ∉ ks) →
  ∃ s' ds' served' o', inbound_handshake_loop node_identity transport_identity config fuel th served o s =
      inbound_handshake_loop node_identity transport_identity config (fuel - length ks) th served' o' s' ∧
    (served' = false ∨ o' = None) ∧ accepts s' = ac ∧ opens s' = opens s ∧ used s' = used s ++ ds' ∧
    Forall2 (λ p d', answers_on LISTENER_SETUP p.1 p.2 d') (zip ks ds) ds'.
Proof.
  intros Hf Hac Hr. revert fuel served o s Hf Hac. induction Hr as [|k d ks ds Hk Hr IH];
    intros fuel served o s Hf Hac Hmiss.
  { exists s, [], served, o. rewrite Nat.sub_0_r, app_nil_r. split_and!; [done| |done..|constructor]. tauto. }
  destruct fuel as [|fuel]; simpl in Hf; [lia|].
  destruct (inbound_turn fuel k served o s d (map Ok ds ++ ac)) as (s1 & d1 & -> & Hac1 & Hop1 & Hu1 & Ha1);
    [tauto|done|done|].
  destruct (IH fuel (served_after k served) (verified_after k o) s1)
    as (s2 & ds' & served' & o' & -> & Hopen & Hac2 & Hop2 & Hu2 & Ha2); [lia|done| |].
  { destruct Hmiss as [[-> Hn]|[-> Hn]]; apply not_elem_of_cons in Hn as [Hne Hn]; [left|right];
      (split; [by destruct k|done]). }
  exists s2, (d1 :: ds'), served', o'. split_and!; [done|done|done|by rewrite Hop2| |by constructor].
  by rewrite Hu2, Hu1, <-app_assoc.
Qed.

(** A substream of another protocol before both ends the handshake. *)
Lemma inbound_refuses p ks ds d ac fuel s :
  (length ks < fuel)%nat → accepts s = map Ok (ds ++ [d]) ++ ac → Forall2 requests ks ds →
  AskIdentify ∉ ks ∨ SayHello ∉ ks → sendable p → p ∉ LISTENER_SETUP → opened p [] d →
  ∃ s' ds' d', inbound_handshake_loop node_identity transport_identity config fuel th false None s =
      Ret (s', Err UNSUPPORTED) ∧
    opens s' = opens s ∧ used s' = used s ++ ds' ++ [d'] ∧
    Forall2 (λ p d', answers_on LISTENER_SETUP p.1 p.2 d') (zip ks ds) ds' ∧
    outbound d' = outbound d ++ listener_lines p LISTENER_SETUP.
Proof.
  intros Hf Hac Hr Hmiss Hp Hin Hd. rewrite map_app, <-app_assoc in Hac.
  destruct (inbound_turns ks ds _ fuel false None s ltac:(lia) Hac Hr) as
    (s1 & ds' & served & o & -> & Hopen & Hac1 & Hop1 & Hu1 & Ha1); [tauto|].
  destruct (fuel - length ks)%nat as [|k] eqn:Ek; [lia|]. cbn [inbound_handshake_loop].
  assert (∀ (A : Type) (x : VerifiedPeer → A) (y : A),
    (match served, o with true, Some p => x p | _, _ => y end) = y) as ->
    by (by intros; destruct served, o, Hopen).
  unfold OM_bind at 1, accept_substream. simpl in Hac1. rewrite Hac1. cbn [negb]. fold LISTENER_SETUP.
  destruct (refuses LISTENER_SETUP p d Hp Hin Hd) as (d1 & Hd1 & Ho1).
  unfold OM_bind at 1. rewrite (io_of_fails _ (set_current s1 ac (opens s1) d) d1 _ Hd1).
  eexists _, ds', d1. split_and!; [done|by rewrite <-Hop1| |done|done].
  unfold used in *. simpl. by rewrite Hu1, <-app_assoc.
Qed.

Lemma inbound_loop_run ks ds ac fuel served o s :
  (length ks ≤ fuel)%nat → accepts s = map Ok ds ++ ac → Forall2 requests ks ds →
  o = None ∨ o = Some (verified_of remote th) →
  served = true ∨ AskIdentify ∈ ks → is_Some o ∨ SayHello ∈ ks →
  ∃ s' n ds', inbound_handshake_loop node_identity transport_identity config fuel th served o s =
      Ret (s', Ok (Established (verified_of remote th))) ∧
    opens s' = opens s ∧ used s' = used s ++ ds' ∧
    Forall2 (λ p d', answers_on LISTENER_SETUP p.1 p.2 d') (take n (zip ks ds)) ds' ∧
    (o = None → SayHello ∈ take n ks).
Proof.
  intros Hf Hac Hr. revert fuel served o s Hf Hac. induction Hr as [|k d ks ds Hk Hr IH];
    intros fuel served o s Hf Hac Ho Hid Hhe.
  - assert (served = true) as -> by (destruct Hid as [|Hin%not_elem_of_nil]; done).
    destruct Ho as [->| ->]; [destruct Hhe as [[? [=]]|Hin%not_elem_of_nil]; done|].
    exists s, 0%nat, []. split_and!; [by destruct fuel|done|by rewrite app_nil_r|constructor|done].
  - destruct (decide (served = true ∧ is_Some o)) as [[-> [v ->]]|Hopen].
    + destruct Ho as [|[= ->]]; [done|]. exists s, 0%nat, [].
      split_and!; [by destruct fuel|done|by rewrite app_nil_r|constructor|done].
    + destruct fuel as [|fuel]; simpl in Hf; [lia|].
      destruct (inbound_turn fuel k served o s d (map Ok ds ++ ac)) as (s1 & d1 & -> & Hac1 & Hop1 & Hu1 & Ha1);
        [|done|done|].
      { destruct served, o; auto. exfalso. apply Hopen. eauto. }
      destruct (IH fuel (served_after k served) (verified_after k o) s1)
        as (s2 & n & ds' & -> & Hop2 & Hu2 & Ha2 & Hh2); [lia|done| | | |].
      { destruct k; simpl; auto. }
      { destruct Hid as [->|[<-|?]%elem_of_cons]; [left; by destruct k|by left|by right]. }
      { destruct Hhe as [?|[<-|?]%elem_of_cons]; [left; destruct k; [done|done|by eexists]|left; by eexists|by right]. }
      exists s2, (S n), (d1 :: ds'). split_and!; [done|by rewrite Hop2| | |].
      * by rewrite Hu2, Hu1, <-app_assoc.
      * by constructor.
      * intros ->. simpl. apply elem_of_cons. destruct k; [right; by apply Hh2..|by left].
Qed.
End embedded.

(** ** The two of them *)

Section introduction.
Context `{Crypto, !CryptoLaws, UnsignedVarint, !VarintLaws, QuickProtobuf, MultiaddrLib, !Libp2p, Psa, HashOrder}.
Context `{!Postcard NodeHello, !Postcard NodeHelloResponse, !Postcard NodeHelloTranscript, !Postcard NetworkMessage}.
Context `{!PostcardRoundtrip NodeHello, !PostcardRoundtrip NodeHelloResponse}.
Context `{!Postcard SyncRequest, !Postcard SyncResponse, !Postcard AnnounceRequest, !Postcard AnnounceResponse}.
(** The embedded node and the host. *)
Context (node_identity : IdentityManager) (transport_identity : TransportIdentityManager) (config : NetworkConfig).
Context (cfg : HostConfig).
Context (local remote : NodeHello).

(** Both have genuine keys and build their hellos, and the embedded node has the default
    limit on frames, as the host has. *)
Record acquaintance : Prop := {
  acq_identity : ∃ vk, genuine node_identity vk;
  acq_host : ∃ sk, cfg_identity cfg = from_signing_key sk;
  acq_limit : config_max_frame_len config = HostNetwork.DEFAULT_MAX_FRAME_LEN;
  acq_local : local_node_hello node_identity transport_identity config = Ok local;
  acq_remote : build_local_node_hello cfg = Ok remote;
}.

Lemma local_hello_says :
  acquaintance →
  hello_authentic local (peer_id_bytes transport_identity) ∧ hello_peer_id local = peer_id node_identity ∧
  hello_max_blocks_per_chunk local = config_max_blocks_per_chunk config.
Proof.
  intros [[vk Hg] _ _ Hl _]. unfold local_node_hello in Hl.
  pose proof (built_hello_authentic _ _ _ _ _ _ Hg Hl) as Ha. split; [done|].
  unfold build_node_hello, builder_build in Hl. simpl in Hl.
  apply try_Ok in Hl as (tb & _ & Hl). apply try_Ok in Hl as (sb & _ & [= <-]). done.
Qed.

Lemma remote_hello_says :
  acquaintance →
  hello_authentic remote (cfg_transport_peer_id cfg) ∧ hello_peer_id remote = host_peer_id (cfg_identity cfg) ∧
  hello_max_blocks_per_chunk remote = cfg_max_blocks_per_chunk cfg.
Proof.
  intros [_ [sk Hsk] _ _ Hr]. unfold build_local_node_hello in Hr. rewrite Hsk in *.
  split; [by eapply host_hello_authentic|]. unfold host_build in Hr.
  destruct (to_allocvec _) as [tb|]; [|done]. by injection Hr as <-.
Qed.

(** What arrives at an embedded dialer on the substreams it opens to a host: the host's
    identify message, and the answer to its hello. *)
Record host_serves (identify_payload answer_frame : bytes) (s : Session) (last : Duplex) : Prop := {
  hs_opens : ∃ d op, opens s = Ok d :: Ok last :: op ∧ writable d ∧
    ∃ supported frame info rest, IDENTIFY_PROTOCOL ∈ supported ∧
      encode_length_prefixed identify_payload HostNetwork.DEFAULT_MAX_FRAME_LEN = Ok frame ∧
      available (inbound d) = listener_lines IDENTIFY_PROTOCOL supported ++ frame ++ rest ∧
      decode_identify frame = Ret (Ok info) ∧ info_transport_peer_id info = cfg_transport_peer_id cfg;
  hs_writable : writable last;
  hs_answer : ∃ supported rest, str NODE_HELLO_PROTOCOL ∈ supported ∧
    available (inbound last) = listener_lines (str NODE_HELLO_PROTOCOL) supported ++ answer_frame ++ rest;
}.

(** The substreams that the host opens: pings, and then one for the protocol [p]. *)
Record host_opens (p : bytes) (pings : list bytes) (ds : list Duplex) (d : Duplex) (s : Session) : Prop := {
  ho_accepts : ∃ ac, accepts s = map Ok (ds ++ [d]) ++ ac;
  ho_pings : Forall2 (λ payload d, opened PING_PROTOCOL payload d ∧ length payload = PING_SIZE) pings ds;
  ho_sendable : sendable p;
  ho_next : opened p [] d;
}.

Lemma outbound_handshake_run pings ds d identify_payload identify_frame hello_frame answer_frame s last :
  acquaintance →
  encode_identify (build_local_identify config transport_identity) = Ret (Ok identify_frame) →
  write_postcard_frame local HostNetwork.DEFAULT_MAX_FRAME_LEN = Ok hello_frame →
  write_postcard_frame (mkNodeHelloResponse true remote None) HostNetwork.DEFAULT_MAX_FRAME_LEN = Ok answer_frame →
  host_opens IDENTIFY_PROTOCOL pings ds d s → host_serves identify_payload answer_frame s last →
  ∃ s', complete_outbound_handshake node_identity transport_identity config (cfg_transport_peer_id cfg) s =
      Ret (s', Ok (Established (verified_of remote (cfg_transport_peer_id cfg)))) ∧
    outbound (current s') = outbound last ++ dialer_lines (str NODE_HELLO_PROTOCOL) ++ hello_frame.
Proof.
  intros Hacq Hid Hhf Haf [[ac Hac] Hp _ Hd] [(d2 & op & Hop & Hw2 & Hi) Hw (sup & rest & Hsup & Hav)].
  destruct Hi as (sup2 & frame & info & rest2 & Hsup2 & Hf2 & Hav2 & Hdec & Hinfo).
  pose proof (acq_limit Hacq) as Hlim. unfold complete_outbound_handshake, OM_bind at 1, serve_identify_request.
  destruct (serve_identify_run transport_identity config identify_frame pings ds d ac (S (length (accepts s))) s)
    as (s1 & -> & Ho1 & _); [done| |done|done|done|].
  { rewrite Hac, length_app, length_map, length_app. simpl. lia. }
  destruct (request_identify_run config Hlim (cfg_transport_peer_id cfg) sup2 identify_payload frame info s1 d2
    (Ok last :: op) rest2) as (s2 & Hs2 & Ho2); [by rewrite Ho1|done..|].
  unfold OM_bind at 1. rewrite Hs2.
  exact (request_node_hello_run node_identity transport_identity config Hlim local remote _ (acq_local Hacq)
    (proj1 (remote_hello_says Hacq)) sup hello_frame answer_frame s2 last op rest Hhf Haf Hsup Ho2 Hw Hav).
Qed.

Lemma outbound_handshake_refuses p pings ds d t s :
  host_opens p pings ds d s → p ∉ DIALER_SETUP →
  ∃ s', complete_outbound_handshake node_identity transport_identity config t s = Ret (s', Err UNSUPPORTED) ∧
    opens s' = opens s ∧ outbound (current s') = outbound d ++ listener_lines p DIALER_SETUP.
Proof.
  intros [[ac Hac] Hp Hsp Hd] Hin. unfold complete_outbound_handshake, OM_bind at 1, serve_identify_request.
  destruct (serve_identify_refuses transport_identity config p pings ds d ac (S (length (accepts s))) s)
    as (s1 & -> & Ho & Hout); [|done..|by exists s1].
  rewrite Hac, length_app, length_map, length_app. simpl. lia.
Qed.

(** C16: an embedded node dials a host; the first substream that the host opens, apart from
    pings, decides.  If it is an identify request, and the host serves identify and node
    hello, the two introduce themselves to each other: the outbound handshake of the
    embedded node completes; it has then written, after the negotiation, the frame of its
    hello, which the codec of the host reads back; the network manager of the host, given
    that hello, answers with its own and registers the embedded node under its node id, its
    transport and its block limit, telling the node manager; and the frame of that answer
    is what lets the embedded node go on, with the host's node id and limits as those of
    the session's peer.  If it is a substream of any protocol that the set-up does not
    serve, as a substream of the gossipsub that the host runs is, the handshake is over with
    an error before the embedded node has opened a substream: it has not sent its hello. *)
Theorem embedded_dials_host env m channel p pings ds d identify_payload identify_frame hello_frame answer_frame s last :
  acquaintance → events_open env = true → channel_alive env channel = true →
  encode_identify (build_local_identify config transport_identity) = Ret (Ok identify_frame) →
  write_request local = Ok hello_frame →
  write_response (mkNodeHelloResponse true remote None) = Ok answer_frame →
  host_opens p pings ds d s →
  (p = IDENTIFY_PROTOCOL → host_serves identify_payload answer_frame s last → ∃ s' m' peer,
    complete_outbound_handshake node_identity transport_identity config (cfg_transport_peer_id cfg) s =
      Ret (s', Ok (Established peer)) ∧
    verified_node_peer_id peer = host_peer_id (cfg_identity cfg) ∧
    verified_transport_peer_id peer = cfg_transport_peer_id cfg ∧
    verified_max_blocks_per_chunk peer = cfg_max_blocks_per_chunk cfg ∧
    outbound (current s') = outbound last ++ dialer_lines (str NODE_HELLO_PROTOCOL) ++ hello_frame ∧
    (∀ rest e, read_request (mkStream (hello_frame ++ rest) e) = Ok (local, mkStream rest e)) ∧
    network_step cfg env m
      (InEvent (EvNodeHello (RrRequest (peer_id_bytes transport_identity) local channel))) = Ret (m', Ok tt) ∧
    swarm m' = swarm m ++ [RespondHello channel (mkNodeHelloResponse true remote None)] ∧
    introduced (peer_id node_identity) (peer_id_bytes transport_identity) (config_max_blocks_per_chunk config) m' ∧
    told (peer_id node_identity) (peer_id_bytes transport_identity) m m') ∧
  (p ∉ DIALER_SETUP → ∃ s',
    complete_outbound_handshake node_identity transport_identity config (cfg_transport_peer_id cfg) s =
      Ret (s', Err UNSUPPORTED) ∧
    opens s' = opens s ∧ outbound (current s') = outbound d ++ listener_lines p DIALER_SETUP).
Proof.
  intros Hacq He Hc Hid Hhf Haf Ho. split; [intros -> Hs|by eapply outbound_handshake_refuses].
  destruct (outbound_handshake_run pings ds d identify_payload identify_frame hello_frame answer_frame s last
    Hacq Hid Hhf Haf Ho Hs) as (s' & Hrun & Hout).
  destruct (local_hello_says Hacq) as (Hla & <- & <-). destruct (remote_hello_says Hacq) as (_ & <- & <-).
  destruct (host_takes_hello cfg env m _ local channel remote He Hc Hla (acq_remote Hacq))
    as (m' & Hm & Hsw & Hi & Ht).
  exists s', m', (verified_of remote (cfg_transport_peer_id cfg)).
  split_and!; try done. intros rest e. by apply host_reads.
Qed.

(** C17: a host dials an embedded node and opens substreams for pings, identify requests
    and hellos, in whatever order.  Once there is an identify request and the host's hello
    among them, the two have introduced themselves to each other: the inbound handshake of
    the embedded node completes with the host's node id and limits; every request it took
    was answered on its own substream, the hello with the frame of the embedded node's
    hello, which the codec of the host reads back; and the network manager of the host,
    given that answer, registers the embedded node under its node id, its transport and its
    block limit.  If a substream of any other protocol comes while the identify request or
    the hello is still missing, as a substream of the gossipsub that the host runs does when
    it is opened with the connection (the hello follows only on the identify message), the
    handshake is over with an error, with the requests before it answered and that
    substream refused. *)
Theorem host_dials_embedded env m request_id ks ds ac identify_frame hello_frame answer_frame s :
  acquaintance → events_open env = true →
  encode_identify (build_local_identify config transport_identity) = Ret (Ok identify_frame) →
  write_request remote = Ok hello_frame →
  write_response (mkNodeHelloResponse true local None) = Ok answer_frame →
  accepts s = map Ok ds ++ ac → Forall2 (requests hello_frame) ks ds →
  (AskIdentify ∈ ks → SayHello ∈ ks → ∃ s' m' peer n ds',
    complete_inbound_handshake node_identity transport_identity config (cfg_transport_peer_id cfg) s =
      Ret (s', Ok (Established peer)) ∧
    verified_node_peer_id peer = host_peer_id (cfg_identity cfg) ∧
    verified_max_blocks_per_chunk peer = cfg_max_blocks_per_chunk cfg ∧
    used s' = used s ++ ds' ∧ SayHello ∈ take n ks ∧
    Forall2 (λ p d', answers_on identify_frame answer_frame LISTENER_SETUP p.1 p.2 d') (take n (zip ks ds)) ds' ∧
    (∀ rest e, read_response (mkStream (answer_frame ++ rest) e) =
       Ok (mkNodeHelloResponse true local None, mkStream rest e)) ∧
    network_step cfg env m
      (InEvent (EvNodeHello (RrResponse (peer_id_bytes transport_identity) request_id
         (mkNodeHelloResponse true local None)))) = Ret (m', Ok tt) ∧
    introduced (peer_id node_identity) (peer_id_bytes transport_identity) (config_max_blocks_per_chunk config) m' ∧
    told (peer_id node_identity) (peer_id_bytes transport_identity) m m') ∧
  (∀ p d ac', AskIdentify ∉ ks ∨ SayHello ∉ ks → ac = Ok d :: ac' →
    sendable p → p ∉ LISTENER_SETUP → opened p [] d → ∃ s' ds' d',
    complete_inbound_handshake node_identity transport_identity config (cfg_transport_peer_id cfg) s =
      Ret (s', Err UNSUPPORTED) ∧
    used s' = used s ++ ds' ++ [d'] ∧
    Forall2 (λ p d', answers_on identify_frame answer_frame LISTENER_SETUP p.1 p.2 d') (zip ks ds) ds' ∧
    outbound d' = outbound d ++ listener_lines p LISTENER_SETUP).
Proof.
  intros Hacq He Hid Hhf Haf Hac Hk. pose proof (Forall2_length _ _ _ Hk) as Hlen.
  destruct (local_hello_says Hacq) as (Hla & <- & <-). destruct (remote_hello_says Hacq) as (Hra & <- & <-).
  split.
  - intros Hki Hkh.
    destruct (inbound_loop_run node_identity transport_identity config (acq_limit Hacq) local remote _ (acq_local Hacq)
      Hra identify_frame hello_frame answer_frame Hid Hhf Haf ks ds ac (S (length (accepts s))) false None s)
      as (s' & n & ds' & Hrun & _ & Hu & Hans & Hn); [|done|done|by left|by right|by right|].
    { rewrite Hac, length_app, length_map, Hlen. lia. }
    destruct (host_takes_answer cfg env m _ local request_id He Hla) as (m' & Hm & _ & Hi & Ht).
    exists s', m', (verified_of remote (cfg_transport_peer_id cfg)), n, ds'.
    split_and!; try done; [by apply Hn|]. intros rest e. by apply host_reads.
  - intros p d ac' Hmiss -> Hp Hin Hd.
    destruct (inbound_refuses node_identity transport_identity config (acq_limit Hacq) local remote _ (acq_local Hacq)
      Hra identify_frame hello_frame answer_frame Hid Hhf Haf p ks ds d ac' (S (length (accepts s))) s)
      as (s' & ds' & d' & Hrun & _ & Hu & Hans & Hout); [| |done..|by exists s', ds', d'].
    + rewrite Hac, length_app, length_map, Hlen. lia.
    + by rewrite Hac, map_app, <-app_assoc.
Qed.
End introduction.

(** ** Two embedded nodes

    The embedded dialer waits for a request of the listener before it opens a substream,
    and the embedded listener only takes requests. *)

Section pair.
Context `{Crypto, UnsignedVarint, QuickProtobuf, MultiaddrLib, !Libp2p, Psa}.
Context `{!Postcard NodeHello, !Postcard NodeHelloResponse, !Postcard NodeHelloTranscript}.
Context (node_identity : IdentityManager) (transport_identity : TransportIdentityManager) (config : NetworkConfig).

(** A computation that opens no substream. *)
Definition opens_none {A} (m : OM Session Erp.RuntimeError A) : Prop :=
  ∀ s s' r, m s = Ret (s', r) → opens s' = opens s.

Lemma opens_none_bind {A B} (m : OM Session Erp.RuntimeError A) (k : A → OM Session Erp.RuntimeError B) :
  opens_none m → (∀ a, opens_none (k a)) → opens_none (OM_bind m k).
Proof.
  intros Hm Hk s s' r [(e & Hr & _)|(s1 & a & Hr1 & Hr2)]%OM_bind_cases; [by eapply Hm|].
  rewrite (Hk _ _ _ _ Hr2). by eapply Hm.
Qed.

Lemma opens_none_ret {A} (a : A) : opens_none (OM_ret a).
Proof. by intros s s' r [= <- <-]. Qed.

Lemma opens_none_fail {A} e : opens_none (A:=A) (OM_fail e).
Proof. by intros s s' r [= <- <-]. Qed.

Lemma opens_none_io {A} (m : OIO A) : opens_none (io m).
Proof. intros s s' r. unfold io. destruct (m (current s)) as [[d x]| |]; [|done..]. by intros [= <- <-]. Qed.

Lemma opens_none_accept : opens_none accept_substream.
Proof. intros s s' r. unfold accept_substream. destruct (accepts s) as [|[d|e] ac]; by intros [= <- <-]. Qed.

Create HintDb opens.
#[local] Hint Resolve opens_none_bind opens_none_ret opens_none_fail opens_none_io opens_none_accept : opens.

Lemma inbound_loop_opens_none fuel t served o :
  opens_none (inbound_handshake_loop node_identity transport_identity config fuel t served o).
Proof.
  revert served o. induction fuel as [|fuel IH]; intros served o; cbn [inbound_handshake_loop].
  { destruct served, o; try done. apply opens_none_ret. }
  assert (∀ m, opens_none m → opens_none
    (match served, o with true, Some peer => OM_ret (Established peer) | _, _ => m end)) as Hm
    by (intros m ?; destruct served, o; auto with opens).
  apply Hm. apply opens_none_bind; [auto with opens|]. intros []; cbn [negb]; [|auto with opens].
  apply opens_none_bind; [auto with opens|]. intros p.
  repeat case_bool_decide; auto with opens. apply opens_none_bind; [auto with opens|]. intros []; auto with opens.
Qed.

(** Two embedded nodes wait for each other: while the peer opens no substream, the dialer
    opens none either and its handshake can only end with an error; and the handshake of
    a listener, whatever happens in it, opens none. *)
Theorem embedded_nodes_wait t s s' r :
  (accepts s = [] →
     complete_outbound_handshake node_identity transport_identity config t s =
       Ret (s, Err (Erp.Config "remote closed the connection before requesting identify"))) ∧
  (complete_inbound_handshake node_identity transport_identity config t s = Ret (s', r) → opens s' = opens s).
Proof.
  split.
  - intros Hac. unfold complete_outbound_handshake, OM_bind at 1, serve_identify_request. rewrite Hac. simpl.
    unfold OM_bind at 1, accept_substream. by rewrite Hac.
  - apply inbound_loop_opens_none.
Qed.
End pair.

(** ** Witnesses *)

Module IntroductionsWitness.
Import ToyCrypto Leb128 ToyProtobuf ToyMultiaddr TransportWitness IdentityWitness NodeHelloWitness.
Import NoiseWitness HandshakeWitness EngineRuns HostNetworkWitness.
#[local] Existing Instance bare_chip.

#[local] Instance capabilities_eq_dec : EqDecision PeerCapabilities.
Proof. solve_decision. Defined.
#[local] Instance hello_eq_dec : EqDecision NodeHello.
Proof. solve_decision. Defined.

(** The embedded node and the host. *)
Definition config : NetworkConfig := NetworkConfig_default.
Definition me : TransportIdentityManager := id_of fresh_key.
Definition host : HostConfig :=
  mkHostConfig [] HostNetwork.DEFAULT_MAX_FRAME_LEN HostNetwork.DEFAULT_MAX_BLOCKS_PER_CHUNK
    (from_signing_key host_key) (peer_id_bytes (id_of other_key)).

Definition blank : NodeHello := mkNodeHello 0 [] [] [] 0 0 all_capabilities [].
Definition ok_or_blank {E} (r : result NodeHello E) : NodeHello := match r with Ok h => h | Err _ => blank end.
Definition mine : NodeHello := ok_or_blank (local_node_hello producer me config).
Definition theirs : NodeHello := ok_or_blank (build_local_node_hello host).

(** A wire format that knows the two hellos. *)
Definition hello_byte (h : NodeHello) : option bytes :=
  if bool_decide (h = mine) then Some [x01] else if bool_decide (h = theirs) then Some [x02] else None.
Definition byte_hello (b : bytes) : option NodeHello :=
  match b with [x01] => Some mine | [x02] => Some theirs | _ => None end.
#[local] Instance hellos : Postcard NodeHello := {| to_allocvec := hello_byte; postcard_from_bytes := byte_hello |}.
#[local] Instance responses : Postcard NodeHelloResponse :=
  {| to_allocvec r :=
       match r with mkNodeHelloResponse true h None => hello_byte h | _ => None end;
     postcard_from_bytes b := h ← byte_hello b; Some (mkNodeHelloResponse true h None) |}.
#[local] Instance hellos_roundtrip : PostcardRoundtrip NodeHello.
Proof.
  intros h f. cbn [to_allocvec postcard_from_bytes hellos]. unfold hello_byte.
  repeat case_bool_decide; intros Hf; simplify_eq; done.
Qed.
#[local] Instance responses_roundtrip : PostcardRoundtrip NodeHelloResponse.
Proof.
  intros [[] h []] f Hf; cbn [to_allocvec responses] in Hf; try discriminate Hf.
  cbn [postcard_from_bytes responses]. pose proof (hellos_roundtrip h f Hf : byte_hello f = Some h) as E. by rewrite E.
Qed.
#[local] Instance no_announce : Postcard AnnounceRequest := {| to_allocvec _ := None; postcard_from_bytes _ := None |}.
#[local] Instance no_announced : Postcard AnnounceResponse := {| to_allocvec _ := None; postcard_from_bytes _ := None |}.
#[local] Instance no_ask : Postcard SyncRequest := {| to_allocvec _ := None; postcard_from_bytes _ := None |}.
#[local] Instance no_sync : Postcard SyncResponse := {| to_allocvec _ := None; postcard_from_bytes _ := None |}.

Lemma met : acquaintance producer me config host mine theirs.
Proof.
  split; [exists producer_key; apply (proj1 (software_genuine producer_signing_key))|by eexists|reflexivity|..];
    vm_compute; reflexivity.
Qed.

(** What the host sends. *)
Definition frame_of {E} (r : result bytes E) : bytes := match r with Ok b => b | Err _ => [] end.
Definition identify_frame (id : TransportIdentityManager) : bytes :=
  match encode_identify (build_local_identify config id) with Ret (Ok b) => b | _ => [] end.
Definition their_identify : bytes :=
  match erp_decode_length_prefix (identify_frame (id_of other_key)) HostNetwork.DEFAULT_MAX_FRAME_LEN with
  | Ok (_, payload) => payload
  | Err _ => []
  end.
Definition incoming (b : bytes) : Duplex := mkDuplex (mkStream b eof) [] [].
Definition ping : bytes := replicate PING_SIZE x05.

Definition last : Duplex :=
  incoming (listener_lines (str NODE_HELLO_PROTOCOL) [str NODE_HELLO_PROTOCOL] ++
    frame_of (write_response (mkNodeHelloResponse true theirs None))).
Definition dialing : Session :=
  mkSession [Ok (incoming (dialer_lines PING_PROTOCOL ++ ping)); Ok (incoming (dialer_lines IDENTIFY_PROTOCOL))]
    [Ok (incoming (listener_lines IDENTIFY_PROTOCOL [IDENTIFY_PROTOCOL] ++ identify_frame (id_of other_key))); Ok last]
    [] [] [] [] [] (incoming []) [].

Definition their_info : IdentifyInfo := build_local_identify config (id_of other_key).

Lemma host_is_served :
  host_serves host their_identify (frame_of (write_response (mkNodeHelloResponse true theirs None))) dialing last.
Proof.
  split.
  - eexists _, []. split; [reflexivity|]. split; [constructor|].
    exists [IDENTIFY_PROTOCOL], (identify_frame (id_of other_key)), their_info, [].
    split; [by left|]. split; [vm_compute; reflexivity|]. split; [by rewrite app_nil_r|].
    split; vm_compute; reflexivity.
  - constructor.
  - exists [str NODE_HELLO_PROTOCOL], []. split; [by left|]. by rewrite app_nil_r.
Qed.

(** A protocol of gossipsub. *)
Definition MESHSUB : bytes := str "/meshsub/1.1.0".

Lemma meshsub_sendable : sendable MESHSUB ∧ (MESHSUB ∉ DIALER_SETUP) ∧ (MESHSUB ∉ LISTENER_SETUP).
Proof. split_and!; [by vm_compute..| |]; apply (bool_decide_eq_false_1 _); vm_compute; reflexivity. Qed.

(** The host opens a ping and then a substream for a protocol. *)
Definition dialed (p : bytes) : Session :=
  mkSession [Ok (incoming (dialer_lines PING_PROTOCOL ++ ping)); Ok (incoming (dialer_lines p))] (opens dialing)
    [] [] [] [] [] (incoming []) [].

Lemma host_opened p :
  sendable p → host_opens p [ping] [incoming (dialer_lines PING_PROTOCOL ++ ping)] (incoming (dialer_lines p)) (dialed p).
Proof.
  intros Hp. split; [by exists []| |done|].
  - constructor; [|constructor]. split; [|reflexivity]. split; [constructor|]. exists []. reflexivity.
  - split; [constructor|]. exists []. cbn [incoming inbound available]. by rewrite !app_nil_r.
Qed.

Lemma my_frames :
  encode_identify (build_local_identify config me) = Ret (Ok (identify_frame me)) ∧
  write_request mine = Ok (frame_of (write_request mine)) ∧
  write_response (mkNodeHelloResponse true theirs None) =
    Ok (frame_of (write_response (mkNodeHelloResponse true theirs None))).
Proof. split; [|split]; vm_compute; reflexivity. Qed.

Lemma embedded_dials_host_witness :
  (∃ s' m' peer,
    complete_outbound_handshake producer me config (cfg_transport_peer_id host) (dialed IDENTIFY_PROTOCOL) =
      Ret (s', Ok (Established peer)) ∧
    verified_node_peer_id peer = host_peer_id (cfg_identity host) ∧
    introduced (peer_id producer) (peer_id_bytes me) (config_max_blocks_per_chunk config) m') ∧
  ∃ s', complete_outbound_handshake producer me config (cfg_transport_peer_id host) (dialed MESHSUB) =
    Ret (s', Err UNSUPPORTED).
Proof.
  destruct my_frames as (Hf1 & Hf2 & Hf3).
  pose proof (λ p Hp, embedded_dials_host producer me config host mine theirs open_env (network_start host) 1 p [ping]
    [incoming (dialer_lines PING_PROTOCOL ++ ping)] (incoming (dialer_lines p))
    their_identify (identify_frame me) (frame_of (write_request mine))
    (frame_of (write_response (mkNodeHelloResponse true theirs None))) (dialed p) last met eq_refl eq_refl
    Hf1 Hf2 Hf3 (host_opened p Hp)) as Hd.
  split.
  - destruct (proj1 (Hd IDENTIFY_PROTOCOL (proj1 setup_sendable)) eq_refl) as
      (s' & m' & peer & Hrun & Hid & _ & _ & _ & _ & _ & _ & Hi & _).
    + destruct host_is_served as [Ho Hw Ha]. split; [exact Ho|exact Hw|exact Ha].
    + exists s', m', peer. split; [exact Hrun|]. split; [exact Hid|exact Hi].
  - destruct (proj2 (Hd MESHSUB (proj1 meshsub_sendable)) (proj1 (proj2 meshsub_sendable))) as (s' & Hrun & _).
    by exists s'.
Defined.

(** The host says hello, pings, asks for identify. *)
Definition hello_in : bytes := frame_of (write_request theirs).
Definition streams : list Duplex :=
  [incoming (dialer_lines (str NODE_HELLO_PROTOCOL) ++ hello_in); incoming (dialer_lines PING_PROTOCOL ++ ping);
   incoming (dialer_lines IDENTIFY_PROTOCOL)].
Definition listening : Session := mkSession (map Ok streams) [] [] [] [] [] [] (incoming []) [].

(** The host asks for identify and opens a substream of gossipsub. *)
Definition gossiping : Session :=
  mkSession [Ok (incoming (dialer_lines IDENTIFY_PROTOCOL)); Ok (incoming (dialer_lines MESHSUB))]
    [] [] [] [] [] [] (incoming []) [].

Lemma host_dials_embedded_witness :
  (∃ s' m' peer,
    complete_inbound_handshake producer me config (cfg_transport_peer_id host) listening = Ret (s', Ok (Established peer)) ∧
    verified_node_peer_id peer = host_peer_id (cfg_identity host) ∧
    introduced (peer_id producer) (peer_id_bytes me) (config_max_blocks_per_chunk config) m') ∧
  ∃ s', complete_inbound_handshake producer me config (cfg_transport_peer_id host) gossiping = Ret (s', Err UNSUPPORTED).
Proof.
  split.
  - destruct (host_dials_embedded producer me config host mine theirs open_env (network_start host) 1
      [SayHello; AskPing ping; AskIdentify] streams [] (identify_frame me) hello_in
      (frame_of (write_response (mkNodeHelloResponse true mine None))) listening met eq_refl) as [Hok _];
      [vm_compute; reflexivity..|by rewrite app_nil_r| |].
    + repeat constructor; exists []; rewrite app_nil_r; reflexivity.
    + destruct Hok as (s' & m' & peer & n & ds' & Hrun & Hid & _ & _ & _ & _ & _ & _ & Hi & _);
        [by do 2 right; left|by left|].
      exists s', m', peer. split; [exact Hrun|]. split; [exact Hid|exact Hi].
  - destruct meshsub_sendable as (Hm1 & _ & Hm3).
    destruct (host_dials_embedded producer me config host mine theirs open_env (network_start host) 1
      [AskIdentify] [incoming (dialer_lines IDENTIFY_PROTOCOL)] [Ok (incoming (dialer_lines MESHSUB))]
      (identify_frame me) hello_in
      (frame_of (write_response (mkNodeHelloResponse true mine None))) gossiping met eq_refl) as [_ Hbad];
      [vm_compute; reflexivity..| |].
    + repeat constructor; exists []; rewrite app_nil_r; reflexivity.
    + destruct (Hbad MESHSUB (incoming (dialer_lines MESHSUB)) []) as (s' & ds' & d' & Hrun & _);
        [right; by intros Hin%list_elem_of_singleton|reflexivity|exact Hm1|exact Hm3| |by exists s'].
      split; [constructor|]. exists []. cbn [incoming inbound available]. by rewrite !app_nil_r.
Defined.
End IntroductionsWitness.
