(* ===== verification/HostStart.v ===== *)
(** * Start-up of the host node

    Models [run] and [runtime_data_dir] of rp-runtime/src/main.rs up to the start of the
    tasks, [new] of rp-runtime/src/storage/manager.rs, and [new], [new_with_config] and
    [build_swarm] of rp-runtime/src/network/manager.rs.  The machine keeps files and
    databases, may fail any call of the operating system or of libp2p with a message,
    and records the calls in their order. *)

From S2P Require Import Prelude.
From S2P Require Import Text.
From S2P Require Import Crypto.
From S2P Require Import Models.
From S2P Require Import State.
From S2P Require Import Chain.
From S2P Require Import Messages.
From S2P Require Import Engine.
From S2P Require Import EngineSafety.
From S2P Require Import EngineWitness.
From S2P Require Import Errors.
From S2P Require Import Framing.
From S2P Require Import Identity.
From S2P Require Import NodeHello.
From S2P Require Import Runtime.
From S2P Require Import Storage.
From S2P Require Import HostNetwork.
From S2P Require Import TransportIdentity.
From S2P Require Import Identify.
From S2P Require Import NetConfig.
From S2P Require Import HostNode.

(** ** The machine *)

(** A path: what the environment names, and the names joined to it. *)
Definition Path : Type := bytes * list string.
Definition path_join (p : Path) (name : string) : Path := (p.1, p.2 ++ [name]).

Section start.
Context `{Target, Crypto, !Libp2p, MultiaddrLib}.
Context `{!Postcard Block, !Postcard NetworkMessage, !Postcard NodeHelloTranscript, !HashOrder}.
(** [SigningKey::to_bytes], and the name under which a multiaddr is dialed. *)
Context (key_to_bytes : SigningKey → bytes) (address_name : Multiaddr → string).

Inductive HostCall : Type :=
| CreateDir (p : Path)
| ReadFile (p : Path)
| WriteFile (p : Path)
| OpenDatabase (p : Path)
| OpenTree (name : string)
| TransportSetup
| BehaviourSetup
| ListenOn (address : Multiaddr)
| Subscribe (topic : string).

(** A call that fails: the message, and what a failed write leaves in the file. *)
Record Failure : Type := mkFailure {
  failure_message : string;
  failure_leaves : option bytes;
}.

Record Machine : Type := mkMachine {
  machine_files : gmap Path bytes;
  machine_databases : gmap Path SledStorage;
  machine_failures : nat → option Failure;
  machine_calls : list HostCall;
}.

Abbreviation HM := (OM Machine Host.RuntimeError).

Definition next_failure (h : Machine) : option Failure := machine_failures h (length (machine_calls h)).
Definition record_calls (h : Machine) (cs : list HostCall) : Machine :=
  mkMachine (machine_files h) (machine_databases h) (machine_failures h) (machine_calls h ++ cs).
Definition set_files (h : Machine) f : Machine :=
  mkMachine f (machine_databases h) (machine_failures h) (machine_calls h).

(** A call whose error becomes [RuntimeError::io_other]. *)
Definition os (c : HostCall) : HM unit := λ h,
  Ret (record_calls h [c],
       match next_failure h with
       | None => Ok tt
       | Some f => Err (Host.io_other (failure_message f))
       end).

(** ** Identities *)

Definition NODE_IDENTITY_FILE : string := "node_identity.bin".
Definition TRANSPORT_IDENTITY_FILE : string := "transport_identity.bin".

(** A failed [fs::write] leaves what it leaves. *)
Definition torn (p : Path) (failure : option Failure) (files : gmap Path bytes) : gmap Path bytes :=
  match failure with
  | Some (mkFailure _ (Some b)) => <[p := b]> files
  | _ => files
  end.

(** [HostNodeIdentity::load_or_create] on the file. *)
Definition node_identity_at (p : Path) (random : SigningKey) : HM HostNodeIdentity := λ h,
  let failure := next_failure h in
  let status A (a : A) : result A string :=
    match failure with None => Ok a | Some f => Err (failure_message f) end in
  match machine_files h !! p with
  | Some b =>
      let h := record_calls h [ReadFile p] in
      Ret (h, let! r := load_or_create key_to_bytes (Some (status _ b)) random (Ok tt) in Ok r.1)
  | None =>
      let h := record_calls h [WriteFile p] in
      match load_or_create key_to_bytes None random (status _ tt) with
      | Ok (id, written) =>
          Ret (match written with Some b => set_files h (<[p := b]> (machine_files h)) | None => h end, Ok id)
      | Err e => Ret (set_files h (torn p failure (machine_files h)), Err e)
      end
  end.

(** [HostTransportIdentity::load_or_create] on the file. *)
Definition transport_identity_at (p : Path) (generated : Keypair) : HM (HostTransportIdentity * Keypair) := λ h,
  let failure := next_failure h in
  let before := machine_files h !! p in
  let called :=
    match before, keypair_to_protobuf generated with
    | Some _, _ => [ReadFile p]
    | None, Some _ => [WriteFile p]
    | None, None => []
    end in
  let '(f, r) :=
    host_transport_load_or_create generated (mkKeyFile before (failure_message <$> failure)) in
  let h := record_calls h called in
  let files :=
    match before, r with
    | None, Ok _ => partial_alter (λ _, file_contents f) p (machine_files h)
    | None, Err _ => if bool_decide (called = []) then machine_files h else torn p failure (machine_files h)
    | Some _, _ => machine_files h
    end in
  Ret (set_files h files, r).

(** ** The storage *)

(** [SledStorage::new]: the database and its three trees. *)
Definition SledStorage_new (p : Path) : HM SledStorage :=
  let^ _ := os (OpenDatabase p) in
  let^ _ := os (OpenTree META_TREE) in
  let^ _ := os (OpenTree BLOCKS_TREE) in
  let^ _ := os (OpenTree SNAPSHOTS_TREE) in
  λ h,
    let db := default (device ∅) (machine_databases h !! p) in
    Ret (mkMachine (machine_files h) (<[p := db]> (machine_databases h)) (machine_failures h) (machine_calls h),
         Ok db).

(** ** The network manager *)

Definition GOSSIPSUB_ANNOUNCE_TOPIC : string := "rust-proof/announce".
Definition HOST_IDENTIFY_AGENT_VERSION : string := "rp-runtime/0.1.0".
Definition GOSSIPSUB_HEARTBEAT_SECS : Z := 10.

(** What [build_swarm] configures: the key of the noise transport, which also names the
    node in kademlia and signs gossip, the identify message, the strict validation and the
    heartbeat of gossipsub, the timeouts, the protocols of the three request-response
    behaviours, and the address; then the topics subscribed to. *)
Record SwarmConfig : Type := mkSwarmConfig {
  swarm_keypair : Keypair;
  swarm_kademlia_peer : bytes;
  swarm_gossip_key : Keypair;
  swarm_gossip_strict : bool;
  swarm_protocol_version : bytes;
  swarm_agent_version : string;
  swarm_heartbeat_secs : Z;
  swarm_ping_timeout_secs : Z;
  swarm_request_protocols : list (bytes * Z);
  swarm_idle_timeout_secs : Z;
  swarm_listens_on : Multiaddr;
  swarm_topics : list string;
}.

Definition build_swarm (transport_keypair : Keypair) (config : HostNetworkConfig) : HM SwarmConfig :=
  let^ _ := os TransportSetup in
  let^ _ := os BehaviourSetup in
  let^ _ := os (ListenOn (host_listen_addr config)) in
  let timeout := request_timeout_secs config in
  OM_ret (mkSwarmConfig transport_keypair (public_peer_id (keypair_public transport_keypair)) transport_keypair
            true IDENTIFY_PROTOCOL_VERSION HOST_IDENTIFY_AGENT_VERSION GOSSIPSUB_HEARTBEAT_SECS timeout
            [(str NODE_HELLO_PROTOCOL, timeout); (SYNC_PROTOCOL, timeout); (ANNOUNCE_PROTOCOL, timeout)]
            (idle_timeout_secs config) (host_listen_addr config) []).

Definition subscribe (swarm : SwarmConfig) (topic : string) : HM SwarmConfig :=
  let^ _ := os (Subscribe topic) in
  OM_ret (mkSwarmConfig (swarm_keypair swarm) (swarm_kademlia_peer swarm) (swarm_gossip_key swarm)
            (swarm_gossip_strict swarm) (swarm_protocol_version swarm) (swarm_agent_version swarm)
            (swarm_heartbeat_secs swarm) (swarm_ping_timeout_secs swarm) (swarm_request_protocols swarm)
            (swarm_idle_timeout_secs swarm) (swarm_listens_on swarm) (swarm_topics swarm ++ [topic])).

(** The keys the process would generate. *)
Record Fresh : Type := mkFresh {
  fresh_signing_key : SigningKey;
  fresh_transport_key : Keypair;
}.

Definition new_with_config (fresh : Fresh) (data_dir : Path) (config : HostNetworkConfig) :
    HM (HostConfig * SwarmConfig) :=
  let^ _ := os (CreateDir data_dir) in
  let^ node_identity := node_identity_at (path_join data_dir NODE_IDENTITY_FILE) (fresh_signing_key fresh) in
  let^ transport :=
    transport_identity_at (path_join data_dir TRANSPORT_IDENTITY_FILE) (fresh_transport_key fresh) in
  let^ swarm := build_swarm transport.2 config in
  let^ swarm := subscribe swarm GOSSIPSUB_ANNOUNCE_TOPIC in
  OM_ret (mkHostConfig (map address_name (bootstrap_addrs config)) (host_max_frame_len config)
            (host_max_blocks_per_chunk config) node_identity (host_peer_id_bytes transport.1), swarm).

Definition NetworkManager_new_in (env : NetConfig.Env) (fresh : Fresh) (data_dir : Path) :
    HM (HostConfig * SwarmConfig) :=
  let^ config := OM_lift (from_env env) in
  new_with_config fresh data_dir config.

(** ** [run] *)

Definition runtime_data_dir (env : NetConfig.Env) : result Path Host.RuntimeError :=
  Ok (default (str "data/rp-runtime") (env "RP_RUNTIME_DATA_DIR"), []).

Record HostStarted : Type := mkHostStarted {
  started_config : HostConfig;
  started_swarm : SwarmConfig;
  started_node : HostNode (S := SledStorage);
}.

Definition host_run (env : NetConfig.Env) (fresh : Fresh) (now_ms : Z) : HM HostStarted :=
  let^ data_dir := OM_of (λ h, (h, runtime_data_dir env)) in
  let^ _ := os (CreateDir data_dir) in
  let^ blockchain := λ h, r ← Blockchain_new; Ret (h, map_err Host.Node r) in
  let node_engine := NodeEngine_new blockchain in
  let^ storage := SledStorage_new (path_join data_dir "sled") in
  let^ network := NetworkManager_new_in env fresh data_dir in
  OM_ret (mkHostStarted network.1 network.2 (host_node_start network.1 node_engine storage now_ms)).

(** ** What survives a restart *)

Context `{!CryptoLaws, !Libp2pLaws}.
(** [SigningKey::to_bytes] is the 32-byte scalar that [SigningKey::from_slice] reads. *)
Context (key_length : ∀ k, length (key_to_bytes k) = 32%nat).
Context (key_from_to : ∀ k, signing_key_from_bytes (key_to_bytes k) = Ok k).

(** A machine on which nothing fails. *)
Definition quiet (h : Machine) : Prop := ∀ n, machine_failures h n = None.

Lemma os_quiet c h : quiet h → os c h = Ret (record_calls h [c], Ok tt).
Proof. intros Hq. unfold os, next_failure. by rewrite Hq. Qed.

Lemma os_then {A} c (k : unit → HM A) h : quiet h → OM_bind (os c) k h = k tt (record_calls h [c]).
Proof. intros Hq. unfold OM_bind. by rewrite os_quiet. Qed.

Lemma os_Ok c h h' u : os c h = Ret (h', Ok u) → h' = record_calls h [c].
Proof. unfold os. by intros [= <- _]. Qed.

(** The file holds the key. *)
Definition keeps_node_key (p : Path) (sk : SigningKey) (h : Machine) : Prop :=
  ∃ b, machine_files h !! p = Some b ∧ length b = 32%nat ∧ signing_key_from_bytes b = Ok sk.
Definition keeps_transport_key (p : Path) (kp : Keypair) (h : Machine) : Prop :=
  ∃ b, machine_files h !! p = Some b ∧ keypair_from_protobuf b = Some kp.

(** What a step may do to the machine: write one file. *)
Record touches (p : Path) (h h' : Machine) : Prop := {
  touches_databases : machine_databases h' = machine_databases h;
  touches_files q : q ≠ p → machine_files h' !! q = machine_files h !! q;
}.

Lemma node_identity_at_Ok p random h h' id :
  node_identity_at p random h = Ret (h', Ok id) →
  ∃ sk, id = from_signing_key sk ∧ keeps_node_key p sk h' ∧ touches p h h'.
Proof.
  unfold node_identity_at, load_or_create. destruct (machine_files h !! p) as [b|] eqn:Ef.
  - destruct (next_failure h); [done|]. simpl. case_bool_decide as Hl; [|done].
    destruct (signing_key_from_bytes b) as [sk|] eqn:Es; [|done]. intros [= <- <-].
    exists sk. split; [done|]. split; [by exists b|by split].
  - destruct (next_failure h); [done|]. intros [= <- <-]. exists random. split; [done|]. split.
    + exists (key_to_bytes random). simpl. by rewrite lookup_insert_eq.
    + split; [done|]. intros q Hq. simpl. by rewrite lookup_insert_ne.
Qed.

Lemma node_identity_at_found p random sk h :
  quiet h → keeps_node_key p sk h →
  node_identity_at p random h = Ret (record_calls h [ReadFile p], Ok (from_signing_key sk)).
Proof.
  intros Hq (b & Hf & Hl & Hs). unfold node_identity_at, next_failure. rewrite Hf, Hq. simpl.
  by rewrite bool_decide_true, Hs.
Qed.

Lemma transport_identity_at_Ok p generated h h' id kp :
  transport_identity_at p generated h = Ret (h', Ok (id, kp)) →
  host_peer_id_bytes id = public_peer_id (keypair_public kp) ∧ keeps_transport_key p kp h' ∧ touches p h h'.
Proof.
  unfold transport_identity_at, host_transport_load_or_create. simpl.
  destruct (machine_files h !! p) as [b|] eqn:Ef.
  - destruct (next_failure h); [done|]. simpl. destruct (keypair_from_protobuf b) as [k|] eqn:Ek; [|done].
    intros [= <- <- <-]. split; [done|]. split; [by exists b|by split].
  - destruct (keypair_to_protobuf generated) as [b|] eqn:Eb; [|done]. destruct (next_failure h); [done|].
    simpl. intros [= <- <- <-]. split; [done|]. split.
    + exists b. simpl. rewrite lookup_partial_alter_eq. by rewrite (keypair_from_to _ _ Eb).
    + split; [done|]. intros q Hq. simpl. by rewrite lookup_partial_alter_ne.
Qed.

Lemma transport_identity_at_found p generated kp h :
  quiet h → keeps_transport_key p kp h →
  ∃ h', transport_identity_at p generated h =
      Ret (h', Ok (mkHostTransportIdentity (public_peer_id (keypair_public kp)), kp)) ∧
    machine_files h' = machine_files h ∧ machine_databases h' = machine_databases h ∧ quiet h'.
Proof.
  intros Hq (b & Hf & Hk). unfold transport_identity_at, host_transport_load_or_create, next_failure.
  rewrite Hf, Hq. simpl. rewrite Hk. eexists. by split_and!.
Qed.

Definition data_dir_of (env : NetConfig.Env) : Path := (default (str "data/rp-runtime") (env "RP_RUNTIME_DATA_DIR"), []).
Definition node_file (env : NetConfig.Env) : Path := path_join (data_dir_of env) NODE_IDENTITY_FILE.
Definition transport_file (env : NetConfig.Env) : Path := path_join (data_dir_of env) TRANSPORT_IDENTITY_FILE.
Definition database (env : NetConfig.Env) : Path := path_join (data_dir_of env) "sled".

Lemma files_differ env : node_file env ≠ transport_file env.
Proof. by intros [=]. Qed.

(** The node that keys, a configuration and a stored chain make. *)
Definition config_of (config : HostNetworkConfig) (sk : SigningKey) (kp : Keypair) : HostConfig :=
  mkHostConfig (map address_name (bootstrap_addrs config)) (host_max_frame_len config)
    (host_max_blocks_per_chunk config) (from_signing_key sk) (public_peer_id (keypair_public kp)).
Definition swarm_of (config : HostNetworkConfig) (kp : Keypair) : SwarmConfig :=
  let timeout := request_timeout_secs config in
  mkSwarmConfig kp (public_peer_id (keypair_public kp)) kp true IDENTIFY_PROTOCOL_VERSION HOST_IDENTIFY_AGENT_VERSION GOSSIPSUB_HEARTBEAT_SECS timeout
    [(str NODE_HELLO_PROTOCOL, timeout); (SYNC_PROTOCOL, timeout); (ANNOUNCE_PROTOCOL, timeout)]
    (idle_timeout_secs config) (host_listen_addr config) [GOSSIPSUB_ANNOUNCE_TOPIC].
Definition started_of (config : HostNetworkConfig) (sk : SigningKey) (kp : Keypair) (blockchain : Blockchain)
    (db : SledStorage) (now_ms : Z) : HostStarted :=
  mkHostStarted (config_of config sk kp) (swarm_of config kp)
    (host_node_start (config_of config sk kp) (NodeEngine_new blockchain) db now_ms).

(** The database a machine has at a path. *)
Definition database_at (p : Path) (h : Machine) : SledStorage := default (device ∅) (machine_databases h !! p).

Ltac om_inv :=
  repeat match goal with
  | H : OM_bind _ _ _ = Ret (_, Ok _) |- _ => apply OM_bind_Ok in H as (? & ? & ? & H)
  | H : os _ _ = Ret (_, Ok _) |- _ => apply os_Ok in H
  | H : OM_ret _ _ = Ret (_, Ok _) |- _ => injection H as <- <-
  end.

Lemma new_with_config_Ok fresh dir config h h' r :
  new_with_config fresh dir config h = Ret (h', Ok r) →
  ∃ sk kp, r = (config_of config sk kp, swarm_of config kp) ∧
    keeps_node_key (path_join dir NODE_IDENTITY_FILE) sk h' ∧
    keeps_transport_key (path_join dir TRANSPORT_IDENTITY_FILE) kp h'.
Proof.
  unfold new_with_config, build_swarm, subscribe. intros Hr. om_inv.
  match goal with Hn : node_identity_at _ _ _ = _ |- _ =>
    apply node_identity_at_Ok in Hn as (sk & -> & (b & Hb & Hl & Hs) & _) end.
  match goal with Ht : transport_identity_at _ _ _ = Ret (_, Ok ?x) |- _ =>
    destruct x as [id kp]; apply transport_identity_at_Ok in Ht as (Hid & Hk & [_ Hf]) end.
  subst. exists sk, kp. split_and!; [by unfold config_of; rewrite <-Hid| |exact Hk].
  exists b. split_and!; [|done..]. simpl. rewrite Hf; [done|]. by intros [= ?%app_inj_2%proj2]; simplify_eq.
Qed.

Lemma host_run_Ok env fresh now_ms h h' st :
  host_run env fresh now_ms h = Ret (h', Ok st) →
  ∃ config sk kp blockchain,
    from_env env = Ret (Ok config) ∧ Blockchain_new = Ret (Ok blockchain) ∧
    st = started_of config sk kp blockchain (database_at (database env) h) now_ms ∧
    keeps_node_key (node_file env) sk h' ∧ keeps_transport_key (transport_file env) kp h'.
Proof.
  unfold host_run, SledStorage_new, NetworkManager_new_in. intros Hr.
  apply OM_bind_Ok in Hr as (h1 & dir & [= <- <-] & Hr). om_inv.
  match goal with Hb : (r ← Blockchain_new; _) = _ |- _ => apply bind_Ret in Hb as ([bc|e] & Hbc & [= <- <-]) end.
  match goal with Hd : Ret _ = Ret _ |- _ => injection Hd as <- <- end.
  match goal with Hl : OM_lift _ _ = _ |- _ => apply OM_lift_Ok in Hl as [Henv ->] end.
  match goal with Hn : new_with_config _ _ _ _ = _ |- _ => apply new_with_config_Ok in Hn as (sk & kp & -> & Hn & Ht) end.
  subst. eexists _, sk, kp, bc. split_and!; [exact Henv|exact Hbc|done|done|done].
Qed.

Lemma quiet_calls h cs : quiet h → quiet (record_calls h cs).
Proof. done. Qed.

Lemma new_with_config_found fresh dir config sk kp h :
  quiet h → keeps_node_key (path_join dir NODE_IDENTITY_FILE) sk h →
  keeps_transport_key (path_join dir TRANSPORT_IDENTITY_FILE) kp h →
  ∃ h', new_with_config fresh dir config h = Ret (h', Ok (config_of config sk kp, swarm_of config kp)) ∧
    machine_files h' = machine_files h ∧ machine_databases h' = machine_databases h.
Proof.
  intros Hq Hn Ht. unfold new_with_config, OM_bind at 1. rewrite os_quiet by done.
  unfold OM_bind at 1. rewrite (node_identity_at_found _ _ sk) by done.
  destruct (transport_identity_at_found (path_join dir TRANSPORT_IDENTITY_FILE) (fresh_transport_key fresh) kp
    (record_calls (record_calls h [CreateDir dir]) [ReadFile (path_join dir NODE_IDENTITY_FILE)]))
    as (h1 & Hh1 & Hf1 & Hd1 & Hq1); [done..|].
  unfold OM_bind at 1. rewrite Hh1. unfold OM_bind at 1, build_swarm. rewrite !os_then by done.
  unfold OM_bind at 1, subscribe. cbn [OM_ret]. rewrite !os_then by done.
  eexists. split; [reflexivity|]. simpl. by rewrite Hf1, Hd1.
Qed.

(** A machine that keeps the keys starts the node they make. *)
Lemma host_run_found env fresh now_ms h config sk kp blockchain :
  quiet h → from_env env = Ret (Ok config) → Blockchain_new = Ret (Ok blockchain) →
  keeps_node_key (node_file env) sk h → keeps_transport_key (transport_file env) kp h →
  ∃ h', host_run env fresh now_ms h =
      Ret (h', Ok (started_of config sk kp blockchain (database_at (database env) h) now_ms)) ∧
    machine_files h' = machine_files h ∧ database_at (database env) h' = database_at (database env) h.
Proof.
  intros Hq He Hb Hn Ht. unfold host_run, OM_bind at 1, OM_of, runtime_data_dir. fold (data_dir_of env).
  unfold OM_bind at 1. rewrite os_quiet by done. unfold OM_bind at 1. rewrite Hb. cbn [mbind outcome_bind map_err].
  fold (database env). unfold OM_bind at 1, SledStorage_new. rewrite !os_then by done.
  match goal with |- context [OM_bind _ _ ?x] => set (h1 := x) end.
  destruct (new_with_config_found fresh (data_dir_of env) config sk kp h1) as (h2 & Hr & Hf & Hd); [done..|].
  unfold OM_bind, NetworkManager_new_in, OM_bind, OM_lift. rewrite He. cbn [mbind outcome_bind]. rewrite Hr.
  exists h2. split; [done|]. rewrite Hf. split; [done|].
  unfold database_at. rewrite Hd. simpl. by rewrite lookup_insert_eq.
Qed.

(** C36: a host node keeps its identities.  A start that succeeds yields a node whose node
    id and transport id are those of the keys its data directory now holds, that listens
    where the environment says and speaks the node hello, sync and announce protocols of
    the embedded runtime with the configured timeout, with an engine that has the genesis
    block only and the database of the directory.  Started again from the same files, with
    whatever keys it would have generated, in whatever state the database is by then, the
    host has the same node id, transport id, limits and swarm, and the files do not
    change. *)
Theorem host_restart_keeps_identity env fresh now_ms h h' st :
  host_run env fresh now_ms h = Ret (h', Ok st) →
  ∃ config sk kp blockchain,
    from_env env = Ret (Ok config) ∧ Blockchain_new = Ret (Ok blockchain) ∧
    started_config st = config_of config sk kp ∧ started_swarm st = swarm_of config kp ∧
    (swarm_request_protocols (started_swarm st)).*1 = [str NODE_HELLO_PROTOCOL; SYNC_PROTOCOL; ANNOUNCE_PROTOCOL] ∧
    started_node st = host_node_start (started_config st) (NodeEngine_new blockchain)
                        (database_at (database env) h) now_ms ∧
    ∀ fresh2 now2 h2, quiet h2 → machine_files h2 = machine_files h' →
      ∃ h3 st2, host_run env fresh2 now2 h2 = Ret (h3, Ok st2) ∧
        started_config st2 = started_config st ∧ started_swarm st2 = started_swarm st ∧
        hn_store (started_node st2) = database_at (database env) h2 ∧ machine_files h3 = machine_files h2.
Proof.
  intros (config & sk & kp & bc & He & Hb & -> & Hn & Ht)%host_run_Ok.
  exists config, sk, kp, bc. split_and!; try done. intros fresh2 now2 h2 Hq Hf.
  destruct (host_run_found env fresh2 now2 h2 config sk kp bc) as (h3 & Hr & Hf3 & _); [done..| | |].
  - unfold keeps_node_key. by rewrite Hf.
  - unfold keeps_transport_key. by rewrite Hf.
  - exists h3. eexists. split_and!; [exact Hr|done..].
Qed.
End start.

(** ** Witness *)

Module HostStartWitness.
Import ToyCrypto ToyMultiaddr TransportWitness NodeHelloWitness EngineRuns StorageWitness HostNetworkWitness.
#[local] Existing Instance dev_host.

Definition key_bytes (k : SigningKey) : bytes := replicate 31 x00 ++ [k].
Definition name_of (m : Multiaddr) : string := String.string_of_list_byte m.

Lemma key_bytes_length k : length (key_bytes k) = 32%nat.
Proof. done. Qed.
Lemma key_bytes_read k : signing_key_from_bytes (key_bytes k) = Ok k.
Proof. done. Qed.

(** A new machine, with one bootstrap peer in the environment. *)
Definition env : NetConfig.Env := λ name,
  if bool_decide (name = "RP_RUNTIME_BOOTSTRAP_PEERS"%string) then Some (str "/ip4/10.0.0.9/tcp/4001") else None.
Definition new_machine : Machine := mkMachine ∅ ∅ (λ _, None) [].
Definition first_keys : Fresh := mkFresh (x0d : SigningKey) fresh_key.
Definition other_keys : Fresh := mkFresh (x0e : SigningKey) other_key.

(** The machine, with no failures to come. *)
Definition calm_machine (h : Machine) : Machine :=
  mkMachine (machine_files h) (machine_databases h) (λ _, None) (machine_calls h).

Definition starts : bool :=
  match host_run key_bytes name_of env first_keys 7 new_machine with
  | Ret (_, Ok _) => true
  | _ => false
  end.
Lemma it_starts : starts = true.
Proof. vm_compute. reflexivity. Qed.

Lemma host_restart_keeps_identity_witness :
  ∃ h1 st1 h2 st2, host_run key_bytes name_of env first_keys 7 new_machine = Ret (h1, Ok st1) ∧
    host_run key_bytes name_of env other_keys 8 (calm_machine h1) = Ret (h2, Ok st2) ∧
    started_config st2 = started_config st1.
Proof.
  pose proof it_starts as Hs. unfold starts in Hs.
  destruct (host_run key_bytes name_of env first_keys 7 new_machine) as [[h1 [st1|e]]| |] eqn:E; [|discriminate Hs..].
  destruct (host_restart_keeps_identity key_bytes name_of key_bytes_length key_bytes_read env first_keys 7
    new_machine h1 st1 E) as (config & sk & kp & bc & _ & _ & _ & _ & _ & _ & Hagain).
  destruct (Hagain other_keys 8 (calm_machine h1)) as (h2 & st2 & Hr & Hc & _); [by intros n|reflexivity|].
  exists h1, st1, h2, st2. split; [reflexivity|]. split; [exact Hr|exact Hc].
Defined.
End HostStartWitness.
