(* ===== verification/Supervisor.v ===== *)
(** * How the runtimes end

    Models the part of rp-runtime/src/main.rs and of erp-runtime/src/runtime/host.rs that
    waits for the four tasks of a runtime: the node manager, the network manager, the
    storage manager and the wake manager.  A task that returns drops its channel ends, so
    that sends to it fail and it sends nothing any more; the others go on.  The host joins
    all tasks with [try_join!]; the embedded runtime joins the thread of the node manager
    first, and then the thread in which [join!] waits for the other three. *)

From S2P Require Import Prelude.
From S2P Require Import Maps.
From S2P Require Import Crypto.
From S2P Require Import Models.
From S2P Require Import State.
From S2P Require Import Chain.
From S2P Require Import Messages.
From S2P Require Import Engine.
From S2P Require Import EngineSafety.
From S2P Require Import EngineWitness.
From S2P Require Import Errors.
From S2P Require Import Runtime.
From stdpp Require Import functions.

(** ** Tasks *)

Inductive Manager : Type := MNetwork | MStorage | MWake.

#[export] Instance manager_eq_dec : EqDecision Manager.
Proof. solve_decision. Defined.

(** [by_itself]: the task failed in its own work, not because another one is gone. *)
Inductive Task (E : Type) : Type :=
| Running
| Finished
| Failed (by_itself : bool) (error : E).
Arguments Running {E}.
Arguments Finished {E}.
Arguments Failed {E} _ _.

Section system.
Context `{Target, Crypto, !Postcard NetworkMessage}.

Definition busy_of (k : Manager) (b : Busy) : list RuntimeEvent :=
  match k with
  | MNetwork => network_busy b
  | MStorage => storage_busy b
  | MWake => wake_busy b
  end.

Definition silence (k : Manager) (b : Busy) : Busy :=
  match k with
  | MNetwork => mkBusy [] (storage_busy b) (wake_busy b)
  | MStorage => mkBusy (network_busy b) [] (wake_busy b)
  | MWake => mkBusy (network_busy b) (storage_busy b) []
  end.

(** A channel whose receiver is dropped. *)
Definition ch_close {A} (c : Channel A) : Channel A := mkChannel [] (ch_capacity c) false.

Definition mailbox_open (k : Manager) (o : Outboxes) : bool :=
  match k with
  | MNetwork => ch_open (network_tx o)
  | MStorage => ch_open (storage_tx o)
  | MWake => ch_open (wake_tx o)
  end.

Definition mailbox_empty (k : Manager) (o : Outboxes) : Prop :=
  match k with
  | MNetwork => ch_queue (network_tx o) = []
  | MStorage => ch_queue (storage_tx o) = []
  | MWake => ch_queue (wake_tx o) = []
  end.

Definition close_mailbox (k : Manager) (o : Outboxes) : Outboxes :=
  match k with
  | MNetwork => mkOutboxes (ch_close (network_tx o)) (storage_tx o) (wake_tx o)
  | MStorage => mkOutboxes (network_tx o) (ch_close (storage_tx o)) (wake_tx o)
  | MWake => mkOutboxes (network_tx o) (storage_tx o) (ch_close (wake_tx o))
  end.

(** What is dropped with the node manager, and with one of the others. *)
Definition stop_node (rt : Runtime) : Runtime :=
  mkRuntime (rt_engine rt) [] (ch_close (rt_events rt)) (rt_out rt) (rt_busy rt).
Definition stop_manager (k : Manager) (rt : Runtime) : Runtime :=
  mkRuntime (rt_engine rt) (rt_todo rt) (rt_events rt) (close_mailbox k (rt_out rt))
    (silence k (rt_busy rt)).

Definition node_acts (l : label) : bool :=
  match l with LHandle _ _ | LAction _ => true | _ => false end.

(** The errors of the runtime: of a send to each manager, and of an event; and whether
    [run] itself keeps a sender of events. *)
Section run.
Context {E : Type} (network_err storage_err wake_err event_err : E) (keeps_event_tx : bool).

Record System : Type := mkSystem {
  sys_rt : Runtime;
  node_task : Task E;
  manager_task : Manager → Task E;
}.

Definition send_err (k : Manager) : E :=
  match k with MNetwork => network_err | MStorage => storage_err | MWake => wake_err end.

Inductive sys_step : System → System → Prop :=
(** the tasks that run work; one that has ended does nothing *)
| sys_work rt l rt' node ms :
    rt_step rt l rt' → (node_acts l = true → node = Running) →
    (∀ k, ms k ≠ Running → busy_of k (rt_busy rt') = []) →
    sys_step (mkSystem rt node ms) (mkSystem rt' node ms)
(** [self.handle_action(action).await?] fails *)
| sys_node_fails rt a todo e ms :
    rt_todo rt = a :: todo → handle_action network_err storage_err wake_err (rt_out rt) a = Ready (Err e) →
    sys_step (mkSystem rt Running ms) (mkSystem (stop_node rt) (Failed false e) ms)
(** [self.event_rx] yields [None]: it is drained and no sender is left *)
| sys_node_done rt ms :
    keeps_event_tx = false → rt_todo rt = [] → ch_queue (rt_events rt) = [] → (∀ k, ms k ≠ Running) →
    sys_step (mkSystem rt Running ms) (mkSystem (stop_node rt) Finished ms)
(** [event_tx.send(..).await.map_err(RuntimeError::event_send)?] fails *)
| sys_event_fails rt k ev evs node ms :
    ms k = Running → busy_of k (rt_busy rt) = ev :: evs → ch_send (rt_events rt) ev = Ready (Err tt) →
    sys_step (mkSystem rt node ms) (mkSystem (stop_manager k rt) node (<[k := Failed false event_err]> ms))
(** the command channel of a manager yields [None]: it is drained and the node manager gone *)
| sys_manager_done rt k node ms :
    ms k = Running → node ≠ Running → busy_of k (rt_busy rt) = [] → mailbox_empty k (rt_out rt) →
    sys_step (mkSystem rt node ms) (mkSystem (stop_manager k rt) node (<[k := Finished]> ms))
(** the network or the storage fails; the wake managers have no failure of their own *)
| sys_manager_fails rt k e node ms :
    ms k = Running → k ≠ MWake →
    sys_step (mkSystem rt node ms) (mkSystem (stop_manager k rt) node (<[k := Failed true e]> ms)).

Definition sys_start (rt : Runtime) : System := mkSystem rt Running (λ _, Running).

(** ** What [run] returns *)

Fixpoint first_failure (ts : list (Task E)) : option E :=
  match ts with
  | Failed _ e :: _ => Some e
  | _ :: ts => first_failure ts
  | [] => None
  end.

Definition is_running (t : Task E) : bool := match t with Running => true | _ => false end.

Definition managers : list Manager := [MNetwork; MStorage; MWake].

(** [try_join!] returns the first error, or else waits for all. *)
Definition try_join (ts : list (Task E)) : option (result unit E) :=
  match first_failure ts with
  | Some e => Some (Err e)
  | None => if existsb is_running ts then None else Some (Ok tt)
  end.

(** [join!] waits for all; then [network_res?; storage_res?; wake_res?]. *)
Definition run_io_runtime (ts : list (Task E)) : option (result unit E) :=
  if existsb is_running ts then None
  else Some match first_failure ts with Some e => Err e | None => Ok tt end.

Definition host_result (s : System) : option (result unit E) :=
  try_join (node_task s :: map (manager_task s) managers).

(** [runtime_handle.join()??; io_handle.join()??] *)
Definition erp_result (s : System) : option (result unit E) :=
  match node_task s with
  | Running => None
  | Failed _ e => Some (Err e)
  | Finished => run_io_runtime (map (manager_task s) managers)
  end.

(** The process goes on as long as [run] has not returned. *)
Definition lives (returned : System → option (result unit E)) (s s' : System) : Prop :=
  returned s = None ∧ sys_step s s'.

(** ** While the node manager runs, the others end only by their own failures *)

Record healthy (s : System) : Prop := {
  healthy_node : node_task s = Running;
  healthy_events : ch_open (rt_events (sys_rt s)) = true;
  healthy_boxes k : mailbox_open k (rt_out (sys_rt s)) = is_running (manager_task s k);
  healthy_managers k : manager_task s k = Running ∨ k ≠ MWake ∧ ∃ e, manager_task s k = Failed true e;
}.

Lemma ch_send_Err {A} (c : Channel A) x r : ch_send c x = Ready (Err r) → ch_open c = false.
Proof. unfold ch_send. destruct (ch_open c); simpl; [by case_bool_decide|done]. Qed.

(** An action fails only because the manager it is for has ended. *)
Lemma handle_action_Err o a e :
  handle_action network_err storage_err wake_err o a = Ready (Err e) →
  ∃ k, e = send_err k ∧ mailbox_open k o = false.
Proof.
  destruct a; simpl; try done; unfold send_network, send_storage, send_wake, poll_map;
    (destruct (ch_send _ _) as [[]|] eqn:Hs; [done| |done]); intros [= <-]; apply ch_send_Err in Hs;
    first [by exists MNetwork|by exists MStorage|by exists MWake].
Qed.

Lemma ch_pop_open {A} (c c' : Channel A) x : ch_pop c = Some (x, c') → ch_open c' = ch_open c.
Proof. unfold ch_pop. destruct (ch_queue c); naive_solver. Qed.

Lemma ch_send_open {A} (c c' : Channel A) x : ch_send c x = Ready (Ok c') → ch_open c' = ch_open c.
Proof. unfold ch_send. destruct (ch_open c) eqn:Ho; simpl; [case_bool_decide; naive_solver|done]. Qed.

Lemma handle_action_open {F} (ne se we : F) o a o' k :
  handle_action ne se we o a = Ready (Ok o') → mailbox_open k o' = mailbox_open k o.
Proof.
  destruct a; simpl; try (by intros [= <-]); unfold send_network, send_storage, send_wake, poll_map;
    (destruct (ch_send _ _) as [[]|] eqn:Hs; [|done..]); intros [= <-]; apply ch_send_open in Hs;
    by destruct k; simpl.
Qed.

(** No step of a task opens or closes a channel. *)
Lemma rt_step_open rt l rt' :
  rt_step rt l rt' → ch_open (rt_events rt') = ch_open (rt_events rt) ∧
    ∀ k, mailbox_open k (rt_out rt') = mailbox_open k (rt_out rt).
Proof.
  destruct 1; simpl; (split; [|intros k]); try done;
    try (by eapply ch_pop_open); try (by eapply ch_send_open); try (by eapply handle_action_open);
    destruct k; simpl; try done; by eapply ch_pop_open.
Qed.

Lemma mailbox_closed k j o : mailbox_open j (close_mailbox k o) = if decide (k = j) then false else mailbox_open j o.
Proof. by destruct k, j. Qed.

(** What a step leads to: the node manager has failed to reach one of the others, which
    had failed by itself, or it runs on. *)
Lemma healthy_step s s' :
  healthy s → sys_step s s' →
  healthy s' ∨ ∃ k e, node_task s' = Failed false (send_err k) ∧ manager_task s' = manager_task s ∧
                      manager_task s k = Failed true e.
Proof.
  intros [Hn He Hb Hm] Hs. destruct Hs as [rt l rt' node ms Hr|rt a todo e ms _ Ha|rt ms _ _ _ Hk
    |rt k ev evs node ms _ _ Hev|rt k node ms _ Hnode|rt k e node ms Hk Hw]; simpl in *.
  - apply rt_step_open in Hr as [Hr1 Hr2]. left. split; simpl; [done|by rewrite Hr1| |done].
    intros k. by rewrite Hr2.
  - right. apply handle_action_Err in Ha as (k & -> & Hk). rewrite Hb in Hk.
    destruct (Hm k) as [Hr|(_ & e' & Hf)]; [by rewrite Hr in Hk|]. by exists k, e'.
  - destruct (Hm MWake) as [Hr|[]]; [by destruct (Hk MWake)|done].
  - apply ch_send_Err in Hev. congruence.
  - done.
  - left. split; simpl; [done|done| |]; intros j.
    + rewrite mailbox_closed. destruct (decide (k = j)) as [<-|]; [by rewrite fn_lookup_insert|].
      rewrite fn_lookup_insert_ne by done. apply Hb.
    + destruct (decide (k = j)) as [<-|]; [|by rewrite fn_lookup_insert_ne].
      rewrite fn_lookup_insert. right. eauto.
Qed.

Lemma healthy_start rt :
  ch_open (rt_events rt) = true → (∀ k, mailbox_open k (rt_out rt) = true) → healthy (sys_start rt).
Proof. intros He Hb. split; simpl; auto. Qed.

(** A system that ran until [run] returned has just stopped being healthy, or is healthy. *)
Lemma healthy_until (returned : System → option (result unit E)) s0 s :
  (∀ s b e, node_task s = Failed b e → returned s ≠ None) →
  healthy s0 → rtc (lives returned) s0 s →
  healthy s ∨ ∃ s1 k e, healthy s1 ∧ returned s1 = None ∧ node_task s = Failed false (send_err k) ∧
                        manager_task s = manager_task s1 ∧ manager_task s k = Failed true e.
Proof.
  intros Hret Hh0 Hs. induction Hs as [s|s0 s1 s [Hr Hs] Hss IH]; [by left|].
  destruct (healthy_step _ _ Hh0 Hs) as [Hh|(k & e & Hn & Hm & Hk)]; [by apply IH|].
  right. inversion Hss as [|? s2 ? [Hr2 _] _]; subst.
  - exists s0, k, e. rewrite Hm. done.
  - by destruct (Hret _ _ _ Hn).
Qed.

(** Which error comes out. *)
Lemma first_failure_managers s e :
  healthy s → first_failure (map (manager_task s) managers) = Some e →
  ∃ k, k ≠ MWake ∧ manager_task s k = Failed true e.
Proof.
  intros [_ _ _ Hm]. simpl. destruct (Hm MWake) as [->|[]]; [|done].
  destruct (Hm MNetwork) as [->|(? & e1 & Hn)]; [|rewrite Hn; intros [= <-]; by exists MNetwork].
  destruct (Hm MStorage) as [->|(? & e2 & Hn)]; [done|rewrite Hn; intros [= <-]; by exists MStorage].
Qed.

Lemma host_result_healthy s :
  healthy s →
  host_result s = match first_failure (map (manager_task s) managers) with
                  | Some e => Some (Err e)
                  | None => None
                  end.
Proof. intros [Hn _ _ _]. unfold host_result, try_join. simpl. by rewrite Hn. Qed.

Lemma host_result_failed s b e : node_task s = Failed b e → host_result s ≠ None.
Proof. unfold host_result, try_join. simpl. by intros ->. Qed.

Lemma erp_result_failed s b e : node_task s = Failed b e → erp_result s ≠ None.
Proof. unfold erp_result. by intros ->. Qed.

Lemma host_exit s0 s r :
  healthy s0 → rtc (lives host_result) s0 s → host_result s = Some r →
  ∃ k e, r = Err e ∧ k ≠ MWake ∧ manager_task s k = Failed true e.
Proof.
  intros Hh0 Hs Hr.
  destruct (healthy_until _ _ _ host_result_failed Hh0 Hs) as [Hh|(s1 & k & e & Hh & Hn & _ & Hm & Hk)].
  - rewrite host_result_healthy in Hr by done. destruct (first_failure _) as [e|] eqn:Hf; [|done].
    injection Hr as <-. apply first_failure_managers in Hf as (k & Hk & Hf); [|done]. by exists k, e.
  - rewrite host_result_healthy in Hn by done. rewrite Hm in Hk.
    simpl in Hn. destruct k; rewrite ?Hk in Hn; repeat case_match; done.
Qed.

Lemma erp_exit s0 s r :
  healthy s0 → rtc (lives erp_result) s0 s → erp_result s = Some r →
  ∃ k e, r = Err (send_err k) ∧ k ≠ MWake ∧ manager_task s k = Failed true e.
Proof.
  intros Hh0 Hs Hr.
  destruct (healthy_until _ _ _ erp_result_failed Hh0 Hs) as [Hh|(s1 & k & e & Hh & _ & Hn & Hm & Hk)].
  - unfold erp_result in Hr. by rewrite (healthy_node _ Hh) in Hr.
  - unfold erp_result in Hr. rewrite Hn in Hr. injection Hr as <-. exists k, e. split_and!; [done| |done].
    rewrite Hm in Hk. by destruct (healthy_managers _ Hh k) as [|[]]; congruence.
Qed.
End run.

(** ** The two runtimes *)

Definition ERP_EVENT_CHANNEL_CAPACITY : nat := 32.
Definition ERP_NETWORK_CHANNEL_CAPACITY : nat := 32.
Definition ERP_STORAGE_CHANNEL_CAPACITY : nat := 32.
Definition ERP_WAKE_CHANNEL_CAPACITY : nat := 8.

Definition host_system : System (E:=Host.RuntimeError) → System → Prop :=
  lives Host.network_send Host.storage_send Host.wake_send Host.event_send false host_result.
Definition host_system_start (e : NodeEngine) : System (E:=Host.RuntimeError) := sys_start (host_start e).

(** [run] of the embedded runtime holds the first sender of events until it returns. *)
Definition erp_system : System (E:=Erp.RuntimeError) → System → Prop :=
  lives (Erp.network_send Erp.Disconnected) (Erp.storage_send Erp.Disconnected)
    (Erp.wake_send Erp.Disconnected) (Erp.event_send Erp.Disconnected) true erp_result.
(** Each sender of a channel of [futures] has a slot of its own: the commands have one
    sender, and [run] and the three managers send events (so do the session workers, each
    with a slot of its own while it is there: ErpNode.v). *)
Definition erp_system_start (e : NodeEngine) : System (E:=Erp.RuntimeError) :=
  sys_start (rt_start (ERP_EVENT_CHANNEL_CAPACITY + 4) (ERP_NETWORK_CHANNEL_CAPACITY + 1)
               (ERP_STORAGE_CHANNEL_CAPACITY + 1) (ERP_WAKE_CHANNEL_CAPACITY + 1) e).

(** A peer connects, the network manager fails, and then the node manager asks for blocks. *)
Lemma lost_network_run e e' p m from to wake err :
  handle_event e (EvPeerConnected p) = Ret (e', [ReportEvent m; RequestBlocks p from to] ++ wake) →
  ∃ s, rtc erp_system (erp_system_start e) s ∧ erp_result s = Some (Err (Erp.network_send Erp.Disconnected)) ∧
    manager_task s MNetwork = Failed true err.
Proof.
  intros Hh. eexists (mkSystem _ (Failed _ _) _). split.
  - eapply rtc_l; [split; [done|]|].
    { by eapply sys_work; [apply (step_swarm _ _ _ _ [EvPeerConnected p])|..]. }
    eapply rtc_l; [split; [done|]|].
    { eapply sys_work; [apply step_post_network, ch_send_room|done..].
      unfold ERP_EVENT_CHANNEL_CAPACITY. simpl. lia. }
    eapply rtc_l; [split; [done|]|].
    { by eapply sys_work; [eapply step_handle; [done|exact Hh]|..]. }
    eapply rtc_l; [split; [done|]|].
    { by eapply sys_work; [by apply step_action|..]. }
    eapply rtc_l; [split; [done|]|].
    { by apply (sys_manager_fails _ _ _ _ _ _ MNetwork err). }
    eapply rtc_once. split; [done|]. by eapply sys_node_fails.
  - done.
Qed.

(** C40: why a runtime ends.  Neither runtime ever returns without an error.  The host returns
    as soon as its network or its storage manager fails, and what it returns is that very
    failure.  The embedded runtime goes on without a manager that has failed until the node
    manager has a command for it, and then returns that a command could not be sent to the
    manager that had failed. *)
Theorem runtime_exit_reason e0 :
  (∀ s r, rtc host_system (host_system_start e0) s → host_result s = Some r →
     ∃ k e, r = Err e ∧ k ≠ MWake ∧ manager_task s k = Failed true e) ∧
  (∀ s r, rtc erp_system (erp_system_start e0) s → erp_result s = Some r →
     ∃ channel e, r = Err (Erp.ChannelSend channel Erp.Disconnected) ∧
       (channel = ChNetwork ∧ manager_task s MNetwork = Failed true e ∨
        channel = ChStorage ∧ manager_task s MStorage = Failed true e)) ∧
  (∀ e, ∃ s, rtc erp_system (erp_system_start e0) s ∧ manager_task s MNetwork = Failed true e ∧
     node_task s = Running ∧ erp_result s = None).
Proof.
  assert (∀ {E} ec nc sc wc, healthy (E:=E) (sys_start (rt_start ec nc sc wc e0))) as Hstart.
  { intros. apply healthy_start; [done|by intros []]. }
  split_and!; [intros s r Hs Hr..|intros e].
  - eapply host_exit; [apply Hstart|exact Hs|exact Hr].
  - eapply erp_exit in Hr as (k & e & -> & Hk & Hf); [|apply Hstart|exact Hs].
    destruct k; [exists ChNetwork, e|exists ChStorage, e|done]; split; try done; auto.
  - eexists (mkSystem _ Running _). split.
    + apply rtc_once. split; [done|]. by apply (sys_manager_fails _ _ _ _ _ _ MNetwork e).
    + done.
Qed.
End system.

(** ** Witnesses *)

Module SupervisorWitness.
Import ToyCrypto ModelsWitness ChainWitness EngineRuns.
#[local] Existing Instance dev_host.

Definition lost : Erp.RuntimeError := Erp.Esp 12289.

(** A peer connects, the wifi is lost, and then the node manager asks for blocks. *)
Lemma runtime_exit_reason_witness :
  ∃ s r, rtc erp_system (erp_system_start e0) s ∧ erp_result s = Some r ∧
    r = Err (Erp.network_send Erp.Disconnected) ∧ manager_task s MNetwork = Failed true lost ∧
    ∃ channel e, r = Err (Erp.ChannelSend channel Erp.Disconnected) ∧
       (channel = ChNetwork ∧ manager_task s MNetwork = Failed true e ∨
        channel = ChStorage ∧ manager_task s MStorage = Failed true e).
Proof.
  destruct (peer_connected_actions e0 [x07] genesis) as (e' & m & from & to & wake & Hh & _).
  { apply (get_latest_block_tree fresh genesis). unfold tree_blocks. cbn [chain fresh head_hash].
    by rewrite lookup_fmap, lookup_singleton_eq. }
  destruct (lost_network_run _ _ _ _ _ _ _ lost Hh) as (s & Hs & Hr & Hf).
  exists s, (Err (Erp.network_send Erp.Disconnected)). split_and!; [done..|].
  by apply (runtime_exit_reason e0).
Defined.
End SupervisorWitness.
