(* ===== verification/Startup.v ===== *)
(** * Start-up of the embedded node

    Models [run] and [create_wifi] of erp-runtime/src/runtime/host.rs up to the start of the
    threads, and [new], [ensure_wifi_connected] and the beginning of [run] of
    erp-runtime/src/network/manager.rs.  The calls of esp-idf are answered by the board: each
    call gets an answer or an error code, and the board records the calls in their order. *)

From S2P Require Import Prelude.
From S2P Require Import Crypto.
From S2P Require Import Chain.
From S2P Require Import Messages.
From S2P Require Import Engine.
From S2P Require Import Errors.
From S2P Require Import Framing.
From S2P Require Import Identity.
From S2P Require Import Runtime.
From S2P Require Import PeerRegistry.
From S2P Require Import ErpNetwork.
From S2P Require Import TransportIdentity.
From S2P Require Import Identify.
From S2P Require Import NetConfig.
From S2P Require Import Socket.

(** The lengths that the strings of [ClientConfiguration] (embedded_svc) can hold. *)
Class WifiCapacity : Type := {
  ssid_capacity : nat;
  password_capacity : nat;
}.

Inductive EspCall : Type :=
| TakeNvsPartition
| TakePeripherals
| TakeEventLoop
| NewTimerService
| NewWifi
| WrapWifi
| SetConfiguration (ssid password : bytes)
| OpenStorage
| WifiIsStarted
| WifiStart
| DisablePowerSave
| WifiIsConnected
| WifiConnect
| WaitNetifUp
| GetIpInfo
| GetMac.

(** [board_answers n] answers the [n]-th call: a boolean for the two questions, which the
    other calls do not use. *)
Record Board : Type := mkBoard {
  board_answers : nat → result bool Z;
  board_calls : list EspCall;
  board_flash : NvsCell;
}.

Abbreviation BM := (OM Board Erp.RuntimeError).

Definition esp_call (err : Z → Erp.RuntimeError) (c : EspCall) : BM bool := λ b,
  Ret (mkBoard (board_answers b) (board_calls b ++ [c]) (board_flash b),
       map_err err (board_answers b (length (board_calls b)))).

Definition esp (c : EspCall) : BM bool := esp_call Erp.Esp c.

Definition flash {A} (m : M NvsCell Erp.RuntimeError A) : BM A := λ b,
  let '(c, r) := m (board_flash b) in Ret (mkBoard (board_answers b) (board_calls b) c, r).

(** The variables of the build. *)
Record BuildEnv : Type := mkBuildEnv {
  env_ssid : option bytes;
  env_password : option bytes;
  env_peers : option bytes;
}.

Section startup.
Context `{Libp2p, Psa, !Postcard TransportIdentityRecord, MultiaddrLib, PeerIdText, WifiCapacity}.

Definition ok_or {A} (o : option A) (e : Erp.RuntimeError) : BM A :=
  match o with Some a => OM_ret a | None => OM_fail e end.

(** [value.try_into()] for a string of the given capacity *)
Definition fits (capacity : nat) (value : bytes) (e : Erp.RuntimeError) : BM bytes :=
  if bool_decide (length value ≤ capacity)%nat then OM_ret value else OM_fail e.

(** ** create_wifi *)

Record WifiClient : Type := mkWifiClient {
  wifi_ssid : bytes;
  wifi_password : bytes;
}.

Definition WIFI_SSID_MISSING : string := "missing WIFI_SSID environment variable".
Definition WIFI_PASS_MISSING : string := "missing WIFI_PASS environment variable".
Definition WIFI_SSID_INVALID : string := "WIFI_SSID exceeds ESP-IDF client configuration limits".
Definition WIFI_PASS_INVALID : string := "WIFI_PASS exceeds ESP-IDF client configuration limits".

Definition create_wifi (env : BuildEnv) : BM WifiClient :=
  let^ ssid := ok_or (env_ssid env) (Erp.Config WIFI_SSID_MISSING) in
  let^ password := ok_or (env_password env) (Erp.Config WIFI_PASS_MISSING) in
  let^ _ := esp TakePeripherals in
  let^ _ := esp TakeEventLoop in
  let^ _ := esp NewTimerService in
  let^ _ := esp NewWifi in
  let^ _ := esp WrapWifi in
  let^ ssid := fits ssid_capacity ssid (Erp.Config WIFI_SSID_INVALID) in
  let^ password := fits password_capacity password (Erp.Config WIFI_PASS_INVALID) in
  let^ _ := esp (SetConfiguration ssid password) in
  OM_ret (mkWifiClient ssid password).

(** ** NetworkManager::new and the set-up of its run *)

Record NetworkParts : Type := mkNetworkParts {
  node_identity : IdentityManager;
  transport_identity : TransportIdentityManager;
  network_config : NetworkConfig;
  network_state : ErpNetworkManager;
}.

Definition network_new (env : BuildEnv) (identity : IdentityManager) (generated : Keypair) : BM NetworkParts :=
  let^ config := OM_lift (Ret (from_build_env (env_peers env))) in
  let^ transport_identity := flash (transport_load_or_create generated) in
  OM_ret (mkNetworkParts identity transport_identity config (ErpNetworkManager_new config)).

Definition ensure_wifi_connected : BM unit :=
  let^ started := esp WifiIsStarted in
  let^ _ := if started then OM_ret true else esp WifiStart in
  let^ _ := esp DisablePowerSave in
  let^ connected := esp WifiIsConnected in
  let^ _ := if connected then OM_ret true else esp WifiConnect in
  let^ _ := esp WaitNetifUp in
  OM_ret tt.

(** [ip] is the address in the answer to [get_ip_info]. *)
Definition network_listen (config : NetworkConfig) (ip : bytes) (bind : BindCalls) : BM SocketAddr :=
  let^ _ := ensure_wifi_connected in
  let^ _ := esp GetIpInfo in
  let local_addr := SocketV4 ip (listen_port config) in
  let^ _ := OM_catch (esp GetMac) in
  OM_lift (Ret (socket_bind local_addr (listen_port config) bind)).

(** ** run, up to the start of the threads *)

Record Started : Type := mkStarted {
  started_engine : NodeEngine;
  started_network : NetworkParts;
  started_wifi : WifiClient;
}.

(** [generated] is the key [Keypair::generate_ecdsa] would return. *)
Definition start_up (env : BuildEnv) (generated : Keypair) : BM Started :=
  let^ blockchain := OM_lift (r ← Blockchain_new; Ret (map_err Erp.Node r)) in
  let node_engine := NodeEngine_new blockchain in
  let^ identity_manager := OM_lift (Ret IdentityManager_select) in
  let^ _ := esp TakeNvsPartition in
  let^ wifi := create_wifi env in
  let^ network_manager := network_new env identity_manager generated in
  let^ _ := esp_call Erp.StorageInit OpenStorage in
  OM_ret (mkStarted node_engine network_manager wifi).

(** ** What a call leaves behind *)

(** [m] makes the calls [cs], all of them answered, and leaves the flash alone. *)
Definition made (cs : list EspCall) (b b' : Board) : Prop :=
  board_answers b' = board_answers b ∧ board_calls b' = board_calls b ++ cs ∧ board_flash b' = board_flash b ∧
  ∀ i, (i < length cs)%nat → is_ok (board_answers b (length (board_calls b) + i)) = true.

Lemma made_nil b : made [] b b.
Proof. split_and!; [done|by rewrite app_nil_r|done|]. simpl. lia. Qed.

Lemma made_app cs1 cs2 b b1 b2 : made cs1 b b1 → made cs2 b1 b2 → made (cs1 ++ cs2) b b2.
Proof.
  intros (Ha1 & Hc1 & Hf1 & Ho1) (Ha2 & Hc2 & Hf2 & Ho2).
  split_and!; [congruence|by rewrite Hc2, Hc1, app_assoc|congruence|]. intros i Hi. rewrite length_app in Hi.
  destruct (decide (i < length cs1)%nat) as [|Hn]; [by apply Ho1|].
  specialize (Ho2 (i - length cs1)%nat ltac:(lia)). rewrite Ha1, Hc1, length_app in Ho2.
  by replace (length (board_calls b) + i)%nat
    with (length (board_calls b) + length cs1 + (i - length cs1))%nat by lia.
Qed.

Lemma esp_made err c b b' x : esp_call err c b = Ret (b', Ok x) → made [c] b b' ∧ board_answers b (length (board_calls b)) = Ok x.
Proof.
  unfold esp_call. destruct (board_answers b _) as [y|] eqn:E; [|done]. intros [= <- <-]. split; [|done].
  split_and!; [done..|]. simpl. intros [|i] Hi; [|lia]. by rewrite Nat.add_0_r, E.
Qed.

Lemma ok_or_made {A} (o : option A) e b b' a : ok_or o e b = Ret (b', Ok a) → made [] b b' ∧ o = Some a.
Proof. destruct o; [|done]. intros [= <- <-]. split; [apply made_nil|done]. Qed.

Lemma fits_made n v e b b' a : fits n v e b = Ret (b', Ok a) → made [] b b' ∧ a = v ∧ (length v ≤ n)%nat.
Proof. unfold fits. case_bool_decide; [|done]. intros [= <- <-]. split; [apply made_nil|done]. Qed.

Definition wifi_calls (w : WifiClient) : list EspCall :=
  [TakePeripherals; TakeEventLoop; NewTimerService; NewWifi; WrapWifi;
   SetConfiguration (wifi_ssid w) (wifi_password w)].

Definition credentials_ok (env : BuildEnv) (w : WifiClient) : Prop :=
  env_ssid env = Some (wifi_ssid w) ∧ env_password env = Some (wifi_password w) ∧
  (length (wifi_ssid w) ≤ ssid_capacity)%nat ∧ (length (wifi_password w) ≤ password_capacity)%nat.

(** Undoes a chain of calls, from the last to the first. *)
Ltac calls_made :=
  repeat match goal with
    | H : OM_bind _ _ _ = Ret (_, Ok _) |- _ =>
        let b := fresh "b" in let x := fresh "x" in let Hm := fresh "Hm" in
        apply OM_bind_Ok in H as (b & x & Hm & H)
    | H : esp _ _ = Ret (_, Ok _) |- _ => apply esp_made in H as [H _]
    | H : esp_call _ _ _ = Ret (_, Ok _) |- _ => apply esp_made in H as [H _]
    | H : ok_or _ _ _ = Ret (_, Ok _) |- _ => apply ok_or_made in H as [H ?]
    | H : fits _ _ _ _ = Ret (_, Ok _) |- _ => apply fits_made in H as (H & -> & ?)
    | H : made ?c1 ?b ?b1, H' : made ?c2 ?b1 ?b2 |- _ =>
        pose proof (made_app c1 c2 b b1 b2 H H'); clear H H'
    end.

Lemma create_wifi_made env b b' w :
  create_wifi env b = Ret (b', Ok w) → made (wifi_calls w) b b' ∧ credentials_ok env w.
Proof. intros Hw. unfold create_wifi in Hw. calls_made. injection Hw as <- <-. by split. Qed.

Lemma network_new_Ok env identity generated b b' n :
  network_new env identity generated b = Ret (b', Ok n) →
  node_identity n = identity ∧ from_build_env (env_peers env) = Ok (network_config n) ∧
  network_state n = ErpNetworkManager_new (network_config n) ∧
  transport_load_or_create generated (board_flash b) = (board_flash b', Ok (transport_identity n)) ∧
  board_answers b' = board_answers b ∧ board_calls b' = board_calls b.
Proof.
  unfold network_new, flash. intros (b1 & c & Hc & Hr)%OM_bind_Ok. unfold OM_lift in Hc. simpl in Hc.
  destruct (from_build_env _) as [c'|] eqn:E; [|done]. injection Hc as <- <-.
  apply OM_bind_Ok in Hr as (b2 & t & Ht & [= <- <-]).
  destruct (transport_load_or_create _ _) as [f r] eqn:El. injection Ht as <- ->. done.
Qed.

(** The calls of the start-up, and that each was answered. *)
Definition startup_calls (w : WifiClient) : list EspCall := TakeNvsPartition :: wifi_calls w ++ [OpenStorage].

Definition called (cs : list EspCall) (b b' : Board) : Prop :=
  board_calls b' = board_calls b ++ cs ∧
  ∀ i, (i < length cs)%nat → is_ok (board_answers b (length (board_calls b) + i)) = true.

Record startup_ok (env : BuildEnv) (generated : Keypair) (b b' : Board) (st : Started) : Prop := {
  startup_engine : ∃ bc, Blockchain_new = Ret (Ok bc) ∧ started_engine st = NodeEngine_new bc;
  startup_identity : IdentityManager_select = Ok (node_identity (started_network st));
  startup_transport : transport_load_or_create generated (board_flash b) =
    (board_flash b', Ok (transport_identity (started_network st)));
  startup_config : from_build_env (env_peers env) = Ok (network_config (started_network st));
  startup_registry : network_state (started_network st) =
    ErpNetworkManager_new (network_config (started_network st));
  startup_wifi : credentials_ok env (started_wifi st);
  startup_called : called (startup_calls (started_wifi st)) b b';
}.

Lemma start_up_Ok env generated b b' st :
  start_up env generated b = Ret (b', Ok st) → startup_ok env generated b b' st.
Proof.
  unfold start_up. intros (b1 & bc & [Hbc ->]%OM_lift_Ok & Hr)%OM_bind_Ok.
  apply OM_bind_Ok in Hr as (b2 & id & [[= Hid] ->]%OM_lift_Ok & Hr).
  apply OM_bind_Ok in Hr as (b3 & x & [Hm1 _]%esp_made & Hr).
  apply OM_bind_Ok in Hr as (b4 & w & [Hm2 Hw]%create_wifi_made & Hr).
  apply OM_bind_Ok in Hr as (b5 & n & (Hn1 & Hn2 & Hn3 & Hn4 & Ha & Hc)%network_new_Ok & Hr).
  apply OM_bind_Ok in Hr as (b6 & y & [Hm3 _]%esp_made & [= <- <-]).
  pose proof (made_app _ _ _ _ _ Hm1 Hm2) as (Ha12 & Hc12 & Hf12 & Ho12).
  destruct Hm3 as (Ha3 & Hc3 & Hf3 & Ho3).
  split; simpl; [|by rewrite Hn1|by rewrite <-Hf12, Hf3|done..|].
  - exists bc. split; [|done]. destruct Blockchain_new as [[]| |]; simpl in Hbc; by simplify_eq.
  - split; [by rewrite Hc3, Hc, Hc12, <-app_assoc|]. intros i Hi. simpl in Hi.
    destruct (decide (i < 7)%nat) as [|Hn]; [by apply Ho12|].
    specialize (Ho3 0%nat ltac:(simpl; lia)). rewrite Ha, Ha12, Hc, Hc12, length_app in Ho3. simpl in Ho3.
    by replace i with 7%nat by lia; rewrite Nat.add_0_r in Ho3.
Qed.

(** The wifi is started and connected only when it is not yet, and the node listens on the
    address of its station only when it is up. *)
Definition up_calls (started connected : bool) : list EspCall :=
  [WifiIsStarted] ++ (if started then [] else [WifiStart]) ++ [DisablePowerSave; WifiIsConnected] ++
  (if connected then [] else [WifiConnect]) ++ [WaitNetifUp].

Lemma optional_call (skip : bool) c b b' x :
  (if skip then OM_ret true else esp c) b = Ret (b', Ok x) → made (if skip then [] else [c]) b b'.
Proof. destruct skip; [intros [= <- _]; apply made_nil|by intros [? _]%esp_made]. Qed.

Lemma ensure_wifi_connected_up b b' u :
  ensure_wifi_connected b = Ret (b', Ok u) →
  ∃ started connected, made (up_calls started connected) b b' ∧
    board_answers b (length (board_calls b)) = Ok started ∧
    board_answers b (length (board_calls b) + length (up_calls started true) - 2) = Ok connected.
Proof.
  unfold ensure_wifi_connected. intros (b1 & started & [Hm1 Hs]%esp_made & Hr)%OM_bind_Ok.
  apply OM_bind_Ok in Hr as (b2 & x2 & Hm2%optional_call & Hr).
  apply OM_bind_Ok in Hr as (b3 & x3 & [Hm3 _]%esp_made & Hr).
  apply OM_bind_Ok in Hr as (b4 & connected & [Hm4 Hc]%esp_made & Hr).
  apply OM_bind_Ok in Hr as (b5 & x5 & Hm5%optional_call & Hr).
  apply OM_bind_Ok in Hr as (b6 & x6 & [Hm6 _]%esp_made & [= <- _]).
  pose proof (made_app _ _ _ _ _ Hm1 (made_app _ _ _ _ _ Hm2 Hm3)) as Hm123.
  exists started, connected. split_and!; [|done|].
  - pose proof (made_app _ _ _ _ _ Hm123 (made_app _ _ _ _ _ Hm4 (made_app _ _ _ _ _ Hm5 Hm6))) as Hm.
    unfold up_calls. destruct started, connected; exact Hm.
  - destruct Hm123 as (Ha & Hcalls & _). rewrite Ha, Hcalls, length_app in Hc. rewrite <-Hc. f_equal.
    unfold up_calls. destruct started; simpl; lia.
Qed.

Lemma network_listens config ip bind b b' addr :
  network_listen config ip bind b = Ret (b', Ok addr) →
  addr = SocketV4 ip (listen_port config) ∧ board_flash b' = board_flash b ∧
  ∃ started connected, board_calls b' = board_calls b ++ up_calls started connected ++ [GetIpInfo; GetMac] ∧
    board_answers b (length (board_calls b)) = Ok started ∧
    board_answers b (length (board_calls b) + length (up_calls started true) - 2) = Ok connected.
Proof.
  unfold network_listen. intros (b1 & [] & (s & c & Hm1 & Hs & Hc)%ensure_wifi_connected_up & Hr)%OM_bind_Ok.
  apply OM_bind_Ok in Hr as (b2 & x2 & [Hm2 _]%esp_made & Hr).
  apply OM_bind_Ok in Hr as (b3 & x3 & Hm3 & Hr). apply OM_lift_Ok in Hr as [[= Hb] ->].
  pose proof (made_app _ _ _ _ _ Hm1 Hm2) as (_ & Hcalls & Hf & _).
  unfold OM_catch, esp, esp_call in Hm3. simpl in Hm3. injection Hm3 as <- _. cbn [board_calls board_flash]. split_and!; [|done|].
  - unfold socket_bind, call in Hb. by repeat (apply try_Ok in Hb as (_ & _ & Hb)); injection Hb as <-.
  - exists s, c. split_and!; [|done..]. by rewrite Hcalls, <-!app_assoc.
Qed.

Context `{!CryptoLaws, !Libp2pLaws, !PsaLaws, !PostcardRoundtrip TransportIdentityRecord}.

(** C35: a node that starts is complete and stays who it is.  When the embedded start-up comes
    out well, every call it needs was made, in order, and answered; the wifi is configured
    with the credentials of the build, within the limits; the configuration is the one that
    was written down; the node and the transport identity are genuine; and whenever the node
    is started again, whatever key would be generated, both identities are the same and the
    flash stays as it is. *)
Theorem embedded_startup env generated b b' st :
  start_up env generated b = Ret (b', Ok st) →
  let n := started_network st in
  called (startup_calls (started_wifi st)) b b' ∧ credentials_ok env (started_wifi st) ∧
  from_build_env (env_peers env) = Ok (network_config n) ∧
  genuine (node_identity n) (im_verifying_key (node_identity n)) ∧
  (∃ pk, transport_genuine (transport_identity n) pk ∧
         public_decode_protobuf (public_key_protobuf_bytes (transport_identity n)) = Some pk) ∧
  ∀ env' other b1 b2 st',
    board_flash b1 = mkNvsCell (cell (board_flash b')) [] → start_up env' other b1 = Ret (b2, Ok st') →
    node_identity (started_network st') = node_identity n ∧
    transport_identity (started_network st') = transport_identity n ∧
    started_engine st' = started_engine st ∧ board_flash b2 = board_flash b1.
Proof.
  intros [(bc & Hbc & He) Hid Ht Hc _ Hw Hcalls]%start_up_Ok. apply transport_kept in Ht as [Ht Hkept].
  split_and!; [done..|by apply selected_identity_genuine|done|].
  intros env' other b1 b2 st' Hf [(bc' & Hbc' & He') Hid' Ht' _ _ _ _]%start_up_Ok.
  rewrite Hf, Hkept in Ht'. simplify_eq. rewrite Hf. split_and!; congruence.
Qed.
End startup.

(** ** A concrete start-up *)

Module StartupWitness.
Import ToyCrypto TransportWitness ToyMultiaddr.

#[local] Instance plain_ids : PeerIdText := λ b, if bool_decide (b = []) then None else Some b.
#[local] Instance limits : WifiCapacity := {| ssid_capacity := 32; password_capacity := 64 |}.

Definition env : BuildEnv := mkBuildEnv (Some [x61; x70]) (Some [x73; x33]) None.
Definition new_board : Board := mkBoard (λ _, Ok false) [] (mkNvsCell None []).

Lemma embedded_startup_witness :
  ∃ b' st, start_up env fresh_key new_board = Ret (b', Ok st) ∧
    called (startup_calls (mkWifiClient [x61; x70] [x73; x33])) new_board b' ∧
    ∀ b2 st', start_up env other_key (mkBoard (λ _, Ok true) [] (board_flash b')) = Ret (b2, Ok st') →
      transport_identity (started_network st') = transport_identity (started_network st).
Proof.
  destruct (start_up env fresh_key new_board) as [[b' [st|e]]| |] eqn:E; [|discriminate E..].
  pose proof (embedded_startup env fresh_key new_board b' st E) as (Hc & (Hs & Hp & _) & _ & _ & _ & Hr).
  exists b', st. split; [reflexivity|]. split.
  - destruct (started_wifi st) as [s p]. simpl in Hs, Hp. injection Hs as <-. by injection Hp as <-.
  - intros b2 st' E'. eapply Hr in E' as (_ & Ht & _); [exact Ht|].
    injection E as <- _. reflexivity.
Defined.
End StartupWitness.
