(* ===== verification/ErpNode.v ===== *)
(** * The whole embedded node

    [run] of erp-runtime/src/runtime/host.rs starts two threads, one for the node manager
    and one for the network, storage and wake managers, and the network manager starts a
    thread for every connection.  Here these run together: the managers of ErpNetwork.v
    and Storage.v, the wake manager of Runtime.v and the session workers of Session.v.
    A worker has two ways out: it reports to the network manager over an unbounded
    channel, and it sends the frames of its peer straight to the node manager, past the
    network manager.  What ErpNetwork.v asks of the workers is discharged by what
    Session.v shows of them, and the engine is safe and durable as on the host. *)

From S2P Require Import Prelude.
From S2P Require Import Maps.
From S2P Require Import Crypto.
From S2P Require Import Models.
From S2P Require Import State.
From S2P Require Import ChainCore.
From S2P Require Import Chain.
From S2P Require Import Messages.
From S2P Require Import Engine.
From S2P Require Import EngineSafety.
From S2P Require Import EngineWitness.
From S2P Require Import Errors.
From S2P Require Import Framing.
From S2P Require Import Identity.
From S2P Require Import NodeHello.
From S2P Require Import Runtime.
From S2P Require Import Storage.
From S2P Require Import PeerRegistry.
From S2P Require Import ErpNetwork.
From S2P Require Import TransportIdentity.
From S2P Require Import Duplex.
From S2P Require Import Multistream.
From S2P Require Import Protobuf.
From S2P Require Import Identify.
From S2P Require Import Noise.
From S2P Require Import NoiseLink.
From S2P Require Import NoiseHandshake.
From S2P Require Import Yamux.
From S2P Require Import Session.
From S2P Require Import SessionWitness.
From S2P Require Import NodeCore.
From S2P Require Import Supervisor.

(** ** Threads *)

Section output.
Context `{Crypto}.

(** What a worker sends, and to whom. *)
Inductive Output : Type :=
| ToManager (event : SessionEvent)
| ToNode (event : RuntimeEvent).
End output.

(** [mpsc::channel(buffer)] has room for [buffer] messages and one more for each sender. *)
Definition mpsc_send {A} (c : Channel A) (senders : nat) (x : A) : poll (result (Channel A) unit) :=
  if negb (ch_open c) then Ready (Err tt)
  else if bool_decide (length (ch_queue c) < ch_capacity c + senders)%nat
  then Ready (Ok (mkChannel (ch_queue c ++ [x]) (ch_capacity c) (ch_open c)))
  else Pending.

Lemma mpsc_send_Ok {A} (c c' : Channel A) n x :
  mpsc_send c n x = Ready (Ok c') → ch_queue c' = ch_queue c ++ [x] ∧ (length (ch_queue c) < ch_capacity c + n)%nat.
Proof.
  unfold mpsc_send. destruct (ch_open c); simpl; [|done]. case_bool_decide; [|done]. by intros [= <-].
Qed.

(** The threads that run, by the session they serve, each with what it has still to send;
    a thread ends with its last message. *)
Abbreviation Threads := (gmap SessionId (list Output)).

Definition advance `{Crypto} (id : SessionId) (outs : list Output) (ths : Threads) : Threads :=
  match outs with [] => delete id ths | _ => <[id := outs]> ths end.

(** The senders of the event channel: [run] keeps one, and the network manager, the storage
    manager, the wake manager and every worker have a clone. *)
Definition event_senders `{Crypto} (ths : Threads) : nat := 4 + size ths.

Section node.
Context `{Target, Crypto, UnsignedVarint, QuickProtobuf, MultiaddrLib, !Libp2p, Psa, Snow}.
Context `{!Postcard NodeHello, !Postcard NodeHelloResponse, !Postcard NodeHelloTranscript}.
Context `{!Postcard NetworkMessage, !Postcard AnnounceRequest, !Postcard AnnounceResponse,
  !Postcard SyncRequest, !Postcard SyncResponse}.
Context {S : Type} `{!Storage S}.
Context (node_identity : IdentityManager) (transport_identity : TransportIdentityManager) (config : NetworkConfig).

(** The start of a worker: the randomness of its handshake, and what its connection and the
    network manager will give it.  When it sends what is the schedule's choice. *)
Record Launch : Type := mkLaunch {
  launched : Spawned;
  launch_seed : bytes;
  launch_world : World;
}.

Definition worker_of (sp : Spawned) : SessionWorker :=
  mkSessionWorker (worker_session sp) (worker_role sp) (worker_expected sp).

(** [Ready] is sent before the session is served and [Closed] after it. *)
Definition script (frames : list RuntimeEvent) (events : list SessionEvent) : list Output :=
  match events with
  | SessReady id v :: closed => ToManager (SessReady id v) :: map ToNode frames ++ map ToManager closed
  | closed => map ToNode frames ++ map ToManager closed
  end.

Definition outputs (l : Launch) : list Output :=
  match run_async node_identity transport_identity config (worker_of (launched l)) (launch_seed l) true
          (launch_world l) with
  | Ret (w', events, _) => script (drop (length (events_sent (mux (launch_world l)))) (events_sent (mux w'))) events
  | _ => []
  end.

Definition launch (ths : Threads) (l : Launch) : Threads := <[worker_session (launched l) := outputs l]> ths.

Record ErpNode : Type := mkErpNode {
  en_rt : Runtime;
  en_net : ErpNetworkManager;
  en_inbox : list SessionEvent;
  en_threads : Threads;
  en_store : S;
  en_wake : WakeManager;
}.

(** The events that the network manager sends, and the workers that it starts, while it
    handles an input. *)
Definition erp_new_events (m m' : ErpNetworkManager) : list RuntimeEvent :=
  drop (length (erp_events m)) (erp_events m').
Definition new_workers (m m' : ErpNetworkManager) : list Spawned :=
  drop (length (workers_started m)) (workers_started m').

(** What the network manager waits for besides the channels: connections and its timer. *)
Definition from_outside (i : ErpInput) : bool :=
  match i with InNetCommand _ | InSession _ => false | _ => true end.

(** One step, with the workers it starts.  A manager or the node manager that fails takes no
    further step, and the others go on without it. *)
Inductive en_step : ErpNode → label → list Launch → ErpNode → Prop :=
| en_handle e ev events events' out busy e' acts net inbox ths st wk :
    ch_pop events = Some (ev, events') → handle_event e ev = Ret (e', acts) →
    en_step (mkErpNode (mkRuntime e [] events out busy) net inbox ths st wk) (LHandle ev acts) []
            (mkErpNode (mkRuntime e' acts events' out busy) net inbox ths st wk)
| en_action e a todo events out out' busy net inbox ths st wk :
    erp_handle_action out a = Ready (Ok out') →
    en_step (mkErpNode (mkRuntime e (a :: todo) events out busy) net inbox ths st wk) (LAction a) []
            (mkErpNode (mkRuntime e todo events out' busy) net inbox ths st wk)
(** the network manager takes a command, a report of a worker, a connection or its timer *)
| en_command env e todo events c n n' s w sb wb net net' inbox ths st wk :
    ch_pop n = Some (c, n') → erp_step config env net (InNetCommand c) = Ret (net', Ok tt) →
    en_step (mkErpNode (mkRuntime e todo events (mkOutboxes n s w) (mkBusy [] sb wb)) net inbox ths st wk)
      (LNetwork c) []
      (mkErpNode (mkRuntime e todo events (mkOutboxes n' s w) (mkBusy (erp_new_events net net') sb wb))
         net' inbox ths st wk)
| en_report env e todo events out sb wb net net' ev inbox ths st wk :
    erp_step config env net (InSession ev) = Ret (net', Ok tt) →
    en_step (mkErpNode (mkRuntime e todo events out (mkBusy [] sb wb)) net (ev :: inbox) ths st wk) LWork []
      (mkErpNode (mkRuntime e todo events out (mkBusy (erp_new_events net net') sb wb)) net' inbox ths st wk)
| en_outside env i e todo events out sb wb net net' inbox ths st wk ls :
    from_outside i = true → erp_step config env net i = Ret (net', Ok tt) →
    map launched ls = new_workers net net' →
    en_step (mkErpNode (mkRuntime e todo events out (mkBusy [] sb wb)) net inbox ths st wk) LWork ls
      (mkErpNode (mkRuntime e todo events out (mkBusy (erp_new_events net net') sb wb)) net' inbox
         (foldl launch ths ls) st wk)
(** a worker reports to the network manager, or sends a frame to the node manager *)
| en_thread_reports id ev outs rt net inbox ths st wk :
    ths !! id = Some (ToManager ev :: outs) →
    en_step (mkErpNode rt net inbox ths st wk) LWork []
            (mkErpNode rt net (inbox ++ [ev]) (advance id outs ths) st wk)
| en_thread_sends id ev outs e todo events events' out busy net inbox ths st wk :
    ths !! id = Some (ToNode ev :: outs) → mpsc_send events (event_senders ths) ev = Ready (Ok events') →
    en_step (mkErpNode (mkRuntime e todo events out busy) net inbox ths st wk) (LPost ev) []
            (mkErpNode (mkRuntime e todo events' out busy) net inbox (advance id outs ths) st wk)
(** a manager completes the sending of an event *)
| en_post_network e todo events events' out ev nb sb wb net inbox ths st wk :
    mpsc_send events (event_senders ths) ev = Ready (Ok events') →
    en_step (mkErpNode (mkRuntime e todo events out (mkBusy (ev :: nb) sb wb)) net inbox ths st wk) (LPost ev) []
            (mkErpNode (mkRuntime e todo events' out (mkBusy nb sb wb)) net inbox ths st wk)
| en_post_storage e todo events events' out ev nb sb wb net inbox ths st wk :
    mpsc_send events (event_senders ths) ev = Ready (Ok events') →
    en_step (mkErpNode (mkRuntime e todo events out (mkBusy nb (ev :: sb) wb)) net inbox ths st wk) (LPost ev) []
            (mkErpNode (mkRuntime e todo events' out (mkBusy nb sb wb)) net inbox ths st wk)
| en_post_wake e todo events events' out ev nb sb wb net inbox ths st wk :
    mpsc_send events (event_senders ths) ev = Ready (Ok events') →
    en_step (mkErpNode (mkRuntime e todo events out (mkBusy nb sb (ev :: wb))) net inbox ths st wk) (LPost ev) []
            (mkErpNode (mkRuntime e todo events' out (mkBusy nb sb wb)) net inbox ths st wk)
| en_storage e todo events c n s s' w evs nb wb net inbox ths st st' wk :
    ch_pop s = Some (c, s') → erp_storage_round c st = (st', Ok evs) →
    en_step (mkErpNode (mkRuntime e todo events (mkOutboxes n s w) (mkBusy nb [] wb)) net inbox ths st wk)
      (LStorage c) []
      (mkErpNode (mkRuntime e todo events (mkOutboxes n s' w) (mkBusy nb evs wb)) net inbox ths st' wk)
(** the wake manager takes a command, or its timer fires *)
| en_wake_command now e todo events c n s w w' nb sb net inbox ths st wk wk' evs :
    ch_pop w = Some (c, w') → wake_round wk (Some c) now = (wk', evs) →
    en_step (mkErpNode (mkRuntime e todo events (mkOutboxes n s w) (mkBusy nb sb [])) net inbox ths st wk)
      (LWake c) []
      (mkErpNode (mkRuntime e todo events (mkOutboxes n s w') (mkBusy nb sb evs)) net inbox ths st wk')
| en_wake_timer now e todo events out nb sb net inbox ths st wk wk' ev :
    ch_queue (wake_tx out) = [] → wake_round wk None now = (wk', [ev]) →
    en_step (mkErpNode (mkRuntime e todo events out (mkBusy nb sb [])) net inbox ths st wk) LWork []
      (mkErpNode (mkRuntime e todo events out (mkBusy nb sb [ev])) net inbox ths st wk').

Inductive en_run : ErpNode → list label → list Launch → ErpNode → Prop :=
| en_run_nil n : en_run n [] [] n
| en_run_snoc n tr hist n1 l ls n2 :
    en_run n tr hist n1 → en_step n1 l ls n2 → en_run n (tr ++ [l]) (hist ++ ls) n2.

(** What [run] sets up.  Each of the command channels has one sender. *)
Definition erp_node_start (e : NodeEngine) (store : S) (now_ms : Z) : ErpNode :=
  mkErpNode
    (rt_start ERP_EVENT_CHANNEL_CAPACITY (ERP_NETWORK_CHANNEL_CAPACITY + 1) (ERP_STORAGE_CHANNEL_CAPACITY + 1)
       (ERP_WAKE_CHANNEL_CAPACITY + 1) e)
    (ErpNetworkManager_new config) [] ∅ store (WakeManager_new now_ms).
End node.

(** ** The network manager and its workers *)

Section sessions.
Context `{Target, Crypto, UnsignedVarint, QuickProtobuf, MultiaddrLib, !Libp2p, Psa, Snow}.
Context `{!Postcard NodeHello, !Postcard NodeHelloResponse, !Postcard NodeHelloTranscript}.
Context `{!Postcard NetworkMessage, !Postcard AnnounceRequest, !Postcard AnnounceResponse,
  !Postcard SyncRequest, !Postcard SyncResponse}.
Context `{!ProtobufLaws, !PostcardLaws NetworkMessage, !CryptoLaws, !SnowLaws}.
Context {S : Type} `{!Storage S}.
Context (node_identity : IdentityManager) (transport_identity : TransportIdentityManager) (config : NetworkConfig).
#[local] Abbreviation en_step := (en_step node_identity transport_identity config).
#[local] Abbreviation en_run := (en_run node_identity transport_identity config).
#[local] Abbreviation launch := (launch node_identity transport_identity config).
#[local] Abbreviation outputs := (outputs node_identity transport_identity config).
#[local] Abbreviation establish_session := (establish_session node_identity transport_identity config).
Implicit Types hist : list Launch.
Implicit Types ths : Threads.

(** A worker that was started has completed its handshake with the node [p]. *)
Definition vouched hist (p : bytes) : Prop :=
  ∃ l w v, l ∈ hist ∧
    establish_session (worker_role (launched l)) (worker_expected (launched l)) (launch_seed l) (launch_world l) =
      Ret (w, Ok (Some v)) ∧ verified_node_peer_id v = p.

Definition peer_event_ok hist (ev : RuntimeEvent) : Prop := ∃ p, event_peer ev = Some p ∧ vouched hist p.

(** What a worker of the session [id] sends. *)
Definition report_ok hist (id : SessionId) (ev : SessionEvent) : Prop :=
  match ev with
  | SessReady i v => i = id ∧ vouched hist (verified_node_peer_id v)
  | SessClosed i (Some p) => i = id ∧ vouched hist p
  | SessClosed i None => i = id
  end.

Definition output_ok hist (id : SessionId) (o : Output) : Prop :=
  match o with ToManager ev => report_ok hist id ev | ToNode ev => peer_event_ok hist ev end.

Definition session_of (ev : SessionEvent) : SessionId :=
  match ev with SessReady i _ | SessClosed i _ => i end.

(** The reports among what a thread sends. *)
Definition reports (outs : list Output) : list SessionEvent :=
  omap (λ o, match o with ToManager ev => Some ev | ToNode _ => None end) outs.

(** What the network manager has still to hear of a session, given what it knows of it:
    nothing of one it does not know; the end of one it knows to be ready; of one that has
    just started the end, or first that it is ready. *)
Definition promise (known : option (option bytes)) (id : SessionId) (evs : list SessionEvent) : Prop :=
  match known with
  | None => evs = []
  | Some None => evs = [SessClosed id None] ∨
      ∃ v, evs = [SessReady id v; SessClosed id (Some (verified_node_peer_id v))]
  | Some (Some n) => evs = [SessClosed id (Some n)]
  end.

Definition due (inbox : list SessionEvent) ths (id : SessionId) : list SessionEvent :=
  filter (λ ev, session_of ev = id) inbox ++ reports (default [] (ths !! id)).

Record threads_ok hist (inbox : list SessionEvent) ths : Prop := {
  threads_outputs id outs : ths !! id = Some outs → Forall (output_ok hist id) outs;
  threads_end id outs : ths !! id = Some outs → ∃ outs' n, outs = outs' ++ [ToManager (SessClosed id n)];
  threads_inbox : Forall (λ ev, report_ok hist (session_of ev) ev) inbox;
}.

(** *** What the workers send *)

Lemma vouched_app hist hist' p : vouched hist p → vouched (hist ++ hist') p.
Proof. intros (l & w & v & Hl & ?). exists l, w, v. set_solver. Qed.

Lemma peer_event_app hist hist' ev : peer_event_ok hist ev → peer_event_ok (hist ++ hist') ev.
Proof. intros (p & ? & ?). exists p. eauto using vouched_app. Qed.

Lemma report_app hist hist' id ev : report_ok hist id ev → report_ok (hist ++ hist') id ev.
Proof. destruct ev as [i v|i [p|]]; simpl; [..|done]; intros [? ?]; eauto using vouched_app. Qed.

Lemma output_app hist hist' id o : output_ok hist id o → output_ok (hist ++ hist') id o.
Proof. destruct o; [apply report_app|apply peer_event_app]. Qed.

Lemma reports_frames frames outs : reports (map ToNode frames ++ outs) = reports outs.
Proof. by induction frames. Qed.

Lemma reports_map events : reports (map ToManager events) = events.
Proof.
  induction events as [|ev events IH]; [done|].
  change (reports (map ToManager (ev :: events))) with (ev :: reports (map ToManager events)). by rewrite IH.
Qed.

Lemma reports_script frames events : reports (script frames events) = events.
Proof.
  destruct events as [|[id v|id n] events]; cbn [script].
  - by rewrite reports_frames.
  - change (reports (ToManager (SessReady id v) :: ?l)) with (SessReady id v :: reports l).
    by rewrite reports_frames, reports_map.
  - by rewrite reports_frames, reports_map.
Qed.

(** A worker that starts. *)
Lemma launch_outputs hist l :
  l ∈ hist →
  let id := worker_session (launched l) in
  Forall (output_ok hist id) (outputs l) ∧ promise (Some None) id (reports (outputs l)) ∧
  ∃ outs n, outputs l = outs ++ [ToManager (SessClosed id n)].
Proof.
  intros Hl. unfold outputs.
  destruct (run_async_ran node_identity transport_identity config (worker_of (launched l)) (launch_seed l)
    (launch_world l)) as (w' & events & r & -> & Hran). cbn zeta. rewrite reports_script.
  destruct Hran as [E|w1 v new He E Hf]; rewrite E; simpl.
  - rewrite drop_all. split_and!; [repeat constructor|by left|]. by exists [], None.
  - rewrite drop_app_length.
    assert (vouched hist (verified_node_peer_id v)) as Hv by (exists l, w1, v; done).
    split_and!.
    + constructor; [done|]. apply Forall_app. split; [|by repeat constructor].
      apply Forall_map. eapply Forall_impl; [exact Hf|]. intros ev [f ->]. by exists (verified_node_peer_id v).
    + right. by exists v.
    + by exists (ToManager (SessReady (worker_session (launched l)) v) :: map ToNode new),
        (Some (verified_node_peer_id v)).
Qed.
(** *** What the network manager does *)

Lemma spawn_session_new m role addr expected spawn m' :
  spawn_session m role addr expected spawn = Ret (m', Ok tt) →
  erp_events m' = erp_events m ∧
  ∃ sp, workers_started m' = workers_started m ++ [sp] ∧ get (peers m) (worker_session sp) = None.
Proof.
  unfold spawn_session. destruct (alloc _ _ _ _) as [[id r]|] eqn:E; [|done]. destruct spawn; [|done].
  intros [= <-]. apply alloc_Ok in E as [Hf _]. split; [done|]. by eexists.
Qed.

(** Connections and the timer start at most one worker, on a free slot. *)
Lemma outside_step env m i m' :
  from_outside i = true → erp_step config env m i = Ret (m', Ok tt) →
  erp_events m' = erp_events m ∧
  (new_workers m m' = [] ∨
   ∃ sp, new_workers m m' = [sp] ∧ get (peers m) (worker_session sp) = None).
Proof.
  assert (workers_started m' = workers_started m → new_workers m m' = []) as Hsame.
  { unfold new_workers. intros ->. by rewrite drop_all. }
  assert (∀ m1, workers_started m1 = workers_started m → peers m1 = peers m → erp_events m1 = erp_events m →
    (∃ sp, workers_started m' = workers_started m1 ++ [sp] ∧ get (peers m1) (worker_session sp) = None) →
    ∃ sp, new_workers m m' = [sp] ∧ get (peers m) (worker_session sp) = None) as Hone.
  { intros m1 E1 E2 _ (sp & E & Hf). exists sp. unfold new_workers. rewrite E, E1, drop_app_length. by rewrite <-E2. }
  destruct i as [spawn| |c|ev|connected spawn]; try done; intros _; simpl.
  - intros [He Hn]%spawn_session_new. split; [done|]. right. by apply (Hone m).
  - intros [= <-]. eauto.
  - unfold bootstrap_once. repeat case_bool_decide; [by intros [= <-]; eauto..|].
    destruct (_ !! _) as [target|]; [|done].
    destruct (resolve_bootstrap_addr _ _); [|by intros [= <-]; eauto].
    destruct (has_outbound_session_for _ _); [by intros [= <-]; eauto|].
    destruct connected; [|by intros [= <-]; eauto].
    intros [He Hn]%spawn_session_new. split; [done|]. right. by eapply Hone.
Qed.

Lemma command_step env m c m' :
  erp_step config env m (InNetCommand c) = Ret (m', Ok tt) →
  erp_events m' = erp_events m ∧ workers_started m' = workers_started m.
Proof. by intros (_ & ? & ? & _)%handle_network_command_routed. Qed.

(** A report of a worker becomes an event about its peer. *)
Lemma report_step hist env m ev m' :
  erp_step config env m (InSession ev) = Ret (m', Ok tt) → report_ok hist (session_of ev) ev →
  ∃ new, erp_events m' = erp_events m ++ new ∧ Forall (peer_event_ok hist) new.
Proof.
  destruct ev as [id v|id n]; cbn [erp_step handle_session_event session_of report_ok].
  - destruct (get _ _) as [s|]; [|done]. destruct (register_node_peer _ _ _) as [r|]; [|done].
    intros (_ & _ & He & _)%erp_send_event_Ok [_ Hv]. eexists. split; [exact He|].
    apply Forall_singleton. by exists (verified_node_peer_id v).
  - destruct n as [p|].
    + intros (_ & _ & He & _)%erp_send_event_Ok [_ Hv]. eexists. split; [exact He|].
      apply Forall_singleton. by exists p.
    + intros [= <-] _. exists []. by rewrite app_nil_r.
Qed.

Lemma new_events_app m m' new : erp_events m' = erp_events m ++ new → erp_new_events m m' = new.
Proof. unfold erp_new_events. intros ->. by rewrite drop_app_length. Qed.

(** *** The sessions of the manager and the threads *)

Definition sessions_inv (ws : Workers) (inbox : list SessionEvent) ths : Prop :=
  ∀ id, promise (ws !! id) id (due inbox ths id).

Lemma due_inbox_other ev inbox ths id : session_of ev ≠ id → due (ev :: inbox) ths id = due inbox ths id.
Proof. intros Hne. unfold due. by rewrite filter_cons_False. Qed.

Lemma due_inbox_head ev inbox ths : due (ev :: inbox) ths (session_of ev) = ev :: due inbox ths (session_of ev).
Proof. unfold due. by rewrite filter_cons_True. Qed.

Lemma advance_lookup id outs ths j :
  default [] (advance id outs ths !! j) = if decide (id = j) then outs else default [] (ths !! j).
Proof.
  unfold advance. destruct (decide (id = j)) as [<-|Hne].
  - destruct outs; [by rewrite lookup_delete_eq|by rewrite lookup_insert_eq].
  - destruct outs; [by rewrite lookup_delete_ne|by rewrite lookup_insert_ne].
Qed.

(** Wherever a report is on its way, it is due. *)
Lemma due_reported id ev outs inbox ths j :
  ths !! id = Some (ToManager ev :: outs) → session_of ev = id →
  due (inbox ++ [ev]) (advance id outs ths) j = due inbox ths j.
Proof.
  intros Hid <-. unfold due. rewrite filter_app, advance_lookup. case_decide as Hd.
  - subst j. rewrite filter_cons_True by done. rewrite Hid. by rewrite <-app_assoc.
  - rewrite filter_cons_False by done. by rewrite app_nil_r.
Qed.

Lemma due_sent id ev outs inbox ths j :
  ths !! id = Some (ToNode ev :: outs) → due inbox (advance id outs ths) j = due inbox ths j.
Proof.
  intros Hid. unfold due. rewrite advance_lookup. case_decide as Hd; [|done]. subst j. by rewrite Hid.
Qed.

Lemma sessions_same ws inbox ths inbox' ths' :
  sessions_inv ws inbox ths → (∀ id, due inbox' ths' id = due inbox ths id) → sessions_inv ws inbox' ths'.
Proof. intros Hi Hd id. rewrite Hd. apply Hi. Qed.

(** The reports that arrive are those the manager expects. *)
Lemma report_legal ws ev inbox ths : sessions_inv ws (ev :: inbox) ths → legal ws (InSession ev).
Proof.
  intros Hi. specialize (Hi (session_of ev)). rewrite due_inbox_head in Hi. unfold promise in Hi.
  destruct (ws !! session_of ev) as [[n|]|] eqn:E; [..|done].
  - injection Hi as -> _. exact E.
  - destruct Hi as [Hi|(v & Hi)]; injection Hi as -> _; exact E.
Qed.

Lemma sessions_report env m m' ws ev inbox ths :
  sessions_inv ws (ev :: inbox) ths → erp_step config env m (InSession ev) = Ret (m', Ok tt) →
  ∃ ws', world_step config (m, ws) (m', ws') ∧ sessions_inv ws' inbox ths.
Proof.
  intros Hi Hs. pose proof (report_legal ws ev inbox ths Hi) as Hl. pose proof (Hi (session_of ev)) as Hev.
  rewrite due_inbox_head in Hev. destruct ev as [id v|id n]; cbn [legal session_of] in Hl, Hev; rewrite Hl in Hev.
  - exists (<[id := Some (verified_node_peer_id v)]> ws). split; [by eapply world_ready|]. intros j.
    destruct (decide (id = j)) as [<-|Hne]; [|rewrite lookup_insert_ne by done; rewrite <-(due_inbox_other (SessReady id v)) by done; apply Hi].
    rewrite lookup_insert_eq. destruct Hev as [[=]|(v' & [= <- ->])]. done.
  - exists (delete id ws). split; [by eapply world_closed|]. intros j.
    destruct (decide (id = j)) as [<-|Hne]; [|rewrite lookup_delete_ne by done; rewrite <-(due_inbox_other (SessClosed id n)) by done; apply Hi].
    rewrite lookup_delete_eq. simpl in Hev. destruct n as [n|]; [|destruct Hev as [Hev|(? & [=])]]; by injection Hev as ->.
Qed.

Lemma sessions_outside env i m m' ws inbox ths ls :
  world_ok config m ws → sessions_inv ws inbox ths → from_outside i = true →
  erp_step config env m i = Ret (m', Ok tt) → map launched ls = new_workers m m' →
  world_step config (m, ws) (m', start_workers ws m m') ∧
  sessions_inv (start_workers ws m m') inbox (foldl launch ths ls) ∧
  Forall (λ l, ws !! worker_session (launched l) = None) ls.
Proof.
  intros Hok Hi Hout Hs Hls. split; [apply (world_own config env i); [by destruct i|done]|].
  unfold start_workers. fold (new_workers m m'). rewrite <-Hls.
  destruct (outside_step env m i m' Hout Hs) as [_ [E|(sp & E & Hf)]]; rewrite E in Hls.
  - by apply map_eq_nil in Hls as ->.
  - destruct ls as [|l [|]]; [done| |done]. injection Hls as <-. simpl.
    set (id := worker_session (launched l)) in *.
    assert (ws !! id = None) as Hw by (rewrite (world_workers _ _ _ Hok), Hf; done).
    split; [|by apply Forall_singleton]. intros j. unfold due. pose proof (Hi j) as Hj. unfold due in Hj.
    unfold ErpNode.launch. fold id. destruct (decide (id = j)) as [<-|Hne].
    + rewrite !lookup_insert_eq. rewrite Hw in Hj. simpl in Hj. apply app_eq_nil in Hj as [-> _].
      apply (launch_outputs [l] l). by left.
    + by rewrite !lookup_insert_ne.
Qed.
Lemma threads_app hist hist' inbox ths : threads_ok hist inbox ths → threads_ok (hist ++ hist') inbox ths.
Proof.
  intros [Ho He Hi]. split; [|done|].
  - intros id outs Hid. eapply Forall_impl; [by apply Ho|]. intros o. apply output_app.
  - eapply Forall_impl; [exact Hi|]. intros ev. apply report_app.
Qed.

Lemma threads_advance hist inbox ths id o outs :
  threads_ok hist inbox ths → ths !! id = Some (o :: outs) → threads_ok hist inbox (advance id outs ths).
Proof.
  intros [Ho He Hi] Hid. pose proof (Ho id _ Hid) as [_ Houts]%Forall_cons.
  destruct (He id _ Hid) as (outs' & n & E).
  assert (∀ j l, advance id outs ths !! j = Some l → id = j ∧ l = outs ∧ outs ≠ [] ∨ ths !! j = Some l) as Hadv.
  { intros j l Hj. unfold advance in Hj. destruct outs as [|o' outs].
    - apply lookup_delete_Some in Hj as [_ Hj]. by right.
    - apply lookup_insert_Some in Hj as [[-> <-]|[_ Hj]]; [by left|by right]. }
  split; [| |done]; intros j l [(<- & -> & Hne)|Hj]%Hadv; [done|by apply Ho| |by apply He].
  destruct outs' as [|o' outs']; injection E as _ ->; [done|]. by exists outs', n.
Qed.

Lemma threads_launch hist inbox ths ls :
  threads_ok hist inbox ths → (∀ l, l ∈ ls → l ∈ hist) → threads_ok hist inbox (foldl launch ths ls).
Proof.
  revert ths. induction ls as [|l ls IH]; intros ths Ht Hin; [done|]. simpl. apply IH; [|set_solver].
  destruct Ht as [Ho He Hi]. destruct (launch_outputs hist l) as (Hl & _ & Hend); [apply Hin; by left|].
  unfold ErpNode.launch. split; [| |done]; intros id outs [[<- <-]|[_ Hid]]%lookup_insert_Some;
    [done|by apply Ho|done|by apply He].
Qed.

(** The manager and the threads together are a state of ErpNetwork.v. *)
Record linked hist (n : ErpNode (S := S)) (ws : Workers) : Prop := {
  linked_world : reachable config (en_net n) ws;
  linked_sessions : sessions_inv ws (en_inbox n) (en_threads n);
  linked_threads : threads_ok hist (en_inbox n) (en_threads n);
}.

Lemma linked_same hist n n' ws :
  linked hist n ws → en_net n' = en_net n → en_inbox n' = en_inbox n → en_threads n' = en_threads n → linked hist n' ws.
Proof. intros [Hw Hs Ht] E1 E2 E3. split; by rewrite ?E1, ?E2, ?E3. Qed.

Lemma linked_step hist n l ls n' ws :
  linked hist n ws → en_step n l ls n' → ∃ ws', linked (hist ++ ls) n' ws'.
Proof.
  intros Hi Hstep. pose proof Hi as [Hw Hs Ht]. pose proof (reachable_ok _ _ _ Hw) as Hok.
  destruct Hstep as [| |env e todo events c q q' s w sb wb net net' inbox ths st wk Hpop Hn
    |env e todo events out sb wb net net' ev inbox ths st wk Hn
    |env i e todo events out sb wb net net' inbox ths st wk ls Hout Hn Hls
    |id ev outs rt net inbox ths st wk Hid
    |id ev outs e todo events events' out busy net inbox ths st wk Hid Hsend| | | | | |];
    rewrite ?app_nil_r; try (exists ws; by eapply linked_same); cbn in *.
  - pose proof (command_step _ _ _ _ Hn) as [_ Hsame]. exists ws. split; [|done..].
    pose proof (world_own config env (InNetCommand c) net net' ws eq_refl Hn) as Hstep.
    rewrite start_workers_same in Hstep by done. by eapply rtc_r.
  - destruct (sessions_report _ _ _ _ _ _ _ Hs Hn) as (ws' & Hstep & Hs'). exists ws'. split; [|done|].
    + by eapply rtc_r.
    + destruct Ht as [? ? [_ ?]%Forall_cons]. by split.
  - destruct (sessions_outside _ _ _ _ _ _ _ _ Hok Hs Hout Hn Hls) as (Hstep & Hs' & _). eexists.
    split; cbn; [by eapply rtc_r|done|]. apply threads_launch; [by apply threads_app|set_solver].
  - pose proof (threads_outputs _ _ _ Ht _ _ Hid) as [Hev _]%Forall_cons.
    assert (session_of ev = id ∧ report_ok hist (session_of ev) ev) as [Hse Hok'].
    { destruct ev as [i v|i [p|]]; simpl in *; naive_solver. }
    exists ws. split; cbn; [done| |].
    + eapply sessions_same; [exact Hs|]. intros j. by apply due_reported.
    + destruct (threads_advance _ _ _ _ _ _ Ht Hid) as [Ho He Hin]. split; cbn; [done..|].
      apply Forall_app. by rewrite Forall_singleton.
  - exists ws. split; cbn; [done| |by eapply threads_advance].
    eapply sessions_same; [exact Hs|]. intros j. by eapply due_sent.
Qed.

Lemma linked_run e store now_ms tr hist n :
  en_run (erp_node_start config e store now_ms) tr hist n → ∃ ws, linked hist n ws.
Proof.
  intros Hr. remember (erp_node_start config e store now_ms) as n0 eqn:E.
  induction Hr as [n|n tr hist n1 l ls n2 Hr IH Hstep]; subst.
  - exists ∅. split; [apply rtc_refl|by intros id|]. by split.
  - destruct (IH eq_refl) as [ws Hws]. by eapply linked_step.
Qed.

(** C8: the worker threads keep their side of the contract with the network manager.
    Whatever the peers do and however the managers, the threads and the node manager
    interleave, the network manager and the threads behind its unbounded channel are in a
    state of the abstract world of ErpNetwork.v, so that its registry follows the sessions:
    every thread that still runs has a session; the next report of a thread is one the
    manager expects, so that it never fails because it does not know the session; and a
    session number is given to a new thread only when the thread that had it has ended. *)
Theorem embedded_sessions_refine e store now_ms tr hist n :
  en_run (erp_node_start config e store now_ms) tr hist n →
  ∃ ws, reachable config (en_net n) ws ∧ dom (en_threads n) ⊆ dom ws ∧
    (∀ ev inbox env, en_inbox n = ev :: inbox →
       legal ws (InSession ev) ∧
       step_fails_only config (en_net n) ws env (InSession ev) (erp_step config env (en_net n) (InSession ev))) ∧
    (∀ l ls n' x, en_step n l ls n' → x ∈ ls → en_threads n !! worker_session (launched x) = None).
Proof.
  intros Hr. destruct (linked_run _ _ _ _ _ _ Hr) as [ws [Hw Hs Ht]]. pose proof (reachable_ok _ _ _ Hw) as Hok.
  assert (dom (en_threads n) ⊆ dom ws) as Hdom.
  { intros id [outs Hid]%elem_of_dom. apply elem_of_dom. specialize (Hs id). unfold due in Hs. rewrite Hid in Hs.
    destruct (ws !! id); [by eexists|]. simpl in Hs. apply app_eq_nil in Hs as [_ Hs]. exfalso.
    destruct (threads_end _ _ _ Ht id _ Hid) as (outs' & m & ->). unfold reports in Hs.
    rewrite omap_app in Hs. by apply app_eq_nil in Hs as [_ ?]. }
  exists ws. split_and!; [done|done| |].
  - intros ev inbox env E. rewrite E in Hs. pose proof (report_legal _ _ _ _ Hs) as Hl.
    split; [done|]. by apply session_event_fails_only.
  - intros l ls n' x Hstep Hx. destruct Hstep as [| | | |env i e1 todo events out sb wb net net' inbox ths st wk ls
      Hout Hn Hls| | | | | | | |]; try (by apply not_elem_of_nil in Hx). cbn in *.
    destruct (sessions_outside _ _ _ _ _ _ _ _ Hok Hs Hout Hn Hls) as (_ & _ & Hf).
    rewrite Forall_forall in Hf. specialize (Hf x Hx). apply not_elem_of_dom in Hf. apply not_elem_of_dom. set_solver.
Qed.
End sessions.

(** ** The invariant of the node *)

Section invariant.
Context `{Target, Crypto, UnsignedVarint, QuickProtobuf, MultiaddrLib, !Libp2p, Psa, Snow}.
Context `{!Postcard NodeHello, !Postcard NodeHelloResponse, !Postcard NodeHelloTranscript}.
Context `{!Postcard NetworkMessage, !Postcard AnnounceRequest, !Postcard AnnounceResponse,
  !Postcard SyncRequest, !Postcard SyncResponse}.
Context `{!ProtobufLaws, !PostcardLaws NetworkMessage, !CryptoLaws, !SnowLaws}.
Context {S : Type} `{!Storage S, !Stops S} (view_of : S → view) (healthy : S → Prop).
Context `{!StorageLaws S view_of healthy}.
Context (U : Block → Prop) (missing : option (bytes * Z)) `{!Delivered U missing}.
Context (node_identity : IdentityManager) (transport_identity : TransportIdentityManager) (config : NetworkConfig).
Context (o0 : option (Block * bytes)) (e0 : NodeEngine).
#[local] Abbreviation en_step := (en_step node_identity transport_identity config).
#[local] Abbreviation en_run := (en_run node_identity transport_identity config).
#[local] Abbreviation peer_event_ok := (peer_event_ok node_identity transport_identity config).
#[local] Abbreviation linked := (linked node_identity transport_identity config).
#[local] Abbreviation establish_session := (establish_session node_identity transport_identity config).
Implicit Types hist : list Launch.

Record erp_inv (tr : list label) hist (n : ErpNode) : Prop := {
  erp_core : core_inv view_of healthy U missing o0 e0 tr (ch_queue (rt_events (en_rt n))) (rt_engine (en_rt n))
    (rt_todo (en_rt n)) (ch_queue (storage_tx (rt_out (en_rt n)))) (storage_busy (rt_busy (en_rt n))) (en_store n);
  erp_linked : ∃ ws, linked hist n ws;
  erp_network_busy : Forall (peer_event_ok hist) (network_busy (rt_busy (en_rt n)));
  erp_wake_busy : Forall (λ ev, ∃ now_ms, ev = EvTick now_ms) (wake_busy (rt_busy (en_rt n)));
  erp_peers : Forall (λ ev, is_Some (event_peer ev) → peer_event_ok hist ev) (posted tr);
}.

Lemma wake_manager_ticks w c now w' evs :
  wake_round w c now = (w', evs) → Forall (λ ev : RuntimeEvent, ∃ now_ms, ev = EvTick now_ms) evs.
Proof. unfold wake_round. intros E. repeat (case_match; simplify_eq/=); repeat constructor; eauto. Qed.

(** The events a step of the network manager makes. *)
Lemma network_makes hist net net' new :
  erp_events net' = erp_events net ++ new → Forall (peer_event_ok hist) new →
  Forall (peer_event_ok hist) (erp_new_events net net').
Proof. intros E Hn. by rewrite (new_events_app _ _ _ E). Qed.

Lemma network_quiet hist net net' :
  erp_events net' = erp_events net → Forall (peer_event_ok hist) (erp_new_events net net').
Proof. intros E. apply (network_makes _ _ _ []); [by rewrite app_nil_r|done]. Qed.

(** A frame that a thread sends to the node manager. *)
Lemma thread_sends_ok hist (n : ErpNode (S := S)) ws id ev outs :
  linked hist n ws → en_threads n !! id = Some (ToNode ev :: outs) → peer_event_ok hist ev.
Proof. intros [_ _ Ht] Hid. exact (Forall_inv (threads_outputs _ _ _ _ _ _ Ht _ _ Hid)). Qed.

Lemma erp_inv_step tr hist n l ls n' :
  0 < pointer_width ≤ 64 → boot_ok U missing o0 e0 → erp_inv tr hist n → run_ok U o0 (tr ++ [l]) →
  en_step n l ls n' → erp_inv (tr ++ [l]) (hist ++ ls) n'.
Proof.
  intros Hw Hb [Hc [ws Hl] Hnb Hwb Hpo] Hrun Hstep. pose proof (run_ok_snoc _ _ _ _ Hrun) as Hrun'.
  pose proof (linked_step _ _ _ _ _ _ _ _ _ Hl Hstep) as Hl'.
  assert (∀ ev, peer_event_ok hist ev → peer_event_ok (hist ++ ls) ev) as Happ by (intros ev; apply peer_event_app).
  assert (Forall (λ ev, is_Some (event_peer ev) → peer_event_ok (hist ++ ls) ev) (posted tr)) as Hpo'.
  { eapply Forall_impl; [exact Hpo|]. eauto. }
  assert (∀ ev, peer_event_ok hist ev → node_event_ok o0 ev) as Hpe by (intros ev (p & Hp & _); left; by eexists).
  destruct Hstep as [e ev events events' out busy e' acts net inbox ths st wk Hpop Hh
    |e a todo events out out' busy net inbox ths st wk Ha
    |env e todo events c q q' s w sb wb net net' inbox ths st wk Hpop Hn
    |env e todo events out sb wb net net' ev inbox ths st wk Hn
    |env i e todo events out sb wb net net' inbox ths st wk ls Hout Hn Hls
    |id ev outs rt net inbox ths st wk Hid
    |id ev outs e todo events events' out busy net inbox ths st wk Hid Hsend
    |e todo events events' out ev nb sb wb net inbox ths st wk Hsend
    |e todo events events' out ev nb sb wb net inbox ths st wk Hsend
    |e todo events events' out ev nb sb wb net inbox ths st wk Hsend
    |e todo events c q s s' w evs nb wb net inbox ths st st' wk Hpop Hround
    |now e todo events c q s w w' nb sb net inbox ths st wk wk' evs Hpop Hround
    |now e todo events out nb sb net inbox ths st wk wk' ev Hq Hround];
    cbn in Hc, Hnb, Hwb; split; cbn; try done; rewrite ?app_nil_r in *; rewrite ?posted_same by done; try done;
    try (by apply core_other); try (by eapply wake_manager_ticks);
    try (apply mpsc_send_Ok in Hsend as [Hq _]; rewrite Hq).
  - apply ch_pop_Some in Hpop as (Hq & _). rewrite Hq in Hc. by eapply core_handle.
  - eapply core_action; [done|]. by eapply action_storage.
  - apply network_quiet. by eapply command_step.
  - destruct (report_step node_identity transport_identity config hist _ _ _ _ Hn) as (new & E & Hnew);
      [|by eapply network_makes].
    exact (Forall_inv (threads_inbox _ _ _ _ _ _ (linked_threads _ _ _ _ _ _ Hl))).
  - apply network_quiet. by eapply outside_step.
  - eapply core_post; [done|by apply Hpe, (thread_sends_ok hist _ ws id ev outs Hl)|apply Hc].
  - apply posted_more; [done|]. intros _. by apply (thread_sends_ok hist _ ws id ev outs Hl).
  - eapply core_post; [done|by apply Hpe, (Forall_inv Hnb)|apply Hc].
  - by apply Forall_inv_tail in Hnb.
  - apply posted_more; [done|]. intros _. apply (Forall_inv Hnb).
  - pose proof (core_loaded _ _ _ _ _ _ _ _ _ _ _ _ _ Hc) as [Hev ?]%Forall_cons.
    eapply core_post; [done|by right; left|done].
  - pose proof (core_loaded _ _ _ _ _ _ _ _ _ _ _ _ _ Hc) as [Hev ?]%Forall_cons.
    apply posted_more; [done|]. by intros []%(stored_no_peer o0).
  - eapply core_post; [done|right; right; apply (Forall_inv Hwb)|apply Hc].
  - by apply Forall_inv_tail in Hwb.
  - apply posted_more; [done|]. destruct (Forall_inv Hwb) as [t ->]. by intros [? [=]].
  - apply ch_pop_Some in Hpop as (Hq & _). rewrite Hq in Hc. by eapply core_storage.
Qed.

Lemma erp_inv_run store now_ms tr hist n :
  0 < pointer_width ≤ 64 → boot_ok U missing o0 e0 → store_inv view_of healthy o0 [] store → run_ok U o0 tr →
  en_run (erp_node_start config e0 store now_ms) tr hist n → erp_inv tr hist n.
Proof.
  intros Hw Hb Hs Hrun Hr. remember (erp_node_start config e0 store now_ms) as n0 eqn:E.
  induction Hr as [n|n tr hist n1 l ls n2 Hr IH Hstep]; subst.
  - split; simpl; try done; [by apply core_start|]. eapply linked_run, en_run_nil.
  - eapply erp_inv_step; eauto using run_ok_snoc.
Qed.

(** C6: the embedded node as a whole is safe.  Run the node manager, the three managers and
    a thread for every connection in any interleaving, from a first start or a restart,
    whatever the peers, the connections and the clock do, under the assumptions of the host
    (delivered blocks do not collide and are in range, [block_sane], without which validation
    can overflow; snapshots fit in memory; a stored snapshot is the first event).  Then the engine is where its own sequential run on the handled events
    takes it; every event about a peer that it handles, frames that went past the network
    manager included, is about a node whose handshake one of the started workers completed:
    it signed a hello for the transport key that authenticated the very connection of that
    worker, the expected one if one was expected; and the event that is next in the queue,
    whoever sent it, is handled without a panic. *)
Theorem embedded_node_safe store now_ms tr hist n :
  0 < pointer_width ≤ 64 → boot_ok U missing o0 e0 → store_inv view_of healthy o0 [] store → run_ok U o0 tr →
  en_run (erp_node_start config e0 store now_ms) tr hist n →
  run_events e0 (handled tr) = Ret (rt_engine (en_rt n), emitted tr) ∧
  (∀ ev p, ev ∈ handled tr → event_peer ev = Some p →
     ∃ l w v d out pk, l ∈ hist ∧
       establish_session (worker_role (launched l)) (worker_expected (launched l)) (launch_seed l)
         (launch_world l) = Ret (w, Ok (Some v)) ∧
       verified_node_peer_id v = p ∧
       upgrade_noise_transport transport_identity (worker_role (launched l)) (launch_seed l) (tcp (launch_world l)) =
         Ret (d, Ok out) ∧ authenticated out pk ∧ proves (public_peer_id pk) v ∧
       (∀ expected, worker_expected (launched l) = Some expected → expected = public_peer_id pk)) ∧
  (∀ ev events', ch_pop (rt_events (en_rt n)) = Some (ev, events') →
     (handled tr = [] → is_Some o0 → ev = booted o0) →
     ∃ e' acts, handle_event (rt_engine (en_rt n)) ev = Ret (e', acts)).
Proof.
  intros Hw Hb Hs Hrun Hr. pose proof (erp_inv_run store now_ms tr hist n Hw Hb Hs Hrun Hr) as [Hc _ _ _ Hpo].
  split_and!; [apply Hc| |].
  - intros ev p Hev Hpe.
    assert (ev ∈ posted tr) as Hin by (rewrite (core_events _ _ _ _ _ _ _ _ _ _ _ _ _ Hc); set_solver).
    destruct (proj1 (Forall_forall _ _) Hpo ev Hin) as (p' & Hp' & l & w & v & Hl & He & Hv); [by rewrite Hpe|].
    simplify_eq. destruct (established_authenticated _ _ _ _ _ _ _ _ _ He) as (d & out & pk & ? & ? & ? & ?).
    exists l, w, v, d, out, pk. done.
  - intros ev events' (Hq & _)%ch_pop_Some Hfirst. rewrite Hq in Hc.
    destruct (core_next view_of healthy U missing o0 e0 _ _ _ _ _ _ _ _ Hw Hb Hc Hrun Hfirst)
      as (e' & acts & ? & _). eauto.
Qed.

(** C7: wherever the embedded node is stopped, nothing it wrote to flash is lost.  The storage
    manager has carried out the commands of the engine in order, up to some point, and no
    operation of the flash has failed so far.  Stop the node between two commands, or while
    it carries out the next one, at any operation of the flash, also because that operation
    failed.  The flash then holds, as its latest snapshot, the one of the last snapshot
    command that was carried out (or the one the node started from), or that of the command
    that was under way, with a block of that hash: it is a storage from which the node can be
    started again, a restarted node is given that block and that snapshot, and its engine
    takes them as its head and state.  The assumptions are those of the safety of the node:
    delivered blocks do not collide and are in range, snapshots fit in memory, and a stored
    snapshot is the first event. *)
Theorem embedded_node_durable store now_ms tr hist n :
  0 < pointer_width ≤ 64 → boot_ok U missing o0 e0 → store_inv view_of healthy o0 [] store → run_ok U o0 tr →
  en_run (erp_node_start config e0 store now_ms) tr hist n →
  storage_taken tr `prefix_of` StLoadLatestSnapshot :: omap storage_command (emitted tr) ∧
  survives view_of healthy o0 Erp.Contract (storage_taken tr) (ch_queue (storage_tx (rt_out (en_rt n)))) (en_store n).
Proof.
  intros Hw Hb Hs Hrun Hr. eapply core_durable; [done..|]. by apply (erp_inv_run store now_ms tr hist n).
Qed.
End invariant.

(** ** Schedules

    An executable form of the steps. *)

Section schedule.
Context `{Target, Crypto, UnsignedVarint, QuickProtobuf, MultiaddrLib, !Libp2p, Psa, Snow}.
Context `{!Postcard NodeHello, !Postcard NodeHelloResponse, !Postcard NodeHelloTranscript}.
Context `{!Postcard NetworkMessage, !Postcard AnnounceRequest, !Postcard AnnounceResponse,
  !Postcard SyncRequest, !Postcard SyncResponse}.
Context {S : Type} `{!Storage S}.
Context (node_identity : IdentityManager) (transport_identity : TransportIdentityManager) (config : NetworkConfig).

(** Which task goes next; [ErpOutside] says what the workers that are started will meet. *)
Inductive erp_turn : Type :=
| ErpHandle
| ErpAction
| ErpCommand (env : ErpEnv)
| ErpReport (env : ErpEnv)
| ErpOutside (env : ErpEnv) (i : ErpInput) (starts : list (bytes * World))
| ErpThread (id : SessionId)
| ErpPostNetwork
| ErpPostStorage
| ErpPostWake
| ErpStorage
| ErpWake (now_ms : Z)
| ErpTimer (now_ms : Z).

Definition erp_took : Type := ErpNode (S := S) * label * list Launch.

(** The first of the events a manager has to send. *)
Definition post_first (events : Channel RuntimeEvent) (senders : nat) (evs : list RuntimeEvent) :
    option (RuntimeEvent * Channel RuntimeEvent * list RuntimeEvent) :=
  match evs with
  | ev :: evs => match mpsc_send events senders ev with Ready (Ok events') => Some (ev, events', evs) | _ => None end
  | [] => None
  end.

Definition start_launches (sps : list Spawned) (starts : list (bytes * World)) : list Launch :=
  zip_with (λ sp '(seed, w), mkLaunch sp seed w) sps starts.

Definition erp_take (n : ErpNode (S := S)) (t : erp_turn) : option erp_took :=
  let '(mkErpNode (mkRuntime e todo events out (mkBusy nb sb wb)) net inbox ths st wk) := n in
  match t with
  | ErpHandle =>
      match todo, ch_pop events with
      | [], Some (ev, events') =>
          match handle_event e ev with
          | Ret (e', acts) =>
              Some (mkErpNode (mkRuntime e' acts events' out (mkBusy nb sb wb)) net inbox ths st wk, LHandle ev acts, [])
          | _ => None
          end
      | _, _ => None
      end
  | ErpAction =>
      match todo with
      | a :: todo =>
          match erp_handle_action out a with
          | Ready (Ok out') =>
              Some (mkErpNode (mkRuntime e todo events out' (mkBusy nb sb wb)) net inbox ths st wk, LAction a, [])
          | _ => None
          end
      | [] => None
      end
  | ErpCommand env =>
      match nb, ch_pop (network_tx out) with
      | [], Some (c, q) =>
          match erp_step config env net (InNetCommand c) with
          | Ret (net', Ok tt) =>
              Some (mkErpNode (mkRuntime e todo events (mkOutboxes q (storage_tx out) (wake_tx out))
                      (mkBusy (erp_new_events net net') sb wb)) net' inbox ths st wk, LNetwork c, [])
          | _ => None
          end
      | _, _ => None
      end
  | ErpReport env =>
      match nb, inbox with
      | [], ev :: inbox =>
          match erp_step config env net (InSession ev) with
          | Ret (net', Ok tt) =>
              Some (mkErpNode (mkRuntime e todo events out (mkBusy (erp_new_events net net') sb wb)) net' inbox ths
                      st wk, LWork, [])
          | _ => None
          end
      | _, _ => None
      end
  | ErpOutside env i starts =>
      match nb, from_outside i, erp_step config env net i with
      | [], true, Ret (net', Ok tt) =>
          let ls := start_launches (new_workers net net') starts in
          if Nat.eqb (length (new_workers net net')) (length starts)
          then Some (mkErpNode (mkRuntime e todo events out (mkBusy (erp_new_events net net') sb wb)) net' inbox
                       (foldl (launch node_identity transport_identity config) ths ls) st wk, LWork, ls)
          else None
      | _, _, _ => None
      end
  | ErpThread id =>
      match ths !! id with
      | Some (ToManager ev :: outs) =>
          Some (mkErpNode (mkRuntime e todo events out (mkBusy nb sb wb)) net (inbox ++ [ev]) (advance id outs ths)
                  st wk, LWork, [])
      | Some (ToNode ev :: outs) =>
          match mpsc_send events (event_senders ths) ev with
          | Ready (Ok events') =>
              Some (mkErpNode (mkRuntime e todo events' out (mkBusy nb sb wb)) net inbox (advance id outs ths) st wk,
                    LPost ev, [])
          | _ => None
          end
      | _ => None
      end
  | ErpPostNetwork =>
      match post_first events (event_senders ths) nb with
      | Some (ev, events', nb) =>
          Some (mkErpNode (mkRuntime e todo events' out (mkBusy nb sb wb)) net inbox ths st wk, LPost ev, [])
      | None => None
      end
  | ErpPostStorage =>
      match post_first events (event_senders ths) sb with
      | Some (ev, events', sb) =>
          Some (mkErpNode (mkRuntime e todo events' out (mkBusy nb sb wb)) net inbox ths st wk, LPost ev, [])
      | None => None
      end
  | ErpPostWake =>
      match post_first events (event_senders ths) wb with
      | Some (ev, events', wb) =>
          Some (mkErpNode (mkRuntime e todo events' out (mkBusy nb sb wb)) net inbox ths st wk, LPost ev, [])
      | None => None
      end
  | ErpStorage =>
      match sb, ch_pop (storage_tx out) with
      | [], Some (c, q) =>
          match erp_storage_round c st with
          | (st', Ok evs) =>
              Some (mkErpNode (mkRuntime e todo events (mkOutboxes (network_tx out) q (wake_tx out))
                      (mkBusy nb evs wb)) net inbox ths st' wk, LStorage c, [])
          | _ => None
          end
      | _, _ => None
      end
  | ErpWake now_ms =>
      match wb, ch_pop (wake_tx out) with
      | [], Some (c, q) =>
          let '(wk', evs) := wake_round wk (Some c) now_ms in
          Some (mkErpNode (mkRuntime e todo events (mkOutboxes (network_tx out) (storage_tx out) q)
                  (mkBusy nb sb evs)) net inbox ths st wk', LWake c, [])
      | _, _ => None
      end
  | ErpTimer now_ms =>
      match wb, ch_queue (wake_tx out), wake_round wk None now_ms with
      | [], [], (wk', [ev]) =>
          Some (mkErpNode (mkRuntime e todo events out (mkBusy nb sb [ev])) net inbox ths st wk', LWork, [])
      | _, _, _ => None
      end
  end.

Lemma launched_starts sps starts : length sps = length starts → map launched (start_launches sps starts) = sps.
Proof.
  unfold start_launches. revert starts. induction sps as [|sp sps IH]; intros [|[seed w] starts] E; try done.
  simpl in *. f_equal. apply IH. by injection E.
Qed.

Lemma erp_take_step n t n' l ls :
  erp_take n t = Some (n', l, ls) → en_step node_identity transport_identity config n l ls n'.
Proof.
  destruct n as [[e todo events [nt s w] [nb sb wb]] net inbox ths st wk]. intros E.
  destruct t; simpl in E; unfold post_first in E; repeat (case_match; simplify_eq/=); try (by econstructor).
  - eapply en_outside; [done|done|]. apply launched_starts. by apply Nat.eqb_eq.
  - eapply en_wake_timer with (now := now_ms); [done|]. unfold wake_round. by repeat (case_match; simplify_eq/=).
  Unshelve. all: exact 0.
Qed.

(** A schedule, with the history it has so far. *)
Fixpoint erp_turns (ts : list erp_turn) (n : ErpNode (S := S)) (tr : list label) (hist : list Launch) :
    option (ErpNode * list label * list Launch) :=
  match ts with
  | [] => Some (n, tr, hist)
  | t :: ts =>
      match erp_take n t with
      | Some (n', l, ls) => erp_turns ts n' (tr ++ [l]) (hist ++ ls)
      | None => None
      end
  end.

Lemma erp_turns_run n0 ts n tr hist n' tr' hist' :
  en_run node_identity transport_identity config n0 tr hist n → erp_turns ts n tr hist = Some (n', tr', hist') →
  en_run node_identity transport_identity config n0 tr' hist' n'.
Proof.
  revert n tr hist. induction ts as [|t ts IH]; intros n tr hist Hr E; simpl in E; [by simplify_eq|].
  destruct (erp_take n t) as [[[n1 l] ls]|] eqn:Et; [|done].
  eapply IH; [|exact E]. eapply en_run_snoc; [exact Hr|]. by eapply erp_take_step.
Qed.
End schedule.

(** ** Witnesses *)

Module ErpNodeWitness.
Import ToyCrypto ModelsWitness ChainWitness EngineRuns StorageWitness Leb128 ToyProtobuf ToyMultiaddr TransportWitness.
Import IdentityWitness NodeHelloWitness NoiseWitness HandshakeWitness SessionRuns.
#[local] Existing Instance dev_host.
#[local] Existing Instance bare_chip.

(** Frames of one byte: the announcement of a block and a sync request. *)
#[local] Instance node_frames : Postcard NetworkMessage :=
  {| to_allocvec m :=
       match m with MsgAnnounceRequest _ => Some [x01] | MsgSyncRequest _ => Some [x02] | _ => Some [x00] end;
     postcard_from_bytes := decode_frame |}.
#[local] Instance node_frames_laws : PostcardLaws NetworkMessage.
Proof. split. intros []; by eexists. Qed.
#[local] Instance block_announced : Postcard AnnounceRequest :=
  {| to_allocvec _ := None; postcard_from_bytes _ := Some (announce_block first_block) |}.

Definition flash : NvsStorage := device ∅.
Definition all_open : ErpEnv := mkErpEnv true (λ _, true) (λ _ _, Ok []).

(** One bootstrap peer, known by its transport. *)
Definition dialling : NetworkConfig :=
  mkNetworkConfig DEFAULT_LISTEN_PORT 2 1 ErpNetwork.DEFAULT_MAX_FRAME_LEN DEFAULT_MAX_BLOCKS_PER_CHUNK
    DEFAULT_IDLE_TIMEOUT_MS [mkBootstrapPeer (Ip4Tcp [x0a; x00; x00; x01] 4001) (Some (peer_id_bytes them))].

(** The peer completes the handshake, opens the substreams [asks], and is told to leave. *)
Definition meets (asks : list Duplex) : World :=
  mkWorld (tcp dialed) (secure dialed) (muxer_conn dialed)
    (mkSession (accepts (mux dialed) ++ map Ok asks) (opens (mux dialed)) [SessDisconnect] []
       (map (λ _, false) asks) [] [] (incoming []) []).

Definition announcement : Duplex :=
  incoming (dialer_lines ANNOUNCE_PROTOCOL ++ frame_of (erp_encode_length_prefixed [x01] 65536)).
Definition sync_question : Duplex :=
  incoming (dialer_lines SYNC_PROTOCOL ++ frame_of (erp_encode_length_prefixed [x0a] 65536)).

Definition begin : ErpNode (S := NvsStorage) := erp_node_start dialling EngineRuns.e0 flash 0.

Definition run_turns (ts : list erp_turn) := erp_turns producer me dialling ts begin [] [].
Definition dials (asks : list Duplex) : erp_turn :=
  ErpOutside all_open (InBootstrapTimer true (Ok tt)) [(seed_a, meets asks)].
Definition boot_turns : list erp_turn := [ErpStorage; ErpPostStorage; ErpHandle; ErpAction].

(** The node dials its bootstrap peer, which proves who it is, announces a block and leaves;
    the block is stored. *)
Definition turns : list erp_turn :=
  boot_turns ++
  [dials [announcement]; ErpThread 0; ErpReport all_open; ErpPostNetwork; ErpHandle; ErpAction; ErpAction; ErpAction;
   ErpCommand all_open; ErpWake 5; ErpThread 0; ErpHandle; ErpAction; ErpAction; ErpAction; ErpStorage; ErpStorage;
   ErpThread 0; ErpReport all_open; ErpPostNetwork; ErpHandle].

Definition small (a : NodeAction) : bool :=
  match a with PersistSnapshot _ bs => bool_decide (Z.of_nat (length bs) ≤ isize_max) | _ => true end.

Definition ran_ok : bool :=
  match run_turns turns with
  | Some (n, tr, hist) =>
      forallb small (emitted tr) && bool_decide (length (handled tr) = 4%nat) &&
      bool_decide (length (omap event_peer (handled tr)) = 3%nat) &&
      bool_decide (fst <$> last_snapshot None (storage_taken tr) = Some (hash first_block))
  | None => false
  end.

Lemma erp_ran_is_ok : ran_ok = true.
Proof. vm_compute. reflexivity. Qed.

Lemma erp_ran_run : ∃ n tr hist,
  en_run producer me dialling begin tr hist n ∧ run_ok known None tr ∧
  length (omap event_peer (handled tr)) = 3%nat ∧
  fst <$> last_snapshot None (storage_taken tr) = Some (hash first_block).
Proof.
  pose proof erp_ran_is_ok as Hok. unfold ran_ok in Hok.
  destruct (run_turns turns) as [[[n tr] hist]|] eqn:E; [|discriminate Hok].
  apply andb_prop in Hok as [Hok Hl]. apply andb_prop in Hok as [Hok Hp]. apply andb_prop in Hok as [Hs _].
  exists n, tr, hist. split_and!.
  - exact (erp_turns_run producer me dialling begin turns _ [] [] n tr hist (en_run_nil producer me dialling _) E).
  - split.
    + apply Forall_forall. intros [] _; try exact I. intros m. apply frame_ok.
    + intros h bs Hin. rewrite forallb_forall in Hs. apply list_elem_of_In, Hs in Hin.
      exact (bool_decide_eq_true_1 _ Hin).
    + intros [x Hx]. discriminate Hx.
  - exact (bool_decide_eq_true_1 _ Hp).
  - exact (bool_decide_eq_true_1 _ Hl).
Qed.

Lemma embedded_boots : boot_ok known None None EngineRuns.e0.
Proof. split; [apply e0_inv|exact e0_inv]. Qed.

Lemma empty_flash : store_inv nvs_view nvs_healthy None [] flash.
Proof. split; [done..|]. split; try done. by intros b [Hin%not_elem_of_nil|]. Qed.

Lemma embedded_sessions_refine_witness : ∃ n tr hist ws,
  en_run producer me dialling begin tr hist n ∧ length (omap event_peer (handled tr)) = 3%nat ∧
  reachable dialling (en_net n) ws ∧ dom (en_threads n) ⊆ dom ws.
Proof.
  destruct erp_ran_run as (n & tr & hist & Hr & _ & Hp & _).
  destruct (embedded_sessions_refine producer me dialling EngineRuns.e0 flash 0 tr hist n Hr) as (ws & Hw & Hd & _).
  exists n, tr, hist, ws. split; [exact Hr|]. split; [exact Hp|]. split; [exact Hw|exact Hd].
Defined.

Lemma embedded_node_safe_witness : ∃ n tr hist,
  en_run producer me dialling begin tr hist n ∧ length (omap event_peer (handled tr)) = 3%nat ∧
  run_events EngineRuns.e0 (handled tr) = Ret (rt_engine (en_rt n), emitted tr).
Proof.
  destruct erp_ran_run as (n & tr & hist & Hr & Hrun & Hp & _). exists n, tr, hist.
  split; [exact Hr|]. split; [exact Hp|].
  exact (proj1 (embedded_node_safe nvs_view nvs_healthy known None producer me dialling None EngineRuns.e0 flash 0
    tr hist n ltac:(by vm_compute) embedded_boots empty_flash Hrun Hr)).
Defined.

(** The device loses power; the next start is given what was stored. *)
Lemma embedded_node_durable_witness : ∃ n tr hist,
  en_run producer me dialling begin tr hist n ∧
  ∀ st, stopped (en_store n) st → ∃ o, (hash ∘ fst) <$> o = Some (hash first_block) ∧
    erp_storage_round StLoadLatestSnapshot st = (st, Ok [booted o]).
Proof.
  destruct erp_ran_run as (n & tr & hist & Hr & Hrun & _ & Hl). exists n, tr, hist. split; [exact Hr|].
  destruct (embedded_node_durable nvs_view nvs_healthy known None producer me dialling None EngineRuns.e0 flash 0
    tr hist n ltac:(by vm_compute) embedded_boots empty_flash Hrun Hr) as (_ & Hstop & _).
  intros st Hst. destruct (Hstop st Hst) as (o & Ho & [_ Hload _]). exists o. split; [|exact Hload].
  unfold wrote_last in Ho. rewrite <-Ho in Hl. destruct o as [[b bs]|]; exact Hl.
Defined.

(** A peer asks for blocks as soon as the handshake is complete: the question reaches the
    engine before the network manager has taken the report that the session is ready, the
    engine answers, and the network manager drops the answer, since it knows no session of
    that node.  The worker waits for it. *)
Definition early_turns : list erp_turn :=
  boot_turns ++ [dials [sync_question]; ErpThread 0; ErpThread 0; ErpHandle; ErpAction; ErpCommand all_open].

Definition dropped : bool :=
  match run_turns early_turns with
  | Some (n, tr, _) =>
      match network_taken tr, en_inbox n with
      | [NetSendFrame p _], [SessReady id v] =>
          bool_decide (p = verified_node_peer_id v) &&
          match session_commands (en_net n) !! id with Some [] => true | _ => false end
      | _, _ => false
      end
  | None => false
  end.

Lemma is_dropped : dropped = true.
Proof. vm_compute. reflexivity. Qed.

Lemma early_answer_dropped : ∃ n tr hist id v frame,
  en_run producer me dialling begin tr hist n ∧ network_taken tr = [NetSendFrame (verified_node_peer_id v) frame] ∧
  en_inbox n = [SessReady id v] ∧ session_commands (en_net n) !! id = Some [].
Proof.
  pose proof is_dropped as Hok. unfold dropped in Hok.
  destruct (run_turns early_turns) as [[[n tr] hist]|] eqn:E; [|discriminate Hok].
  destruct (network_taken tr) as [|[p f| | |] [|]] eqn:En; try discriminate Hok.
  destruct (en_inbox n) as [|[id v|] [|]] eqn:Ei; try discriminate Hok.
  apply andb_prop in Hok as [Hp%bool_decide_eq_true_1 Hs]. subst p. exists n, tr, hist, id, v, f.
  split; [exact (erp_turns_run producer me dialling begin early_turns _ [] [] n tr hist
    (en_run_nil producer me dialling _) E)|].
  split; [exact En|]. split; [exact Ei|]. destruct (session_commands _ !! id) as [[|]|]; done.
Qed.
End ErpNodeWitness.
