(* ===== verification/Client.v ===== *)
(** * The command line client

    Models rp-client/src/main.rs: what the client prints for its arguments.  The arguments
    are parsed by clap from the declaration of [Cli]; a field that is not given has its
    default.  The client is a scaffold that does not talk to a node. *)

From S2P Require Import Prelude.
From Stdlib Require Import String.

Definition DEFAULT_RPC_URL : string := "http://127.0.0.1:8545".

Inductive Command : Type := Status | Keygen.

Record Cli : Type := mkCli {
  rpc_url : string;
  cli_command : option Command;
}.

(** What [Cli::parse] makes of the options that are given. *)
Definition cli_of (url : option string) (command : option Command) : Cli :=
  mkCli (default DEFAULT_RPC_URL url) command.

Definition print_status (rpc_url : string) : list string :=
  ["rp-client wallet app";
   String.append "rpc endpoint: " rpc_url;
   "status RPC is not wired yet; this crate is the wallet and operator scaffold."]%string.

Definition print_keygen_todo : list string :=
  ["key generation is not wired yet;";
   "next step: add a wallet module once the node RPC and transaction format settle."]%string.

(** The lines that are printed. *)
Definition client_main (cli : Cli) : list string :=
  match default Status (cli_command cli) with
  | Status => print_status (rpc_url cli)
  | Keygen => print_keygen_todo
  end.

(** Without a command the client prints its status, with the endpoint it was given or the
    default one, and the status is the only output that depends on the endpoint. *)
Lemma client_status url url' command :
  (command ≠ Some Keygen → client_main (cli_of url command) = print_status (default DEFAULT_RPC_URL url)) ∧
  (command = Some Keygen → client_main (cli_of url command) = client_main (cli_of url' command)).
Proof. split; [|by intros ->]. by destruct command as [[]|]. Qed.

(** The test of the client: without arguments, the default endpoint and no command. *)
Definition parses_default_cli_values : bool :=
  let cli := cli_of None None in
  bool_decide (rpc_url cli = DEFAULT_RPC_URL) && match cli_command cli with None => true | Some _ => false end.

Lemma client_test_passes : parses_default_cli_values = true.
Proof. reflexivity. Qed.
