(* ===== verification/CoreTests.v ===== *)
(** * The unit tests of rp-core, of the mempool and of the block tree

    The tests of the repository, as programs over the definitions of the development: a
    test returns the conjunction of its assertions, and a panic is a panic.  The keys the
    tests draw at random are arguments.  [CoreTestRuns] runs them with concrete keys: the
    definitions meet the expectations their authors wrote down. *)

From S2P Require Import Prelude.
From S2P Require Import Maps.
From S2P Require Import Crypto.
From S2P Require Import Models.
From S2P Require Import State.
From S2P Require Import StateCodec.
From S2P Require Import ChainCore.
From S2P Require Import Mempool.
From S2P Require Import Chain.

(** ** Helpers *)

Definition eqb {A} `{EqDecision A} (x y : A) : bool := bool_decide (x = y).

(** [unwrap] *)
Definition unwrap {A E} (r : result A E) : outcome A := match r with Ok a => Ret a | Err _ => Panic end.
Definition unwrap_option {A} (o : option A) : outcome A := match o with Some a => Ret a | None => Panic end.

Definition zeros : bytes := replicate 32 x00.

Section helpers.
Context `{Target, Crypto}.

Definition sign_tx (sender : SigningKey) (data : TransactionData) (sequence fee : Z) : Transaction :=
  let tx := mkTransaction (signing_key_verifying_key sender) data sequence fee None in
  mkTransaction (signing_key_verifying_key sender) data sequence fee (Some (signing_key_sign sender (hash tx))).

Definition sign_block (validator : SigningKey) (height slot : Z) (previous_hash : bytes)
    (transactions : list Transaction) (state_root : bytes) : Block :=
  let b sg := mkBlock height slot previous_hash (signing_key_verifying_key validator) transactions sg [] state_root in
  b (Some (signing_key_sign validator (hash (b None)))).

(** ** traits.rs *)

Definition test_u64_to_bytes : bool :=
  eqb (to_bytes (42 : Z)) [x00; x00; x00; x00; x00; x00; x00; x2a].

Definition test_string_to_bytes : bool :=
  eqb (to_bytes "hello"%string) ([x00; x00; x00; x00; x00; x00; x00; x05] ++ [x68; x65; x6c; x6c; x6f]).

Definition test_vec_to_bytes : bool :=
  eqb (to_bytes [1; 2])
    ([x00; x00; x00; x00; x00; x00; x00; x02] ++ [x00; x00; x00; x00; x00; x00; x00; x01] ++
     [x00; x00; x00; x00; x00; x00; x00; x02]).

Definition test_hashable_blanket_impl : bool := eqb (length (hash (42 : Z))) 32%nat.

(** ** models *)

Definition test_block_signing_and_verification (validator : SigningKey) : bool :=
  block_is_valid (sign_block validator 1 1 zeros [] zeros).

Definition test_transaction_signing_and_verification (sender receiver : SigningKey) : bool :=
  transaction_is_valid (sign_tx sender (Transfer (signing_key_verifying_key receiver) 100) 1 10).

Definition test_valid_slash_proof (validator : SigningKey) : bool :=
  is_ok (slash_proof_validate
    (mkSlashProof (signing_key_verifying_key validator) (sign_block validator 2 1 zeros [] zeros)
       (sign_block validator 1 1 zeros [] zeros))).

(** ** state.rs *)

Definition create_tx (sender : SigningKey) (receiver : VerifyingKey) (amount sequence : Z) : Transaction :=
  sign_tx sender (Transfer receiver amount) sequence 10.

Definition give (account : SigningKey) (amount : Z) (st : State) : State :=
  set_balances st (<[verifying_key_to_bytes (signing_key_verifying_key account) := amount]> (balances st)).
Definition stake (account : SigningKey) (amount : Z) (st : State) : State :=
  set_stakes st (<[verifying_key_to_bytes (signing_key_verifying_key account) := amount]> (stakes st)).

Definition test_initial_state (keypair : SigningKey) : bool :=
  eqb (get_balance State_new (signing_key_verifying_key keypair)) 0 &&
  eqb (get_nonce State_new (signing_key_verifying_key keypair)) 0.

Definition test_apply_valid_transaction (sender receiver : SigningKey) : outcome bool :=
  let st := give sender 100 State_new in
  let tx := create_tx sender (signing_key_verifying_key receiver) 50 0 in
  let valid := is_valid_tx st tx in
  st ← apply_tx st tx 1;
  Ret (valid && eqb (get_balance st (signing_key_verifying_key sender)) 50 &&
       eqb (get_balance st (signing_key_verifying_key receiver)) 50 &&
       eqb (get_nonce st (signing_key_verifying_key sender)) 1).

Definition test_insufficient_funds (sender receiver : SigningKey) : bool :=
  negb (is_valid_tx (give sender 10 State_new) (create_tx sender (signing_key_verifying_key receiver) 50 0)).

Definition test_invalid_nonce (sender receiver : SigningKey) : bool :=
  negb (is_valid_tx (give sender 100 State_new) (create_tx sender (signing_key_verifying_key receiver) 50 1)).

Definition test_invalid_signature (sender receiver : SigningKey) : bool :=
  let tx := create_tx sender (signing_key_verifying_key receiver) 50 0 in
  let tampered := mkTransaction (tx_sender tx) (Transfer (signing_key_verifying_key receiver) 100) (tx_sequence tx)
                    (tx_fee tx) (tx_signature tx) in
  negb (is_valid_tx (give sender 100 State_new) tampered).

Definition test_validator_selection (val1 val2 val3 : SigningKey) : outcome bool :=
  none ← get_expected_validator State_new 1;
  winner ← get_expected_validator (stake val3 300 (stake val2 200 (stake val1 100 State_new))) 1;
  winner ← unwrap_option winner;
  Ret (match none with None => true | Some _ => false end &&
       (eqb winner (signing_key_verifying_key val1) || eqb winner (signing_key_verifying_key val2) ||
        eqb winner (signing_key_verifying_key val3))).

Definition test_validator_selection_skips_invalid_restored_keys (valid : SigningKey) : outcome bool :=
  let st := stake valid 20 (set_stakes State_new {[ replicate PUBLIC_KEY_SIZE x00 := 10 ]}) in
  restored ← from_bytes (to_bytes st);
  restored ← unwrap restored;
  expected ← get_expected_validator restored 1;
  expected ← unwrap_option expected;
  Ret (eqb expected (signing_key_verifying_key valid)).

Definition test_compute_state_root (key1 key2 : SigningKey) : bool :=
  let root1 := compute_state_root State_new in
  let root2 := compute_state_root (give key1 100 State_new) in
  let root3 := compute_state_root (give key2 200 (give key1 100 State_new)) in
  let root4 := compute_state_root (give key1 100 (give key2 200 State_new)) in
  negb (eqb root1 root2) && negb (eqb root2 root3) && eqb root3 root4.

(** ** mempool.rs *)

Definition create_tx_with_fee (sender receiver : SigningKey) (fee sequence : Z) : Transaction :=
  sign_tx sender (Transfer (signing_key_verifying_key receiver) 10) sequence fee.

(** [add_transaction(..).unwrap()] *)
Definition pool_add (m : Mempool) (tx : Transaction) : outcome Mempool :=
  let '(m, r) := mempool_add_transaction m tx in _ ← unwrap r; Ret m.

Definition fees (m : Mempool) (count : nat) : list Z := map tx_fee (get_pending_transactions m count).

Definition test_mempool_sorting (a b : SigningKey) : outcome bool :=
  m ← pool_add (Mempool_new 10) (create_tx_with_fee a b 10 1);
  m ← pool_add m (create_tx_with_fee a b 50 2);
  m ← pool_add m (create_tx_with_fee a b 5 3);
  Ret (eqb (fees m 3) [50; 10; 5]).

Definition test_mempool_capacity_and_eviction (a b : SigningKey) : outcome bool :=
  m ← pool_add (Mempool_new 2) (create_tx_with_fee a b 10 1);
  m ← pool_add m (create_tx_with_fee a b 20 2);
  let full := eqb (mempool_len m) 2%nat in
  let '(m, low) := mempool_add_transaction m (create_tx_with_fee a b 5 3) in
  let refused := match low with Err e => eqb e "Transaction fee too low to enter mempool"%string | Ok _ => false end in
  let kept := eqb (mempool_len m) 2%nat in
  m ← pool_add m (create_tx_with_fee a b 30 4);
  Ret (full && refused && kept && eqb (mempool_len m) 2%nat && eqb (fees m 2) [30; 20]).

Definition test_remove_transaction (a b : SigningKey) : outcome bool :=
  let tx := create_tx_with_fee a b 10 1 in
  m ← pool_add (Mempool_new 10) tx;
  Ret (eqb (mempool_len m) 1%nat && eqb (mempool_len (remove_transaction m (hash tx))) 0%nat).

Definition test_duplicate_transaction_returns_false (a b : SigningKey) : bool :=
  let tx := create_tx_with_fee a b 10 1 in
  let '(m, first) := mempool_add_transaction (Mempool_new 10) tx in
  let '(m, second) := mempool_add_transaction m tx in
  match first, second with Ok true, Ok false => eqb (mempool_len m) 1%nat | _, _ => false end.

(** ** blockchain.rs *)

Definition new_blockchain : outcome Blockchain := r ← Blockchain_new; unwrap r.

Definition set_state (bc : Blockchain) (st : State) : Blockchain :=
  mkBlockchain (chain bc) (head_hash bc) st (mempool bc).

Definition test_blockchain_add_transaction_and_block (validator sender receiver : SigningKey) : outcome bool :=
  bc ← new_blockchain;
  let bc := set_state bc (give sender 100 (bc_state bc)) in
  let tx := create_tx sender (signing_key_verifying_key receiver) 50 0 in
  let '(bc, added) := add_transaction bc tx in
  let pooled := eqb (mempool_len (mempool bc)) 1%nat in
  latest ← get_latest_block bc;
  temp_state ← apply_tx (bc_state bc) tx 1;
  let block := sign_block validator (block_height latest + 1) 1 (hash latest) [tx] (compute_state_root temp_state) in
  '(bc, res) ← add_block bc block (bc_state bc);
  Ret (is_ok added && pooled && is_ok res && eqb (size (chain bc)) 2%nat && eqb (mempool_len (mempool bc)) 0%nat &&
       eqb (get_balance (bc_state bc) (signing_key_verifying_key sender)) 50).

Definition test_enforce_consensus_validator (validator1 validator2 : SigningKey) : outcome bool :=
  bc ← new_blockchain;
  let parent_state := stake validator2 200 (stake validator1 100 (bc_state bc)) in
  let bc := set_state bc parent_state in
  expected ← get_expected_validator parent_state 1;
  expected ← unwrap_option expected;
  let '(correct, wrong) :=
    if eqb expected (signing_key_verifying_key validator1) then (validator1, validator2) else (validator2, validator1) in
  latest ← get_latest_block bc;
  let block v := sign_block v (block_height latest + 1) 1 (hash latest) [] (compute_state_root parent_state) in
  '(bc, bad) ← add_block bc (block wrong) parent_state;
  '(_, good) ← add_block bc (block correct) parent_state;
  Ret (negb (is_ok bad) && is_ok good).

Definition test_higher_slot_wins_same_height_fork (validator1 validator2 : SigningKey) : outcome bool :=
  bc ← new_blockchain;
  parent ← get_latest_block bc;
  let parent_state := bc_state bc in
  let state_root := compute_state_root parent_state in
  let block_a := sign_block validator1 1 1 (hash parent) [] state_root in
  let block_b := sign_block validator2 1 2 (hash parent) [] state_root in
  '(bc, a) ← add_block bc block_a parent_state;
  let head_a := eqb (head_hash bc) (hash block_a) in
  '(bc, b) ← add_block bc block_b parent_state;
  latest ← get_latest_block bc;
  Ret (is_ok a && head_a && is_ok b && eqb (head_hash bc) (hash block_b) && eqb (block_slot latest) 2).

Definition test_sparse_restore_only_serves_contiguous_available_history : outcome bool :=
  bc ← new_blockchain;
  validator ← genesis_verifying_key;
  let restored_head := mkBlock 5 5 (replicate 32 x09) validator [] None [] (compute_state_root State_new) in
  let bc := restore_head bc restored_head State_new in
  earliest ← earliest_contiguous_height bc;
  missing ← get_blocks bc 1 5;
  served ← get_blocks bc 5 5;
  Ret (eqb earliest 5 && match missing with [] => true | _ => false end &&
       match served with [b] => eqb (hash b) (hash restored_head) | _ => false end).
End helpers.

(** ** Runs *)

Module CoreTestRuns.
Import ToyCrypto.
#[local] Existing Instance dev_host.

Definition core_tests : list (outcome bool) :=
  [Ret test_u64_to_bytes; Ret test_string_to_bytes; Ret test_vec_to_bytes; Ret test_hashable_blanket_impl;
   Ret (test_block_signing_and_verification x07); Ret (test_transaction_signing_and_verification x07 x08);
   Ret (test_valid_slash_proof x07);
   Ret (test_initial_state x07); test_apply_valid_transaction x07 x08; Ret (test_insufficient_funds x07 x08);
   Ret (test_invalid_nonce x07 x08); Ret (test_invalid_signature x07 x08); test_validator_selection x07 x08 x09;
   test_validator_selection_skips_invalid_restored_keys x07; Ret (test_compute_state_root x07 x08)].

Definition node_tests : list (outcome bool) :=
  [test_mempool_sorting x07 x08; test_mempool_capacity_and_eviction x07 x08; test_remove_transaction x07 x08;
   Ret (test_duplicate_transaction_returns_false x07 x08);
   test_blockchain_add_transaction_and_block x07 x08 x09; test_enforce_consensus_validator x07 x08;
   test_higher_slot_wins_same_height_fork x07 x08; test_sparse_restore_only_serves_contiguous_available_history].

Lemma core_tests_pass : Forall (λ t, t = Ret true) core_tests.
Proof. vm_compute. repeat constructor. Qed.

Lemma node_tests_pass : Forall (λ t, t = Ret true) node_tests.
Proof. vm_compute. repeat constructor. Qed.
End CoreTestRuns.
