(* ===== verification/EngineTests.v ===== *)
(** * The unit tests of the node engine and of the runtimes

    The tests of rp-node/src/node_engine.rs and network/message.rs, of the storage of the
    host, and of the wake manager, the identity, the protocols and the block signing of the
    embedded runtime, as programs over the definitions of the development, in the style of
    CoreTests.v.  [EngineTestRuns] runs them; the number of actions that the test of the
    block signing expects is not the number the engine returns. *)

From S2P Require Import Prelude.
From S2P Require Import Maps.
From S2P Require Import Text.
From S2P Require Import Crypto.
From S2P Require Import Models.
From S2P Require Import State.
From S2P Require Import StateCodec.
From S2P Require Import ChainCore.
From S2P Require Import Mempool.
From S2P Require Import Chain.
From S2P Require Import Messages.
From S2P Require Import Engine.
From S2P Require Import Errors.
From S2P Require Import Framing.
From S2P Require Import Identity.
From S2P Require Import Runtime.
From S2P Require Import Storage.
From S2P Require Import CoreTests.

Section tests.
Context `{Target, Crypto, !Postcard NetworkMessage}.

(** ** node_engine.rs: helpers *)

Definition build_transfer_transaction (sender receiver : SigningKey) (amount fee sequence : Z) : Transaction :=
  sign_tx sender (Transfer (signing_key_verifying_key receiver) amount) sequence fee.

Definition build_empty_block (parent : Block) (parent_state : State) (validator : SigningKey) (slot : Z) : Block :=
  sign_block validator (block_height parent + 1) slot (hash parent) [] (compute_state_root parent_state).

Definition assert_persist_actions (actions : list NodeAction) (expected_hash : bytes) : bool :=
  match actions with
  | PersistBlock block :: PersistSnapshot block_hash _ :: _ =>
      eqb (hash block) expected_hash && eqb block_hash expected_hash
  | _ => false
  end.

Definition new_engine : outcome NodeEngine := bc ← new_blockchain; Ret (NodeEngine_new bc).

(** [engine.step(NodeInput::FrameReceived { peer, frame: message.to_bytes() })] *)
Definition receive (e : NodeEngine) (peer : bytes) (message : NetworkMessage) :
    outcome (NodeEngine * list NodeAction) :=
  frame ← message_to_bytes message;
  step e (FrameReceived peer frame).

Definition announced (block : Block) : NetworkMessage := MsgAnnounceRequest (announce_block block).

Definition is_load_snapshot (actions : list NodeAction) (block_hash : bytes) : bool :=
  match actions with [LoadSnapshot h] => eqb h block_hash | _ => false end.

(** Two blocks on top of the genesis block, the second one with the higher slot. *)
Definition setup_forked_engine (validator_a validator_b : SigningKey) :
    outcome (NodeEngine * bytes * Block * bytes * bool) :=
  let peer := replicate 32 x07 in
  e ← new_engine;
  genesis ← get_latest_block (blockchain e);
  let parent_state_bytes := to_bytes (bc_state (blockchain e)) in
  let block_a := build_empty_block genesis (bc_state (blockchain e)) validator_a 1 in
  '(e, actions) ← receive e peer (announced block_a);
  let ok1 := assert_persist_actions actions (hash block_a) in
  let block_b := build_empty_block genesis (bc_state (blockchain e)) validator_b 2 in
  '(e, actions) ← receive e peer (announced block_b);
  let ok2 := is_load_snapshot actions (hash genesis) in
  '(e, actions) ← step e (StorageLoaded (hash genesis) (Some parent_state_bytes));
  latest ← get_latest_block (blockchain e);
  let ok3 := eqb (block_slot latest) 2 && assert_persist_actions actions (head_hash (blockchain e)) in
  Ret (e, peer, block_a, parent_state_bytes, ok1 && ok2 && ok3).

(** ** node_engine.rs: tests *)

Definition parked (e : NodeEngine) (h : bytes) : bool :=
  match pending_blocks e !! h with Some _ => true | None => false end.

Definition test_frame_received_direct_child_persists_block_and_snapshot (validator : SigningKey) : outcome bool :=
  e ← new_engine;
  genesis ← get_latest_block (blockchain e);
  let block := build_empty_block genesis (bc_state (blockchain e)) validator 1 in
  '(e, actions) ← receive e (replicate 32 x01) (announced block);
  Ret (eqb (head_hash (blockchain e)) (hash block) && eqb (size (pending_blocks e)) 0%nat &&
       assert_persist_actions actions (hash block)).

(** The child of the block that lost the fork. *)
Definition child_of (block_a : Block) (parent_state_bytes : bytes) (validator : SigningKey) (slot : Z) : outcome Block :=
  st ← from_bytes parent_state_bytes;
  st ← unwrap st;
  Ret (build_empty_block block_a st validator slot).

Definition test_frame_received_non_head_child_emits_load_snapshot (va vb validator : SigningKey) : outcome bool :=
  '(e, peer, block_a, bytes_a, ok) ← setup_forked_engine va vb;
  child ← child_of block_a bytes_a validator 3;
  '(e, actions) ← receive e peer (announced child);
  Ret (ok && is_load_snapshot actions (hash block_a) && parked e (hash block_a)).

Definition test_storage_loaded_imports_parked_block_and_persists_it (va vb validator : SigningKey) : outcome bool :=
  '(e, peer, block_a, bytes_a, ok) ← setup_forked_engine va vb;
  child ← child_of block_a bytes_a validator 3;
  '(e, actions) ← receive e peer (announced child);
  let loads := match actions with LoadSnapshot _ :: _ => true | _ => false end in
  '(e, actions) ← step e (StorageLoaded (hash block_a) (Some bytes_a));
  Ret (ok && loads && eqb (head_hash (blockchain e)) (hash child) && negb (parked e (hash block_a)) &&
       assert_persist_actions actions (hash child)).

Definition test_storage_loaded_none_requests_parent_block (va vb validator : SigningKey) : outcome bool :=
  '(e, peer, block_a, bytes_a, ok) ← setup_forked_engine va vb;
  child ← child_of block_a bytes_a validator 3;
  '(e, actions) ← receive e peer (announced child);
  let loads := match actions with LoadSnapshot _ :: _ => true | _ => false end in
  '(e, actions) ← step e (StorageLoaded (hash block_a) None);
  Ret (ok && loads &&
       match actions with
       | [ReportEvent message; RequestBlocks action_peer 1 1; ScheduleWake 30000] =>
           eqb message "parent snapshot missing"%string && eqb action_peer peer
       | _ => false
       end).

Definition is_request (actions : list NodeAction) : bool :=
  match actions with RequestBlocks _ _ _ :: _ => true | _ => false end.

Definition one_request (e : NodeEngine) (peer : bytes) (from_height to_height : Z) : bool :=
  match pending_requests e with
  | [r] => eqb (req_peer r) peer && eqb (req_from_height r) from_height && eqb (req_to_height r) to_height
  | _ => false
  end.

Definition only_request (actions : list NodeAction) (peer : bytes) (from_height to_height : Z) : bool :=
  match actions with [RequestBlocks p f t] => eqb p peer && eqb f from_height && eqb t to_height | _ => false end.

Definition test_sync_response_uses_ingest_path_and_clears_pending_request (validator : SigningKey) : outcome bool :=
  let peer := replicate 32 x03 in
  e ← new_engine;
  genesis ← get_latest_block (blockchain e);
  let block := build_empty_block genesis (bc_state (blockchain e)) validator 1 in
  '(e, request_actions) ← step e (ImportRequested peer 1 1);
  let asked := eqb (length (pending_requests e)) 1%nat && is_request request_actions in
  latest ← get_latest_block (blockchain e);
  let has_more := bool_decide (1 < block_height latest) in
  '(e, actions) ← receive e peer
    (MsgSyncResponse (mkSyncResponse [block] has_more (if has_more then Some 2 else None)));
  Ret (asked && eqb (length (pending_requests e)) 0%nat && eqb (head_hash (blockchain e)) (hash block) &&
       assert_persist_actions actions (hash block)).

Definition test_sync_request_after_sparse_restore_does_not_advertise_missing_history : outcome bool :=
  e ← new_engine;
  validator ← genesis_verifying_key;
  let restored_head := mkBlock 5 5 (replicate 32 x07) validator [] None [] (compute_state_root State_new) in
  let e := set_blockchain e (restore_head (blockchain e) restored_head State_new) in
  '(e, actions) ← receive e (replicate 32 x04) (MsgSyncRequest (mkSyncRequest 1 5));
  match actions with
  | SendFrame _ frame :: _ =>
      m ← unwrap (network_message_from_bytes frame);
      match m with
      | MsgSyncResponse (mkSyncResponse blocks has_more next_height) =>
          Ret (eqb (length blocks) 0%nat && negb has_more && eqb next_height (Some 5))
      | _ => Panic
      end
  | _ => Panic
  end.

Definition test_empty_sync_response_with_next_height_requests_available_window : outcome bool :=
  let peer := replicate 32 x0b in
  e ← new_engine;
  '(e, request_actions) ← step e (ImportRequested peer 1 100);
  let asked := eqb (length (pending_requests e)) 1%nat && is_request request_actions in
  '(e, actions) ← receive e peer (MsgSyncResponse (mkSyncResponse [] false (Some 350)));
  Ret (asked && one_request e peer 350 449 && only_request actions peer 350 449).

Definition test_sync_response_with_more_blocks_requests_next_page : outcome bool :=
  let peer := replicate 32 x0c in
  e ← new_engine;
  '(e, request_actions) ← step e (ImportRequested peer 1 100);
  let asked := eqb (length (pending_requests e)) 1%nat && is_request request_actions in
  '(e, actions) ← receive e peer (MsgSyncResponse (mkSyncResponse [] true (Some 33)));
  Ret (asked && one_request e peer 33 100 && only_request actions peer 33 100).

Definition test_peer_connected_initial_sync_records_pending_request_and_paginates : outcome bool :=
  let peer := replicate 32 x0d in
  e ← new_engine;
  '(e, actions) ← step e (PeerConnected peer);
  let asked := one_request e peer 1 100 && is_request (tail actions) in
  '(e, actions) ← receive e peer (MsgSyncResponse (mkSyncResponse [] true (Some 101)));
  Ret (asked && one_request e peer 101 200 && only_request actions peer 101 200).

(** [engine.blockchain.state.balances.insert(..)] *)
Definition give_engine (account : SigningKey) (amount : Z) (e : NodeEngine) : NodeEngine :=
  set_blockchain e (set_state (blockchain e) (give account amount (bc_state (blockchain e)))).

Definition test_peer_transaction_relays_to_other_connected_peers (sender receiver : SigningKey) : outcome bool :=
  e ← new_engine;
  let e := give_engine sender 100 e in
  '(e, _) ← step e (PeerConnected (replicate 32 x08));
  '(e, _) ← step e (PeerConnected (replicate 32 x09));
  '(e, _) ← step e (PeerConnected (replicate 32 x0a));
  let transaction := build_transfer_transaction sender receiver 25 1 0 in
  expected_frame ← message_to_bytes (MsgAnnounceRequest (announce_transaction transaction));
  '(e, actions) ← step e (FrameReceived (replicate 32 x08) expected_frame);
  Ret (match actions with
       | [SendFrame p1 f1; SendFrame p2 f2] =>
           eqb p1 (replicate 32 x09) && eqb f1 expected_frame && eqb p2 (replicate 32 x0a) && eqb f2 expected_frame
       | _ => false
       end).

Definition test_duplicate_peer_transaction_is_not_relayed (sender receiver : SigningKey) : outcome bool :=
  e ← new_engine;
  let e := give_engine sender 100 e in
  '(e, _) ← step e (PeerConnected (replicate 32 x0b));
  '(e, _) ← step e (PeerConnected (replicate 32 x0c));
  let message := MsgAnnounceRequest (announce_transaction (build_transfer_transaction sender receiver 25 1 0)) in
  '(e, first_actions) ← receive e (replicate 32 x0b) message;
  '(e, duplicate_actions) ← receive e (replicate 32 x0b) message;
  Ret (match first_actions with [SendFrame _ _] => true | _ => false end && eqb (length duplicate_actions) 0%nat).

Definition test_peer_disconnected_clears_pending_requests_for_peer : outcome bool :=
  e ← new_engine;
  '(e, _) ← step e (ImportRequested (replicate 32 x04) 1 2);
  '(e, _) ← step e (ImportRequested (replicate 32 x05) 3 4);
  '(e, actions) ← step e (PeerDisconnected (replicate 32 x04));
  Ret (eqb (length actions) 1%nat &&
       match pending_requests e with [r] => eqb (req_peer r) (replicate 32 x05) | _ => false end).

Definition test_tick_prunes_expired_pending_requests : outcome bool :=
  e ← new_engine;
  '(e, tick_actions) ← step e (Tick 1000);
  '(e, request_actions) ← step e (ImportRequested (replicate 32 x06) 1 1);
  let asked := match pending_requests e with [r] => eqb (req_deadline_ms r) 31000 | _ => false end in
  '(e, actions) ← step e (Tick 31000);
  Ret (eqb (length tick_actions) 0%nat && asked &&
       match request_actions with [RequestBlocks _ _ _; ScheduleWake 31000] => true | _ => false end &&
       match actions with [CancelWake] => true | _ => false end && eqb (length (pending_requests e)) 0%nat).

(** The number of actions for the two siblings, and the other assertions. *)
Definition test_storage_loaded_imports_multiple_parked_siblings (va vb : SigningKey) : outcome (nat * bool) :=
  '(e, peer, block_a, bytes_a, ok) ← setup_forked_engine va vb;
  child_a ← child_of block_a bytes_a va 3;
  child_b ← child_of block_a bytes_a vb 4;
  '(e, _) ← receive e peer (announced child_a);
  '(e, _) ← receive e peer (announced child_b);
  let two := match pending_blocks e !! hash block_a with Some l => eqb (length l) 2%nat | None => false end in
  '(e, actions) ← step e (StorageLoaded (hash block_a) (Some bytes_a));
  Ret (length actions, ok && two && negb (parked e (hash block_a)) && eqb (head_hash (blockchain e)) (hash child_b)).

(** ** block_signing.rs *)

(** The number of actions, and the other assertions. *)
Definition test_signed_block_frame_is_accepted_by_node_engine `{Psa} : outcome (nat * bool) :=
  bc ← new_blockchain;
  parent ← get_latest_block bc;
  key ← unwrap (signing_key_from_bytes (replicate 32 x07));
  let identity := from_software_signing_key key in
  block ← build_signed_block parent (block_slot parent + 1) [] [] (compute_state_root (bc_state bc)) identity;
  block ← unwrap block;
  e ← new_engine;
  '(e, actions) ← receive e zeros (announced block);
  Ret (length actions, match actions with PersistBlock _ :: PersistSnapshot _ _ :: _ => true | _ => false end).

(** ** identity/manager.rs *)

Definition new_derives_public_key_and_peer_id `{Psa} : outcome bool :=
  key ← unwrap (signing_key_from_bytes (replicate 32 x03));
  let manager := from_software_signing_key key in
  Ret (eqb (public_key manager) (verifying_key_bytes (im_verifying_key manager)) &&
       eqb (peer_id manager) (hash (public_key manager))).

Definition sign_returns_signature_for_verifying_key `{Psa} : outcome bool :=
  key ← unwrap (signing_key_from_bytes (replicate 32 x09));
  let manager := from_software_signing_key key in
  let message := str "embedded identity transcript for noise that is longer than thirty-two bytes" in
  signature_bytes ← unwrap (identity_sign manager message);
  signature ← unwrap_option (signature_from_slice signature_bytes);
  Ret (verify (im_verifying_key manager) message signature).

(** ** wake/manager.rs *)

Definition startup_heartbeat_deadline_is_relative_to_now : bool :=
  eqb (startup_heartbeat_deadline_ms 5000) 6000.

Definition new_initializes_an_absolute_startup_deadline (before_now now : Z) : outcome bool :=
  wake_at ← unwrap_option (wake_at (WakeManager_new now));
  Ret (bool_decide (u64_saturating_add before_now STARTUP_HEARTBEAT_DELAY_MS ≤ wake_at)).

(** ** storage/manager.rs of the host *)

Definition build_block (validator : SigningKey) : outcome Block :=
  genesis ← genesis_verifying_key;
  let h := hash (mkBlock 1 1 zeros genesis [] None [] (replicate 32 x01)) in
  Ret (mkBlock 1 1 zeros (signing_key_verifying_key validator) [] (Some (signing_key_sign validator h)) []
         (replicate 32 x01)).

Definition load_latest_snapshot_bundle_round_trips_saved_block_and_snapshot `{!Postcard Block}
    (validator : SigningKey) : outcome bool :=
  block ← build_block validator;
  let state_bytes := [x01; x02; x03; x04] in
  let '(storage, saved) := sled_save_block block (device ∅) in
  _ ← unwrap saved;
  let '(storage, saved) := sled_save_snapshot (hash block) state_bytes storage in
  _ ← unwrap saved;
  let '(_, loaded) := sled_load_latest_snapshot_bundle storage in
  loaded ← unwrap loaded;
  '(loaded_block, loaded_state_bytes) ← unwrap_option loaded;
  Ret (eqb (hash loaded_block) (hash block) && eqb loaded_state_bytes state_bytes).

(** ** network/message.rs *)

Definition test_sync_request_round_trip `{!Postcard SyncRequest} : outcome bool :=
  encoded ← message_to_bytes (mkSyncRequest 5 10);
  decoded ← unwrap (sync_request_from_bytes encoded);
  Ret (eqb (sync_from_height decoded) 5 && eqb (sync_to_height decoded) 10).

Definition test_network_message_transaction_round_trip (sender receiver : SigningKey) : outcome bool :=
  let transaction := build_transfer_transaction sender receiver 25 2 1 in
  encoded ← message_to_bytes (MsgAnnounceRequest (announce_transaction transaction));
  decoded ← unwrap (network_message_from_bytes encoded);
  match decoded with
  | MsgAnnounceRequest (mkAnnounceRequest (NewTransaction decoded_tx)) =>
      Ret (eqb (tx_sender decoded_tx) (tx_sender transaction) && eqb (tx_sequence decoded_tx) 1 &&
           eqb (tx_fee decoded_tx) 2 &&
           eqb (signature_to_bytes <$> tx_signature decoded_tx) (signature_to_bytes <$> tx_signature transaction))
  | _ => Panic
  end.
End tests.

(** Round trips hold for every wire format that is read back as it was written. *)
Lemma round_trip_tests_pass `{Target, Crypto, !Postcard NetworkMessage, !Postcard SyncRequest}
    `{!PostcardLaws NetworkMessage, !PostcardRoundtrip NetworkMessage} sender receiver f :
  to_allocvec (mkSyncRequest 5 10) = Some f → postcard_from_bytes f = Some (mkSyncRequest 5 10) →
  test_sync_request_round_trip = Ret true ∧ test_network_message_transaction_round_trip sender receiver = Ret true.
Proof.
  intros Hf Hr. split.
  - unfold test_sync_request_round_trip, message_to_bytes. rewrite Hf. simpl.
    unfold sync_request_from_bytes, message_from_bytes. by rewrite Hr.
  - unfold test_network_message_transaction_round_trip, message_to_bytes.
    set (m := MsgAnnounceRequest _). destruct (to_allocvec_Some m) as [g Hg]. rewrite Hg. simpl.
    unfold network_message_from_bytes, message_from_bytes. rewrite (postcard_from_to m g Hg). simpl.
    unfold eqb. by rewrite !bool_decide_true.
Qed.

(** ** Runs *)

Module EngineTestRuns.
Import ToyCrypto IdentityWitness.
#[local] Existing Instance dev_host.

(** A wire format for the messages of the tests: a tag, and digests or heights. *)
Definition encode_heights (l : list Z) : bytes := concat (map (be_encode 8) l).
Definition encode_message (m : NetworkMessage) : bytes :=
  match m with
  | MsgAnnounceRequest (mkAnnounceRequest (NewBlock b)) => x01 :: hash b
  | MsgAnnounceRequest (mkAnnounceRequest (NewTransaction t)) => x02 :: hash t
  | MsgAnnounceResponse (mkAnnounceResponse a) => [x03; if a then x01 else x00]
  | MsgSyncRequest (mkSyncRequest f t) => x04 :: encode_heights [f; t]
  | MsgSyncResponse (mkSyncResponse blocks more next) =>
      x05 :: (if more then x01 else x00) :: encode_heights (option_list next) ++ concat (map hash blocks)
  end.

Definition genesis : Block := genesis_block (x01 : @VerifyingKey toy_crypto).
Definition block_a : Block := build_empty_block genesis State_new x0a 1.
Definition table : list NetworkMessage :=
  [announced block_a; announced (build_empty_block genesis State_new x0b 2);
   announced (build_empty_block genesis State_new x0c 1);
   announced (build_empty_block genesis State_new x07 1);
   announced (build_empty_block block_a State_new x0c 3); announced (build_empty_block block_a State_new x0a 3);
   announced (build_empty_block block_a State_new x0b 4);
   MsgSyncResponse (mkSyncResponse [build_empty_block genesis State_new x0c 1] false None);
   MsgSyncRequest (mkSyncRequest 1 5); MsgSyncResponse (mkSyncResponse [] false (Some 5));
   MsgSyncResponse (mkSyncResponse [] false (Some 350)); MsgSyncResponse (mkSyncResponse [] true (Some 33));
   MsgSyncResponse (mkSyncResponse [] true (Some 101));
   MsgAnnounceRequest (announce_transaction (build_transfer_transaction (x0a : @SigningKey toy_crypto) x0b 25 1 0))].
#[local] Instance table_codec : Postcard NetworkMessage :=
  {| to_allocvec m := Some (encode_message m);
     postcard_from_bytes b := List.find (λ m, bool_decide (encode_message m = b)) table |}.

Definition engine_tests : list (outcome bool) :=
  [test_frame_received_direct_child_persists_block_and_snapshot x0c;
   test_frame_received_non_head_child_emits_load_snapshot x0a x0b x0c;
   test_storage_loaded_imports_parked_block_and_persists_it x0a x0b x0c;
   test_storage_loaded_none_requests_parent_block x0a x0b x0c;
   test_sync_response_uses_ingest_path_and_clears_pending_request x0c;
   test_sync_request_after_sparse_restore_does_not_advertise_missing_history;
   test_empty_sync_response_with_next_height_requests_available_window;
   test_sync_response_with_more_blocks_requests_next_page;
   test_peer_connected_initial_sync_records_pending_request_and_paginates;
   test_peer_transaction_relays_to_other_connected_peers x0a x0b;
   test_duplicate_peer_transaction_is_not_relayed x0a x0b;
   test_peer_disconnected_clears_pending_requests_for_peer;
   test_tick_prunes_expired_pending_requests].

Lemma engine_tests_pass : Forall (λ t, t = Ret true) engine_tests.
Proof. vm_compute. repeat constructor. Qed.

(** A wire format for the one block of the storage test. *)
#[local] Instance one_block : Postcard Block :=
  {| to_allocvec _ := Some [x01];
     postcard_from_bytes _ := match build_block x0a with Ret b => Some b | _ => None end |}.

(** The tests of the runtimes. *)
Definition runtime_tests : list (outcome bool) :=
  [new_derives_public_key_and_peer_id; sign_returns_signature_for_verifying_key;
   Ret startup_heartbeat_deadline_is_relative_to_now; new_initializes_an_absolute_startup_deadline 70 70;
   load_latest_snapshot_bundle_round_trips_saved_block_and_snapshot x0a].

Lemma runtime_tests_pass : Forall (λ t, t = Ret true) runtime_tests.
Proof. vm_compute. repeat constructor. Qed.

(** The engine reports an imported block: three actions where the test of block_signing.rs
    expects two. *)
Lemma block_signing_test_counts : test_signed_block_frame_is_accepted_by_node_engine = Ret (3%nat, true).
Proof. vm_compute. reflexivity. Qed.

Lemma siblings_test_passes : test_storage_loaded_imports_multiple_parked_siblings x0a x0b = Ret (4%nat, true).
Proof. vm_compute. reflexivity. Qed.
End EngineTestRuns.
