(* ===== verification/InteropTests.v ===== *)
(** * The interoperability tests of the host network manager

    The two tests at the end of rp-runtime/src/network/manager.rs: a manager dials a peer
    that speaks the protocols of the embedded runtime (the [MockEmbeddedPeer] of the tests),
    in the style of CoreTests.v.  The peer answers the calls the manager makes on its swarm;
    what the swarm does between the two is to carry requests and responses.  With them is the
    test of the protocols of the embedded runtime. *)

From S2P Require Import Prelude.
From S2P Require Import Maps.
From S2P Require Import Crypto.
From S2P Require Import Models.
From S2P Require Import State.
From S2P Require Import Chain.
From S2P Require Import Messages.
From S2P Require Import Errors.
From S2P Require Import Identity.
From S2P Require Import NodeHello.
From S2P Require Import Runtime.
From S2P Require Import HostNetwork.
From S2P Require Import Identify.
From S2P Require Import CoreTests.
From S2P Require Import EngineTests.

(** ** protocol/mod.rs of the embedded runtime *)

Definition advertised_protocols_match_inbound_protocols : bool :=
  let unique : gset bytes := list_to_set INBOUND_SESSION_PROTOCOLS in
  eqb (size unique) (length INBOUND_SESSION_PROTOCOLS) &&
  eqb (length advertised_protocols) (length INBOUND_SESSION_PROTOCOLS) &&
  forallb (λ protocol, existsb (eqb protocol) advertised_protocols) INBOUND_SESSION_PROTOCOLS &&
  forallb (λ protocol, existsb (eqb protocol) INBOUND_SESSION_PROTOCOLS) SESSION_SETUP_PROTOCOLS.

Section tests.
Context `{Target, Crypto, !Postcard NetworkMessage, !Postcard AnnounceRequest, !Postcard NodeHelloTranscript,
  !HashOrder}.

(** ** The mock peer *)

Inductive MockPeerObservation : Type :=
| RuntimeNodeHelloVerified (peer : bytes)
| ObservedSync (request : SyncRequest)
| ObservedAnnounce (request : AnnounceRequest).

Inductive MockNodeHelloResponseMode : Type := ResponseValid | ResponseInvalidSignature.

Record MockEmbeddedPeer : Type := mkMockEmbeddedPeer {
  mock_identity : HostNodeIdentity;
  mock_transport : bytes;
  mock_mode : MockNodeHelloResponseMode;
}.

Definition mock_node_hello (p : MockEmbeddedPeer) : outcome NodeHello :=
  let capabilities := mkPeerCapabilities true true true in
  let id := mock_identity p in
  transcript_bytes ← unwrap_option
    (to_allocvec (mkNodeHelloTranscript 1 (host_peer_id id) (mock_transport p) DEFAULT_MAX_FRAME_LEN
                    DEFAULT_MAX_BLOCKS_PER_CHUNK capabilities));
  Ret (mkNodeHello 1 (host_public_key id) (host_peer_id id) (mock_transport p) DEFAULT_MAX_FRAME_LEN
         DEFAULT_MAX_BLOCKS_PER_CHUNK capabilities (build_signature id transcript_bytes)).

(** [*signature_byte ^= 0x01] *)
Definition flip_first (signature : bytes) : outcome bytes :=
  match signature with
  | b :: rest => Ret (byte_of_Z (Z.lxor (byte_to_Z b) 1) :: rest)
  | [] => Panic
  end.

Definition build_node_hello_response (p : MockEmbeddedPeer) : outcome NodeHelloResponse :=
  remote ← mock_node_hello p;
  remote ← match mock_mode p with
           | ResponseValid => Ret remote
           | ResponseInvalidSignature =>
               signature ← flip_first (hello_signature remote);
               Ret (mkNodeHello (hello_version remote) (hello_public_key remote) (hello_peer_id remote)
                      (hello_transport_peer_id remote) (hello_max_frame_len remote)
                      (hello_max_blocks_per_chunk remote) (hello_capabilities remote) signature)
           end;
  Ret (mkNodeHelloResponse true remote None).

(** What the peer makes of a call of the manager, whose transport is [runtime_transport]. *)
Definition mock_handle (p : MockEmbeddedPeer) (runtime_transport : bytes) (c : SwarmCall) :
    outcome (list MockPeerObservation * list SwarmEvent) :=
  match c with
  | SendHello _ request =>
      verified ← unwrap (host_verify request runtime_transport);
      response ← build_node_hello_response p;
      Ret ([RuntimeNodeHelloVerified (host_verified_peer_id verified)],
           [EvNodeHello (RrResponse (mock_transport p) 0 response)])
  | SendSync request_id _ request =>
      Ret ([ObservedSync request],
           [EvSync (RrResponse (mock_transport p) request_id (mkSyncResponse [] false None))])
  | SendAnnounce _ request =>
      Ret ([ObservedAnnounce request],
           [EvAnnounce (RrResponse (mock_transport p) 0 (mkAnnounceResponse true))])
  | _ => Ret ([], [])
  end.

(** ** The network between them *)

Context (cfg : HostConfig) (p : MockEmbeddedPeer).
Definition test_env : Env := mkEnv true (λ _, true).

(** The manager handles the inputs, and the peer the calls, until there is nothing left. *)
Fixpoint exchange_loop (fuel : nat) (m : NetworkManager) (seen : list MockPeerObservation) (inputs : list NetworkInput) :
    outcome (NetworkManager * list MockPeerObservation) :=
  match fuel, inputs with
  | _, [] => Ret (m, seen)
  | O, _ => OutOfFuel
  | S fuel, i :: inputs =>
      '(m', r) ← network_step cfg test_env m i;
      _ ← unwrap r;
      answers ← foldr (λ c rest,
                  '(obs, evs) ← mock_handle p (cfg_transport_peer_id cfg) c;
                  '(obs', evs') ← rest;
                  Ret (obs ++ obs', evs ++ evs')) (Ret ([], []))
                  (drop (length (swarm m)) (swarm m'));
      exchange_loop fuel m' (seen ++ answers.1) (inputs ++ map InEvent answers.2)
  end.

(** The manager dials the peer, and the two identify each other. *)
Definition connects : list NetworkInput :=
  [InEvent (ConnectionEstablished (mock_transport p) (Dialer "/ip4/127.0.0.1/tcp/4001"));
   InEvent (EvIdentify (IdReceived (mock_transport p) "erp-runtime-test/0.1.0" []))].

Definition sample_announce_request (sender receiver : SigningKey) : AnnounceRequest :=
  announce_transaction (sign_tx sender (Transfer (signing_key_verifying_key receiver) 42) 7 1).

(** The first frame of the peer that [select] takes. *)
Definition frame_of_peer {A} (m : NetworkManager) (select : NetworkMessage → option A) : outcome A :=
  unwrap_option (head (omap (λ ev,
    match ev with
    | EvFrameReceived peer frame =>
        if eqb peer (host_peer_id (mock_identity p)) then
          match network_message_from_bytes frame with Ok message => select message | Err _ => None end
        else None
    | _ => None
    end) (sent_events m))).

(** ** The tests *)

Definition rp_runtime_interops_with_embedded_protocol_peer (sender receiver : SigningKey) : outcome bool :=
  let node := host_peer_id (mock_identity p) in
  '(m, seen) ← exchange_loop 10 (network_start cfg) [] connects;
  runtime ← unwrap_option (head (omap (λ o, match o with RuntimeNodeHelloVerified n => Some n | _ => None end) seen));
  connected ← unwrap_option (head (omap (λ ev, match ev with EvPeerConnected n => Some n | _ => None end) (sent_events m)));
  '(m, seen) ← exchange_loop 10 m [] [InCommand (NetRequestBlocks node 5 9)];
  sync ← unwrap_option (head (omap (λ o, match o with ObservedSync r => Some r | _ => None end) seen));
  sync_response ← frame_of_peer m (λ x, match x with MsgSyncResponse r => Some r | _ => None end);
  let announce_request := sample_announce_request sender receiver in
  expected ← message_to_bytes announce_request;
  frame ← message_to_bytes (MsgAnnounceRequest announce_request);
  '(m, seen) ← exchange_loop 10 m [] [InCommand (NetSendFrame node frame)];
  observed ← unwrap_option (head (omap (λ o, match o with ObservedAnnounce r => Some r | _ => None end) seen));
  observed ← message_to_bytes observed;
  announce_response ← frame_of_peer m (λ x, match x with MsgAnnounceResponse r => Some r | _ => None end);
  Ret (negb (eqb runtime node) && eqb connected node &&
       eqb (sync_from_height sync) 5 && eqb (sync_to_height sync) 9 &&
       eqb (length (sync_blocks sync_response)) 0%nat && negb (sync_has_more sync_response) &&
       eqb (sync_next_height sync_response) None && eqb observed expected && accepted announce_response).

Definition rp_runtime_invalid_outbound_node_hello_response_is_peer_scoped : outcome bool :=
  '(m, seen) ← exchange_loop 10 (network_start cfg) [] connects;
  runtime ← unwrap_option (head (omap (λ o, match o with RuntimeNodeHelloVerified n => Some n | _ => None end) seen));
  Ret (negb (eqb runtime (host_peer_id (mock_identity p))) && eqb (length (sent_events m)) 0%nat).
End tests.

(** ** Runs *)

Module InteropTestRuns.
Import ToyCrypto NodeHelloWitness EngineTestRuns HostNetworkWitness.
#[local] Existing Instance dev_host.

Definition runtime_cfg : HostConfig :=
  mkHostConfig ["/ip4/127.0.0.1/tcp/4001"] DEFAULT_MAX_FRAME_LEN DEFAULT_MAX_BLOCKS_PER_CHUNK
    (from_signing_key (x0c : SigningKey)) [x07].
Definition mock_peer (mode : MockNodeHelloResponseMode) : MockEmbeddedPeer :=
  mkMockEmbeddedPeer (from_signing_key (x0b : SigningKey)) [x01; x02] mode.

#[local] Instance announce_codec : Postcard AnnounceRequest :=
  {| to_allocvec r := Some (encode_message (MsgAnnounceRequest r)); postcard_from_bytes _ := None |}.
#[local] Instance interop_codec : Postcard NetworkMessage :=
  {| to_allocvec m := Some (encode_message m);
     postcard_from_bytes b := List.find (λ m, bool_decide (encode_message m = b))
       [MsgSyncResponse (mkSyncResponse [] false None); MsgAnnounceResponse (mkAnnounceResponse true);
        MsgAnnounceRequest (sample_announce_request (x0d : SigningKey) (x0e : SigningKey))] |}.

Definition interop_tests : list (outcome bool) :=
  [Ret advertised_protocols_match_inbound_protocols;
   rp_runtime_interops_with_embedded_protocol_peer runtime_cfg (mock_peer ResponseValid) x0d x0e;
   rp_runtime_invalid_outbound_node_hello_response_is_peer_scoped runtime_cfg (mock_peer ResponseInvalidSignature)].

Lemma interop_tests_pass : Forall (λ t, t = Ret true) interop_tests.
Proof. vm_compute. repeat constructor. Qed.
End InteropTestRuns.
